(* ===== verification/_CoqProject ===== *)
-Q . S2P
Prelude.v
HookEnum.v
Leb128.v
GuardCheck.v
GuardFacts.v
GuardValidate.v
GuardValidateFacts.v
Xfl.v
XflFacts.v
Number.v
NumberFacts.v
IOUAmount.v
HookMemory.v
XflApi.v
XflApiFacts.v
GuardRuntime.v
Sto.v
StoFacts.v
StoApiFacts.v
LedgerDir.v
LedgerDirFacts.v
HookState.v
HookStateFacts.v
StateCache.v
StateCacheFacts.v
StateApiFacts.v
StateCommit.v
StateClaims.v
Slots.v
SlotsFacts.v
Emission.v
EmissionFacts.v
EmissionClaims.v
HookContext.v
HookChain.v
HookChainFacts.v
HookPhases.v
HookFees.v
HookPhaseClaims.v
SetHookTx.v
SetHookApply.v
SetHookParams.v
SetHookNamespaces.v
SetHookRefs.v
SetHookLoop.v
SetHookFacts.v
SetHookClaims.v
Govern.v
GovernFacts.v
GovernVotes.v
GovernActions.v
GovernSteps.v
GovernClaims.v
Stakeholders.v
StakeholderFacts.v
Rewards.v
RewardFacts.v
MintFacts.v
RewardHook.v
RewardEntries.v
RewardValue.v
RewardRun.v
RewardClaims.v
Utf8.v
StAmount.v
UriToken.v
UriFacts.v
UriClaims.v
Base58.v
HookUtil.v
Keylet.v
HookKeylet.v
HookKeyletFacts.v
