(* ===== verification/Prelude.v ===== *)
(** * Verification of the Xahau hooks runtime

    Xahau is a ledger daemon in which accounts carry hooks: small WebAssembly
    programs that run when a transaction touches the account. This development
    models the part of the daemon that keeps hooks in check, runs them and computes
    for them (src/src/ripple/app/hook, the hook phases of
    src/src/ripple/app/tx/impl/Transactor.cpp, SetHook.cpp beside it, the directories
    of src/src/ripple/ledger, the decimal arithmetic of src/src/ripple/basics), the two
    hooks of the genesis account (src/hook/genesis/govern.c and reward.c) with the
    rewards that the ledger keeps for them (ClaimReward.cpp, GenesisMint.cpp and the
    accumulator in Transactor.cpp), and the transactor of URI tokens (URIToken.cpp), and
    proves what they guarantee.

    ** The parts and how they interact

    A SetHook transaction installs, updates and deletes the hooks of an account and
    their namespaces. Equal code is stored once, as a hook definition that counts its
    references. The transaction hands a new binary to [validateGuards]. It reads the sections
    of the binary with the LEB128 readers, tests imports, exports and types against
    the whitelist of API functions, and calls [check_guard] on every function body.
    [check_guard] makes sure that every loop starts with a call of the guard [_g]
    with a constant bound, builds the tree of blocks, and bounds the number of
    instructions with [compute_wce]. When the hook runs, the API function [_g]
    counts the iterations of each loop and rolls the hook back when a bound is
    passed. The other API functions work on the linear memory of the instance: the
    [float_] functions compute with XFL, a decimal floating point format packed
    into 64 bits, partly through [IOUAmount] and [Number]; the [sto_] functions
    parse and edit serialized objects; the [util_] functions turn account ids into
    addresses and back and compute the keys of ledger entries; the slot functions give
    access to objects of the ledger; [emit] and the functions around it queue new transactions; the state
    functions read and write the hook's entries in the ledger through a cache.

    A transaction runs the hooks of its sender and of its strong stakeholders as
    chains before it is applied ([strong_phase]) and those of the weak stakeholders,
    the callback and second executions after it ([weak_phase]). The hooks of one
    phase share the cache; [finalizeHookState] writes it to the ledger with
    [setHookState], which keeps the account root, the state entries and the directory
    of each namespace in step, and [finalizeHookResult] writes the emitted
    transactions to theirs. Who is a stakeholder, and whether a strong one, is what
    [getTransactionalStakeHolders] says for each type of transaction. The governance
    hook is written against this API: its members vote on seats, rewards and hooks.

    An account that sends a ClaimReward accumulates its balance over the ledgers from
    then on. At its next claim the reward hook computes the reward from these counters
    and from the rate and the delay that the governance table voted, and emits a
    GenesisMint for the claimant and for the active members of the table; applied, it
    creates the coins. URI tokens are objects in the directory of their owner, minted
    for a text that has to be UTF-8, and sold by their owner, for native coins or an
    issued currency; they share the directories and the owner counts with hook state.

    ** Files

    - [Prelude]: machine integers as [Z] with their wrap-around, the [outcome] of a
      call (value, early exit, exception, undefined behaviour, fuel exhausted) with
      its bind, byte buffers with unchecked reads, and the predicates [safe],
      [clean] and [halts] with their rules.
    - [HookEnum] (Enum.h): log codes, return codes, the import whitelists.
    - [Leb128] (Guard.h, [parseLeb128], [parseSignedLeb128]): the readers and what
      they decode.
    - [GuardCheck] (Guard.h, [check_guard], [compute_wce], [WasmBlkInf]): the walk of
      one function body, instruction by instruction; [GuardFacts] its theorems.
    - [GuardValidate] (Guard.h, [validateGuards]): both passes over the sections, with
      the locals of the function as the record [sections]; [GuardValidateFacts] its
      theorems.
    - [Xfl] (applyHook.cpp, namespace [hook_float] and the float functions that need
      nothing else); [XflFacts] its theorems.
    - [Number] (basics/Number.h, impl/Number.cpp), [NumberFacts]; [IOUAmount]
      (basics/IOUAmount.h, impl/IOUAmount.cpp).
    - [HookMemory] (Macro.h): the linear memory as a list of bytes, the bounds test
      and the write every API function uses, and [HOOK_SETUP], which every API function
      starts with: an instance without memory gets an error code.
    - [XflApi] (applyHook.cpp, [float_sum], [float_compare], [float_mulratio],
      [float_sto], [float_sto_set]); [XflApiFacts] its theorems.
    - [GuardRuntime] (applyHook.cpp, [_g], and the wrapper of Macro.h): the guard map
      of a [HookContext] over a sequence of guard calls.
    - [Sto] (applyHook.cpp, [get_stobject_length] and the [sto_] functions);
      [StoFacts] the parser, [StoApiFacts] the functions.
    - [LedgerDir] (ledger/ApplyView): directories as maps from page numbers to pages;
      [LedgerDirFacts] their invariant and what they represent.
    - [HookState] (applyHook.cpp, [setHookState]; ledger/View.cpp, owner counts): the
      record [ledger] with accounts, state entries, directories, installed hooks and
      hook definitions; [HookStateFacts] the invariant [ledger_wf].
    - [StateCache] (applyHook.cpp, [set_state_cache], the state functions,
      [finalizeHookState]); [StateCacheFacts], [StateApiFacts] and [StateCommit] their
      lemmas, [StateClaims] the properties of hook state.
    - [Slots] (applyHook.cpp, the slot functions): a slot is a storage and a path into
      it; [SlotsFacts] its theorems.
    - [Emission] (applyHook.cpp, [emit] and the functions it uses, the type masks);
      [EmissionFacts] the rules, [EmissionClaims] runs and chains of emissions.
    - [HookContext] (applyHook.cpp, [hook::apply], parameters, skips, exits;
      applyHook.h, [executeWasm]): the context of one hook and the run of its calls.
    - [HookChain] (Transactor.cpp, [executeHookChain], [doTSH], [doAgainAsWeak],
      [doHookCallback], the phases; applyHook.cpp, [finalizeHookResult],
      [removeEmissionEntry]); [HookChainFacts] the chain as a relation, [HookPhases]
      the phase before the transaction, [HookFees] the fees of weak stakeholders,
      [HookPhaseClaims] the properties.
    - [SetHookTx] (SetHook.cpp, operations, validation, fee, [preflight]) and
      [SetHookApply] (SetHook.cpp, [destroyNamespace], [updateHookParameters],
      [setHook]); [SetHookParams], [SetHookNamespaces], [SetHookRefs], [SetHookLoop]
      and [SetHookFacts] their lemmas, [SetHookClaims] the properties.
    - [Govern] (hook/genesis/govern.c): the hook over the map of its state, with the
      API and the memory it starts from as the record [gov_env]; [GovernFacts],
      [GovernVotes], [GovernActions] and [GovernSteps] its lemmas, [GovernClaims] the
      properties.
    - [Stakeholders] (applyHook.cpp, [getTransactionalStakeHolders]);
      [StakeholderFacts] its theorems, also together with [HookChain].
    - [Rewards] (ClaimReward.cpp, GenesisMint.cpp, Transactor.cpp, the accumulator after
      each transaction); [RewardFacts] the accumulator, [MintFacts] minting.
    - [RewardHook] (hook/genesis/reward.c): the hook over its API, the record
      [reward_env]; [RewardEntries] the bytes it emits, [RewardValue] the amount,
      [RewardRun] its runs, [RewardClaims] the properties, also of the way from the
      counters to the coins.
    - [Utf8] (URIToken.h, [validateUTF8]), [StAmount] (protocol/impl/STAmount.cpp and
      Rate2.cpp: comparison, sums and products of amounts) and [UriToken]
      (URIToken.cpp); [UriFacts] the invariant of tokens and its lemmas, [UriClaims] the
      properties.
    - [Base58] (protocol/impl/tokens.cpp): the encoder and the decoder, and that they are
      inverse; [HookUtil] (applyHook.cpp, [util_raddr], [util_accid]) with its theorems.
    - [Keylet] (protocol/impl/Indexes.cpp): the keys of ledger entries as what is hashed,
      and that they do not clash; [HookKeylet] (applyHook.cpp, [util_keylet], each case of
      the switch) and [HookKeyletFacts], the table of its arguments.

    ** What the theorems show

    - Guards. [check_guard] terminates, reads only the binary and accepts only bodies
      whose loops are guarded, whose calls go to imports and whose blocks nest at
      most sixteen deep, and its count is that of [compute_wce]. [validateGuards]
      terminates and accepts only binaries of which every body passed, whose imports
      are whitelisted and whose types are those of the whitelist. At run time a loop
      guarded with the bound m runs at most m times, and a run is rolled back exactly
      at the first call past its bound; in an instance without memory [_g] counts
      nothing. [check_guard_underestimates],
      [check_guard_guard_limit], [validateGuards_accepts_recursion] and
      [validateGuards_undefined] give inputs on which the checker does less than
      it means to.
    - Decimal arithmetic. The guard digits of [Number] round correctly;
      [normalize], multiplication, addition of equal signs and the conversion to an
      integer are correct rounding of the exact result, [divu10] is division by ten.
      Subtraction is not correctly rounded; [Number_add_misrounded] says where.
    - XFL. The packed format round trips; [normalize_xfl], [float_set],
      [float_multiply] and [float_divide] are the exact operations up to a stated
      number of units of the last place, with all their error codes; [float_sum] is
      correctly rounded, [float_compare] compares values, and [float_sto] and
      [float_sto_set] round trip, exactly where [log10] does not round up to a power of
      ten and within ten units of the last place otherwise.
    - Serialized objects. No [sto_] function reads outside of its buffer. On buffers
      that are sequences of fields [sto_validate] accepts, [sto_subfield] finds,
      [sto_emplace] inserts or replaces and [sto_erase] removes as specified, the
      rest of the memory is unchanged, and an emplaced field is found again.
    - Directories refine finite sets: the operations a set allows succeed without a
      [LogicError] and leave a chain of pages with exactly its keys.
    - Hook state. [setHookState] keeps the invariant of the ledger and updates one
      entry. The state functions refine a finite map over any sequence of calls of the
      hooks of a transaction, and the commit succeeds and leaves exactly the state the
      hooks saw. [foreign_set_without_grant] and [state_cache_gaps] give sequences on
      which grants are not checked and the cache shows.
    - Slots never dangle, and automatic slots are fresh until all are in use.
    - Emission. Over any run a hook emits no more than it reserved and only
      transactions that pass the rules of [emit]; what [etxn_details] writes is
      accepted; a chain of emissions has at most nine links.
    - Addresses and keys. An account id survives the way through its address;
      [util_accid] accepts exactly the addresses of tokens of nineteen bytes and more.
      Different entries of the ledger have different keys, or a collision of the hash is
      found; [util_keylet] gives the keylet that a table of its arguments says, or an
      error code.
    - Chains and phases. A chain executes the hooks that fire, in order, and ends at
      the first that does not accept; it succeeds exactly when all that were executed
      accepted and all that fire were executed or skipped; overrides of parameters pass from hook to hook.
      The phase before the transaction is all or nothing, for state and emissions.
      After it, a stakeholder pays at most the fee of its own chain and keeps its
      reserve; [weak_phase_gaps] shows that hooks which roll back there keep their
      effects and that the commit can be partial.
    - SetHook. A transaction that [preflight] accepted ends without an undefined
      operation and keeps the invariant: reference counts are the numbers of hooks,
      definitions were accepted by the guard checker, owner counts cover state and
      hooks. Its effect, the deletion of a namespace and the parameters a hook sees
      are as specified; [setHook_gaps] has what the code does not mean to do.
    - Governance. A run implements a vote at a table of seats, the reachable states are
      tables with exact counters, and enough members change a seat. This holds when
      accounts are not of the form of other keys and hook positions are below ten;
      [govern_gaps] has what happens otherwise, and what becomes of the votes of a
      removed member.
    - Stakeholders. [getTransactionalStakeHolders] is equivalent to its reference, and
      only hooks of the sender and of accounts with a strong call run before a
      transaction and can stop it.
    - Rewards. The accumulator of an account is the sum of its balance over the ledgers
      since its claim, less what late fees lose: those of its weak hooks, which are taken
      after the accumulator is updated ([lost]). The reward hook accepts exactly the claims that are due and
      emits mints of the rate times the average balance, up to a stated number of
      parts in 10^14 and one drop. [GenesisMint] credits each account what the
      transaction says, and the coins in the ledger grow by exactly what it creates. Together
      a claim pays what the history of the balance says. [reward_gaps] has where the
      code departs from that.
    - URI tokens. [validateUTF8] accepts exactly the encodings of scalar values other
      than U+FFFE and U+FFFF. Every transaction keeps each token in the directory of
      its owner and the owner counts exact, without undefined behaviour (with the
      amendment and native purchases); in all versions and currencies only an owner sells,
      only the buyer that an offer names buys and at no less than its price; with the
      amendment a native sale moves the price from buyer to seller. [uri_gaps] and
      [old_issued_sale] have what the versions before the amendment do.

    ** Fuel and bounds

    Loops over a count or over the digits of a number are structural. The walk of
    [check_guard] takes one unit per byte of the binary, since every step moves forward;
    the passes of [validateGuards] take 256, since section types grow and fit a byte;
    the scaling loops of [Number] and the loops of [float_divide] take as many as a
    64-bit mantissa has digits or a quotient can have. The theorems about these
    functions show that the fuel is enough; for the subtraction of [Number] and
    for [power] that is left to do. [get_stobject_length] recurses at most eleven
    levels deep, as in the source. The search for a free slot takes 256 steps, one per
    slot and one past them; the deletion of a directory and the walk of a namespace
    one per page; the reading of emitted mints one per entry and one for the end;
    [slots_type_safe] and [destroyNamespace_correct] show that the search
    and the walk have enough. A run of a hook is a list of calls and needs no fuel; the
    theorems on the phase before the transaction bound the calls of a hook by a number
    N, any one that keeps their total below 2^31. Offsets into a binary are [int]s, so binaries
    are shorter than 2^31 bytes; memories are shorter than 2^32.

    ** Parameters

    [log10] of the C library, which [normalize_xfl] applies to an integer and
    truncates, is an argument; [log10_ok] says that the result is the exact one, or
    one more for an integer within one part in 10^13 below a power of ten, and
    [ilog10] is an instance. WasmEdge owns the linear memory, where a write within
    bounds stores the bytes, and runs the code of a hook: the argument [wasm] of the
    chains gives the API calls a hook makes and how its instance ends, and may be any
    function. Keylets are hashes: the class [Keylets], with [KeyletsInj] for different
    arguments having different hashes; the digests of nonces are the class [Digest],
    with [DigestLaws] for their width and for different counters having different
    digests. What [emit] takes from the server (deserialization, base fee, status,
    preflight) is the record [emit_server], about which nothing is assumed. Each class
    has an instance in the witnesses. SetHook takes the hash of a code ([sha512Half]),
    the instantiation by WasmEdge ([validateWasm]) and the keys of hook objects
    ([keylet_hook]) as arguments; the record [tsh_view] has [findToken] and
    [keylet_escrow]. The governance hook reads local buffers that it has not filled:
    their contents are the field [gv_stack], and [env_ok] says that they are zeros, as
    the memory of a new instance is; the reward hook does so with the table of active
    members, the field [re_can_reward]. The record [reward_env] has its API, of which
    [RewardClaims] says what the ledger gives. Balances of issued currencies are trust
    lines: the class [IouOps], what the transactor asks of them and of their issuers,
    with [IouLaws] that this does not touch tokens; SHA-256 and SHA-512Half are arguments
    of addresses and keys, with the lengths of their digests; the keys of
    tokens and directories the class [UriKeylets], with [UriKeyletsOk] for different
    tokens having different keys. The results of [preflight1] and [preflight2] are
    arguments.

    ** What is not modelled

    The API functions for signatures and hashes, for the fields of the originating
    transaction and for the ledger header are wrappers over libraries and the ledger.
    [HOOK_SETUP] is part of the functions of guards, parameters, skips, exits, state,
    addresses and keylets; of the others the bodies are modelled. The stakeholders are an argument of the phases, which [strong_hooks_parties]
    instantiates; the accounts that transactors add to them and [etxn_fee_base] of
    [emit] are arguments too. Of
    [Transactor::operator()] only the two hook phases are here, without the flags of
    the hash router. Of the governance hook the header of the vote it emits and the
    SetHook transaction, which a macro that is not in the repository builds, are left
    out, and so are its traces. mint.c and nftoken.c under src/hook/genesis are not
    installed by the genesis ledger. The ledger objects of trust lines are left out. The
    other transactors (payments, escrows,
    offers, Import, Remit) are not hooks and not what the hooks above are written
    against. [float_log] and
    [float_root] are computations on doubles with [pow] and [log10] of the C library.
    The text of log messages is left out. The rest of the daemon (consensus, overlay,
    RPC, storage, payment engine, cryptography) does not take part. *)

From Stdlib Require Export ZArith Lia.
From stdpp Require Export base list numbers strings gmap sorting.

#[global] Open Scope Z_scope.

(** ** Machine integers

    A C or C++ integer of width [w] is a [Z]; the wrap-around of unsigned
    arithmetic and of the conversions between widths is written out. *)

Definition u8 (x : Z) : Z := x mod 2 ^ 8.
Definition u16 (x : Z) : Z := x mod 2 ^ 16.
Definition u32 (x : Z) : Z := x mod 2 ^ 32.
Definition u64 (x : Z) : Z := x mod 2 ^ 64.
Definition s32 (x : Z) : Z := (x + 2 ^ 31) mod 2 ^ 32 - 2 ^ 31.
Definition s64 (x : Z) : Z := (x + 2 ^ 63) mod 2 ^ 64 - 2 ^ 63.

Definition is_u8 (x : Z) : Prop := 0 <= x < 2 ^ 8.
Definition is_u32 (x : Z) : Prop := 0 <= x < 2 ^ 32.
Definition is_u64 (x : Z) : Prop := 0 <= x < 2 ^ 64.
Definition is_s32 (x : Z) : Prop := - 2 ^ 31 <= x < 2 ^ 31.
Definition is_s64 (x : Z) : Prop := - 2 ^ 63 <= x < 2 ^ 63.

(** ** Outcomes

    What a call can do: return a value, leave the enclosing function early
    with a code ([return {}] after a log line, or [return SOME_ERROR_CODE]),
    throw, or run into behaviour the language standard leaves undefined.
    [Timeout] is the value of a loop model whose fuel ran out. *)

(** [logic_error] is [LogicError], which ends the process. *)
Inductive exn := overflow_error | length_error | runtime_error | logic_error.

Inductive undef :=
| UB_oob      (** a read outside of the object *)
| UB_shift    (** a shift by at least the width of the operand *)
| UB_signed   (** signed overflow *)
| UB_null     (** dereference of an empty [std::optional] or null pointer *)
| UB_cast.    (** a float whose integral part is not representable *)

#[global] Instance exn_eq_dec : EqDecision exn.
Proof. solve_decision. Defined.
#[global] Instance undef_eq_dec : EqDecision undef.
Proof. solve_decision. Defined.

Inductive outcome (E A : Type) : Type :=
| Ret (a : A)
| Exit (e : E)
| Throw (x : exn)
| Undef (u : undef)
| Timeout.
Arguments Ret {E A} a.
Arguments Exit {E A} e.
Arguments Throw {E A} x.
Arguments Undef {E A} u.
Arguments Timeout {E A}.

Definition obind {E A B} (m : outcome E A) (k : A -> outcome E B) : outcome E B :=
  match m with
  | Ret a => k a
  | Exit e => Exit e
  | Throw x => Throw x
  | Undef u => Undef u
  | Timeout => Timeout
  end.

Declare Scope hook_scope.
Delimit Scope hook_scope with hook.
Notation "'let*' x ':=' m 'in' k" := (obind m (fun x => k))
  (at level 10, x name, k at level 200) : hook_scope.
Notation "'let*' ''' p ':=' m 'in' k" := (obind m (fun p => k))
  (at level 10, p strict pattern, k at level 200) : hook_scope.
#[global] Open Scope hook_scope.

Lemma obind_ret {E A B} (m : outcome E A) (k : A -> outcome E B) b :
  obind m k = Ret b <-> exists a, m = Ret a /\ k a = Ret b.
Proof. split; [destruct m; naive_solver|intros (a & -> & ?); done]. Qed.

Lemma obind_assoc {E A B C} (m : outcome E A) (f : A -> outcome E B) (g : B -> outcome E C) :
  obind (obind m f) g = obind m (fun a => obind (f a) g).
Proof. by destruct m. Qed.

(** ** Ranges and wrap-around *)

Create HintDb mach.
Create Rewrite HintDb mach.

Lemma u8_range x : 0 <= u8 x < 2 ^ 8.
Proof. apply Z.mod_pos_bound; lia. Qed.
Lemma u32_range x : 0 <= u32 x < 2 ^ 32.
Proof. apply Z.mod_pos_bound; lia. Qed.
Lemma u64_range x : 0 <= u64 x < 2 ^ 64.
Proof. apply Z.mod_pos_bound; lia. Qed.
Lemma s32_range x : - 2 ^ 31 <= s32 x < 2 ^ 31.
Proof. unfold s32. pose proof (Z.mod_pos_bound (x + 2 ^ 31) (2 ^ 32)). lia. Qed.
Lemma s64_range x : - 2 ^ 63 <= s64 x < 2 ^ 63.
Proof. unfold s64. pose proof (Z.mod_pos_bound (x + 2 ^ 63) (2 ^ 64)). lia. Qed.

Lemma u8_small x : 0 <= x < 2 ^ 8 -> u8 x = x.
Proof. apply Z.mod_small. Qed.
Lemma u32_small x : 0 <= x < 2 ^ 32 -> u32 x = x.
Proof. apply Z.mod_small. Qed.
Lemma u64_small x : 0 <= x < 2 ^ 64 -> u64 x = x.
Proof. apply Z.mod_small. Qed.
Lemma s32_small x : - 2 ^ 31 <= x < 2 ^ 31 -> s32 x = x.
Proof. intros. unfold s32. rewrite Z.mod_small; lia. Qed.
Lemma s64_small x : - 2 ^ 63 <= x < 2 ^ 63 -> s64 x = x.
Proof. intros. unfold s64. rewrite Z.mod_small; lia. Qed.

#[export] Hint Resolve u8_range u32_range u64_range s32_range s64_range : mach.
#[export] Hint Rewrite u8_small u32_small u64_small s32_small s64_small using lia : mach.

(** ** Bytes

    Byte buffers are lists of [Z]; [bytesOk] says that every element is a byte.
    [vget] is [operator[]] of a [std::vector]: unchecked, so an index outside of
    the vector is undefined behaviour and not an error value. *)

Definition bytesOk (b : list Z) : Prop := Forall is_u8 b.

Definition lenZ {A} (l : list A) : Z := Z.of_nat (length l).

Definition vget {E} (v : list Z) (i : Z) : outcome E Z :=
  if (0 <=? i) && (i <? lenZ v) then
    match v !! Z.to_nat i with Some b => Ret b | None => Undef UB_oob end
  else Undef UB_oob.

Lemma lenZ_nonneg {A} (l : list A) : 0 <= lenZ l.
Proof. unfold lenZ; lia. Qed.
Lemma lenZ_app {A} (l k : list A) : lenZ (l ++ k) = lenZ l + lenZ k.
Proof. unfold lenZ; rewrite length_app; lia. Qed.
Lemma lenZ_cons {A} (x : A) l : lenZ (x :: l) = 1 + lenZ l.
Proof. unfold lenZ; simpl; lia. Qed.
Lemma lenZ_nil {A} : lenZ (@nil A) = 0.
Proof. done. Qed.
#[export] Hint Rewrite @lenZ_app @lenZ_cons @lenZ_nil : mach.
#[export] Hint Resolve lenZ_nonneg : mach.

Lemma vget_in {E} v i : 0 <= i < lenZ v -> exists b, @vget E v i = Ret b /\ v !! Z.to_nat i = Some b.
Proof.
  intros Hi. unfold vget, lenZ in *.
  destruct (lookup_lt_is_Some_2 v (Z.to_nat i)) as [b Hb]; [lia|].
  exists b. rewrite Hb. destruct (0 <=? i) eqn:?, (i <? Z.of_nat (length v)) eqn:?; simpl; split; (done || lia).
Qed.

Lemma vget_ret {E} v i b : @vget E v i = Ret b -> 0 <= i < lenZ v /\ v !! Z.to_nat i = Some b.
Proof.
  unfold vget. destruct (0 <=? i) eqn:?, (i <? lenZ v) eqn:?; simpl; try done.
  destruct (v !! Z.to_nat i) eqn:?; intros; simplify_eq. split; [lia|done].
Qed.

Lemma vget_byte {E} v i b : bytesOk v -> @vget E v i = Ret b -> 0 <= b < 256.
Proof.
  intros Hv [_ Hb]%vget_ret. eapply Forall_lookup_1 in Hb; [|exact Hv].
  unfold is_u8 in Hb. lia.
Qed.

Lemma vget_app_r {E} (p v : list Z) i : 0 <= i -> @vget E (p ++ v) (lenZ p + i) = vget v i.
Proof.
  intros Hi. unfold vget. autorewrite with mach.
  replace (lenZ p + i <? lenZ p + lenZ v) with (i <? lenZ v) by lia.
  replace (0 <=? lenZ p + i) with true by (pose proof (lenZ_nonneg p); lia).
  replace (0 <=? i) with true by lia.
  replace (Z.to_nat (lenZ p + i)) with (length p + Z.to_nat i)%nat by (unfold lenZ; lia).
  rewrite lookup_app_r by lia. by replace (length p + Z.to_nat i - length p)%nat with (Z.to_nat i) by lia.
Qed.

(** Facts about all bytes, by evaluation. *)
Lemma forall_byte (P : Z -> bool) :
  forallb P (seqZ 0 256) = true -> forall b, 0 <= b < 256 -> P b = true.
Proof.
  intros H b Hb. rewrite forallb_forall in H. apply H.
  apply list_elem_of_In, elem_of_seqZ. lia.
Qed.

Lemma land_7f b : Z.land b 0x7F = b mod 128.
Proof. change 0x7F with (Z.ones 7). by rewrite Z.land_ones. Qed.

Lemma land_80 b : 0 <= b < 256 -> (Z.land b 0x80 =? 0) = (b <? 128).
Proof.
  intros Hb. apply (forall_byte (fun b => eqb (Z.land b 0x80 =? 0) (b <? 128))) in Hb; [|by vm_compute].
  by apply eqb_prop.
Qed.

(** ** Safety of a computation

    [safe P m]: [m] reads no memory outside of its objects and does not run out
    of fuel, and if it returns, [P] holds of the result. It may exit early,
    throw, or meet another undefined operation. *)

Definition safe {E A} (P : A -> Prop) (m : outcome E A) : Prop :=
  match m with
  | Ret a => P a
  | Exit _ | Throw _ => True
  | Undef u => u <> UB_oob
  | Timeout => False
  end.

Lemma safe_bind {E A B} (P : A -> Prop) (Q : B -> Prop) (m : outcome E A) k :
  safe P m -> (forall a, P a -> safe Q (k a)) -> safe Q (obind m k).
Proof. destruct m; simpl; auto. Qed.

Lemma safe_mono {E A} (P Q : A -> Prop) (m : outcome E A) :
  safe P m -> (forall a, P a -> Q a) -> safe Q m.
Proof. destruct m; simpl; auto. Qed.

Lemma safe_ret {E A} (P : A -> Prop) (m : outcome E A) a : safe P m -> m = Ret a -> P a.
Proof. by intros H ->. Qed.

Lemma vget_safe {E} v i : 0 <= i < lenZ v -> safe (fun b => v !! Z.to_nat i = Some b) (@vget E v i).
Proof. intros Hi. destruct (@vget_in E v i Hi) as (b & -> & Hb). done. Qed.

(** [clean P m]: [m] returns or exits early; it neither throws nor runs into an
    undefined operation or out of fuel. *)

Definition clean {E A} (P : A -> Prop) (m : outcome E A) : Prop :=
  match m with Ret a => P a | Exit _ => True | _ => False end.

Lemma clean_bind {E A B} (P : A -> Prop) (Q : B -> Prop) (m : outcome E A) k :
  clean P m -> (forall a, P a -> clean Q (k a)) -> clean Q (obind m k).
Proof. destruct m; simpl; auto; done. Qed.

Lemma clean_mono {E A} (P Q : A -> Prop) (m : outcome E A) :
  clean P m -> (forall a, P a -> Q a) -> clean Q m.
Proof. destruct m; simpl; auto. Qed.

Lemma clean_ret {E A} (P : A -> Prop) (m : outcome E A) a : clean P m -> m = Ret a -> P a.
Proof. by intros H ->. Qed.

(** ** Inversion of successful runs *)

(** [run_inv H] splits a successful run [H] into its steps. *)
Ltac run_inv H :=
  try discriminate H;
  try match type of H with
  | obind ?m ?k = Ret _ =>
    let a := fresh "v" in let Ha := fresh "Hrun" in
    apply obind_ret in H; destruct H as (a & Ha & H);
    repeat match goal with v : (_ * _)%type |- _ => destruct v end;
    cbv beta iota in H; run_inv H
  | (if ?b then _ else _) = Ret _ => destruct b eqn:?; run_inv H
  end.

(** ** Runs that come to an end

    [halts P m]: [m] does not run out of fuel and a value it returns satisfies
    [P]. *)

Definition halts {E A} (P : A -> Prop) (m : outcome E A) : Prop :=
  match m with Ret a => P a | Timeout => False | _ => True end.

Lemma halts_bind {E A B} (P : A -> Prop) (Q : B -> Prop) (m : outcome E A) k :
  halts P m -> (forall a, P a -> halts Q (k a)) -> halts Q (obind m k).
Proof. destruct m; simpl; auto. Qed.

Lemma halts_mono {E A} (P Q : A -> Prop) (m : outcome E A) :
  halts P m -> (forall a, P a -> Q a) -> halts Q m.
Proof. destruct m; simpl; auto. Qed.

Lemma safe_halts {E A} (P : A -> Prop) (m : outcome E A) : safe P m -> halts P m.
Proof. by destruct m. Qed.

Lemma vget_halts {E} l i : halts (E := E) (fun b => l !! Z.to_nat i = Some b /\ 0 <= i < lenZ l) (vget l i).
Proof.
  unfold vget. destruct (_ && _) eqn:Hi; simpl; [|done].
  destruct (l !! Z.to_nat i) eqn:El; simpl; [split; [done|lia]|done].
Qed.
