(* ===== verification/HookEnum.v ===== *)
(** * Constants of the hook runtime (src/src/ripple/app/hook/Enum.h)

    The log codes of the guard checker and of SetHook, the return codes of the
    hook API, and the table of API functions a hook may import with their
    WebAssembly signatures. *)

From S2P Require Import Prelude.

(** ** Log codes of a rejected hook

    The constructors are those of [hook::log::hook_log_code] with the prefix
    [LOG_]; [log_code] is the numeric value. *)

Inductive hook_log_code :=
| LOG_AMENDMENT_DISABLED | LOG_API_ILLEGAL | LOG_API_INVALID | LOG_API_MISSING
| LOG_BLOCK_ILLEGAL | LOG_CALL_ILLEGAL | LOG_CALL_INDIRECT | LOG_CREATE_FLAG
| LOG_DELETE_FIELD | LOG_DELETE_FLAG | LOG_DELETE_NOTHING | LOG_EXPORTS_MISSING
| LOG_EXPORT_CBAK_FUNC | LOG_EXPORT_HOOK_FUNC | LOG_EXPORT_MISSING | LOG_FLAGS_INVALID
| LOG_FUNCS_MISSING | LOG_FUNC_PARAM_INVALID | LOG_FUNC_RETURN_COUNT
| LOG_FUNC_RETURN_INVALID | LOG_FUNC_TYPELESS | LOG_FUNC_TYPE_INVALID | LOG_GRANTS_EMPTY
| LOG_GRANTS_EXCESS | LOG_GRANTS_FIELD | LOG_GRANTS_ILLEGAL | LOG_GUARD_IMPORT
| LOG_GUARD_MISSING | LOG_GUARD_PARAMETERS | LOG_HASH_OR_CODE | LOG_HOOKON_MISSING
| LOG_HOOKS_ARRAY_BAD | LOG_HOOKS_ARRAY_BLANK | LOG_HOOKS_ARRAY_EMPTY
| LOG_HOOKS_ARRAY_MISSING | LOG_HOOKS_ARRAY_TOO_BIG | LOG_HOOK_ADD | LOG_HOOK_DEF_MISSING
| LOG_HOOK_DELETE | LOG_HOOK_INVALID_FIELD | LOG_HOOK_PARAMS_COUNT | LOG_HOOK_PARAM_SIZE
| LOG_IMPORTS_MISSING | LOG_IMPORT_ILLEGAL | LOG_IMPORT_MODULE_BAD | LOG_IMPORT_MODULE_ENV
| LOG_IMPORT_NAME_BAD | LOG_INSTALL_FLAG | LOG_INSTALL_MISSING | LOG_INSTRUCTION_COUNT
| LOG_INSTRUCTION_EXCESS | LOG_MEMORY_GROW | LOG_NAMESPACE_MISSING | LOG_NSDELETE
| LOG_NSDELETE_ACCOUNT | LOG_NSDELETE_COUNT | LOG_NSDELETE_DIR | LOG_NSDELETE_DIRECTORY
| LOG_NSDELETE_DIR_ENTRY | LOG_NSDELETE_ENTRY | LOG_NSDELETE_FIELD | LOG_NSDELETE_FLAGS
| LOG_NSDELETE_NONSTATE | LOG_NSDELETE_NOTHING | LOG_OPERATION_INVALID
| LOG_OVERRIDE_MISSING | LOG_PARAMETERS_FIELD | LOG_PARAMETERS_ILLEGAL
| LOG_PARAMETERS_NAME | LOG_PARAM_HOOK_CBAK | LOG_RETURN_HOOK_CBAK | LOG_SHORT_HOOK
| LOG_TYPE_INVALID | LOG_WASM_BAD_MAGIC | LOG_WASM_INVALID | LOG_WASM_PARSE_LOOP
| LOG_WASM_SMOKE_TEST | LOG_WASM_TEST_FAILURE | LOG_WASM_TOO_BIG | LOG_WASM_TOO_SMALL
| LOG_WASM_VALIDATION | LOG_HOOK_CBAK_DIFF_TYPES | LOG_PARAMETERS_NAME_REPEATED
| LOG_NESTING_LIMIT | LOG_SECTIONS_OUT_OF_SEQUENCE | LOG_CUSTOM_SECTION_DISALLOWED
| LOG_INTERNAL_ERROR.

Definition log_code (c : hook_log_code) : Z :=
  match c with
  | LOG_AMENDMENT_DISABLED => 1 | LOG_API_ILLEGAL => 2 | LOG_API_INVALID => 3
  | LOG_API_MISSING => 4 | LOG_BLOCK_ILLEGAL => 5 | LOG_CALL_ILLEGAL => 6
  | LOG_CALL_INDIRECT => 7 | LOG_CREATE_FLAG => 8 | LOG_DELETE_FIELD => 9
  | LOG_DELETE_FLAG => 10 | LOG_DELETE_NOTHING => 11 | LOG_EXPORTS_MISSING => 12
  | LOG_EXPORT_CBAK_FUNC => 13 | LOG_EXPORT_HOOK_FUNC => 14 | LOG_EXPORT_MISSING => 15
  | LOG_FLAGS_INVALID => 16 | LOG_FUNCS_MISSING => 17 | LOG_FUNC_PARAM_INVALID => 18
  | LOG_FUNC_RETURN_COUNT => 19 | LOG_FUNC_RETURN_INVALID => 20 | LOG_FUNC_TYPELESS => 21
  | LOG_FUNC_TYPE_INVALID => 22 | LOG_GRANTS_EMPTY => 23 | LOG_GRANTS_EXCESS => 24
  | LOG_GRANTS_FIELD => 25 | LOG_GRANTS_ILLEGAL => 26 | LOG_GUARD_IMPORT => 27
  | LOG_GUARD_MISSING => 28 | LOG_GUARD_PARAMETERS => 29 | LOG_HASH_OR_CODE => 30
  | LOG_HOOKON_MISSING => 31 | LOG_HOOKS_ARRAY_BAD => 32 | LOG_HOOKS_ARRAY_BLANK => 33
  | LOG_HOOKS_ARRAY_EMPTY => 34 | LOG_HOOKS_ARRAY_MISSING => 35
  | LOG_HOOKS_ARRAY_TOO_BIG => 36 | LOG_HOOK_ADD => 37 | LOG_HOOK_DEF_MISSING => 38
  | LOG_HOOK_DELETE => 39 | LOG_HOOK_INVALID_FIELD => 40 | LOG_HOOK_PARAMS_COUNT => 41
  | LOG_HOOK_PARAM_SIZE => 42 | LOG_IMPORTS_MISSING => 43 | LOG_IMPORT_ILLEGAL => 44
  | LOG_IMPORT_MODULE_BAD => 45 | LOG_IMPORT_MODULE_ENV => 46 | LOG_IMPORT_NAME_BAD => 47
  | LOG_INSTALL_FLAG => 48 | LOG_INSTALL_MISSING => 49 | LOG_INSTRUCTION_COUNT => 50
  | LOG_INSTRUCTION_EXCESS => 51 | LOG_MEMORY_GROW => 52 | LOG_NAMESPACE_MISSING => 53
  | LOG_NSDELETE => 54 | LOG_NSDELETE_ACCOUNT => 55 | LOG_NSDELETE_COUNT => 56
  | LOG_NSDELETE_DIR => 57 | LOG_NSDELETE_DIRECTORY => 58 | LOG_NSDELETE_DIR_ENTRY => 59
  | LOG_NSDELETE_ENTRY => 60 | LOG_NSDELETE_FIELD => 61 | LOG_NSDELETE_FLAGS => 62
  | LOG_NSDELETE_NONSTATE => 63 | LOG_NSDELETE_NOTHING => 64 | LOG_OPERATION_INVALID => 65
  | LOG_OVERRIDE_MISSING => 66 | LOG_PARAMETERS_FIELD => 67 | LOG_PARAMETERS_ILLEGAL => 68
  | LOG_PARAMETERS_NAME => 69 | LOG_PARAM_HOOK_CBAK => 70 | LOG_RETURN_HOOK_CBAK => 71
  | LOG_SHORT_HOOK => 72 | LOG_TYPE_INVALID => 73 | LOG_WASM_BAD_MAGIC => 74
  | LOG_WASM_INVALID => 75 | LOG_WASM_PARSE_LOOP => 76 | LOG_WASM_SMOKE_TEST => 77
  | LOG_WASM_TEST_FAILURE => 78 | LOG_WASM_TOO_BIG => 79 | LOG_WASM_TOO_SMALL => 80
  | LOG_WASM_VALIDATION => 81 | LOG_HOOK_CBAK_DIFF_TYPES => 82
  | LOG_PARAMETERS_NAME_REPEATED => 83 | LOG_NESTING_LIMIT => 84
  | LOG_SECTIONS_OUT_OF_SEQUENCE => 85 | LOG_CUSTOM_SECTION_DISALLOWED => 86
  | LOG_INTERNAL_ERROR => 87
  end.

(** ** Operations and flags of SetHook *)

Inductive HookSetOperation := hsoINVALID | hsoNOOP | hsoCREATE | hsoINSTALL | hsoDELETE | hsoNSDELETE | hsoUPDATE.

#[global] Instance HookSetOperation_eq_dec : EqDecision HookSetOperation.
Proof. solve_decision. Defined.

Definition hsfOVERRIDE : Z := 1.
Definition hsfNSDELETE : Z := 2.
Definition hsfCOLLECT : Z := 4.

(** ** Return codes of the hook API ([hook_api::hook_return_code]) that the model uses *)

Definition OUT_OF_BOUNDS : Z := -1.
Definition INTERNAL_ERROR : Z := -2.
Definition TOO_BIG : Z := -3.
Definition TOO_SMALL : Z := -4.
Definition DOESNT_EXIST : Z := -5.
Definition NO_FREE_SLOTS : Z := -6.
Definition INVALID_ARGUMENT : Z := -7.
Definition ALREADY_SET : Z := -8.
Definition PREREQUISITE_NOT_MET : Z := -9.
Definition FEE_TOO_LARGE : Z := -10.
Definition EMISSION_FAILURE : Z := -11.
Definition TOO_MANY_NONCES : Z := -12.
Definition TOO_MANY_EMITTED_TXN : Z := -13.
Definition GUARD_VIOLATION : Z := -16.
Definition INVALID_FIELD : Z := -17.
Definition PARSE_ERROR : Z := -18.
Definition RC_ROLLBACK : Z := -19.
Definition RC_ACCEPT : Z := -20.
Definition NO_SUCH_KEYLET : Z := -21.
Definition NOT_AN_ARRAY : Z := -22.
Definition NOT_AN_OBJECT : Z := -23.
Definition INVALID_FLOAT : Z := -10024.
Definition DIVISION_BY_ZERO : Z := -25.
Definition MANTISSA_OVERSIZED : Z := -26.
Definition MANTISSA_UNDERSIZED : Z := -27.
Definition EXPONENT_OVERSIZED : Z := -28.
Definition EXPONENT_UNDERSIZED : Z := -29.
Definition XFL_OVERFLOW : Z := -30.
Definition NOT_AN_AMOUNT : Z := -32.
Definition CANT_RETURN_NEGATIVE : Z := -33.
Definition NOT_AUTHORIZED : Z := -34.
Definition PREVIOUS_FAILURE_PREVENTS_RETRY : Z := -35.
Definition TOO_MANY_PARAMS : Z := -36.
Definition INVALID_TXN : Z := -37.
Definition RESERVE_INSUFFICIENT : Z := -38.
Definition DOES_NOT_MATCH : Z := -40.
Definition INVALID_KEY : Z := -41.
Definition MEM_OVERLAP : Z := -43.
Definition TOO_MANY_STATE_MODIFICATIONS : Z := -44.
Definition TOO_MANY_NAMESPACES : Z := -45.

(** ** The import tables

    Name of the API function; its result type and its parameter types as
    WebAssembly value types (0x7F is i32, 0x7E is i64). *)

Definition import_whitelist : list (string * list Z) :=
  [ ("_g", [0x7F; 0x7F; 0x7F]);
    ("accept", [0x7E; 0x7F; 0x7F; 0x7E]);
    ("rollback", [0x7E; 0x7F; 0x7F; 0x7E]);
    ("util_raddr", [0x7E; 0x7F; 0x7F; 0x7F; 0x7F]);
    ("util_accid", [0x7E; 0x7F; 0x7F; 0x7F; 0x7F]);
    ("util_verify", [0x7E; 0x7F; 0x7F; 0x7F; 0x7F; 0x7F; 0x7F]);
    ("util_sha512h", [0x7E; 0x7F; 0x7F; 0x7F; 0x7F]);
    ("util_keylet", [0x7E; 0x7F; 0x7F; 0x7F; 0x7F; 0x7F; 0x7F; 0x7F; 0x7F; 0x7F]);
    ("sto_validate", [0x7E; 0x7F; 0x7F]);
    ("sto_subfield", [0x7E; 0x7F; 0x7F; 0x7F]);
    ("sto_subarray", [0x7E; 0x7F; 0x7F; 0x7F]);
    ("sto_emplace", [0x7E; 0x7F; 0x7F; 0x7F; 0x7F; 0x7F; 0x7F; 0x7F]);
    ("sto_erase", [0x7E; 0x7F; 0x7F; 0x7F; 0x7F; 0x7F]);
    ("etxn_burden", [0x7E]);
    ("etxn_details", [0x7E; 0x7F; 0x7F]);
    ("etxn_fee_base", [0x7E; 0x7F; 0x7F]);
    ("etxn_reserve", [0x7E; 0x7F]);
    ("etxn_generation", [0x7E]);
    ("etxn_nonce", [0x7E; 0x7F; 0x7F]);
    ("emit", [0x7E; 0x7F; 0x7F; 0x7F; 0x7F]);
    ("float_set", [0x7E; 0x7F; 0x7E]);
    ("float_multiply", [0x7E; 0x7E; 0x7E]);
    ("float_mulratio", [0x7E; 0x7E; 0x7F; 0x7F; 0x7F]);
    ("float_negate", [0x7E; 0x7E]);
    ("float_compare", [0x7E; 0x7E; 0x7E; 0x7F]);
    ("float_sum", [0x7E; 0x7E; 0x7E]);
    ("float_sto", [0x7E; 0x7F; 0x7F; 0x7F; 0x7F; 0x7F; 0x7F; 0x7E; 0x7F]);
    ("float_sto_set", [0x7E; 0x7F; 0x7F]);
    ("float_invert", [0x7E; 0x7E]);
    ("float_divide", [0x7E; 0x7E; 0x7E]);
    ("float_one", [0x7E]);
    ("float_mantissa", [0x7E; 0x7E]);
    ("float_sign", [0x7E; 0x7E]);
    ("float_int", [0x7E; 0x7E; 0x7F; 0x7F]);
    ("float_log", [0x7E; 0x7E]);
    ("float_root", [0x7E; 0x7E; 0x7F]);
    ("fee_base", [0x7E]);
    ("ledger_seq", [0x7E]);
    ("ledger_last_time", [0x7E]);
    ("ledger_last_hash", [0x7E; 0x7F; 0x7F]);
    ("ledger_nonce", [0x7E; 0x7F; 0x7F]);
    ("ledger_keylet", [0x7E; 0x7F; 0x7F; 0x7F; 0x7F; 0x7F; 0x7F]);
    ("hook_account", [0x7E; 0x7F; 0x7F]);
    ("hook_hash", [0x7E; 0x7F; 0x7F; 0x7F]);
    ("hook_param_set", [0x7E; 0x7F; 0x7F; 0x7F; 0x7F; 0x7F; 0x7F]);
    ("hook_param", [0x7E; 0x7F; 0x7F; 0x7F; 0x7F]);
    ("hook_again", [0x7E]);
    ("hook_skip", [0x7E; 0x7F; 0x7F; 0x7F]);
    ("hook_pos", [0x7E]);
    ("slot", [0x7E; 0x7F; 0x7F; 0x7F]);
    ("slot_clear", [0x7E; 0x7F]);
    ("slot_count", [0x7E; 0x7F]);
    ("slot_set", [0x7E; 0x7F; 0x7F; 0x7F]);
    ("slot_size", [0x7E; 0x7F]);
    ("slot_subarray", [0x7E; 0x7F; 0x7F; 0x7F]);
    ("slot_subfield", [0x7E; 0x7F; 0x7F; 0x7F]);
    ("slot_type", [0x7E; 0x7F; 0x7F]);
    ("slot_float", [0x7E; 0x7F]);
    ("state_set", [0x7E; 0x7F; 0x7F; 0x7F; 0x7F]);
    ("state_foreign_set", [0x7E; 0x7F; 0x7F; 0x7F; 0x7F; 0x7F; 0x7F; 0x7F; 0x7F]);
    ("state", [0x7E; 0x7F; 0x7F; 0x7F; 0x7F]);
    ("state_foreign", [0x7E; 0x7F; 0x7F; 0x7F; 0x7F; 0x7F; 0x7F; 0x7F; 0x7F]);
    ("trace", [0x7E; 0x7F; 0x7F; 0x7F; 0x7F; 0x7F]);
    ("trace_num", [0x7E; 0x7F; 0x7F; 0x7E]);
    ("trace_float", [0x7E; 0x7F; 0x7F; 0x7E]);
    ("otxn_burden", [0x7E]);
    ("otxn_field", [0x7E; 0x7F; 0x7F; 0x7F]);
    ("otxn_generation", [0x7E]);
    ("otxn_id", [0x7E; 0x7F; 0x7F; 0x7F]);
    ("otxn_type", [0x7E]);
    ("otxn_slot", [0x7E; 0x7F]);
    ("otxn_param", [0x7E; 0x7F; 0x7F; 0x7F; 0x7F]);
    ("meta_slot", [0x7E; 0x7F]) ].

Definition import_whitelist_1 : list (string * list Z) :=
  [ ("xpop_slot", [0x7E; 0x7F; 0x7F]) ].

(** [std::map::find] by name. *)
Fixpoint api_find (m : list (string * list Z)) (name : string) : option (list Z) :=
  match m with
  | [] => None
  | (n, s) :: m => if decide (n = name) then Some s else api_find m name
  end.

(** Whether a guarded or unguarded import of [name] passes the first pass. *)
Definition import_allowed (rulesVersion : Z) (name : string) : bool :=
  bool_decide (name = "_g") || bool_decide (is_Some (api_find import_whitelist name))
  || ((0 <? rulesVersion) && bool_decide (is_Some (api_find import_whitelist_1 name))).
