(* ===== verification/Leb128.v ===== *)
(** * LEB128 integers (src/src/ripple/app/hook/Guard.h)

    [parseLeb128] and [parseSignedLeb128], the readers of the variable-length
    integers of a WebAssembly binary that the guard checker uses. The loop of
    the source walks an index; here it walks the rest of the buffer, and the
    index is carried along for the end offset the source writes through its
    pointer argument. The [uint64_t] accumulator, the overflow test and the
    undefined shift by 64 or more are kept as in the source. *)

From S2P Require Import Prelude.

(** ** The readers *)

Fixpoint leb_loop {E} (rest : list Z) (val shift i end_offset : Z) : outcome E (Z * Z) :=
  match rest with
  | [] => Ret (0, end_offset)
  | b :: rest =>
    if 64 <=? shift then Undef UB_shift else
    let last := val in
    let val := u64 (val + u64 (Z.shiftl (Z.land b 0x7F) shift)) in
    if val <? last then Throw overflow_error else
    let i := u64 (i + 1) in
    if negb (Z.land b 0x80 =? 0) then
      match rest with
      | [] => Throw length_error
      | _ => leb_loop rest val (u64 (shift + 7)) i end_offset
      end
    else Ret (val, s32 i)
  end.

(** The value read and what [*end_offset] holds afterwards. *)
Definition parseLeb128 {E} (buf : list Z) (start_offset end_offset : Z) : outcome E (Z * Z) :=
  let i := u64 start_offset in
  if i <? lenZ buf then leb_loop (drop (Z.to_nat i) buf) 0 0 i end_offset
  else Ret (0, end_offset).

Fixpoint sleb_loop {E} (rest : list Z) (val shift i end_offset : Z) : outcome E (Z * Z) :=
  match rest with
  | [] => Ret (0, end_offset)
  | b :: rest =>
    if 64 <=? shift then Undef UB_shift else
    let last := val in
    let val := s64 (u64 val + u64 (Z.shiftl (Z.land b 0x7F) shift)) in
    if val <? last then Throw overflow_error else
    let i := u64 (i + 1) in
    if negb (Z.land b 0x80 =? 0) then
      match rest with
      | [] => Throw length_error
      | _ => sleb_loop rest val (u64 (shift + 7)) i end_offset
      end
    else if (shift <? 64) && negb (Z.land b 0x40 =? 0) then
      (* [~0 << shift] is computed at the width of [int] *)
      if 32 <=? shift then Undef UB_shift
      else Ret (Z.lor val (s32 (Z.shiftl (-1) shift)), s32 i)
    else Ret (val, s32 i)
  end.

Definition parseSignedLeb128 {E} (buf : list Z) (start_offset end_offset : Z) : outcome E (Z * Z) :=
  let i := u64 start_offset in
  if i <? lenZ buf then sleb_loop (drop (Z.to_nat i) buf) 0 0 i end_offset
  else Ret (0, end_offset).

(** ** The encoding

    A terminated encoding has the continuation bit on all bytes but the last;
    its value is the little-endian base-128 number of the low seven bits. *)

Fixpoint leb_terminated (l : list Z) : bool :=
  match l with
  | [] => false
  | [b] => b <? 128
  | b :: l => (128 <=? b) && leb_terminated l
  end.

Fixpoint leb_value (l : list Z) : Z :=
  match l with
  | [] => 0
  | b :: l => b mod 128 + 128 * leb_value l
  end.

(** The canonical encoder, at most [n] bytes. *)
Fixpoint leb_encode (n : nat) (v : Z) : list Z :=
  match n with
  | O => []
  | S n => if v <? 128 then [v] else (128 + v mod 128) :: leb_encode n (v / 128)
  end.

Lemma leb_value_nonneg l : 0 <= leb_value l.
Proof. induction l as [|b l IH]; simpl; [lia|]. pose proof (Z.mod_pos_bound b 128). lia. Qed.

(** One byte added to the accumulator: below shift 63 nothing is lost; at shift
    63 only the lowest bit of the byte survives, and the sum still does not
    wrap. So the sum never falls below the old accumulator. *)
Lemma leb_step val shift k d :
  shift = 7 * k -> 0 <= shift < 64 -> 0 <= val < 2 ^ shift -> 0 <= d < 128 ->
  let val' := u64 (val + u64 (Z.shiftl d shift)) in
  val <= val' /\ val' = u64 (val + d * 2 ^ shift) /\
  (shift <= 56 -> val' = val + d * 2 ^ shift /\ val' < 2 ^ (shift + 7)).
Proof.
  intros Hk Hs Hv Hd val'. subst val'. rewrite Z.shiftl_mul_pow2 by lia.
  rewrite Z.pow_add_r by lia. change (2 ^ 7) with 128.
  destruct (decide (shift <= 56)) as [Hle|Hgt].
  - assert (2 ^ shift <= 2 ^ 56) by (apply Z.pow_le_mono_r; lia).
    rewrite (u64_small (d * _)) by nia. rewrite u64_small by nia.
    split_and!; [nia|done|]. intros _. split; [done|nia].
  - assert (shift = 63) as -> by lia.
    assert (u64 (d * 2 ^ 63) = (d mod 2) * 2 ^ 63) as ->.
    { unfold u64. change (2 ^ 64) with (2 * 2 ^ 63). by rewrite Z.mul_mod_distr_r by lia. }
    pose proof (Z.mod_pos_bound d 2 ltac:(lia)).
    rewrite (u64_small (val + _)) by nia. split_and!; [nia| |lia].
    unfold u64. rewrite (Z.div_mod d 2) at 2 by lia.
    replace (val + (2 * (d / 2) + d mod 2) * 2 ^ 63)
      with (val + d mod 2 * 2 ^ 63 + (d / 2) * 2 ^ 64) by ring.
    rewrite Z.mod_add by lia. symmetry. apply Z.mod_small. nia.
Qed.

(** The loop reads a terminated encoding of at most ten bytes, modulo 2^64. *)
Lemma leb_loop_terminated {E} l : forall rest val shift k i e,
  bytesOk l -> leb_terminated l = true ->
  shift = 7 * k -> 0 <= shift -> shift + 7 * lenZ l <= 70 -> 0 <= val < 2 ^ shift ->
  0 <= i -> i + lenZ l < 2 ^ 31 ->
  @leb_loop E (l ++ rest) val shift i e = Ret (u64 (val + leb_value l * 2 ^ shift), i + lenZ l).
Proof.
  induction l as [|b l IH]; intros rest val shift k i e Hok Ht Hk Hs Hlen Hv Hi Hi'; [done|].
  inversion Hok as [|? ? Hb Hok']; subst. unfold is_u8 in Hb.
  autorewrite with mach in *. pose proof (lenZ_nonneg l).
  pose proof (Z.mod_pos_bound b 128 ltac:(lia)) as Hm.
  destruct (leb_step val (7 * k) k (b mod 128)) as (Hge & Heq & Hsm); [lia..|].
  cbn [leb_value app leb_loop] in *. rewrite land_7f, land_80 by lia.
  rewrite (u64_small (i + 1)) by lia.
  replace (64 <=? 7 * k) with false by lia.
  replace (_ <? val) with false by lia.
  destruct l as [|b' l].
  - simpl in Ht. rewrite Ht. cbn [negb app]. rewrite s32_small by lia.
    autorewrite with mach. rewrite Heq. do 3 f_equal. simpl. ring.
  - cbn [leb_terminated] in Ht. apply andb_prop in Ht as [Hb' Ht].
    replace (b <? 128) with false by lia. cbn [negb].
    autorewrite with mach in *. pose proof (lenZ_nonneg l).
    destruct Hsm as [Hval Hlt]; [lia|]. rewrite Hval in *.
    rewrite (u64_small (7 * k + 7)) by lia.
    cbn [app]. change (b' :: l ++ rest) with ((b' :: l) ++ rest).
    rewrite (IH _ _ _ (k + 1)); [|done|done|lia|lia|autorewrite with mach; lia|nia|lia|autorewrite with mach; lia].
    rewrite Z.pow_add_r by lia. autorewrite with mach. f_equal. f_equal; [f_equal; ring|lia].
Qed.

(** ** What a call reads and where it stops *)

Lemma drop_app_lenZ (p l : list Z) : drop (Z.to_nat (lenZ p)) (p ++ l) = l.
Proof. unfold lenZ. rewrite Nat2Z.id. apply drop_app_length. Qed.

Lemma parseLeb128_at {E} pre l e :
  lenZ pre < 2 ^ 31 -> l <> [] ->
  @parseLeb128 E (pre ++ l) (lenZ pre) e = leb_loop l 0 0 (lenZ pre) e.
Proof.
  intros Hp Hl. pose proof (lenZ_nonneg pre). unfold parseLeb128.
  rewrite u64_small by lia. rewrite drop_app_lenZ.
  destruct l as [|b l]; [done|]. pose proof (lenZ_nonneg l).
  autorewrite with mach. by replace (lenZ pre <? _) with true by lia.
Qed.

Lemma parse_leb_terminated {E} pre l post e :
  bytesOk l -> leb_terminated l = true -> lenZ l <= 10 -> lenZ pre + lenZ l < 2 ^ 31 ->
  @parseLeb128 E (pre ++ l ++ post) (lenZ pre) e = Ret (u64 (leb_value l), lenZ pre + lenZ l).
Proof.
  intros Hok Ht Hlen Hp. pose proof (lenZ_nonneg pre). pose proof (lenZ_nonneg l).
  rewrite parseLeb128_at; [|lia|by destruct l].
  rewrite (leb_loop_terminated _ _ _ _ 0); try done; try lia.
  do 3 f_equal; lia.
Qed.

Lemma leb_encode_ok n v : 0 <= v -> bytesOk (leb_encode n v).
Proof.
  revert v. induction n as [|n IH]; intros v Hv; simpl; [constructor|].
  destruct (Z.ltb_spec v 128).
  - repeat constructor; lia.
  - pose proof (Z.mod_pos_bound v 128 ltac:(lia)). constructor; [unfold is_u8; lia|].
    apply IH, Z.div_pos; lia.
Qed.

Lemma leb_encode_S n v :
  leb_encode (S n) v = if v <? 128 then [v] else (128 + v mod 128) :: leb_encode n (v / 128).
Proof. done. Qed.

Lemma leb_encode_terminated n v :
  0 <= v < 128 ^ Z.of_nat (S n) ->
  leb_terminated (leb_encode (S n) v) = true /\ leb_value (leb_encode (S n) v) = v.
Proof.
  revert v. induction n as [|n IH]; intros v Hv;
    rewrite Nat2Z.inj_succ, Z.pow_succ_r in Hv by lia;
    rewrite leb_encode_S; destruct (Z.ltb_spec v 128) as [Hlt|Hge];
    try (cbn [leb_terminated leb_value]; rewrite Z.mod_small by lia; split; lia).
  destruct (IH (v / 128)) as [Ht Hval].
  { split; [apply Z.div_pos; lia|apply Z.div_lt_upper_bound; lia]. }
  pose proof (Z.mod_pos_bound v 128 ltac:(lia)).
  split.
  - cbn [leb_terminated]. destruct (leb_encode (S n) (v / 128)) eqn:E; [done|].
    rewrite Ht. by replace (128 <=? 128 + v mod 128) with true by lia.
  - cbn [leb_value]. rewrite Hval. rewrite <- (Z.mul_1_l 128) at 1.
    rewrite Z.add_comm, (Z.add_comm (1 * 128)), Z.mod_add, Z.mod_mod by lia.
    pose proof (Z.div_mod v 128). lia.
Qed.

Lemma leb_encode_len n v : lenZ (leb_encode n v) <= Z.of_nat n.
Proof.
  revert v. induction n as [|n IH]; intros v; simpl; [done|].
  destruct (v <? 128); autorewrite with mach; [lia|]. specialize (IH (v / 128)). lia.
Qed.

(** Round trip. Every 64-bit value written by the canonical encoder is read
    back by [parseLeb128], whatever surrounds it. *)
Theorem parseLeb128_encode {E} pre v post e :
  0 <= v < 2 ^ 64 -> lenZ pre + 10 < 2 ^ 31 ->
  @parseLeb128 E (pre ++ leb_encode 10 v ++ post) (lenZ pre) e
  = Ret (v, lenZ pre + lenZ (leb_encode 10 v)).
Proof.
  intros Hv Hp. pose proof (leb_encode_len 10 v).
  destruct (leb_encode_terminated 9 v) as [Ht Hval]; [lia|].
  pose proof (@parse_leb_terminated E pre (leb_encode 10 v) post e) as P.
  rewrite Hval, u64_small in P by done. apply P; try done; try lia. apply leb_encode_ok; lia.
Qed.

(** ** Every result is a 64-bit value and every offset a byte further *)

Lemma leb_loop_bounds {E} l : forall val shift i e v e',
  l <> [] -> 0 <= i -> i + lenZ l < 2 ^ 31 ->
  @leb_loop E l val shift i e = Ret (v, e') -> is_u64 v /\ i < e' <= i + lenZ l.
Proof.
  induction l as [|b l IH]; intros val shift i e v e' Hne Hi Hl; [done|].
  autorewrite with mach in Hl. pose proof (lenZ_nonneg l). cbn [leb_loop].
  destruct (64 <=? shift); [done|]. destruct (_ <? val); [done|].
  rewrite (u64_small (i + 1)) by lia. autorewrite with mach.
  destruct (negb _).
  - destruct l as [|b' l]; [done|]. intros Hr. apply IH in Hr; [|done|lia|lia]. intuition lia.
  - intros; simplify_eq. split; [apply u64_range|lia].
Qed.

Lemma parseLeb128_bounds {E} buf i e v e' :
  lenZ buf < 2 ^ 31 -> 0 <= i < lenZ buf ->
  @parseLeb128 E buf i e = Ret (v, e') -> is_u64 v /\ i < e' <= lenZ buf.
Proof.
  intros Hb Hi. unfold parseLeb128. rewrite u64_small by lia.
  replace (i <? lenZ buf) with true by lia.
  intros Hr. apply leb_loop_bounds in Hr; unfold lenZ in *; rewrite ?length_drop in *.
  - intuition lia.
  - intros Hn%(f_equal length). rewrite length_drop in Hn. simpl in Hn. lia.
  - lia.
  - lia.
Qed.

(** [parseLeb128] decodes. At any offset of a buffer that holds a terminated
    encoding of at most ten bytes (padded encodings included) it returns the
    encoded value modulo 2^64 and the offset after the encoding. *)
Theorem parseLeb128_decodes {E} pre l post e :
  bytesOk l -> leb_terminated l = true -> lenZ l <= 10 -> lenZ pre + lenZ l < 2 ^ 31 ->
  @parseLeb128 E (pre ++ l ++ post) (lenZ pre) e = Ret (leb_value l mod 2 ^ 64, lenZ pre + lenZ l).
Proof. apply parse_leb_terminated. Qed.

Lemma parseLeb128_decodes_witness :
  @parseLeb128 Z ([0; 0] ++ [0xE5; 0x8E; 0x26] ++ [7]) 2 0 = Ret (624485, 5).
Proof. apply (@parseLeb128_decodes Z [0; 0] [0xE5; 0x8E; 0x26] [7] 0); [repeat constructor; lia|done|done|done]. Defined.

Lemma parseLeb128_encode_witness :
  @parseLeb128 Z ([9] ++ leb_encode 10 (2 ^ 64 - 1) ++ [1]) 1 0 = Ret (2 ^ 64 - 1, 11).
Proof. apply (@parseLeb128_encode Z [9] (2 ^ 64 - 1) [1] 0); [lia|done]. Defined.

Lemma leb_loop_no_overflow {E} l : forall val shift k i e,
  bytesOk l -> shift = 7 * k -> 0 <= shift <= 70 -> 0 <= val < 2 ^ shift ->
  @leb_loop E l val shift i e <> Throw overflow_error.
Proof.
  induction l as [|b l IH]; intros val shift k i e Hok Hk Hs Hv; [done|].
  inversion Hok as [|? ? Hb Hok']; subst. cbn [leb_loop].
  destruct (Z.leb_spec 64 (7 * k)); [done|]. rewrite land_7f.
  pose proof (Z.mod_pos_bound b 128 ltac:(lia)).
  destruct (leb_step val (7 * k) k (b mod 128)) as (Hge & _ & Hsm); [lia..|].
  replace (_ <? val) with false by lia.
  destruct (negb _); [|done]. destruct l as [|b' l]; [done|].
  rewrite (u64_small (7 * k + 7)) by lia.
  destruct (decide (7 * k <= 56)) as [Hle|].
  - apply (IH _ _ (k + 1)); [done|lia|lia|]. destruct (Hsm Hle). lia.
  - cbn [leb_loop]. by replace (64 <=? 7 * k + 7) with true by lia.
Qed.

(** The overflow test of [parseLeb128] never fires: no byte buffer makes it
    throw [overflow_error]. *)
Theorem parseLeb128_no_overflow_error {E} buf start e :
  bytesOk buf -> @parseLeb128 E buf start e <> Throw overflow_error.
Proof.
  intros Hok. unfold parseLeb128. destruct (_ <? _); [|done].
  apply (leb_loop_no_overflow _ _ _ 0); [by apply Forall_drop|done|lia|simpl; lia].
Qed.

Lemma parseLeb128_no_overflow_error_witness :
  @parseLeb128 Z (repeat 0xFF 9 ++ [0x7F]) 0 0 <> Throw overflow_error.
Proof. apply (@parseLeb128_no_overflow_error Z (repeat 0xFF 9 ++ [0x7F]) 0 0). repeat constructor; lia. Defined.

(** Nothing bounds the number of bytes: after ten continuation bytes the
    eleventh is shifted by 70 bits, which is undefined for a [uint64_t]. *)
Theorem parseLeb128_overlong {E} pre b post e :
  lenZ pre + 11 < 2 ^ 31 ->
  @parseLeb128 E (pre ++ repeat 0x80 10 ++ b :: post) (lenZ pre) e = Undef UB_shift.
Proof. intros Hp. by rewrite parseLeb128_at by (done || lia). Qed.

Lemma parseLeb128_overlong_witness :
  @parseLeb128 Z (repeat 0x80 10 ++ [0]) 0 0 = Undef UB_shift.
Proof. apply (@parseLeb128_overlong Z [] 0 [] 0). done. Defined.

(** The two readers stop at the same byte: whether a byte continues the number
    does not depend on the accumulator. *)
Lemma sleb_loop_end {E} l : forall val val' shift i e v v' e1 e2,
  l <> [] ->
  @sleb_loop E l val shift i e = Ret (v, e1) -> @leb_loop E l val' shift i e = Ret (v', e2) -> e1 = e2.
Proof.
  induction l as [|b l IH]; intros val val' shift i e v v' e1 e2 Hne; [done|].
  cbn [sleb_loop leb_loop]. destruct (64 <=? shift); [done|].
  destruct (_ <? val); [done|]. destruct (_ <? val'); [done|].
  destruct (negb (Z.land b 0x80 =? 0)).
  - destruct l as [|b' l]; [done|]. by apply IH.
  - destruct (_ && _); [destruct (32 <=? shift); [done|]|]; congruence.
Qed.

(** Where both readers return, [parseSignedLeb128] leaves the same end offset
    as [parseLeb128]: the guard checker may use either to skip an operand. *)
Theorem parseSignedLeb128_end {E} buf start e v v' e1 e2 :
  @parseSignedLeb128 E buf start e = Ret (v, e1) -> @parseLeb128 E buf start e = Ret (v', e2) -> e1 = e2.
Proof.
  unfold parseSignedLeb128, parseLeb128. destruct (Z.ltb_spec (u64 start) (lenZ buf)); [|congruence].
  apply sleb_loop_end. intros Hn%(f_equal length). rewrite length_drop in Hn.
  pose proof (u64_range start). unfold lenZ in *. simpl in Hn. lia.
Qed.

Lemma parseSignedLeb128_end_witness :
  exists v v' e1 e2, @parseSignedLeb128 Z [0xC0; 0xBB; 0x78] 0 0 = Ret (v, e1) /\
    @parseLeb128 Z [0xC0; 0xBB; 0x78] 0 0 = Ret (v', e2) /\ e1 = e2.
Proof.
  exists (-8768), 1973696, 3, 3. split_and!; [reflexivity..|].
  apply (@parseSignedLeb128_end Z [0xC0; 0xBB; 0x78] 0 0 (-8768) 1973696); vm_compute; reflexivity.
Defined.

(** The sign extension of [parseSignedLeb128] starts at the wrong bit: the
    one-byte encoding 0x40 of -64 is read as -1. The value is not used by the
    guard checker, only the end offset is. *)
Theorem parseSignedLeb128_minus64 : @parseSignedLeb128 Z [0x40] 0 0 = Ret (-1, 1).
Proof. reflexivity. Qed.

(** ** The readers are safe from any offset inside the buffer or at its end *)

Lemma leb_loop_safe {E} l : forall val shift i e,
  l <> [] -> 0 <= i -> i + lenZ l < 2 ^ 31 ->
  safe (fun r => is_u64 r.1 /\ i < r.2 <= i + lenZ l) (@leb_loop E l val shift i e).
Proof.
  induction l as [|b l IH]; intros val shift i e Hne Hi Hl; [done|].
  autorewrite with mach in Hl. pose proof (lenZ_nonneg l). cbn [leb_loop].
  destruct (64 <=? shift); [done|]. destruct (_ <? val); [done|].
  rewrite (u64_small (i + 1)) by lia. autorewrite with mach.
  destruct (negb _).
  - destruct l as [|b' l]; [done|]. eapply safe_mono; [apply IH; (done || lia)|]. simpl. intuition lia.
  - simpl. split; [apply u64_range|lia].
Qed.

Lemma sleb_loop_safe {E} l : forall val shift i e,
  l <> [] -> 0 <= i -> i + lenZ l < 2 ^ 31 ->
  safe (fun r => i < r.2 <= i + lenZ l) (@sleb_loop E l val shift i e).
Proof.
  induction l as [|b l IH]; intros val shift i e Hne Hi Hl; [done|].
  autorewrite with mach in Hl. pose proof (lenZ_nonneg l). cbn [sleb_loop].
  destruct (64 <=? shift); [done|]. destruct (_ <? val); [done|].
  rewrite (u64_small (i + 1)) by lia. autorewrite with mach.
  destruct (negb _).
  - destruct l as [|b' l]; [done|]. eapply safe_mono; [apply IH; (done || lia)|]. simpl. lia.
  - rewrite ?(s32_small (i + 1)) by lia.
    destruct (_ && _); [destruct (32 <=? shift); [done|]|]; simpl; lia.
Qed.

Lemma drop_not_nil {A} (l : list A) i : 0 <= i < lenZ l -> drop (Z.to_nat i) l <> [].
Proof. intros Hi Hn%(f_equal length). rewrite length_drop in Hn. unfold lenZ in Hi. simpl in Hn. lia. Qed.

Lemma lenZ_drop {A} (l : list A) i : 0 <= i <= lenZ l -> lenZ (drop (Z.to_nat i) l) = lenZ l - i.
Proof. unfold lenZ. rewrite length_drop. lia. Qed.

Lemma parseLeb128_safe {E} buf i :
  lenZ buf < 2 ^ 31 -> 0 <= i <= lenZ buf ->
  safe (fun r => is_u64 r.1 /\ i <= r.2 <= lenZ buf) (@parseLeb128 E buf i i).
Proof.
  intros Hb Hi. unfold parseLeb128. rewrite u64_small by lia.
  destruct (Z.ltb_spec i (lenZ buf)).
  - eapply safe_mono.
    + apply leb_loop_safe; [apply drop_not_nil; lia|lia|rewrite lenZ_drop; lia].
    + rewrite lenZ_drop by lia. simpl. intros [v e'] [? ?]; simpl in *. split; [done|lia].
  - simpl. unfold is_u64. lia.
Qed.

Lemma parseSignedLeb128_safe {E} buf i :
  lenZ buf < 2 ^ 31 -> 0 <= i <= lenZ buf ->
  safe (fun r => i <= r.2 <= lenZ buf) (@parseSignedLeb128 E buf i i).
Proof.
  intros Hb Hi. unfold parseSignedLeb128. rewrite u64_small by lia.
  destruct (Z.ltb_spec i (lenZ buf)).
  - eapply safe_mono.
    + apply sleb_loop_safe; [apply drop_not_nil; lia|lia|rewrite lenZ_drop; lia].
    + rewrite lenZ_drop by lia. simpl. lia.
  - simpl. lia.
Qed.
