(* ===== verification/GuardCheck.v ===== *)
(** * The guard checker of one function body
      (src/src/ripple/app/hook/Guard.h: check_guard, compute_wce, WasmBlkInf)

    [check_guard] walks the instructions of a function body once, checks that
    every loop starts with a call of the guard function and that nothing but
    whitelisted imports is called, builds the tree of blocks and computes the
    worst case instruction count from the guards.

    The tree of [WasmBlkInf] nodes with parent pointers is a zipper here: the
    node under construction and the list of its unfinished ancestors, innermost
    first. A null parent pointer is an empty list of ancestors. The field
    [sanity_check] is written by the constructor only, so the tests of it never
    fail and it is left out, as is [is_root], which is never read. The
    [double]s of [compute_wce] are IEEE binary64 numbers of the standard
    library's [SpecFloat]. [return {}] is [Exit] with the log code. *)

From Stdlib Require Import SpecFloat.
From S2P Require Import Prelude HookEnum Leb128.

(** ** The tree of blocks *)

Inductive WasmBlkInf :=
  mkBlk (iteration_bound instruction_count start_byte : Z) (children : list WasmBlkInf).

Definition iteration_bound (b : WasmBlkInf) : Z := let 'mkBlk ib _ _ _ := b in ib.
Definition instruction_count (b : WasmBlkInf) : Z := let 'mkBlk _ ic _ _ := b in ic.
Definition children (b : WasmBlkInf) : list WasmBlkInf := let 'mkBlk _ _ _ cs := b in cs.

(** [current->instruction_count++] *)
Definition count_instr (b : WasmBlkInf) : WasmBlkInf :=
  let 'mkBlk ib ic sb cs := b in mkBlk ib (u32 (ic + 1)) sb cs.

(** A finished child becomes the last of its parent's children. *)
Definition add_child (parent child : WasmBlkInf) : WasmBlkInf :=
  let 'mkBlk ib ic sb cs := parent in mkBlk ib ic sb (cs ++ [child]).

(** The root, once the walk stops inside [cur] under the ancestors [ctx]. *)
Fixpoint close_all (cur : WasmBlkInf) (ctx : list WasmBlkInf) : WasmBlkInf :=
  match ctx with
  | [] => cur
  | p :: ctx => close_all (add_child p cur) ctx
  end.

(** ** Worst case execution *)

(** Conversion of an unsigned integer to [double], and back by truncation. *)
Definition to_double (z : Z) : spec_float := binary_normalize 53 1024 z 0 false.

Definition double_to_u64 {E} (x : spec_float) : outcome E Z :=
  match x with
  | S754_zero _ => Ret 0
  | S754_finite s m e =>
    let t := if 0 <=? e then Z.pos m * 2 ^ e else Z.pos m / 2 ^ (- e) in
    if s then (if t =? 0 then Ret 0 else Undef UB_cast)
    else if t <? 2 ^ 64 then Ret t else Undef UB_cast
  | S754_infinity _ | S754_nan => Undef UB_cast
  end.

(** [parent] is the iteration bound of the parent, [None] at the root. The flag
    returned says that [*recursion_limit_reached] was set during the call. *)
Fixpoint compute_wce {E} (parent : option Z) (blk : WasmBlkInf) (level : Z) : outcome E (Z * bool) :=
  if 16 <? level then Ret (0, true) else
  let 'mkBlk ib ic _ cs := blk in
  let* '(wce, flag) :=
    (fix go (cs : list WasmBlkInf) (acc : Z) (flag : bool) : outcome E (Z * bool) :=
      match cs with
      | [] => Ret (acc, flag)
      | c :: cs =>
        let* '(w, f) := compute_wce (Some ib) c (level + 1) in
        go cs (u64 (acc + w)) (flag || f)
      end) cs ic false in
  match parent with
  | None => Ret (wce, flag)
  | Some pib =>
    if pib =? 0 then Ret (wce, flag) else
    let multiplier := SFdiv 53 1024 (to_double ib) (to_double pib) in
    let* wce := double_to_u64 (SFmul 53 1024 (to_double wce) multiplier) in
    Ret (if SFltb (to_double wce) (to_double 1) then 1 else wce, flag)
  end.

(** ** Readers of the walk *)

Definition CHECK_SHORT_HOOK (wasm : list Z) (i : Z) : outcome hook_log_code unit :=
  if lenZ wasm <=? u64 i then Exit LOG_SHORT_HOOK else Ret tt.

Definition REQUIRE (wasm : list Z) (i x : Z) : outcome hook_log_code unit :=
  if lenZ wasm <? u64 (i + x) then Exit LOG_SHORT_HOOK else Ret tt.

Definition LEB (wasm : list Z) (i : Z) : outcome hook_log_code (Z * Z) := parseLeb128 wasm i i.
Definition SIGNED_LEB (wasm : list Z) (i : Z) : outcome hook_log_code (Z * Z) :=
  parseSignedLeb128 wasm i i.

Definition GUARD_ERROR {A} : outcome hook_log_code A := Exit LOG_GUARD_MISSING.

(** [REQUIRE(1); LEB();], keeping the offset only. *)
Definition skip_leb (wasm : list Z) (i : Z) : outcome hook_log_code Z :=
  let* _ := REQUIRE wasm i 1 in
  let* '(_, i) := LEB wasm i in
  Ret i.

Definition skip_bytes (wasm : list Z) (n i : Z) : outcome hook_log_code Z :=
  let* _ := REQUIRE wasm i n in Ret (i + n).

Definition MAX_GUARD_CALLS : Z := 1024.

(** [if (guard_count++ > MAX_GUARD_CALLS) GUARD_ERROR(...)] *)
Definition count_guard (guard_count : Z) : outcome hook_log_code Z :=
  if MAX_GUARD_CALLS <? guard_count then GUARD_ERROR else Ret (u32 (guard_count + 1)).

(** ** Blocks, loops and ifs *)

Definition skip_block_type (wasm : list Z) (i : Z) : outcome hook_log_code Z :=
  let* _ := REQUIRE wasm i 1 in
  let* block_type := vget wasm i in
  if (0x7C <=? block_type) && (block_type <=? 0x7F) || (block_type =? 0x7B)
     || (block_type =? 0x70) || (block_type =? 0x7B) || (block_type =? 0x40)
     || (block_type =? 0x6F)
  then Ret (i + 1)
  else let* '(_, i) := SIGNED_LEB wasm i in Ret i.

(** The two [i32.const] and the call of the guard at the start of a loop:
    iteration bound, offset and guard count afterwards. *)
Definition loop_guard (wasm : list Z) (guard_func_idx guard_count i : Z)
  : outcome hook_log_code (Z * Z * Z) :=
  let* _ := REQUIRE wasm i 1 in
  let* b := vget wasm i in
  if negb (b =? 0x41) then GUARD_ERROR else
  let* '(_, i) := SIGNED_LEB wasm (i + 1) in
  let* _ := REQUIRE wasm i 1 in
  let* b := vget wasm i in
  if negb (b =? 0x41) then GUARD_ERROR else
  let* '(bound, i) := LEB wasm (i + 1) in
  let iteration_bound := u32 bound in
  let* _ := REQUIRE wasm i 1 in
  let* b := vget wasm i in
  if negb (b =? 0x10) then GUARD_ERROR else
  let* '(call_func_idx, i) := LEB wasm (i + 1) in
  if iteration_bound =? 0 then GUARD_ERROR else
  if negb (call_func_idx =? u64 guard_func_idx) then GUARD_ERROR else
  let* guard_count := count_guard guard_count in
  Ret (iteration_bound, i, guard_count).

(** ** Instructions with operands

    Each takes the offset after the opcode and returns the offset after the
    operands. *)

Fixpoint skip_lebs (wasm : list Z) (n : nat) (i : Z) : outcome hook_log_code Z :=
  match n with
  | O => Ret i
  | S n => let* i := skip_leb wasm i in skip_lebs wasm n i
  end.

Definition op_br_table (wasm : list Z) (i : Z) : outcome hook_log_code Z :=
  let* '(count, i) := LEB wasm i in
  let vec_count := s32 count in
  let* i := skip_lebs wasm (Z.to_nat vec_count) i in
  skip_leb wasm i.

(** The offset and the guard count after a [call]. *)
Definition op_call (wasm : list Z) (guard_func_idx last_import_idx guard_count i : Z)
  : outcome hook_log_code (Z * Z) :=
  let* _ := REQUIRE wasm i 1 in
  let* '(callee_idx, i) := LEB wasm i in
  if u64 last_import_idx <? callee_idx then Exit LOG_CALL_ILLEGAL else
  if callee_idx =? u64 guard_func_idx then
    let* guard_count := count_guard guard_count in Ret (i, guard_count)
  else Ret (i, guard_count).

Definition op_reference (wasm : list Z) (instr i : Z) : outcome hook_log_code Z :=
  if instr =? 0xD0 then
    let* _ := REQUIRE wasm i 1 in
    let* b := vget wasm i in
    if negb ((b =? 0x70) || (b =? 0x6F)) then GUARD_ERROR else Ret (i + 1)
  else if instr =? 0xD2 then skip_leb wasm i
  else Ret i.

Fixpoint select_types (wasm : list Z) (n : nat) (i : Z) : outcome hook_log_code Z :=
  match n with
  | O => Ret i
  | S n =>
    let* _ := REQUIRE wasm i 1 in
    let* v := vget wasm i in
    if (0x7B <=? v) && (v <=? 0x7F) || (v =? 0x70) || (v =? 0x6F)
    then select_types wasm n (i + 1)
    else GUARD_ERROR
  end.

Definition op_parametric (wasm : list Z) (instr i : Z) : outcome hook_log_code Z :=
  if instr =? 0x1C then
    let* _ := REQUIRE wasm i 1 in
    let* '(vec_count, i) := LEB wasm i in
    select_types wasm (Z.to_nat vec_count) i
  else Ret i.

Definition op_table_fc (wasm : list Z) (rulesVersion instr i : Z) : outcome hook_log_code Z :=
  let* _ := REQUIRE wasm i 1 in
  if negb (instr =? 0xFC) then let* '(_, i) := LEB wasm i in Ret i else
  let* '(fc_type, i) := LEB wasm i in
  let* _ := REQUIRE wasm i 1 in
  if (12 <=? fc_type) && (fc_type <=? 17) then
    let* '(_, i) := LEB wasm i in
    if (fc_type =? 12) || (fc_type =? 14) then skip_leb wasm i else Ret i
  else if fc_type =? 8 then
    let* '(_, i) := LEB wasm i in
    skip_bytes wasm 1 i
  else if fc_type =? 9 then
    let* '(_, i) := LEB wasm i in Ret i
  else if fc_type =? 10 then
    if negb (Z.land rulesVersion 0x02 =? 0) then GUARD_ERROR else skip_bytes wasm 2 i
  else if fc_type =? 11 then
    if negb (Z.land rulesVersion 0x02 =? 0) then GUARD_ERROR else Ret (i + 1)
  else if fc_type <=? 7 then Ret i
  else GUARD_ERROR.

(** Loads and stores, memory.size and memory.grow. *)
Definition op_memory (wasm : list Z) (instr i : Z) : outcome hook_log_code Z :=
  if (0x28 <=? instr) && (instr <=? 0x3E) then
    let* i := skip_leb wasm i in skip_leb wasm i
  else
    let* _ := REQUIRE wasm i 1 in
    if instr =? 0x40 then Exit LOG_MEMORY_GROW else Ret (i + 1).

Definition op_numeric (wasm : list Z) (instr i : Z) : outcome hook_log_code Z :=
  if (instr =? 0x41) || (instr =? 0x42) then skip_leb wasm i
  else if instr =? 0x43 then skip_bytes wasm 4 i
  else if instr =? 0x44 then skip_bytes wasm 8 i
  else Ret i.

Definition op_vector (wasm : list Z) (i : Z) : outcome hook_log_code Z :=
  let* _ := REQUIRE wasm i 1 in
  let* '(v, i) := LEB wasm i in
  if v <=? 11 then
    let* i := skip_leb wasm i in skip_leb wasm i
  else if (84 <=? v) && (v <=? 91) then
    let* i := skip_leb wasm i in
    let* i := skip_leb wasm i in
    skip_bytes wasm 1 i
  else if (21 <=? v) && (v <=? 34) then skip_bytes wasm 1 i
  else if (v =? 12) || (v =? 13) then skip_bytes wasm 16 i
  else Ret i.

(** ** The walk *)

Record gcfg := mkCfg {
  guard_func_idx : Z;
  last_import_idx : Z;
  rulesVersion : Z;
  end_offset : Z
}.

Record gst := mkGst {
  pos : Z;
  current : WasmBlkInf;
  parents : list WasmBlkInf;
  guard_count : Z;
  block_depth : Z
}.

Definition at_pos (st : gst) (i : Z) : gst :=
  mkGst i (current st) (parents st) (guard_count st) (block_depth st).

(** [block], [loop] and [if]: skip the block type, check the guard of a loop and
    open a child of the current block. *)
Definition op_block (wasm : list Z) (c : gcfg) (instr : Z) (st : gst) : outcome hook_log_code gst :=
  let* i := skip_block_type wasm (pos st) in
  let bound := match parents st with [] => 1 | _ => iteration_bound (current st) end in
  let* '(bound, i, gc) :=
    if instr =? 0x03 then loop_guard wasm (guard_func_idx c) (guard_count st) i
    else Ret (bound, i, guard_count st) in
  Ret (mkGst i (mkBlk bound 0 (u32 i) []) (current st :: parents st) gc (block_depth st + 1)).

(** [end]: the parent becomes current. [inr] is the [break] at the end of the
    function body, with the finished root. *)
Definition op_end (c : gcfg) (st : gst) : outcome hook_log_code (gst + WasmBlkInf) :=
  let depth := block_depth st - 1 in
  match parents st with
  | [] =>
    if (depth =? -1) && (end_offset c <=? pos st) then Ret (inr (current st)) else GUARD_ERROR
  | p :: ps =>
    if depth <? 0 then GUARD_ERROR
    else Ret (inl (mkGst (pos st) (add_child p (current st)) ps (guard_count st) depth))
  end.

(** One instruction. *)
Definition guard_step (wasm : list Z) (c : gcfg) (st : gst)
  : outcome hook_log_code (gst + WasmBlkInf) :=
  let* _ := REQUIRE wasm (pos st) 1 in
  let* instr := vget wasm (pos st) in
  let i := pos st + 1 in
  let st := mkGst i (count_instr (current st)) (parents st) (guard_count st) (block_depth st) in
  let next (m : outcome hook_log_code Z) := let* i := m in Ret (inl (at_pos st i)) in
  if (instr =? 0x00) || (instr =? 0x01) || (instr =? 0x05) then Ret (inl st)
  else if (instr =? 0x02) || (instr =? 0x03) || (instr =? 0x04) then
    let* st := op_block wasm c instr st in Ret (inl st)
  else if instr =? 0x0B then op_end c st
  else if (instr =? 0x0C) || (instr =? 0x0D) then next (skip_leb wasm i)
  else if instr =? 0x0E then next (op_br_table wasm i)
  else if instr =? 0x0F then Ret (inl st)
  else if instr =? 0x10 then
    let* '(i, gc) := op_call wasm (guard_func_idx c) (last_import_idx c) (guard_count st) i in
    Ret (inl (mkGst i (current st) (parents st) gc (block_depth st)))
  else if instr =? 0x11 then Exit LOG_CALL_INDIRECT
  else if (0xD0 <=? instr) && (instr <=? 0xD2) then next (op_reference wasm instr i)
  else if (instr =? 0x1A) || (instr =? 0x1B) || (instr =? 0x1C) then next (op_parametric wasm instr i)
  else if (0x20 <=? instr) && (instr <=? 0x24) then next (skip_leb wasm i)
  else if (instr =? 0x25) || (instr =? 0x26) || (instr =? 0xFC) then
    next (op_table_fc wasm (rulesVersion c) instr i)
  else if (0x28 <=? instr) && (instr <=? 0x40) then next (op_memory wasm instr i)
  else if (0x41 <=? instr) && (instr <=? 0xC4) then next (op_numeric wasm instr i)
  else if instr =? 0xFD then next (op_vector wasm i)
  else GUARD_ERROR.

(** The loop over the body; [Timeout] when [fuel] instructions do not finish it. *)
Fixpoint guard_walk (wasm : list Z) (c : gcfg) (fuel : nat) (st : gst)
  : outcome hook_log_code WasmBlkInf :=
  if end_offset c <=? pos st then Ret (close_all (current st) (parents st)) else
  match fuel with
  | O => Timeout
  | S fuel =>
    let* r := guard_step wasm c st in
    match r with
    | inl st => guard_walk wasm c fuel st
    | inr root => Ret root
    end
  end.

Definition guard_init (start_offset : Z) : gst :=
  mkGst start_offset (mkBlk 1 0 (u32 start_offset) []) [] 0 0.

Definition guard_end (wasm : list Z) (end_offset : Z) : Z :=
  if end_offset <=? 0 then s32 (lenZ wasm) else end_offset.

(** The tree of blocks of a body. One instruction takes at least a byte and the
    walk stops at the end of the binary, so its length bounds the fuel. *)
Definition block_tree (wasm : list Z) (start_offset end_offset guard_func_idx last_import_idx rulesVersion : Z)
  : outcome hook_log_code WasmBlkInf :=
  let c := mkCfg guard_func_idx last_import_idx rulesVersion (guard_end wasm end_offset) in
  guard_walk wasm c (S (length wasm)) (guard_init start_offset).

Definition check_guard (wasm : list Z) (start_offset end_offset guard_func_idx last_import_idx rulesVersion : Z)
  : outcome hook_log_code Z :=
  let* root := block_tree wasm start_offset end_offset guard_func_idx last_import_idx rulesVersion in
  let* '(wce, recursion_limit_reached) := compute_wce None root 0 in
  if (recursion_limit_reached : bool) then Exit LOG_NESTING_LIMIT else
  if 0xFFFF <=? wce then Exit LOG_INSTRUCTION_EXCESS else
  Ret wce.
