(* ===== verification/GuardFacts.v ===== *)
(** * Theorems on the guard checker of a function body

    Safety and termination of the walk, what an accepted body is made of, the
    bound on guards, nesting and instruction count, for the definitions of
    GuardCheck.v. *)

From Stdlib Require Import SpecFloat.
From S2P Require Import Prelude HookEnum Leb128 GuardCheck.

(** ** Every reader stays inside the binary and makes progress *)

Section Safety.
Context (wasm : list Z) (Hlen : lenZ wasm < 2 ^ 31).

(** From offset [i] the reader stops between [i] and the end of the binary. *)
Definition onward (i i' : Z) : Prop := i <= i' <= lenZ wasm.

Lemma REQUIRE_safe i x :
  0 <= i <= lenZ wasm -> 0 <= x < 2 ^ 31 -> safe (fun _ => i + x <= lenZ wasm) (REQUIRE wasm i x).
Proof.
  intros Hi Hx. unfold REQUIRE. rewrite u64_small by lia.
  destruct (Z.ltb_spec (lenZ wasm) (i + x)); simpl; lia.
Qed.

Lemma LEB_safe i :
  0 <= i <= lenZ wasm -> safe (fun r => is_u64 r.1 /\ onward i r.2) (LEB wasm i).
Proof. intros Hi. by apply parseLeb128_safe. Qed.

Lemma SIGNED_LEB_safe i : 0 <= i <= lenZ wasm -> safe (fun r => onward i r.2) (SIGNED_LEB wasm i).
Proof. intros Hi. by apply parseSignedLeb128_safe. Qed.

End Safety.

Ltac safe_prim :=
  first [ eapply REQUIRE_safe; [eassumption|unfold onward in *; lia..]
        | eapply LEB_safe; [eassumption|unfold onward in *; lia..]
        | eapply SIGNED_LEB_safe; [eassumption|unfold onward in *; lia..]
        | eapply vget_safe; unfold onward in *; lia ].

(** Walks through a reader: binds by the lemma of the call, tests by cases. *)
Ltac safe_walk :=
  repeat (match goal with
    | |- safe _ (obind _ _) => eapply safe_bind; [safe_prim|]; intros; cbn [fst snd] in *; destruct_and?
    | |- safe _ (let '(_, _) := ?p in _) => destruct p; cbn [fst snd] in *; destruct_and?
    | |- safe _ (if ?b then _ else _) => destruct b eqn:?
    | |- safe _ GUARD_ERROR => exact I
    | |- safe _ (Exit _) => exact I
    | |- safe _ (Ret _) => simpl; unfold onward in *; lia
    end).

Section Readers.
Context (wasm : list Z) (Hlen : lenZ wasm < 2 ^ 31).

Lemma skip_leb_safe i : 0 <= i <= lenZ wasm -> safe (onward wasm i) (skip_leb wasm i).
Proof. intros Hi. unfold skip_leb. safe_walk. Qed.

Lemma skip_bytes_safe n i :
  0 <= n < 2 ^ 31 -> 0 <= i <= lenZ wasm -> safe (onward wasm i) (skip_bytes wasm n i).
Proof. intros Hn Hi. unfold skip_bytes. safe_walk. Qed.

Lemma skip_block_type_safe i : 0 <= i <= lenZ wasm -> safe (onward wasm i) (skip_block_type wasm i).
Proof. intros Hi. unfold skip_block_type. safe_walk. Qed.

Lemma count_guard_safe gc : 0 <= gc <= 1025 -> safe (fun gc' => gc <= gc' <= 1025) (count_guard gc).
Proof.
  intros H. unfold count_guard, MAX_GUARD_CALLS. destruct (Z.ltb_spec 1024 gc); [done|].
  simpl. rewrite u32_small; lia.
Qed.

Lemma loop_guard_safe g gc i :
  0 <= gc <= 1025 -> 0 <= i <= lenZ wasm ->
  safe (fun r => 0 < r.1.1 < 2 ^ 32 /\ onward wasm i r.1.2 /\ gc <= r.2 <= 1025) (loop_guard wasm g gc i).
Proof.
  intros Hgc Hi. unfold loop_guard. safe_walk.
  eapply safe_bind; [by apply count_guard_safe|]. intros gc' Hgc'. simpl.
  match goal with H : (u32 ?z =? 0) = false |- _ => pose proof (u32_range z) end.
  unfold onward in *. lia.
Qed.

Lemma skip_lebs_safe n i : 0 <= i <= lenZ wasm -> safe (onward wasm i) (skip_lebs wasm n i).
Proof.
  revert i. induction n as [|n IH]; intros i Hi; simpl; [unfold onward; lia|].
  eapply safe_bind; [by apply skip_leb_safe|]. intros i' Hi'. unfold onward in *.
  eapply safe_mono; [apply IH; lia|]. unfold onward; simpl; lia.
Qed.

Lemma select_types_safe n i : 0 <= i <= lenZ wasm -> safe (onward wasm i) (select_types wasm n i).
Proof.
  revert i. induction n as [|n IH]; intros i Hi; simpl; [unfold onward; lia|].
  safe_walk. eapply safe_mono; [apply IH; lia|]. unfold onward; simpl; lia.
Qed.

(** Chains two readers. *)
Lemma safe_chain i (m : outcome hook_log_code Z) k :
  safe (onward wasm i) m -> (forall i', onward wasm i i' -> safe (onward wasm i') (k i')) ->
  safe (onward wasm i) (obind m k).
Proof.
  intros Hm Hk. eapply safe_bind; [exact Hm|]. intros i' Hi'.
  eapply safe_mono; [by apply Hk|]. unfold onward in *. simpl. lia.
Qed.

Lemma op_call_safe g l gc i :
  0 <= gc <= 1025 -> 0 <= i <= lenZ wasm ->
  safe (fun r => onward wasm i r.1 /\ gc <= r.2 <= 1025) (op_call wasm g l gc i).
Proof.
  intros Hgc Hi. unfold op_call. safe_walk.
  eapply safe_bind; [by apply count_guard_safe|]. intros gc' Hgc'. simpl. unfold onward in *. lia.
Qed.

Lemma op_br_table_safe i : 0 <= i <= lenZ wasm -> safe (onward wasm i) (op_br_table wasm i).
Proof.
  intros Hi. unfold op_br_table. safe_walk. unfold onward in *. eapply safe_mono.
  - apply safe_chain; [apply skip_lebs_safe; lia|]. unfold onward. intros. apply skip_leb_safe; lia.
  - unfold onward. simpl. lia.
Qed.

Lemma op_reference_safe instr i : 0 <= i <= lenZ wasm -> safe (onward wasm i) (op_reference wasm instr i).
Proof. intros Hi. unfold op_reference. safe_walk. by apply skip_leb_safe. Qed.

Lemma op_parametric_safe instr i : 0 <= i <= lenZ wasm -> safe (onward wasm i) (op_parametric wasm instr i).
Proof.
  intros Hi. unfold op_parametric. safe_walk. unfold onward in *.
  eapply safe_mono; [apply select_types_safe; lia|]. unfold onward. simpl. lia.
Qed.

(** Closes a reader whose last step is one of the readers above. *)
Ltac last_reader :=
  unfold onward in *;
  eapply safe_mono; [first [apply skip_leb_safe; lia | apply skip_bytes_safe; lia]|];
  unfold onward; simpl; lia.

Lemma op_table_fc_safe r instr i :
  0 <= i <= lenZ wasm -> safe (onward wasm i) (op_table_fc wasm r instr i).
Proof. intros Hi. unfold op_table_fc. safe_walk; last_reader. Qed.

Lemma skip_two_safe i :
  0 <= i <= lenZ wasm -> safe (onward wasm i) (let* i := skip_leb wasm i in skip_leb wasm i).
Proof.
  intros Hi. apply safe_chain; [by apply skip_leb_safe|]. unfold onward. intros. apply skip_leb_safe; lia.
Qed.

Lemma op_memory_safe instr i : 0 <= i <= lenZ wasm -> safe (onward wasm i) (op_memory wasm instr i).
Proof. intros Hi. unfold op_memory. destruct (_ && _); [by apply skip_two_safe|]. safe_walk. Qed.

Lemma op_numeric_safe instr i : 0 <= i <= lenZ wasm -> safe (onward wasm i) (op_numeric wasm instr i).
Proof. intros Hi. unfold op_numeric. safe_walk; last_reader. Qed.

Lemma op_vector_safe i : 0 <= i <= lenZ wasm -> safe (onward wasm i) (op_vector wasm i).
Proof.
  intros Hi. unfold op_vector. eapply safe_bind; [safe_prim|]. intros ? H1.
  eapply safe_bind; [safe_prim|]. intros [v j] [_ Hj]. cbn [fst snd] in Hj. unfold onward in Hj.
  eapply (safe_mono (onward wasm j)); [|unfold onward; simpl; lia].
  repeat case_match; try (simpl; unfold onward; lia); try (apply skip_two_safe; lia); try last_reader.
  rewrite <- obind_assoc. apply safe_chain; [apply skip_two_safe; lia|]. intros. last_reader.
Qed.
End Readers.

(** ** Trees of blocks *)

Section BlkInd.
Context (P : WasmBlkInf -> Prop).
Context (HP : forall ib ic sb cs, Forall P cs -> P (mkBlk ib ic sb cs)).

Fixpoint WasmBlkInf_tree_ind (b : WasmBlkInf) : P b :=
  let 'mkBlk ib ic sb cs := b in
  HP ib ic sb cs
    ((fix go (cs : list WasmBlkInf) : Forall P cs :=
       match cs with
       | [] => Forall_nil_2 P
       | c :: cs => Forall_cons_2 P c cs (WasmBlkInf_tree_ind c) (go cs)
       end) cs).
End BlkInd.

(** Bounds and counts are [uint32_t]s and no bound is zero. *)
Inductive tree_ok : WasmBlkInf -> Prop :=
| tree_ok_intro ib ic sb cs :
    0 < ib < 2 ^ 32 -> is_u32 ic -> Forall tree_ok cs -> tree_ok (mkBlk ib ic sb cs).

Lemma tree_ok_count b : tree_ok b -> tree_ok (count_instr b).
Proof. intros [ib ic sb cs]. constructor; [done|apply u32_range|done]. Qed.

Lemma tree_ok_add_child p b : tree_ok p -> tree_ok b -> tree_ok (add_child p b).
Proof. intros [ib ic sb cs] Hb. constructor; [done..|]. apply Forall_app_2; [done|by constructor]. Qed.

Lemma tree_ok_close_all ctx b : Forall tree_ok ctx -> tree_ok b -> tree_ok (close_all b ctx).
Proof.
  revert b. induction ctx as [|p ctx IH]; intros b Hctx Hb; [done|].
  inversion Hctx; subst. simpl. apply IH; [done|by apply tree_ok_add_child].
Qed.

Lemma tree_ok_bound b : tree_ok b -> 0 < iteration_bound b < 2 ^ 32.
Proof. by intros [ib ic sb cs]. Qed.

(** ** Invariant of the walk *)

Section Walk.
Context (wasm : list Z) (Hlen : lenZ wasm < 2 ^ 31) (c : gcfg).

Definition gst_ok (st : gst) : Prop :=
  0 <= pos st <= lenZ wasm /\ 0 <= guard_count st <= 1025 /\
  block_depth st = lenZ (parents st) /\ tree_ok (current st) /\ Forall tree_ok (parents st).

Definition step_ok (st : gst) (r : gst + WasmBlkInf) : Prop :=
  match r with
  | inl st' => gst_ok st' /\ pos st < pos st'
  | inr root => tree_ok root
  end.

Lemma op_block_safe instr st :
  gst_ok st -> safe (fun st' => gst_ok st' /\ pos st <= pos st') (op_block wasm c instr st).
Proof.
  intros (Hp & Hgc & Hd & Hcur & Hps). unfold op_block.
  eapply safe_bind; [by apply skip_block_type_safe|]. intros i Hi. unfold onward in Hi.
  set (bound := match parents st with [] => 1 | _ => iteration_bound (current st) end).
  assert (0 < bound < 2 ^ 32).
  { subst bound. destruct (parents st); [lia|by apply tree_ok_bound]. }
  eapply (safe_bind (fun r : Z * Z * Z =>
    0 < r.1.1 < 2 ^ 32 /\ onward wasm i r.1.2 /\ guard_count st <= r.2 <= 1025)).
  - destruct (instr =? 3); [apply loop_guard_safe; (done || lia)|]. simpl. unfold onward. lia.
  - intros [[b j] gc] (Hb & Hj & Hgc'). unfold onward in Hj. simpl in *.
    split; [|simpl; lia]. split_and!; simpl; try lia.
    + autorewrite with mach. lia.
    + constructor; [done|unfold is_u32; lia|by constructor].
    + by constructor.
Qed.

Lemma op_end_safe st : gst_ok st -> safe (fun r => match r with inl st' => gst_ok st' /\ pos st' = pos st
  | inr root => tree_ok root end) (op_end c st).
Proof.
  intros (Hp & Hgc & Hd & Hcur & Hps). unfold op_end.
  destruct (parents st) as [|p ps] eqn:E.
  - by destruct (_ && _).
  - inversion Hps; subst. autorewrite with mach in Hd. pose proof (lenZ_nonneg ps).
    replace (block_depth st - 1 <? 0) with false by lia. simpl. split; [|done].
    split_and!; simpl; try done; try lia. by apply tree_ok_add_child.
Qed.

(** One instruction keeps the invariant and advances. *)
Lemma guard_step_safe st : gst_ok st -> safe (step_ok st) (guard_step wasm c st).
Proof.
  intros Hok. pose proof Hok as (Hp & Hgc & Hd & Hcur & Hps). unfold guard_step.
  eapply safe_bind; [by apply REQUIRE_safe|]. cbv beta. intros ? Hr.
  eapply safe_bind; [apply vget_safe; lia|]. intros instr Hinstr.
  set (st1 := mkGst (pos st + 1) (count_instr (current st)) (parents st) (guard_count st) (block_depth st)).
  assert (gst_ok st1) as Hok1 by (split_and!; simpl; try done; try lia; by apply tree_ok_count).
  assert (0 <= pos st + 1 <= lenZ wasm) as Hi by lia.
  assert (forall m : outcome hook_log_code Z, safe (onward wasm (pos st + 1)) m ->
    safe (step_ok st) (let* i := m in Ret (inl (at_pos st1 i)))) as Hnext.
  { intros m Hm. eapply safe_bind; [exact Hm|]. unfold onward. intros i Hi'. simpl.
    split; [|lia]. destruct Hok1 as (?&?&?&?&?). split_and!; simpl; try done; lia. }
  assert (safe (E := hook_log_code) (step_ok st) (Ret (inl st1))) as Hst1 by (simpl; split; [done|simpl; lia]).
  cbv zeta.
  repeat match goal with
  | |- safe _ (if ?b then _ else _) => destruct b eqn:?
  end; try exact I; try exact Hst1; try apply Hnext;
    try first [ by apply skip_leb_safe | by apply op_br_table_safe | by apply op_reference_safe
              | by apply op_parametric_safe | by apply op_table_fc_safe | by apply op_memory_safe
              | by apply op_numeric_safe | by apply op_vector_safe ].
  - eapply safe_bind; [by apply op_block_safe|]. intros st' [Hst' Hlt]. simpl in *. split; [done|lia].
  - eapply safe_mono; [by apply op_end_safe|]. intros [st'|root]; simpl; [|done].
    intros [? ->]. simpl. split; [done|lia].
  - eapply safe_bind; [by apply op_call_safe|]. intros [i gc] [Hi' Hgc']. unfold onward in Hi'. simpl in *.
    split; [|lia]. destruct Hok1 as (?&?&?&?&?). split_and!; simpl; try done; lia.
Qed.

(** The walk terminates with a well-formed tree. *)
Lemma guard_walk_safe fuel st :
  gst_ok st -> lenZ wasm - pos st < Z.of_nat fuel -> safe tree_ok (guard_walk wasm c fuel st).
Proof.
  revert st. induction fuel as [|fuel IH]; intros st Hok Hf.
  - destruct Hok as (? & _). lia.
  - cbn [guard_walk]. destruct (end_offset c <=? pos st).
    + destruct Hok as (_ & _ & _ & ? & ?). by apply tree_ok_close_all.
    + eapply safe_bind; [by apply guard_step_safe|]. intros [st'|root]; simpl; [|done].
      intros [Hok' Hlt]. apply IH; [done|lia].
Qed.
End Walk.

(** ** What an accepted body looks like *)

(** The states the walk goes through, while it has not reached the end. *)
Inductive guard_reach (wasm : list Z) (c : gcfg) (st : gst) : gst -> Prop :=
| guard_reach_refl : guard_reach wasm c st st
| guard_reach_step st' st'' :
    guard_reach wasm c st st' -> pos st' < end_offset c ->
    guard_step wasm c st' = Ret (inl st'') -> guard_reach wasm c st st''.

(** [i32.const id; i32.const bound; call guard_func_idx] at [i], with a bound
    that is not zero. *)
Definition loop_guarded (wasm : list Z) (guard_func_idx i : Z) : Prop :=
  exists id i1 bound i2 i3,
    vget (E := hook_log_code) wasm i = Ret 0x41 /\ SIGNED_LEB wasm (i + 1) = Ret (id, i1) /\
    vget (E := hook_log_code) wasm i1 = Ret 0x41 /\ LEB wasm (i1 + 1) = Ret (bound, i2) /\ 0 < u32 bound /\
    vget (E := hook_log_code) wasm i2 = Ret 0x10 /\ LEB wasm (i2 + 1) = Ret (u64 guard_func_idx, i3).

(** The conditions on the instruction at [i]. *)
Definition admissible (wasm : list Z) (c : gcfg) (i : Z) : Prop :=
  exists instr, vget (E := hook_log_code) wasm i = Ret instr /\
    instr <> 0x11 /\ instr <> 0x40 /\
    (instr = 0x03 -> exists j, skip_block_type wasm (i + 1) = Ret j /\ loop_guarded wasm (guard_func_idx c) j) /\
    (instr = 0x10 -> exists callee j, LEB wasm (i + 1) = Ret (callee, j) /\ callee <= u64 (last_import_idx c)) /\
    (instr = 0xFC -> Z.land (rulesVersion c) 0x02 <> 0 ->
       exists fc j, LEB wasm (i + 1) = Ret (fc, j) /\ fc <> 10 /\ fc <> 11).

Lemma loop_guard_guarded wasm g gc i r : loop_guard wasm g gc i = Ret r -> loop_guarded wasm g i.
Proof.
  unfold loop_guard. intros H. run_inv H. unfold loop_guarded.
  repeat match goal with Hb : negb (?b =? ?x) = false |- _ =>
    apply negb_false_iff, Z.eqb_eq in Hb; subst b end.
  do 5 eexists. split_and!; eauto. apply Z.le_neq; split; [apply u32_range|apply not_eq_sym; by apply Z.eqb_neq].
Qed.

Lemma guard_step_admissible wasm c st r :
  guard_step wasm c st = Ret r -> admissible wasm c (pos st).
Proof.
  unfold guard_step. intros H.
  apply obind_ret in H as (u & _ & H). apply obind_ret in H as (instr & Hv & H).
  exists instr. split; [done|]. cbv zeta in H.
  split_and!.
  - intros ->. discriminate H.
  - intros ->. simpl in H. unfold op_memory in H. by destruct (REQUIRE _ _ _).
  - intros ->. simpl in H. apply obind_ret in H as (st' & H & _). unfold op_block in H. simpl in H.
    run_inv H. eauto using loop_guard_guarded.
  - intros ->. simpl in H. apply obind_ret in H as (st' & H & _). unfold op_call in H. run_inv H; do 2 eexists; (split; [eassumption|lia]).
  - intros -> Hrv. simpl in H. unfold op_table_fc in H. simpl in H.
    apply obind_ret in H as (j & H & _). apply obind_ret in H as (? & _ & H).
    apply obind_ret in H as ([fc k] & Hfc & H). exists fc, k. split; [done|].
    apply Z.eqb_neq in Hrv. rewrite Hrv in H.
    by split; intros ->; simpl in H; destruct (REQUIRE _ _ _).
Qed.

(** Every state of a successful walk that is short of the end has a successful
    step, and the walk from it succeeds. *)
Lemma guard_walk_reach wasm c fuel st root st' :
  guard_walk wasm c fuel st = Ret root -> guard_reach wasm c st st' ->
  exists fuel', guard_walk wasm c fuel' st' = Ret root.
Proof.
  intros Hw. induction 1 as [|st1 st2 _ [f IH] Hpos Hstep]; [eauto|].
  destruct f as [|f]; cbn [guard_walk] in IH; rewrite (proj2 (Z.leb_gt _ _)) in IH by lia; [done|].
  rewrite Hstep in IH. simpl in IH. eauto.
Qed.

Lemma guard_walk_step wasm c fuel st root :
  guard_walk wasm c fuel st = Ret root -> pos st < end_offset c ->
  exists r, guard_step wasm c st = Ret r.
Proof.
  intros Hw Hpos. destruct fuel as [|f]; cbn [guard_walk] in Hw;
    rewrite (proj2 (Z.leb_gt _ _)) in Hw by lia; [done|].
  apply obind_ret in Hw as (r & ? & _). eauto.
Qed.

Lemma check_guard_tree wasm s e g l rv w :
  check_guard wasm s e g l rv = Ret w ->
  exists root, block_tree wasm s e g l rv = Ret root /\
    compute_wce (E := hook_log_code) None root 0 = Ret (w, false) /\ w < 0xFFFF.
Proof.
  unfold check_guard. intros H. apply obind_ret in H as (root & Hroot & H).
  apply obind_ret in H as ([w' f] & Hw & H). destruct f; [done|].
  destruct (Z.leb_spec 0xFFFF w'); [done|]. injection H as <-. eauto.
Qed.

(** ** Depth of the tree *)

Fixpoint height (b : WasmBlkInf) : Z :=
  let 'mkBlk _ _ _ cs := b in
  (fix go (cs : list WasmBlkInf) : Z :=
    match cs with [] => 0 | c :: cs => Z.max (1 + height c) (go cs) end) cs.

Lemma height_cons ib ic sb c cs :
  height (mkBlk ib ic sb (c :: cs)) = Z.max (1 + height c) (height (mkBlk ib ic sb cs)).
Proof. done. Qed.

Definition wce_post (b : WasmBlkInf) (level : Z) (r : Z * bool) : Prop :=
  is_u64 r.1 /\ (r.2 = false -> level + height b <= 16).

Lemma double_to_u64_safe {E} f : safe (E := E) is_u64 (double_to_u64 f).
Proof.
  unfold double_to_u64. destruct f; simpl; try done.
  set (t := if 0 <=? _ then _ else _).
  assert (0 <= t) by (subst t; case_match; [lia|apply Z.div_pos; lia]).
  repeat case_match; simpl; try done; unfold is_u64; lia.
Qed.

(** The sum over the children. *)
Fixpoint wce_children {E} (ib : Z) (level : Z) (cs : list WasmBlkInf) (acc : Z) (flag : bool)
  : outcome E (Z * bool) :=
  match cs with
  | [] => Ret (acc, flag)
  | c :: cs =>
    let* '(w, f) := compute_wce (Some ib) c (level + 1) in
    wce_children ib level cs (u64 (acc + w)) (flag || f)
  end.

Lemma compute_wce_eq {E} parent ib ic sb cs level :
  compute_wce (E := E) parent (mkBlk ib ic sb cs) level =
  if 16 <? level then Ret (0, true) else
  let* '(wce, flag) := wce_children ib level cs ic false in
  match parent with
  | None => Ret (wce, flag)
  | Some pib =>
    if pib =? 0 then Ret (wce, flag) else
    let multiplier := SFdiv 53 1024 (to_double ib) (to_double pib) in
    let* wce := double_to_u64 (SFmul 53 1024 (to_double wce) multiplier) in
    Ret (if SFltb (to_double wce) (to_double 1) then 1 else wce, flag)
  end.
Proof.
  cbn [compute_wce]. destruct (16 <? level); [done|]. f_equal.
  generalize false as flag. generalize ic as acc. induction cs as [|c cs IH]; intros acc flag; [done|].
  cbn [wce_children]. destruct (compute_wce _ c _) as [[w f]| | | |]; simpl; auto.
Qed.

Lemma wce_children_safe {E} ib ic sb cs level :
  Forall (fun b => forall parent level, 0 <= level ->
    safe (E := E) (wce_post b level) (compute_wce parent b level)) cs ->
  0 <= level <= 16 -> forall acc flag, is_u64 acc ->
  safe (E := E) (fun r => wce_post (mkBlk ib ic sb cs) level r /\ (r.2 = false -> flag = false))
    (wce_children ib level cs acc flag).
Proof.
  intros HF Hl. induction HF as [|c cs Hc _ IH]; intros acc flag Hacc.
  - simpl. unfold wce_post. simpl. split; [split; [done|lia]|done].
  - cbn [wce_children]. eapply safe_bind; [apply Hc; lia|]. intros [w f] [Hw Hf].
    eapply safe_mono; [apply IH, u64_range|]. intros [w' f'] [[Hw' Hf'] Hfl]. unfold wce_post.
    rewrite height_cons. simpl in *. split; [split; [done|]|]; intros Hf0; specialize (Hfl Hf0);
      apply orb_false_elim in Hfl as [-> ->]; [|done].
    specialize (Hf eq_refl). specialize (Hf' Hf0). lia.
Qed.

Lemma compute_wce_safe {E} b :
  tree_ok b -> forall parent level, 0 <= level -> safe (E := E) (wce_post b level) (compute_wce parent b level).
Proof.
  induction b as [ib ic sb cs IH] using WasmBlkInf_tree_ind. intros Hok parent level Hl.
  inversion Hok as [? ? ? ? Hib Hic Hcs]; subst. rewrite compute_wce_eq.
  destruct (Z.ltb_spec 16 level); [by split; [unfold is_u64; simpl; lia|]|].
  eapply safe_bind.
  - apply (wce_children_safe ib ic sb); [|lia|unfold is_u64, is_u32 in *; lia].
    eapply Forall_impl; [by apply Forall_and; split; [exact IH|exact Hcs]|].
    cbv beta. intros b [Hb Hb'] p l Hlv. by apply Hb.
  - intros [wce flag] [Hpost _]. destruct parent as [pib|]; [|done].
    destruct (pib =? 0); [done|]. cbv zeta. eapply safe_bind; [apply double_to_u64_safe|].
    intros w Hw. destruct Hpost as [_ Hf]. split; [|done]. simpl.
    destruct (SFltb _ _); [unfold is_u64; lia|done].
Qed.

(** ** Theorems on [check_guard] *)

Lemma block_tree_safe wasm s e g l rv :
  lenZ wasm < 2 ^ 31 -> 0 <= s <= lenZ wasm -> safe tree_ok (block_tree wasm s e g l rv).
Proof.
  intros Hlen Hs. unfold block_tree. apply guard_walk_safe; [done| |].
  - unfold guard_init, gst_ok. simpl. split_and!; try done; try lia.
  - unfold lenZ in *. simpl. lia.
Qed.

Lemma check_guard_safe wasm s e g l rv :
  lenZ wasm < 2 ^ 31 -> 0 <= s <= lenZ wasm ->
  safe (fun w => is_u64 w /\ w < 0xFFFF) (check_guard wasm s e g l rv).
Proof.
  intros Hlen Hs. unfold check_guard. eapply safe_bind; [by apply block_tree_safe|]. intros root Hroot.
  eapply safe_bind; [by apply compute_wce_safe|]. intros [w f] [Hw _].
  destruct f; [done|]. destruct (Z.leb_spec 0xFFFF w); [done|]. simpl. split; [done|lia].
Qed.

(** C2: on every byte string (shorter than 2^31, as an [int] offset needs) and
    from every offset inside it, [check_guard] terminates and never reads outside
    the binary: whatever the bytes are, every read the walk makes is behind a
    length test. *)
Theorem check_guard_terminates_in_bounds wasm s e g l rv :
  lenZ wasm < 2 ^ 31 -> 0 <= s <= lenZ wasm ->
  check_guard wasm s e g l rv <> Timeout /\ check_guard wasm s e g l rv <> Undef UB_oob.
Proof.
  intros Hlen Hs. pose proof (check_guard_safe wasm s e g l rv Hlen Hs) as H.
  by destruct (check_guard _ _ _ _ _ _); simpl in H; split; try congruence.
Qed.

Lemma check_guard_terminates_in_bounds_witness :
  lenZ [0x03; 0x40; 0x41] < 2 ^ 31 /\
  (check_guard [0x03; 0x40; 0x41] 0 0 0 0 0 <> Timeout /\
   check_guard [0x03; 0x40; 0x41] 0 0 0 0 0 <> Undef UB_oob).
Proof. split; [done|]. apply check_guard_terminates_in_bounds; vm_compute; split; congruence. Defined.

(** C1: every instruction of an accepted body is admissible. Each state the walk
    reaches before the end of the body stands at an instruction that is neither
    [call_indirect] nor [memory.grow]; a [call] there has a callee up to the last
    import; a [loop] starts with a guard call whose bound is not zero; and with
    the second rules update there is no [memory.copy] or [memory.fill]. *)
Theorem check_guard_admits_only wasm s e g l rv w st :
  check_guard wasm s e g l rv = Ret w ->
  guard_reach wasm (mkCfg g l rv (guard_end wasm e)) (guard_init s) st ->
  pos st < guard_end wasm e ->
  admissible wasm (mkCfg g l rv (guard_end wasm e)) (pos st).
Proof.
  intros Hc Hreach Hpos. apply check_guard_tree in Hc as (root & Hroot & _).
  destruct (guard_walk_reach _ _ _ _ _ _ Hroot Hreach) as [fuel Hw].
  destruct (guard_walk_step _ _ _ _ _ Hw) as [r Hr]; [done|].
  by apply guard_step_admissible in Hr.
Qed.

(** A body with a guarded loop: [loop; i32.const 1; i32.const 3; call 0; nop;
    end; end]. *)
Definition guarded_loop : list Z := [0x03; 0x40; 0x41; 0x01; 0x41; 0x03; 0x10; 0x00; 0x01; 0x0B; 0x0B].

Lemma check_guard_admits_only_witness :
  check_guard guarded_loop 0 0 0 0 0 = Ret 8 /\
  admissible guarded_loop (mkCfg 0 0 0 (guard_end guarded_loop 0)) 0.
Proof.
  split; [by vm_compute|].
  apply (check_guard_admits_only guarded_loop 0 0 0 0 0 8 (guard_init 0));
    [by vm_compute|apply guard_reach_refl|by vm_compute].
Defined.

(** The blocks of an accepted body nest at most 16 deep, and the worst case
    count returned is the one [compute_wce] gives for them, below 65535. *)
Theorem check_guard_accepted_depth wasm s e g l rv w :
  lenZ wasm < 2 ^ 31 -> 0 <= s <= lenZ wasm ->
  check_guard wasm s e g l rv = Ret w ->
  exists root, block_tree wasm s e g l rv = Ret root /\ height root <= 16 /\
    compute_wce (E := hook_log_code) None root 0 = Ret (w, false) /\ 0 <= w < 65535.
Proof.
  intros Hlen Hs Hc. apply check_guard_tree in Hc as (root & Hroot & Hw & Hlt). exists root.
  pose proof (block_tree_safe wasm s e g l rv Hlen Hs) as Hok. rewrite Hroot in Hok.
  pose proof (compute_wce_safe (E := hook_log_code) root Hok None 0 (Z.le_refl 0)) as Hpost.
  rewrite Hw in Hpost. destruct Hpost as [Hu Hh]. specialize (Hh eq_refl).
  unfold is_u64 in Hu. simpl in Hu. split_and!; try done; lia.
Qed.

Lemma check_guard_accepted_depth_witness :
  check_guard guarded_loop 0 0 0 0 0 = Ret 8 /\
  exists root, block_tree guarded_loop 0 0 0 0 0 = Ret root /\ height root <= 16 /\
    compute_wce (E := hook_log_code) None root 0 = Ret (8, false) /\ 0 <= 8 < 65535.
Proof.
  split; [by vm_compute|].
  apply (check_guard_accepted_depth guarded_loop 0 0 0 0 0); [by vm_compute|vm_compute; split; congruence|by vm_compute].
Defined.

(** ** Limits *)

(** [n] calls of the guard and the end of the body. *)
Definition guard_calls (n : nat) : list Z := concat (replicate n [0x10; 0x00]) ++ [0x0B].

(** The limit of guard calls is off by one. The message says that the limit
    is 1024; a body with 1025 guard calls is accepted and one with 1026 is not. *)
Theorem check_guard_guard_limit :
  check_guard (guard_calls 1025) 0 0 0 0 0 = Ret 1026 /\
  check_guard (guard_calls 1026) 0 0 0 0 0 = Exit LOG_GUARD_MISSING.
Proof. split; vm_compute; reflexivity. Qed.

(** What the blocks of a tree execute when each runs as often as its guard
    allows: the bounds are totals over the whole execution. *)
Fixpoint exact_count (b : WasmBlkInf) : Z :=
  let 'mkBlk ib ic _ cs := b in
  (fix go (cs : list WasmBlkInf) (acc : Z) : Z :=
    match cs with [] => acc | c :: cs => go cs (acc + exact_count c) end) cs (ib * ic).

(** A loop of bound 1 with three [nop]s in a loop of bound 3. *)
Definition nested_loops : list Z :=
  [0x03; 0x40] ++ [0x41; 0x01; 0x41; 0x03; 0x10; 0x00] ++
  [0x03; 0x40] ++ [0x41; 0x02; 0x41; 0x01; 0x10; 0x00] ++ replicate 3 0x01 ++ replicate 3 0x0B.

(** The count can be below what the guards allow. The loops of [nested_loops]
    may execute 12 instructions of the count, and [check_guard] returns 11: the
    share of the inner loop, 4 instructions times 1/3, is truncated to 1 before it
    is multiplied by 3. *)
Theorem check_guard_underestimates :
  exists root, block_tree nested_loops 0 0 0 0 0 = Ret root /\ exact_count root = 12 /\
    check_guard nested_loops 0 0 0 0 0 = Ret 11.
Proof. eexists. split_and!; [vm_compute; reflexivity..]. Qed.
