(* ===== verification/GuardValidate.v ===== *)
(** * Validation of a hook binary (src/src/ripple/app/hook/Guard.h)

    [validateGuards]: the first pass over the sections (imports, exports and
    functions), the resolution of [hook] and [cbak], and the second pass (types
    and code), which calls [check_guard] on every function body.

    The locals the passes fill are the record [sections]. Offsets and counts are
    [int]s: an [int] takes the low 32 bits of a LEB128, and an addition that
    leaves its range is undefined. A comparison with [wasm.size()] is unsigned,
    so a negative offset counts as past the end. Reads that no length test
    precedes, and uses of an empty [std::optional], are undefined here as well. *)

From Stdlib Require Import Ascii.
From S2P Require Import Prelude HookEnum Leb128 GuardCheck.

(** ** Small readers *)

Definition add_int {E} (a b : Z) : outcome E Z :=
  if (- 2 ^ 31 <=? a + b) && (a + b <? 2 ^ 31) then Ret (a + b) else Undef UB_signed.

(** [int x = parseLeb128(wasm, i, &i); CHECK_SHORT_HOOK();] *)
Definition read_int (wasm : list Z) (i : Z) : outcome hook_log_code (Z * Z) :=
  let* '(v, i) := LEB wasm i in
  let* _ := CHECK_SHORT_HOOK wasm i in
  Ret (s32 v, i).

(** [i += n; CHECK_SHORT_HOOK();] *)
Definition advance (wasm : list Z) (i n : Z) : outcome hook_log_code Z :=
  let* i := add_int i n in
  let* _ := CHECK_SHORT_HOOK wasm i in
  Ret i.

Fixpoint string_of_bytes (l : list Z) : string :=
  match l with
  | [] => EmptyString
  | b :: l => String (ascii_of_N (Z.to_N b)) (string_of_bytes l)
  end.

Definition slice {A} (l : list A) (i n : Z) : list A := take (Z.to_nat n) (drop (Z.to_nat i) l).

(** [wasm[i] == name[0] && wasm[i + 1] == name[1] && ...] *)
Fixpoint name_at (wasm : list Z) (i : Z) (name : list Z) : outcome hook_log_code bool :=
  match name with
  | [] => Ret true
  | c :: name =>
    let* b := vget wasm i in
    if b =? c then name_at wasm (i + 1) name else Ret false
  end.

(** ** First pass *)

Record sections := mkSections {
  hook_func_idx : option Z;
  cbak_func_idx : option Z;
  func_type_map : gmap Z Z;
  import_type_map : gmap Z (list (Z * string));
  guard_import_number : Z;
  last_import_number : Z;
  import_count : Z
}.

Definition no_sections : sections := mkSections None None ∅ ∅ (-1) (-1) 0.

(** One import: the offset after it, its type and its name. *)
Definition import_entry (wasm : list Z) (rulesVersion i : Z) : outcome hook_log_code (Z * Z * string) :=
  let* '(mod_length, i) := read_int wasm i in
  if (mod_length <? 1) || (lenZ wasm - i <? mod_length) then Exit LOG_IMPORT_MODULE_BAD else
  if negb (bool_decide (string_of_bytes (slice wasm i mod_length) = "env")) then Exit LOG_IMPORT_MODULE_ENV else
  let* i := advance wasm i mod_length in
  let* '(name_length, i) := read_int wasm i in
  if (name_length <? 1) || (lenZ wasm - i <? name_length) then Exit LOG_IMPORT_NAME_BAD else
  let import_name := string_of_bytes (slice wasm i name_length) in
  let* i := advance wasm i name_length in
  let* kind := vget wasm i in
  if 0x00 <? kind then Exit LOG_IMPORT_ILLEGAL else
  let* i := advance wasm i 1 in
  let* '(type_idx, i) := read_int wasm i in
  if negb (import_allowed rulesVersion import_name) then Exit LOG_IMPORT_ILLEGAL else
  Ret (i, type_idx, import_name).

(** [import_type_map[type_idx].emplace(func_upto, name)]; the import numbers grow,
    so the inner map in order is the list of its entries. *)
Definition add_import (m : gmap Z (list (Z * string))) (type_idx func_upto : Z) (name : string) :=
  <[type_idx := default [] (m !! type_idx) ++ [(func_upto, name)]]> m.

(** [guard] is [guard_import_number]. *)
Fixpoint import_loop (wasm : list Z) (rulesVersion : Z) (n : nat) (i func_upto guard : Z)
  (m : gmap Z (list (Z * string))) : outcome hook_log_code (Z * Z * gmap Z (list (Z * string))) :=
  match n with
  | O => Ret (func_upto, guard, m)
  | S n =>
    let* '(i, type_idx, name) := import_entry wasm rulesVersion i in
    let guard := if bool_decide (name = "_g") then func_upto else guard in
    import_loop wasm rulesVersion n i (func_upto + 1) guard (add_import m type_idx func_upto name)
  end.

Definition import_section (wasm : list Z) (rulesVersion i : Z) (st : sections) : outcome hook_log_code sections :=
  let* '(count, i) := read_int wasm i in
  if count <=? 0 then Exit LOG_IMPORTS_MISSING else
  let* '(func_upto, guard, m) :=
    import_loop wasm rulesVersion (Z.to_nat count) i 0 (guard_import_number st) (import_type_map st) in
  if guard =? -1 then Exit LOG_GUARD_IMPORT else
  Ret (mkSections (hook_func_idx st) (cbak_func_idx st) (func_type_map st) m guard (func_upto - 1) count).

(** The rest of an export of [hook] or [cbak]: its kind and its function. *)
Definition export_func (wasm : list Z) (i : Z) (err : hook_log_code) : outcome hook_log_code (Z * Z) :=
  let* i := advance wasm i 4 in
  let* kind := vget wasm i in
  if negb (kind =? 0) then Exit err else
  let* i := advance wasm i 1 in
  read_int wasm i.

(** One export: the offset after it and the two indices. *)
Definition export_entry (wasm : list Z) (i : Z) (hook cbak : option Z)
  : outcome hook_log_code (Z * option Z * option Z) :=
  let* '(name_len, i) := read_int wasm i in
  let* is_hook := if name_len =? 4 then name_at wasm i [0x68; 0x6F; 0x6F; 0x6B] else Ret false in
  if (is_hook : bool) then
    let* '(f, i) := export_func wasm i LOG_EXPORT_HOOK_FUNC in Ret (i, Some f, cbak)
  else
  let* is_cbak := if name_len =? 4 then name_at wasm i [0x63; 0x62; 0x61; 0x6B] else Ret false in
  if (is_cbak : bool) then
    let* '(f, i) := export_func wasm i LOG_EXPORT_CBAK_FUNC in Ret (i, hook, Some f)
  else
  let* skip := add_int name_len 1 in
  let* i := add_int i skip in
  let* '(_, i) := read_int wasm i in
  Ret (i, hook, cbak).

Fixpoint export_loop (wasm : list Z) (n : nat) (i : Z) (hook cbak : option Z)
  : outcome hook_log_code (option Z * option Z) :=
  match n with
  | O => Ret (hook, cbak)
  | S n =>
    let* '(i, hook, cbak) := export_entry wasm i hook cbak in
    export_loop wasm n i hook cbak
  end.

Definition export_section (wasm : list Z) (i : Z) (st : sections) : outcome hook_log_code sections :=
  let* '(count, i) := read_int wasm i in
  if count <=? 0 then Exit LOG_EXPORTS_MISSING else
  let* '(hook, cbak) := export_loop wasm (Z.to_nat count) i (hook_func_idx st) (cbak_func_idx st) in
  if bool_decide (hook = None) then Exit LOG_EXPORT_MISSING else
  Ret (mkSections hook cbak (func_type_map st) (import_type_map st)
         (guard_import_number st) (last_import_number st) (import_count st)).

Fixpoint function_loop (wasm : list Z) (n : nat) (i j : Z) (m : gmap Z Z) : outcome hook_log_code (gmap Z Z) :=
  match n with
  | O => Ret m
  | S n =>
    let* '(type_idx, i) := read_int wasm i in
    function_loop wasm n i (j + 1) (<[j := type_idx]> m)
  end.

Definition function_section (wasm : list Z) (i : Z) (st : sections) : outcome hook_log_code sections :=
  let* '(count, i) := read_int wasm i in
  if count <=? 0 then Exit LOG_FUNCS_MISSING else
  let* m := function_loop wasm (Z.to_nat count) i 0 (func_type_map st) in
  Ret (mkSections (hook_func_idx st) (cbak_func_idx st) m (import_type_map st)
         (guard_import_number st) (last_import_number st) (import_count st)).

(** The sections in order; [j] is the offset of the previous section and [last] its
    type. Types grow and fit a byte, so 256 sections are never reached. *)
Fixpoint first_pass (fuel : nat) (wasm : list Z) (rulesVersion i j last : Z) (st : sections)
  : outcome hook_log_code sections :=
  if lenZ wasm <=? u64 i then Ret st else
  match fuel with
  | O => Timeout
  | S fuel =>
    if j =? i then Exit LOG_WASM_PARSE_LOOP else
    let j := i in
    let* section_type := vget wasm i in
    if section_type =? 0 then Exit LOG_CUSTOM_SECTION_DISALLOWED else
    if section_type <=? last then Exit LOG_SECTIONS_OUT_OF_SEQUENCE else
    let* '(section_length, i) := read_int wasm (i + 1) in
    let* next_section := add_int i section_length in
    let* st :=
      if section_type =? 2 then import_section wasm rulesVersion i st
      else if section_type =? 7 then export_section wasm i st
      else if section_type =? 3 then function_section wasm i st
      else Ret st in
    first_pass fuel wasm rulesVersion next_section j section_type st
  end.

(** ** Second pass *)

Definition valid_type (t : Z) : bool := (t =? 0x7F) || (t =? 0x7E) || (t =? 0x7D) || (t =? 0x7C).

Definition api_signature (name : string) : outcome hook_log_code (list Z) :=
  match api_find import_whitelist name with
  | Some s => Ret s
  | None =>
    match api_find import_whitelist_1 name with Some s => Ret s | None => Undef UB_null end
  end.

(** The imports of a type: the signature of the first, when the others agree. *)
Fixpoint usage_signature (usage : list (Z * string)) (first_signature : option (list Z))
  : outcome hook_log_code (option (list Z)) :=
  match usage with
  | [] => Ret first_signature
  | (_, api_name) :: usage =>
    let* sig := api_signature api_name in
    match first_signature with
    | None => usage_signature usage (Some sig)
    | Some first => if bool_decide (sig = first) then usage_signature usage first_signature
                    else Exit LOG_FUNC_TYPE_INVALID
    end
  end.

(** Dereference of [first_signature]. *)
Definition get_signature (first_signature : option (list Z)) : outcome hook_log_code (list Z) :=
  match first_signature with Some s => Ret s | None => Undef UB_null end.

(** [is_hook] is [j == hook_type_idx]. *)
Fixpoint param_loop (wasm : list Z) (is_hook : bool) (sig : option (list Z)) (n : nat) (k i : Z)
  : outcome hook_log_code Z :=
  match n with
  | O => Ret i
  | S n =>
    let* '(param_type, i) := read_int wasm i in
    if negb (valid_type param_type) then Exit LOG_FUNC_PARAM_INVALID else
    let* _ :=
      if is_hook then
        if negb (param_type =? 0x7F) then Exit LOG_PARAM_HOOK_CBAK else Ret tt
      else
        let* s := get_signature sig in
        let* t := vget s (k + 1) in
        if negb (t =? param_type) then Exit LOG_FUNC_PARAM_INVALID else Ret tt in
    param_loop wasm is_hook sig n (k + 1) i
  end.

(** The only result type of a function type. *)
Definition result_type (wasm : list Z) (is_hook : bool) (sig : option (list Z)) (i : Z) : outcome hook_log_code Z :=
  let* '(result_type, i) := read_int wasm i in
  if negb (valid_type result_type) then Exit LOG_FUNC_RETURN_INVALID else
  if is_hook then
    if negb (result_type =? 0x7E) then Exit LOG_RETURN_HOOK_CBAK else Ret i
  else
    let* s := get_signature sig in
    let* t := vget s 0 in
    if negb (t =? result_type) then Exit LOG_FUNC_RETURN_INVALID else Ret i.

(** Function type [j]: the offset after it. *)
Definition type_entry (wasm : list Z) (st : sections) (hook_type_idx j i : Z) : outcome hook_log_code Z :=
  let is_hook := j =? hook_type_idx in
  let* form := vget wasm i in
  if negb (form =? 0x60) then Exit LOG_FUNC_TYPE_INVALID else
  let* i := advance wasm i 1 in
  let* sig :=
    match import_type_map st !! j with
    | Some usage => usage_signature usage None
    | None => if is_hook then Ret None else Exit LOG_FUNC_TYPE_INVALID
    end in
  let* '(param_count, i) := read_int wasm i in
  let* _ :=
    if is_hook then
      if negb (param_count =? 1) then Exit LOG_PARAM_HOOK_CBAK else Ret tt
    else
      let* s := get_signature sig in
      if negb (u64 param_count =? u64 (lenZ s - 1)) then Exit LOG_FUNC_TYPE_INVALID else Ret tt in
  let* i := param_loop wasm is_hook sig (Z.to_nat param_count) 0 i in
  let* '(result_count, i) := read_int wasm i in
  if negb (result_count =? 1) then Exit LOG_FUNC_RETURN_COUNT else
  result_type wasm is_hook sig i.

Fixpoint type_loop (wasm : list Z) (st : sections) (hook_type_idx : Z) (n : nat) (j i : Z)
  : outcome hook_log_code unit :=
  match n with
  | O => Ret tt
  | S n =>
    let* i := type_entry wasm st hook_type_idx j i in
    type_loop wasm st hook_type_idx n (j + 1) i
  end.

Definition type_section (wasm : list Z) (st : sections) (hook_type_idx i : Z) : outcome hook_log_code unit :=
  let* '(type_count, i) := read_int wasm i in
  type_loop wasm st hook_type_idx (Z.to_nat type_count) 0 i.

Fixpoint local_loop (wasm : list Z) (n : nat) (i : Z) : outcome hook_log_code Z :=
  match n with
  | O => Ret i
  | S n =>
    let* '(_, i) := read_int wasm i in
    let* t := vget wasm i in
    if negb ((0x7C <=? t) && (t <=? 0x7F)) then Exit LOG_TYPE_INVALID else
    let* i := advance wasm i 1 in
    local_loop wasm n i
  end.

(** The header of a function: where its expression starts and where it ends. *)
Definition code_header (wasm : list Z) (i : Z) : outcome hook_log_code (Z * Z) :=
  let* '(code_size, i) := read_int wasm i in
  let* code_end := add_int i code_size in
  let* '(local_count, i) := read_int wasm i in
  let* i := local_loop wasm (Z.to_nat local_count) i in
  Ret (i, code_end).

(** Function [j] on: the counts of [hook] and [cbak]. *)
Fixpoint code_loop (wasm : list Z) (rulesVersion : Z) (st : sections) (n : nat) (j i maxHook maxCbak : Z)
  : outcome hook_log_code (Z * Z) :=
  match n with
  | O => Ret (maxHook, maxCbak)
  | S n =>
    let* '(i, code_end) := code_header wasm i in
    if i =? code_end then code_loop wasm rulesVersion st n (j + 1) i maxHook maxCbak else
    let* valid := check_guard wasm i code_end (guard_import_number st) (last_import_number st) rulesVersion in
    let '(maxHook, maxCbak) :=
      if bool_decide (hook_func_idx st = Some j) then (s64 valid, maxCbak)
      else if bool_decide (cbak_func_idx st = Some j) then (maxHook, s64 valid)
      else (maxHook, maxCbak) in
    code_loop wasm rulesVersion st n (j + 1) code_end maxHook maxCbak
  end.

Definition code_section (wasm : list Z) (rulesVersion : Z) (st : sections) (i maxHook maxCbak : Z)
  : outcome hook_log_code (Z * Z) :=
  let* '(func_count, i) := read_int wasm i in
  code_loop wasm rulesVersion st (Z.to_nat func_count) 0 i maxHook maxCbak.

(** The second pass goes over the sections of the first. *)
Fixpoint second_pass (fuel : nat) (wasm : list Z) (rulesVersion : Z) (st : sections)
  (hook_type_idx i maxHook maxCbak : Z) : outcome hook_log_code (Z * Z) :=
  if lenZ wasm <=? u64 i then Ret (maxHook, maxCbak) else
  match fuel with
  | O => Timeout
  | S fuel =>
    let* section_type := vget wasm i in
    let* '(section_length, i) := read_int wasm (i + 1) in
    let* next_section := add_int i section_length in
    let* '(maxHook, maxCbak) :=
      if section_type =? 1 then
        let* _ := type_section wasm st hook_type_idx i in Ret (maxHook, maxCbak)
      else if section_type =? 10 then code_section wasm rulesVersion st i maxHook maxCbak
      else Ret (maxHook, maxCbak) in
    second_pass fuel wasm rulesVersion st hook_type_idx next_section maxHook maxCbak
  end.

(** ** The function *)

Definition wasm_header : list Z := [0x00; 0x61; 0x73; 0x6D; 0x01; 0x00; 0x00; 0x00].

(** The indices of [hook] and [cbak] among the functions of the binary, and the
    type of [hook]. *)
Definition resolve (st : sections) : outcome hook_log_code (sections * Z) :=
  let* hook := match hook_func_idx st with Some f => add_int f (- import_count st) | None => Undef UB_null end in
  let* cbak :=
    match cbak_func_idx st with
    | Some f => let* f := add_int f (- import_count st) in Ret (Some f)
    | None => Ret None
    end in
  match func_type_map st !! hook with
  | None => Exit LOG_FUNC_TYPELESS
  | Some hook_type_idx =>
    let* _ :=
      match cbak with
      | None => Ret tt
      | Some f =>
        match func_type_map st !! f with
        | None => Exit LOG_FUNC_TYPELESS
        | Some t => if negb (t =? hook_type_idx) then Exit LOG_HOOK_CBAK_DIFF_TYPES else Ret tt
        end
      end in
    Ret (mkSections (Some hook) cbak (func_type_map st) (import_type_map st)
           (guard_import_number st) (last_import_number st) (import_count st), hook_type_idx)
  end.

Definition SECTION_FUEL : nat := 256.

Definition validateGuards (wasm : list Z) (rulesVersion : Z) : outcome hook_log_code (Z * Z) :=
  if lenZ wasm <? 63 then Exit LOG_WASM_TOO_SMALL else
  if negb (bool_decide (take 8 wasm = wasm_header)) then Exit LOG_WASM_BAD_MAGIC else
  let* st := first_pass SECTION_FUEL wasm rulesVersion 8 0 0 no_sections in
  let* '(st, hook_type_idx) := resolve st in
  let* '(maxHook, maxCbak) := second_pass SECTION_FUEL wasm rulesVersion st hook_type_idx 8 0 0 in
  Ret (u64 maxHook, u64 maxCbak).
