(* ===== verification/GuardValidateFacts.v ===== *)
(** * What [validateGuards] guarantees

    Termination of the two passes, the bounds of the returned counts, and what an
    accepted binary satisfies: its imports, its function types and its function
    bodies. *)

From S2P Require Import Prelude HookEnum Leb128 GuardCheck GuardFacts GuardValidate.

Section Validate.
Context (wasm : list Z) (Hlen : lenZ wasm < 2 ^ 31).

(** ** Offsets *)

Definition inside (i : Z) : Prop := 0 <= i < lenZ wasm.

Lemma CHECK_SHORT_HOOK_halts i : is_s32 i -> halts (fun _ => inside i) (CHECK_SHORT_HOOK wasm i).
Proof.
  intros Hi. unfold CHECK_SHORT_HOOK, inside, is_s32 in *.
  destruct (Z.leb_spec (lenZ wasm) (u64 i)) as [|Hlt]; simpl; [done|].
  destruct (Z_lt_le_dec i 0) as [Hneg|]; [|rewrite u64_small in Hlt; lia].
  unfold u64 in Hlt. rewrite <- (Z.mod_unique_pos i (2 ^ 64) (-1) (i + 2 ^ 64)) in Hlt; lia.
Qed.

Lemma add_int_halts {E} a b : halts (E := E) (fun c => c = a + b /\ is_s32 c) (add_int a b).
Proof. unfold add_int, is_s32. destruct (_ && _) eqn:E'; simpl; [lia|done]. Qed.

Lemma leb_loop_halts {E} rest val shift i e :
  is_s32 e -> halts (E := E) (fun r => is_s32 r.2) (leb_loop rest val shift i e).
Proof.
  revert val shift i. induction rest as [|b rest IH]; intros val shift i He; [done|].
  cbn [leb_loop]. destruct (64 <=? shift); [done|]. cbv zeta.
  destruct (_ <? val); [done|]. destruct (negb _); [|apply s32_range].
  destruct rest; [done|]. by apply IH.
Qed.

Lemma read_int_halts i : is_s32 i -> halts (fun r => is_s32 r.1 /\ inside r.2) (read_int wasm i).
Proof.
  intros Hi. unfold read_int, LEB. eapply (halts_bind (fun r : Z * Z => is_s32 r.2)).
  - unfold parseLeb128. destruct (_ <? _); [by apply leb_loop_halts|done].
  - intros [v i'] Hi'. eapply halts_bind; [by apply CHECK_SHORT_HOOK_halts|].
    intros ? Hin. split; [apply s32_range|done].
Qed.

Lemma advance_halts i n : halts (fun i' => inside i' /\ i' = i + n) (advance wasm i n).
Proof.
  unfold advance. eapply halts_bind; [apply add_int_halts|]. intros c [Hc Hs].
  eapply halts_bind; [by apply CHECK_SHORT_HOOK_halts|]. by intros.
Qed.

Lemma inside_s32 i : inside i -> is_s32 i.
Proof. unfold inside, is_s32. lia. Qed.

(** ** Readers of the two passes *)

Local Ltac step_halts :=
  match goal with
  | |- halts _ (obind (read_int _ _) _) =>
    eapply halts_bind; [apply read_int_halts; auto using inside_s32|intros [? ?] [? ?]]
  | |- halts _ (obind (advance _ _ _) _) => eapply halts_bind; [apply advance_halts|intros ? [? ?]]
  | |- halts _ (obind (add_int _ _) _) => eapply halts_bind; [apply add_int_halts|intros ? [? ?]]
  | |- halts _ (obind (vget _ _) _) => eapply halts_bind; [apply vget_halts|intros ? [? ?]]
  | |- halts _ (if ?b then _ else _) => destruct b eqn:?
  | |- halts _ (Exit _) => exact I
  | |- halts _ (Undef _) => exact I
  | |- halts _ (Ret _) => simpl
  end.
Local Ltac walk_halts := repeat (cbn [fst snd] in *; step_halts).

Lemma import_entry_halts rv i : inside i -> halts (fun r => inside r.1.1) (import_entry wasm rv i).
Proof. intros Hi. unfold import_entry. walk_halts; by simpl in *. Qed.

Lemma import_loop_halts rv n i f g m : inside i -> halts (fun _ => True) (import_loop wasm rv n i f g m).
Proof.
  revert i f g m. induction n as [|n IH]; intros i f g m Hi; [done|]. cbn [import_loop].
  eapply halts_bind; [by apply import_entry_halts|]. intros [[i' t] nm] Hi'. by apply IH.
Qed.

Lemma import_section_halts rv i st : inside i -> halts (fun _ => True) (import_section wasm rv i st).
Proof.
  intros Hi. unfold import_section. walk_halts.
  eapply halts_bind; [by apply import_loop_halts|]. intros [[f g] m] _. by walk_halts.
Qed.

Lemma name_at_halts i nm : halts (fun _ => True) (name_at wasm i nm).
Proof. revert i. induction nm as [|c nm IH]; intros i; [done|]. cbn [name_at]. walk_halts; [apply IH|done]. Qed.

Lemma name_test_halts (b : bool) i nm : halts (fun _ => True) (if b then name_at wasm i nm else Ret false).
Proof. destruct b; [apply name_at_halts|done]. Qed.

Lemma export_func_halts i err : inside i -> halts (fun r => inside r.2) (export_func wasm i err).
Proof.
  intros Hi. unfold export_func. walk_halts.
  eapply halts_mono; [apply read_int_halts; auto using inside_s32|]. by intros ? [? ?].
Qed.

Lemma export_entry_halts i hook cbak : inside i -> halts (fun r => inside r.1.1) (export_entry wasm i hook cbak).
Proof.
  intros Hi. unfold export_entry. walk_halts.
  eapply halts_bind; [apply name_test_halts|]. intros [] _.
  - eapply halts_bind; [by apply export_func_halts|]. by intros [? ?].
  - eapply halts_bind; [apply name_test_halts|]. intros [] _; [|by walk_halts].
    eapply halts_bind; [by apply export_func_halts|]. by intros [? ?].
Qed.

Lemma export_loop_halts n i hook cbak : inside i -> halts (fun _ => True) (export_loop wasm n i hook cbak).
Proof.
  revert i hook cbak. induction n as [|n IH]; intros i hook cbak Hi; [done|]. cbn [export_loop].
  eapply halts_bind; [by apply export_entry_halts|]. intros [[i' h] c] Hi'. by apply IH.
Qed.

Lemma export_section_halts i st : inside i -> halts (fun _ => True) (export_section wasm i st).
Proof.
  intros Hi. unfold export_section. walk_halts.
  eapply halts_bind; [by apply export_loop_halts|]. intros [h c] _. by walk_halts.
Qed.

Lemma function_loop_halts n i j m : inside i -> halts (fun _ => True) (function_loop wasm n i j m).
Proof.
  revert i j m. induction n as [|n IH]; intros i j m Hi; [done|]. cbn [function_loop].
  walk_halts. by apply IH.
Qed.

Lemma function_section_halts i st : inside i -> halts (fun _ => True) (function_section wasm i st).
Proof.
  intros Hi. unfold function_section. walk_halts.
  eapply halts_bind; [by apply function_loop_halts|]. by intros.
Qed.

(** ** The chain of sections *)

(** At most [n] sections from offset [i] to the end of the binary. *)
Inductive section_chain : nat -> Z -> Prop :=
| section_chain_end n i : lenZ wasm <= u64 i -> section_chain n i
| section_chain_next n i len i' next :
    read_int wasm (i + 1) = Ret (len, i') -> add_int (E := hook_log_code) i' len = Ret next ->
    section_chain n next -> section_chain (S n) i.

Lemma first_pass_chain rv fuel i j last st st' :
  first_pass fuel wasm rv i j last st = Ret st' -> section_chain fuel i.
Proof.
  revert i j last st. induction fuel as [|fuel IH]; intros i j last st; cbn [first_pass];
    destruct (Z.leb_spec (lenZ wasm) (u64 i)); [by constructor|done|by constructor|].
  intros H'. run_inv H'. eapply section_chain_next; eauto.
Qed.

Lemma first_pass_halts rv (Hb : bytesOk wasm) fuel i j last st :
  is_s32 i -> 255 - last < Z.of_nat fuel -> last < 256 -> halts (fun _ => True) (first_pass fuel wasm rv i j last st).
Proof.
  revert i j last st. induction fuel as [|fuel IH]; intros i j last st Hi Hf Hl; cbn [first_pass];
    destruct (Z.leb_spec (lenZ wasm) (u64 i)); [done|lia|done|].
  destruct (j =? i); [done|]. cbv zeta.
  eapply halts_bind; [apply vget_halts|]. intros t [Ht Hin].
  assert (0 <= t < 256) by (eapply Forall_lookup_1 in Ht; [|exact Hb]; by unfold is_u8 in Ht).
  destruct (t =? 0); [done|]. destruct (Z.leb_spec t last); [done|].
  eapply halts_bind; [apply read_int_halts; unfold is_s32 in *; lia|]. intros [len i'] [_ Hi'].
  walk_halts. eapply (halts_bind (fun _ => True)).
  - repeat case_match; auto using import_section_halts, export_section_halts, function_section_halts.
    done.
  - intros st' _. apply IH; [done|lia|lia].
Qed.

(** ** The second pass *)

Lemma usage_signature_halts us sig : halts (fun _ => True) (usage_signature us sig).
Proof.
  revert sig. induction us as [|[k nm] us IH]; intros sig; [done|]. cbn [usage_signature].
  eapply (halts_bind (fun _ => True)); [unfold api_signature; by repeat case_match|].
  intros s _. destruct sig; [walk_halts|]; apply IH.
Qed.

Lemma get_signature_halts sig : halts (fun _ => True) (get_signature sig).
Proof. by destruct sig. Qed.

Lemma param_loop_halts hk sig n k i : inside i -> halts inside (param_loop wasm hk sig n k i).
Proof.
  revert k i. induction n as [|n IH]; intros k i Hi; [done|]. cbn [param_loop]. walk_halts.
  eapply (halts_bind (fun _ => True)); [|intros ? _; by apply IH].
  destruct hk; [by walk_halts|]. eapply halts_bind; [apply get_signature_halts|]. intros sg _. by walk_halts.
Qed.

Lemma result_type_halts hk sig i : inside i -> halts inside (result_type wasm hk sig i).
Proof.
  intros Hi. unfold result_type. walk_halts; try done.
  eapply halts_bind; [apply get_signature_halts|]. intros sg _. by walk_halts.
Qed.

Lemma type_entry_halts st t j i : inside i -> halts inside (type_entry wasm st t j i).
Proof.
  intros Hi. unfold type_entry. cbv zeta. walk_halts.
  eapply (halts_bind (fun _ => True)).
  { destruct (import_type_map st !! j); [apply usage_signature_halts|by destruct (j =? t)]. }
  intros sig _. walk_halts. eapply (halts_bind (fun _ => True)).
  { destruct (j =? t); [by walk_halts|]. eapply halts_bind; [apply get_signature_halts|].
    intros sg _. by walk_halts. }
  intros ? _. eapply halts_bind; [by apply param_loop_halts|]. intros i' Hi'. cbv beta. walk_halts.
  by apply result_type_halts.
Qed.

Lemma type_loop_halts st t n j i : inside i -> halts (fun _ => True) (type_loop wasm st t n j i).
Proof.
  revert j i. induction n as [|n IH]; intros j i Hi; [done|]. cbn [type_loop].
  eapply halts_bind; [by apply type_entry_halts|]. intros i' Hi'. by apply IH.
Qed.

Lemma type_section_halts st t i : inside i -> halts (fun _ => True) (type_section wasm st t i).
Proof. intros Hi. unfold type_section. walk_halts. by apply type_loop_halts. Qed.

Lemma local_loop_halts n i : inside i -> halts inside (local_loop wasm n i).
Proof.
  revert i. induction n as [|n IH]; intros i Hi; [done|]. cbn [local_loop]. walk_halts. by apply IH.
Qed.

Lemma code_header_halts i : is_s32 i -> halts (fun r => inside r.1 /\ is_s32 r.2) (code_header wasm i).
Proof.
  intros Hi. unfold code_header. walk_halts.
  eapply halts_bind; [by apply local_loop_halts|]. by intros.
Qed.

(** A count that [check_guard] can return. *)
Definition count_ok (w : Z) : Prop := 0 <= w < 65535.

Lemma code_loop_halts rv st n j i h c :
  is_s32 i -> count_ok h -> count_ok c ->
  halts (fun r => count_ok r.1 /\ count_ok r.2) (code_loop wasm rv st n j i h c).
Proof.
  revert j i h c. induction n as [|n IH]; intros j i h c Hi Hh Hc; [done|]. cbn [code_loop].
  eapply halts_bind; [by apply code_header_halts|]. intros [s e] [Hs He]. cbn [fst snd] in *.
  destruct (s =? e); [apply IH; auto using inside_s32|].
  eapply halts_bind; [apply safe_halts, check_guard_safe; [done|unfold inside in Hs; lia]|].
  intros w [Hw Hw']. assert (count_ok (s64 w)).
  { unfold count_ok, is_u64 in *. rewrite s64_small; lia. }
  repeat case_match; simplify_eq; by apply IH.
Qed.

Lemma second_pass_halts rv st t n fuel i h c :
  section_chain n i -> (n <= fuel)%nat -> is_s32 i -> count_ok h -> count_ok c ->
  halts (fun r => count_ok r.1 /\ count_ok r.2) (second_pass fuel wasm rv st t i h c).
Proof.
  intros Hch. revert fuel h c. induction Hch as [n i Hend|n i len i' next Hr Ha Hch IH];
    intros fuel h c Hf Hi Hh Hc; destruct fuel as [|fuel]; cbn [second_pass];
    destruct (Z.leb_spec (lenZ wasm) (u64 i)); try done; try lia.
  eapply halts_bind; [apply vget_halts|]. intros ty [_ Hin].
  rewrite Hr. cbn [obind]. rewrite Ha. cbn [obind].
  pose proof (read_int_halts (i + 1)) as Hri. rewrite Hr in Hri.
  destruct Hri as [_ Hi']; [unfold is_s32 in *; lia|].
  pose proof (add_int_halts (E := hook_log_code) i' len) as Hai. rewrite Ha in Hai. destruct Hai as [_ Hnext].
  eapply (halts_bind (fun r : Z * Z => count_ok r.1 /\ count_ok r.2)).
  - destruct (ty =? 1); [eapply halts_bind; [by apply type_section_halts|done]|].
    destruct (ty =? 10); [|done]. unfold code_section. walk_halts. apply code_loop_halts; auto using inside_s32.
  - intros [h' c'] [Hh' Hc']. apply IH; [lia|done..].
Qed.

Lemma resolve_halts st : halts (fun _ => True) (resolve st).
Proof.
  unfold resolve. eapply (halts_bind (fun _ => True)).
  { destruct (hook_func_idx st); [|done]. eapply halts_mono; [apply add_int_halts|done]. }
  intros h _. eapply (halts_bind (fun _ => True)).
  { destruct (cbak_func_idx st); [|done]. eapply halts_bind; [apply add_int_halts|done]. }
  intros c _. destruct (func_type_map st !! h); [|done].
  eapply (halts_bind (fun _ => True)); [by repeat case_match|done].
Qed.

Lemma validateGuards_halts rv : bytesOk wasm ->
  halts (fun r => count_ok r.1 /\ count_ok r.2) (validateGuards wasm rv).
Proof.
  intros Hb. unfold validateGuards. walk_halts; try done.
  pose proof (first_pass_halts rv Hb SECTION_FUEL 8 0 0 no_sections) as H1.
  destruct (first_pass _ _ _ _ _ _ _) as [st| | | |] eqn:Hfp; try done; [|by apply H1].
  cbn [obind]. eapply halts_bind; [apply resolve_halts|]. intros [st' t] _.
  apply first_pass_chain in Hfp. eapply halts_bind; [by eapply second_pass_halts|].
  intros [h c] [Hh Hc]. unfold count_ok in *. cbn [fst snd] in *. simpl. rewrite !u64_small by lia. done.
Qed.
End Validate.

(** ** What an accepted binary contains *)

(** From offset [o] the sections lead to one of type [t] with contents at [i]. *)
Inductive section_at (wasm : list Z) (t i : Z) : Z -> Prop :=
| section_at_here o len :
    u64 o < lenZ wasm -> vget (E := hook_log_code) wasm o = Ret t -> read_int wasm (o + 1) = Ret (len, i) ->
    section_at wasm t i o
| section_at_later o len i' next :
    u64 o < lenZ wasm -> read_int wasm (o + 1) = Ret (len, i') ->
    add_int (E := hook_log_code) i' len = Ret next -> section_at wasm t i next -> section_at wasm t i o.

(** Among [n] functions from offset [i] there is one with its expression from [s]
    to [e]. *)
Inductive function_at (wasm : list Z) (s e : Z) : nat -> Z -> Prop :=
| function_at_here n i : code_header wasm i = Ret (s, e) -> function_at wasm s e (S n) i
| function_at_later n i s' e' :
    code_header wasm i = Ret (s', e') -> function_at wasm s e n e' -> function_at wasm s e (S n) i.

Lemma code_loop_checks wasm rv st s e n i :
  function_at wasm s e n i -> forall j h c r, code_loop wasm rv st n j i h c = Ret r ->
  s = e \/ exists w, check_guard wasm s e (guard_import_number st) (last_import_number st) rv = Ret w.
Proof.
  induction 1 as [n i Hh|n i s' e' Hh _ IH]; intros j h c r; cbn [code_loop]; rewrite Hh; cbn [obind].
  - destruct (Z.eqb_spec s e); [by left|]. intros H. apply obind_ret in H as (w & Hw & _). eauto.
  - destruct (Z.eqb_spec s' e') as [->|]; [apply IH|].
    intros H. apply obind_ret in H as (w & Hw & H). case_match. by eapply IH.
Qed.

Lemma second_pass_code wasm rv st ty i o :
  section_at wasm 10 i o -> forall fuel h c r, second_pass fuel wasm rv st ty o h c = Ret r ->
  exists h c r, code_section wasm rv st i h c = Ret r.
Proof.
  induction 1 as [o len Ho Ht Hr|o len i' next Ho Hr Ha _ IH]; intros fuel h c r; destruct fuel as [|fuel];
    cbn [second_pass]; rewrite (proj2 (Z.leb_gt _ _)) by done; try done.
  - rewrite Ht, Hr. cbn. intros H. apply obind_ret in H as (nx & _ & H).
    apply obind_ret in H as (hc & Hc & _). eauto.
  - intros H. apply obind_ret in H as (t & _ & H). rewrite Hr in H. cbn [obind] in H.
    rewrite Ha in H. cbn [obind] in H. apply obind_ret in H as ([h' c'] & _ & H). by eapply IH.
Qed.

Lemma second_pass_types wasm rv st ty i o :
  section_at wasm 1 i o -> forall fuel h c r, second_pass fuel wasm rv st ty o h c = Ret r ->
  type_section wasm st ty i = Ret tt.
Proof.
  induction 1 as [o len Ho Ht Hr|o len i' next Ho Hr Ha _ IH]; intros fuel h c r; destruct fuel as [|fuel];
    cbn [second_pass]; rewrite (proj2 (Z.leb_gt _ _)) by done; try done.
  - rewrite Ht, Hr. cbn. intros H. apply obind_ret in H as (nx & _ & H).
    apply obind_ret in H as (hc & Hc & _). by apply obind_ret in Hc as ([] & ? & _).
  - intros H. apply obind_ret in H as (t & _ & H). rewrite Hr in H. cbn [obind] in H.
    rewrite Ha in H. cbn [obind] in H. apply obind_ret in H as ([h' c'] & _ & H). by eapply IH.
Qed.

(** The stages of an accepting run. *)
Lemma validateGuards_stages wasm rv r :
  validateGuards wasm rv = Ret r ->
  exists st st' ty r',
    first_pass SECTION_FUEL wasm rv 8 0 0 no_sections = Ret st /\ resolve st = Ret (st', ty) /\
    second_pass SECTION_FUEL wasm rv st' ty 8 0 0 = Ret r'.
Proof.
  unfold validateGuards. intros H. run_inv H. simplify_eq. eauto 10.
Qed.

(** Resolution only changes the two function indices. *)
Lemma resolve_fields st st' ty :
  resolve st = Ret (st', ty) ->
  import_type_map st' = import_type_map st /\ guard_import_number st' = guard_import_number st /\
  last_import_number st' = last_import_number st /\ func_type_map st' = func_type_map st /\
  exists h, hook_func_idx st = Some (h + import_count st) /\ func_type_map st !! h = Some ty.
Proof.
  unfold resolve, add_int. intros H. apply obind_ret in H as (h & Hh & H). apply obind_ret in H as (c & Hc & H).
  destruct (func_type_map st !! h) as [t|] eqn:Ht; [|done].
  apply obind_ret in H as (? & _ & H). simplify_eq. cbn. split_and!; try done.
  destruct (hook_func_idx st) as [f|]; [|done]. exists h. split; [|done].
  destruct (_ && _); simplify_eq. f_equal. lia.
Qed.

(** ** Imports *)

(** Imports recorded below number [bound]: numbered within it and allowed. *)
Definition imports_below (rv bound : Z) (m : gmap Z (list (Z * string))) : Prop :=
  forall t us, m !! t = Some us ->
    us <> [] /\ Forall (fun p => 0 <= p.1 < bound /\ import_allowed rv p.2 = true) us.

Definition imported (m : gmap Z (list (Z * string))) (k : Z) (name : string) : Prop :=
  exists t us, m !! t = Some us /\ (k, name) ∈ us.

Definition sections_ok (rv : Z) (st : sections) : Prop :=
  imports_below rv (import_count st) (import_type_map st) /\
  last_import_number st = import_count st - 1 /\
  (guard_import_number st = -1 /\ import_count st = 0 \/
   imported (import_type_map st) (guard_import_number st) "_g").

Lemma add_import_below rv f m t nm :
  0 <= f -> imports_below rv f m -> import_allowed rv nm = true ->
  imports_below rv (f + 1) (add_import m t f nm).
Proof.
  intros Hf Hm Hnm t' us. unfold add_import. intros [[<- <-]|[Hne Hus]]%lookup_insert_Some.
  - split; [by destruct (default [] (m !! t))|]. apply Forall_app_2; [|repeat constructor; simpl; (done || lia)].
    destruct (m !! t) as [us|] eqn:E; [|done]. apply Hm in E as [_ E]. simpl.
    eapply Forall_impl; [exact E|]. cbv beta. intros p [??]. split; [lia|done].
  - apply Hm in Hus as [? Hus]. split; [done|]. eapply Forall_impl; [exact Hus|].
    cbv beta. intros p [??]. split; [lia|done].
Qed.

Lemma add_import_imported m t f nm : imported (add_import m t f nm) f nm.
Proof.
  exists t. eexists. unfold add_import. rewrite lookup_insert_eq. split; [done|].
  apply elem_of_app. right. by apply list_elem_of_singleton.
Qed.

Lemma add_import_keeps m t f nm k nm' : imported m k nm' -> imported (add_import m t f nm) k nm'.
Proof.
  intros (t' & us & Hus & Hin). unfold add_import. destruct (decide (t = t')) as [->|Hne].
  - exists t'. eexists. rewrite lookup_insert_eq. split; [done|]. rewrite Hus. simpl.
    apply elem_of_app. by left.
  - exists t', us. by rewrite lookup_insert_ne.
Qed.

Lemma import_loop_ok wasm rv n : forall i f g m f' g' m',
  0 <= f -> imports_below rv f m -> (g = -1 \/ imported m g "_g") ->
  import_loop wasm rv n i f g m = Ret (f', g', m') ->
  f' = f + Z.of_nat n /\ imports_below rv f' m' /\ (g' = -1 \/ imported m' g' "_g").
Proof.
  induction n as [|n IH]; intros i f g m f' g' m' Hf Hm Hg; cbn [import_loop].
  - intros [= <- <- <-]. split_and!; [lia|done..].
  - intros H. apply obind_ret in H as ([[i' t] nm] & Hi & H). cbv beta iota in H.
    assert (import_allowed rv nm = true) as Hall.
    { unfold import_entry in Hi. run_inv Hi. simplify_eq. by apply negb_false_iff. }
    apply IH in H; [|lia|by apply add_import_below|].
    + destruct H as (-> & ? & ?). split_and!; [lia|done..].
    + case_bool_decide; subst; [right; apply add_import_imported|].
      destruct Hg as [->|Hg]; [by left|right; by apply add_import_keeps].
Qed.

Lemma no_sections_ok rv : sections_ok rv no_sections.
Proof. split_and!; [by intros t us ?|done|by left]. Qed.

Lemma first_pass_ok wasm rv fuel : forall i j last st st',
  sections_ok rv st -> 0 <= last -> (last < 2 -> st = no_sections) ->
  first_pass fuel wasm rv i j last st = Ret st' -> sections_ok rv st'.
Proof.
  induction fuel as [|fuel IH]; intros i j last st st' Hst Hlast H0; cbn [first_pass];
    destruct (lenZ wasm <=? u64 i); [by intros [= <-]|done|by intros [= <-]|].
  intros H. destruct (j =? i); [done|]. cbv zeta in H.
  apply obind_ret in H as (t & _ & H). destruct (t =? 0) eqn:Ht0; [done|].
  destruct (Z.leb_spec t last); [done|].
  apply obind_ret in H as ([len i'] & _ & H). cbv beta iota in H. apply obind_ret in H as (nx & _ & H).
  apply obind_ret in H as (st1 & Hst1 & H).
  eapply IH; [| | |exact H]; [|lia|].
  - destruct (Z.eqb_spec t 2) as [->|].
    + unfold import_section in Hst1. rewrite H0 in Hst1 by lia. run_inv Hst1. simplify_eq.
      rename select (import_loop _ _ _ _ _ _ _ = _) into Hl. apply import_loop_ok in Hl; [|lia|done|by left].
      destruct Hl as (-> & Hm & Hg). destruct Hg as [->|Hg]; [done|].
      rename select ((_ <=? 0) = false) into Hc. apply Z.leb_gt in Hc.
      rewrite Z2Nat.id in * by lia. split_and!; simpl; [done|lia|by right].
    + destruct (t =? 7); [|destruct (t =? 3)]; unfold export_section, function_section in Hst1;
        run_inv Hst1; by simplify_eq.
  - intros Hlt. assert (t = 1) as -> by lia. simpl in Hst1. simplify_eq. apply H0. lia.
Qed.

(** ** Function types *)

(** [n] value types from offset [i], and the offset after them. *)
Inductive value_types (wasm : list Z) : Z -> list Z -> Z -> Prop :=
| value_types_nil i : value_types wasm i [] i
| value_types_cons i t i' ts i'' :
    read_int wasm i = Ret (t, i') -> value_types wasm i' ts i'' -> value_types wasm i (t :: ts) i''.

(** A function type at [i] with parameters [ps] and the single result [r]. *)
Definition func_type (wasm : list Z) (i : Z) (ps : list Z) (r : Z) (i' : Z) : Prop :=
  exists i1 i2 i3, vget (E := hook_log_code) wasm i = Ret 0x60 /\
    read_int wasm (i + 1) = Ret (lenZ ps, i1) /\ value_types wasm i1 ps i2 /\
    read_int wasm i2 = Ret (1, i3) /\ read_int wasm i3 = Ret (r, i').

(** Type [j] of the types from offset [i] is at [k]. *)
Inductive type_at (wasm : list Z) (k : Z) : Z -> Z -> Prop :=
| type_at_here : type_at wasm k 0 k
| type_at_later j i ps r i' :
    0 < j -> func_type wasm i ps r i' -> type_at wasm k (j - 1) i' -> type_at wasm k j i.

(** The signature of an import in the whitelists, result first. *)
Definition has_signature (sig : list Z) (p : Z * string) : Prop := api_signature p.2 = Ret sig.

Lemma usage_signature_agree us : forall first sig,
  usage_signature us first = Ret sig ->
  match first with Some f => sig = Some f /\ Forall (has_signature f) us
  | None => us <> [] -> exists f, sig = Some f /\ Forall (has_signature f) us end.
Proof.
  induction us as [|[k nm] us IH]; intros first sig; cbn [usage_signature].
  - intros [= <-]. destruct first; [by split|done].
  - intros H. apply obind_ret in H as (s & Hs & H). destruct first as [f|].
    + case_bool_decide; [subst|done]. apply IH in H as [-> H]. split; [done|by constructor].
    + intros _. apply IH in H as [-> H]. exists s. split; [done|by constructor].
Qed.

Lemma param_loop_types wasm hk sig n : forall k i i',
  param_loop wasm hk sig n k i = Ret i' -> 0 <= k ->
  exists ps, length ps = n /\ value_types wasm i ps i' /\
    if hk then Forall (fun t => t = 0x7F) ps
    else forall s, sig = Some s -> forall x t, ps !! x = Some t -> s !! (Z.to_nat (k + 1) + x)%nat = Some t.
Proof.
  induction n as [|n IH]; intros k i i'; cbn [param_loop].
  - intros [= ->] _. exists []. split_and!; [done|constructor|]. by destruct hk.
  - intros H Hk. apply obind_ret in H as ([t i1] & Hr & H). cbv beta iota in H.
    destruct (negb (valid_type t)); [done|]. apply obind_ret in H as (u & Hu & H).
    apply IH in H as (ps & Hn & Hv & Hp); [|lia]. exists (t :: ps). simpl. split_and!; [by f_equal|by econstructor|].
    destruct hk.
    + constructor; [|done]. destruct (Z.eqb_spec t 0x7F); [done|done].
    + intros s -> x t' Hx. simpl in Hu. apply obind_ret in Hu as (t1 & Ht1 & Hu).
      destruct (Z.eqb_spec t1 t); [subst|done].
      destruct x as [|x]; simpl in Hx.
      * simplify_eq. rewrite Nat.add_0_r. by apply vget_ret in Ht1 as [_ ?].
      * apply (Hp s eq_refl) in Hx. rewrite <- Hx. f_equal. lia.
Qed.

(** What a type of an accepted binary may be: the type of [hook] and [cbak] takes
    one [i32] and returns an [i64]; any other is the type of some import and has
    the signature of every API imported with it. *)
Definition type_ok (st : sections) (hook_type_idx j : Z) (ps : list Z) (r : Z) : Prop :=
  if j =? hook_type_idx then ps = [0x7F] /\ r = 0x7E
  else exists us, import_type_map st !! j = Some us /\ Forall (has_signature (r :: ps)) us.

Lemma signature_list (s ps : list Z) r :
  lenZ ps = lenZ s - 1 -> s !! 0%nat = Some r ->
  (forall x t, ps !! x = Some t -> s !! S x = Some t) -> s = r :: ps.
Proof.
  unfold lenZ. intros Hl H0 Hx. destruct s as [|r' s]; [done|]. simpl in *. simplify_eq. f_equal.
  apply list_eq_same_length with (n := length s); [lia|lia|]. intros x a b _ Ha Hb.
  apply Hx in Hb. congruence.
Qed.

Lemma read_int_s32 wasm i v i' : read_int wasm i = Ret (v, i') -> is_s32 v.
Proof. unfold read_int. intros H. run_inv H. simplify_eq. apply s32_range. Qed.

Lemma api_find_short m nm s :
  forallb (fun p : string * list Z => lenZ p.2 <=? 16) m = true -> api_find m nm = Some s -> lenZ s <= 16.
Proof.
  induction m as [|[n s'] m IH]; [done|]. cbn [forallb api_find snd]. intros [H1 H2]%andb_true_iff.
  destruct (decide (n = nm)); [intros [= <-]; lia|by apply IH].
Qed.

Lemma api_signature_short nm s : api_signature nm = Ret s -> lenZ s <= 16.
Proof.
  unfold api_signature. destruct (api_find import_whitelist nm) eqn:E1.
  - intros [= <-]. by eapply api_find_short; [|exact E1].
  - destruct (api_find import_whitelist_1 nm) eqn:E2; [|done]. intros [= <-].
    by eapply api_find_short; [|exact E2].
Qed.

Lemma type_entry_ok wasm rv st ty j i i' :
  sections_ok rv st -> lenZ wasm < 2 ^ 31 -> type_entry wasm st ty j i = Ret i' ->
  exists ps r, func_type wasm i ps r i' /\ type_ok st ty j ps r.
Proof.
  intros [Hok _] Hlen H. unfold type_entry in H. cbv zeta in H.
  apply obind_ret in H as (form & Hform & H). destruct (Z.eqb_spec form 0x60); [subst|done]. cbn [negb] in H.
  apply obind_ret in H as (i1 & Hi1 & H). pose proof (advance_halts wasm Hlen i 1) as Hadv.
  rewrite Hi1 in Hadv. destruct Hadv as [_ ->].
  apply obind_ret in H as (sig & Hsig & H). apply obind_ret in H as ([pc i2] & Hpc & H). cbv beta iota in H.
  apply obind_ret in H as (u & Hu & H). apply obind_ret in H as (i3 & Hps & H).
  apply obind_ret in H as ([rc i4] & Hrc & H). cbv beta iota in H.
  destruct (Z.eqb_spec rc 1); [subst|done]. cbn [negb] in H.
  apply param_loop_types in Hps as (ps & Hlps & Hv & Hp); [|lia].
  unfold result_type in H. apply obind_ret in H as ([r i5] & Hr & H). cbv beta iota in H.
  destruct (negb (valid_type r)); [done|]. exists ps, r. unfold type_ok.
  destruct (j =? ty) eqn:Hj.
  - destruct (Z.eqb_spec r 0x7E); [subst|done]. cbn [negb] in H. injection H as ->.
    destruct (Z.eqb_spec pc 1); [subst|done]. destruct ps as [|p [|]]; try done. inversion Hp; subst.
    split; [by exists i2, i3, i4|done].
  - destruct (import_type_map st !! j) as [us|] eqn:Hus; [|done]. pose proof (Hok j us Hus) as [Hne _].
    apply usage_signature_agree in Hsig. destruct (Hsig Hne) as (s & -> & HF). simpl in Hu, H.
    destruct (Z.eqb_spec (u64 pc) (u64 (lenZ s - 1))) as [Hpcs|]; [|done].
    apply obind_ret in H as (t & Ht & H). destruct (Z.eqb_spec t r); [subst|done]. injection H as ->.
    apply vget_ret in Ht as [Hs0 Ht].
    assert (lenZ s <= 16) as Hs16.
    { destruct us as [|p us]; [done|]. inversion HF; subst. by eapply api_signature_short. }
    apply read_int_s32 in Hpc as Hpcr. unfold is_s32 in Hpcr. rewrite (u64_small (lenZ s - 1)) in Hpcs by lia.
    assert (0 <= pc).
    { destruct (Z_lt_le_dec pc 0); [|done]. unfold u64 in Hpcs.
      rewrite <- (Z.mod_unique_pos pc (2 ^ 64) (-1) (pc + 2 ^ 64)) in Hpcs; lia. }
    rewrite u64_small in Hpcs by lia.
    assert (lenZ ps = pc) as Hlp by (unfold lenZ; lia).
    assert (s = r :: ps) as ->.
    { apply signature_list; [lia|done|]. intros x t' Hx. by apply (Hp s eq_refl) in Hx. }
    split; [|by exists us]. exists i2, i3, i4. by rewrite Hlp.
Qed.

Lemma value_types_det wasm ps : forall i i1 i2 qs,
  value_types wasm i ps i1 -> value_types wasm i qs i2 -> length ps = length qs -> ps = qs /\ i1 = i2.
Proof.
  induction ps as [|p ps IH]; intros i i1 i2 qs H1 H2 Hl; destruct qs as [|q qs]; try done;
    inversion H1 as [|? ? j1 ? ? Hp Hps]; inversion H2 as [|? ? j2 ? ? Hq Hqs]; subst; [done|].
  rewrite Hp in Hq. simplify_eq/=. by destruct (IH _ _ _ _ Hps Hqs Hl) as [-> ->].
Qed.

Lemma func_type_det wasm i ps r i' qs r' i'' :
  func_type wasm i ps r i' -> func_type wasm i qs r' i'' -> i' = i''.
Proof.
  intros (a1 & a2 & a3 & _ & Ha1 & Ha2 & Ha3 & Ha4) (b1 & b2 & b3 & _ & Hb1 & Hb2 & Hb3 & Hb4).
  rewrite Hb1 in Ha1. injection Ha1 as Hl ->. unfold lenZ in Hl.
  destruct (value_types_det _ _ _ _ _ _ Ha2 Hb2) as [-> ->]; [lia|]. congruence.
Qed.

Lemma type_loop_ok wasm rv st ty k n : forall d j i,
  sections_ok rv st -> lenZ wasm < 2 ^ 31 -> type_loop wasm st ty n j i = Ret tt ->
  type_at wasm k d i -> d < Z.of_nat n ->
  exists ps r k', func_type wasm k ps r k' /\ type_ok st ty (j + d) ps r.
Proof.
  induction n as [|n IH]; intros d j i Hok Hlen H Hat Hd; [inversion Hat; lia|]. cbn [type_loop] in H.
  apply obind_ret in H as (i1 & Hi1 & H). eapply type_entry_ok in Hi1 as (ps & r & Hft & Hty); [|done..].
  inversion Hat as [|d' i' ps' r' i2 Hpos Hft' Hat']; subst.
  - rewrite Z.add_0_r. by exists ps, r, i1.
  - rewrite <- (func_type_det _ _ _ _ _ _ _ _ Hft Hft') in Hat'.
    replace (j + d) with (j + 1 + (d - 1)) by lia. eapply IH; [done..|lia].
Qed.

(** The types only depend on the imports. *)
Lemma type_loop_imports wasm st' st ty n j i :
  import_type_map st' = import_type_map st -> type_loop wasm st' ty n j i = type_loop wasm st ty n j i.
Proof.
  intros Hm. revert j i. induction n as [|n IH]; intros j i; [done|]. cbn [type_loop].
  unfold type_entry. rewrite Hm. destruct (let* _ := vget _ _ in _); simpl; auto.
Qed.

(** ** Theorems on [validateGuards] *)

(** C35: [validateGuards] terminates on every binary: the sections strictly grow in
    type, so there are at most 255 of them, and the second pass follows the same
    chain of sections as the first. *)
Theorem validateGuards_terminates wasm rv :
  lenZ wasm < 2 ^ 31 -> bytesOk wasm -> validateGuards wasm rv <> Timeout.
Proof. intros Hlen Hb H. pose proof (validateGuards_halts wasm Hlen rv Hb) as Hh. by rewrite H in Hh. Qed.

(** A hook with the imports [_g] and [accept], a guarded loop and a call of
    [accept]. *)
Definition good_hook : list Z :=
  wasm_header ++
  (* types: i32 i32 -> i32, i32 i32 i64 -> i64, i32 -> i64 *)
  [0x01; 0x13; 0x03] ++ [0x60; 0x02; 0x7F; 0x7F; 0x01; 0x7F] ++
  [0x60; 0x03; 0x7F; 0x7F; 0x7E; 0x01; 0x7E] ++ [0x60; 0x01; 0x7F; 0x01; 0x7E] ++
  (* imports: env._g, env.accept *)
  [0x02; 0x17; 0x02] ++ [0x03; 0x65; 0x6E; 0x76] ++ [0x02; 0x5F; 0x67; 0x00; 0x00] ++
  [0x03; 0x65; 0x6E; 0x76] ++ [0x06; 0x61; 0x63; 0x63; 0x65; 0x70; 0x74; 0x00; 0x01] ++
  (* one function, exported as hook *)
  [0x03; 0x02; 0x01; 0x02] ++ [0x07; 0x08; 0x01] ++ [0x04; 0x68; 0x6F; 0x6F; 0x6B; 0x00; 0x02] ++
  (* its code *)
  [0x0A; 0x16; 0x01; 0x14; 0x00] ++ [0x03; 0x40; 0x41; 0x01; 0x41; 0x03; 0x10; 0x00; 0x1A; 0x0B] ++
  [0x41; 0x00; 0x41; 0x00; 0x42; 0x00; 0x10; 0x01; 0x0B].

Lemma good_hook_bytes : bytesOk good_hook.
Proof. by apply (bool_decide_unpack (Forall _ _)). Qed.

Lemma validateGuards_terminates_witness :
  validateGuards good_hook 3 = Ret (12, 0) /\ validateGuards good_hook 3 <> Timeout.
Proof.
  split; [by vm_compute|]. apply validateGuards_terminates; [by vm_compute|exact good_hook_bytes].
Defined.

(** The counts of an accepted binary are below 65535, for both functions. *)
Theorem validateGuards_counts wasm rv h c :
  lenZ wasm < 2 ^ 31 -> bytesOk wasm -> validateGuards wasm rv = Ret (h, c) ->
  0 <= h < 65535 /\ 0 <= c < 65535.
Proof. intros Hlen Hb H. pose proof (validateGuards_halts wasm Hlen rv Hb) as Hh. by rewrite H in Hh. Qed.

Lemma validateGuards_counts_witness :
  validateGuards good_hook 3 = Ret (12, 0) /\ (0 <= 12 < 65535 /\ 0 <= 0 < 65535).
Proof.
  split; [by vm_compute|].
  apply (validateGuards_counts good_hook 3); [by vm_compute|exact good_hook_bytes|by vm_compute].
Defined.

(** C21: every function body of an accepted binary has passed [check_guard] with the
    import numbers of the first pass, unless it is empty. *)
Theorem validateGuards_checks_bodies wasm rv r i count i' s e :
  validateGuards wasm rv = Ret r ->
  section_at wasm 10 i 8 -> read_int wasm i = Ret (count, i') ->
  function_at wasm s e (Z.to_nat count) i' ->
  exists st, first_pass SECTION_FUEL wasm rv 8 0 0 no_sections = Ret st /\
    (s = e \/ exists w, check_guard wasm s e (guard_import_number st) (last_import_number st) rv = Ret w).
Proof.
  intros H Hs Hc Hf. apply validateGuards_stages in H as (st & st' & ty & r' & Hfp & Hres & Hsp).
  exists st. split; [done|]. apply resolve_fields in Hres as (_ & <- & <- & _).
  eapply second_pass_code in Hsp as (h & c & r1 & Hcode); [|done].
  unfold code_section in Hcode. rewrite Hc in Hcode. cbn [obind] in Hcode. by eapply code_loop_checks.
Qed.

Local Ltac next_section := eapply section_at_later; [by vm_compute|vm_compute; reflexivity..|].
Local Ltac this_section := eapply section_at_here; vm_compute; reflexivity.

Lemma good_hook_code : section_at good_hook 10 70 8.
Proof. do 4 next_section. this_section. Qed.

Lemma validateGuards_checks_bodies_witness :
  validateGuards good_hook 3 = Ret (12, 0) /\
  exists st, first_pass SECTION_FUEL good_hook 3 8 0 0 no_sections = Ret st /\
    (73 = 92 \/ exists w, check_guard good_hook 73 92 (guard_import_number st) (last_import_number st) 3 = Ret w).
Proof.
  split; [by vm_compute|].
  apply (validateGuards_checks_bodies good_hook 3 (12, 0) 70 1 71 73 92);
    [by vm_compute|exact good_hook_code|by vm_compute|apply function_at_here; by vm_compute].
Defined.

(** C22: the imports of an accepted binary are functions of the hook API allowed
    under the rules version, numbered up to the last import, and the guard number
    is an import of [_g], unless the binary has no imports at all. *)
Theorem validateGuards_imports wasm rv r :
  validateGuards wasm rv = Ret r ->
  exists st, first_pass SECTION_FUEL wasm rv 8 0 0 no_sections = Ret st /\
    (forall t us k name, import_type_map st !! t = Some us -> (k, name) ∈ us ->
       0 <= k <= last_import_number st /\ import_allowed rv name = true) /\
    (import_count st = 0 \/ imported (import_type_map st) (guard_import_number st) "_g").
Proof.
  intros H. apply validateGuards_stages in H as (st & st' & ty & r' & Hfp & _ & _). exists st. split; [done|].
  apply first_pass_ok in Hfp as (Hb & Hl & Hg); [|apply no_sections_ok|lia|done].
  split; [|by destruct Hg as [[_ ?]|?]; [left|right]].
  intros t us k name Hus Hin. apply Hb in Hus as [_ HF].
  rewrite Forall_forall in HF. apply HF in Hin as [Hk ?]. simpl in *. split; [lia|done].
Qed.

Lemma validateGuards_imports_witness :
  validateGuards good_hook 3 = Ret (12, 0) /\
  exists st, first_pass SECTION_FUEL good_hook 3 8 0 0 no_sections = Ret st /\
    (forall t us k name, import_type_map st !! t = Some us -> (k, name) ∈ us ->
       0 <= k <= last_import_number st /\ import_allowed 3 name = true) /\
    (import_count st = 0 \/ imported (import_type_map st) (guard_import_number st) "_g").
Proof.
  split; [by vm_compute|]. apply (validateGuards_imports good_hook 3 (12, 0)). by vm_compute.
Defined.

(** The function types of an accepted binary. Each type of the type section is
    well formed; the one of [hook] (and [cbak]) takes an [i32] and returns an
    [i64], and any other is used by an import and is exactly the signature the
    whitelists give for every API imported with it. *)
Theorem validateGuards_types wasm rv r i count i' j k :
  lenZ wasm < 2 ^ 31 -> validateGuards wasm rv = Ret r ->
  section_at wasm 1 i 8 -> read_int wasm i = Ret (count, i') ->
  0 <= j < count -> type_at wasm k j i' ->
  exists st st' hook_type_idx ps res k',
    first_pass SECTION_FUEL wasm rv 8 0 0 no_sections = Ret st /\ resolve st = Ret (st', hook_type_idx) /\
    func_type wasm k ps res k' /\ type_ok st hook_type_idx j ps res.
Proof.
  intros Hlen H Hs Hc Hj Hat. apply validateGuards_stages in H as (st & st' & ty & r' & Hfp & Hres & Hsp).
  exists st, st', ty. pose proof Hfp as Hfp'.
  apply first_pass_ok in Hfp' as Hok; [|apply no_sections_ok|lia|done].
  eapply second_pass_types in Hsp; [|done]. unfold type_section in Hsp. rewrite Hc in Hsp. cbn [obind] in Hsp.
  pose proof (resolve_fields _ _ _ Hres) as (Hm & Hg & Hl & _ & _).
  destruct (type_loop_ok wasm rv st ty k (Z.to_nat count) j 0 i') as (ps & res & k' & Hft & Hty);
    [done..| |done|lia|].
  - by rewrite <- (type_loop_imports _ _ _ _ _ _ _ Hm).
  - rewrite Z.add_0_l in Hty. by exists ps, res, k'.
Qed.

Lemma good_hook_types : section_at good_hook 1 10 8.
Proof. this_section. Qed.

Lemma good_hook_type_0 : func_type good_hook 11 [0x7F; 0x7F] 0x7F 17.
Proof. exists 13, 15, 16. split_and!; try (by vm_compute). repeat (econstructor; [by vm_compute|]). constructor. Qed.

Lemma validateGuards_types_witness :
  validateGuards good_hook 3 = Ret (12, 0) /\
  exists st st' hook_type_idx ps res k',
    first_pass SECTION_FUEL good_hook 3 8 0 0 no_sections = Ret st /\ resolve st = Ret (st', hook_type_idx) /\
    func_type good_hook 17 ps res k' /\ type_ok st hook_type_idx 1 ps res.
Proof.
  split; [by vm_compute|].
  apply (validateGuards_types good_hook 3 (12, 0) 10 3 11 1 17);
    [by vm_compute|by vm_compute|exact good_hook_types|by vm_compute|lia|].
  eapply type_at_later; [lia|exact good_hook_type_0|constructor].
Defined.

(** ** Binaries the checks do not cover *)

(** A hook without an import section whose [hook] calls itself. *)
Definition recursive_hook : list Z :=
  wasm_header ++ [0x01; 0x06; 0x01; 0x60; 0x01; 0x7F; 0x01; 0x7E] ++ [0x03; 0x02; 0x01; 0x00] ++
  [0x07; 0x08; 0x01] ++ [0x04; 0x68; 0x6F; 0x6F; 0x6B; 0x00; 0x00] ++ [0x0A; 0x1F; 0x01; 0x1D; 0x00] ++
  replicate 23 0x01 ++ [0x20; 0x00; 0x10; 0x00; 0x0B].

(** A hook that calls itself without end is accepted when it has no import
    section. Then the last import number is still -1, the test of the callee
    compares it as an unsigned integer, and every callee passes, although a hook
    may only call imports. The body here is [nop ...; local.get 0; call 0; end],
    where function 0 is [hook] itself. *)
Theorem validateGuards_accepts_recursion :
  validateGuards recursive_hook 3 = Ret (26, 0) /\
  exists st, first_pass SECTION_FUEL recursive_hook 3 8 0 0 no_sections = Ret st /\
    hook_func_idx st = Some 0 /\ last_import_number st = -1 /\
    slice recursive_hook 58 5 = [0x20; 0x00; 0x10; 0x00; 0x0B].
Proof. split; [by vm_compute|]. eexists. split; [vm_compute; reflexivity|]. by vm_compute. Qed.

(** A binary with types, functions and code, and no export section. *)
Definition no_export_hook : list Z :=
  wasm_header ++ [0x01; 0x06; 0x01; 0x60; 0x01; 0x7F; 0x01; 0x7E] ++ [0x03; 0x02; 0x01; 0x00] ++
  [0x0A; 0x29; 0x01; 0x27; 0x00] ++ replicate 35 0x01 ++ [0x20; 0x00; 0x0B].

(** A binary whose last byte is the first letter of an export name. *)
Definition short_export_hook : list Z :=
  wasm_header ++ [0x01; 0x30; 0x01; 0x60; 0x01; 0x7F; 0x01; 0x7E] ++
  replicate 42 0x00 ++ [0x07; 0x03; 0x01; 0x04; 0x68].

(** Two reads of [validateGuards] are undefined on hostile input. Without an
    export section the empty [hook_func_idx] is dereferenced after the first pass,
    and the letters of an export name are read without a test that they are there. *)
Theorem validateGuards_undefined :
  validateGuards no_export_hook 3 = Undef UB_null /\ validateGuards short_export_hook 3 = Undef UB_oob.
Proof. split; by vm_compute. Qed.
