(* ===== verification/Xfl.v ===== *)
(** * The XFL floating point numbers of hooks (src/src/ripple/app/hook/impl/applyHook.cpp)

    Namespace [hook_float] and the float functions of the hook API that work on
    mantissa and exponent directly. An XFL is an [int64_t]: bit 63 is clear, bit 62
    is the sign (set for a positive number), bits 54 to 61 hold the exponent plus
    97 and bits 0 to 53 the mantissa, between 10^15 and 10^16 - 1. Zero is the
    integer 0, and negative integers are error codes.

    [log10] of the C library is an argument of the functions that use it: the
    integer part of [log10] of a positive integer, as the source truncates it. *)

From S2P Require Import Prelude HookEnum.

(** ** Fields *)

Definition power_of_ten (k : Z) : Z := 10 ^ k.
Definition minMantissa : Z := 1000000000000000.
Definition maxMantissa : Z := 9999999999999999.
Definition minExponent : Z := -96.
Definition maxExponent : Z := 80.

Definition get_exponent (float1 : Z) : Z :=
  if float1 <? 0 then INVALID_FLOAT else
  if float1 =? 0 then 0 else
  Z.land (Z.shiftr (u64 float1) 54) 0xFF - 97.

Definition get_mantissa (float1 : Z) : Z :=
  if float1 <? 0 then INVALID_FLOAT else
  if float1 =? 0 then 0 else
  s64 (u64 float1 - Z.shiftl (Z.shiftr (u64 float1) 54) 54).

Definition is_negative (float1 : Z) : bool := Z.land (Z.shiftr float1 62) 1 =? 0.

Definition invert_sign (float1 : Z) : Z := s64 (Z.lxor (u64 float1) (Z.shiftl 1 62)).

Definition set_sign (float1 : Z) (set_negative : bool) : Z :=
  let neg := is_negative float1 in
  if (neg && set_negative) || (negb neg && negb set_negative) then float1 else invert_sign float1.

Definition set_mantissa (float1 mantissa : Z) : Z :=
  if maxMantissa <? mantissa then MANTISSA_OVERSIZED else
  if mantissa <? minMantissa then MANTISSA_UNDERSIZED else
  s64 (u64 (float1 - get_mantissa float1) + mantissa).

Definition set_exponent (float1 exponent : Z) : Z :=
  if maxExponent <? exponent then EXPONENT_OVERSIZED else
  if exponent <? minExponent then EXPONENT_UNDERSIZED else
  let exp := u64 (Z.shiftl (u64 (exponent + 97)) 54) in
  Z.land float1 (Z.lnot (Z.shiftl 0xFF 54)) + s64 exp.

(** [make_float] of an [IOUAmount], given by its mantissa and exponent. *)
Definition make_float_amount (mantissa exponent : Z) : Z :=
  let neg := mantissa <? 0 in
  let man_out := if neg then mantissa * -1 else mantissa in
  let float_out := set_sign 0 neg in
  let float_out := set_mantissa float_out (u64 man_out) in
  set_exponent float_out exponent.

Definition make_float (mantissa exponent : Z) (neg : bool) : Z :=
  if mantissa =? 0 then 0 else
  if maxMantissa <? mantissa then MANTISSA_OVERSIZED else
  if mantissa <? minMantissa then MANTISSA_UNDERSIZED else
  if maxExponent <? exponent then EXPONENT_OVERSIZED else
  if exponent <? minExponent then EXPONENT_UNDERSIZED else
  let out := set_mantissa 0 mantissa in
  let out := set_exponent out exponent in
  set_sign out neg.

(** [RETURN_IF_INVALID_FLOAT] *)
Definition invalid_float (float1 : Z) : bool :=
  if float1 <? 0 then true else
  if float1 =? 0 then false else
  let mantissa := u64 (get_mantissa float1) in
  let exponent := get_exponent float1 in
  (mantissa <? minMantissa) || (maxMantissa <? mantissa) ||
  (maxExponent <? exponent) || (exponent <? minExponent).

(** ** Normalization *)

Section Normalize.
Context (log10 : Z -> Z).

(** Scaling by the order of the mantissa: mantissa and exponent, or the result of
    an early return. [sman] tells the [int64_t] instance from the [uint64_t] one. *)
Definition norm_scale (sman : bool) (man exp : Z) : (Z * Z) + Z :=
  let wrap := if sman then s64 else u64 in
  let mo := log10 man in
  let adjust := 15 - mo in
  if 0 <? adjust then
    if 18 <? adjust then inr 0
    else inl (wrap (man * power_of_ten adjust), s32 (exp - adjust))
  else if adjust <? 0 then
    if 18 <? - adjust then inr XFL_OVERFLOW
    else inl (man / power_of_ten (- adjust), s32 (exp - adjust))
  else inl (man, exp).

(** The correction by one place on either side. *)
Definition norm_fix (sman : bool) (man exp : Z) : Z * Z :=
  let wrap := if sman then s64 else u64 in
  let '(man, exp) :=
    if man <? minMantissa then
      if man =? minMantissa - 1 then (man + 1, exp) else (wrap (man * 10), s32 (exp - 1))
    else (man, exp) in
  if maxMantissa <? man then
    if man =? maxMantissa + 1 then (man - 1, exp) else (man / 10, s32 (exp + 1))
  else (man, exp).

(** The XFL returned, and the mantissa and exponent left in the arguments. *)
Definition normalize_xfl (sman : bool) (man exp : Z) (neg : bool) : Z * Z * Z :=
  if man =? 0 then (0, man, exp) else
  let man := if man =? (if sman then - 2 ^ 63 else 2 ^ 63) then man + 1 else man in
  let '(man, neg) := if sman && (man <? 0) then (man * -1, true) else (man, neg) in
  match norm_scale sman man exp with
  | inr ret => (ret, man, exp)
  | inl (man, exp) =>
    if man =? 0 then (0, man, 0) else
    let '(man, exp) := norm_fix sman man exp in
    if exp <? minExponent then (0, 0, 0) else
    if man =? 0 then (0, man, 0) else
    if maxExponent <? exp then (XFL_OVERFLOW, man, exp) else
    (make_float (u64 man) exp neg, if sman && neg then man * -1 else man, exp)
  end.

(** ** API functions *)

Definition float_set (exp mantissa : Z) : Z :=
  if mantissa =? 0 then 0 else
  let '(normalized, _, _) := normalize_xfl true mantissa exp false in
  if (normalized =? 0) || (normalized =? XFL_OVERFLOW) then INVALID_FLOAT else normalized.

Definition float_multiply_internal_parts (man1 exp1 : Z) (neg1 : bool) (man2 exp2 : Z) (neg2 : bool) : Z :=
  let mult := man1 * man2 / power_of_ten 15 in
  let man_out := u64 mult in
  if man_out <? mult then XFL_OVERFLOW else
  let exp_out := s32 (exp1 + exp2 + 15) in
  let neg_out := (neg1 && negb neg2) || (negb neg1 && neg2) in
  let '(ret, _, _) := normalize_xfl false man_out exp_out neg_out in
  if ret =? EXPONENT_UNDERSIZED then 0 else
  if ret =? EXPONENT_OVERSIZED then XFL_OVERFLOW else ret.

Definition float_multiply (float1 float2 : Z) : Z :=
  if invalid_float float1 then INVALID_FLOAT else
  if invalid_float float2 then INVALID_FLOAT else
  if (float1 =? 0) || (float2 =? 0) then 0 else
  float_multiply_internal_parts
    (u64 (get_mantissa float1)) (get_exponent float1) (is_negative float1)
    (u64 (get_mantissa float2)) (get_exponent float2) (is_negative float2).

(** ** Division

    The loops take fuel, [None] when it runs out. *)

(** [while (man2 > man1) { man2 /= 10; exp2++; }] *)
Fixpoint div_shrink (fuel : nat) (man1 man2 exp2 : Z) : option (Z * Z) :=
  if man1 <? man2 then
    match fuel with
    | O => None
    | S fuel => div_shrink fuel man1 (man2 / 10) (s32 (exp2 + 1))
    end
  else Some (man2, exp2).

(** [while (man2 < man1) { if (man2 * 10 > man1) break; man2 *= 10; exp2--; }] *)
Fixpoint div_grow (fuel : nat) (man1 man2 exp2 : Z) : option (Z * Z) :=
  if man2 <? man1 then
    if man1 <? u64 (man2 * 10) then Some (man2, exp2) else
    match fuel with
    | O => None
    | S fuel => div_grow fuel man1 (u64 (man2 * 10)) (s32 (exp2 - 1))
    end
  else Some (man2, exp2).

(** One digit by subtraction: the rest of [man1] and the digit. *)
Fixpoint div_digit (fuel : nat) (hasFix : bool) (man1 man2 i : Z) : option (Z * Z) :=
  if (if hasFix then man2 <=? man1 else man2 <? man1) then
    match fuel with
    | O => None
    | S fuel => div_digit fuel hasFix (man1 - man2) man2 (i + 1)
    end
  else Some (man1, i).

(** [while (man2 > 0) { ... }] *)
Fixpoint div_digits (fuel : nat) (hasFix : bool) (man1 man2 man3 exp3 : Z) : option (Z * Z) :=
  if 0 <? man2 then
    match fuel with
    | O => None
    | S fuel =>
      match div_digit 20 hasFix man1 man2 0 with
      | None => None
      | Some (man1, i) =>
        let man3 := u64 (u64 (man3 * 10) + i) in
        let man2 := man2 / 10 in
        if man2 =? 0 then Some (man3, exp3)
        else div_digits fuel hasFix man1 man2 man3 (s32 (exp3 - 1))
      end
    end
  else Some (man3, exp3).

Definition float_one_internal : Z := make_float 1000000000000000 (-15) false.

Definition float_divide_internal (float1 float2 : Z) (hasFix : bool) : option Z :=
  if invalid_float float1 then Some INVALID_FLOAT else
  if invalid_float float2 then Some INVALID_FLOAT else
  if float2 =? 0 then Some DIVISION_BY_ZERO else
  if float1 =? 0 then Some 0 else
  if float2 =? float_one_internal then Some float1 else
  let neg1 := is_negative float1 in
  let neg2 := is_negative float2 in
  let '(tmp1, man1, exp1) := normalize_xfl false (u64 (get_mantissa float1)) (get_exponent float1) false in
  let '(tmp2, man2, exp2) := normalize_xfl false (u64 (get_mantissa float2)) (get_exponent float2) false in
  if (tmp1 <? 0) || (tmp2 <? 0) then Some INVALID_FLOAT else
  if tmp1 =? 0 then Some 0 else
  match div_shrink 20 man1 man2 exp2 with
  | None => None
  | Some (man2, exp2) =>
    if man2 =? 0 then Some DIVISION_BY_ZERO else
    match div_grow 20 man1 man2 exp2 with
    | None => None
    | Some (man2, exp2) =>
      match div_digits 20 hasFix man1 man2 0 (s32 (exp1 - exp2)) with
      | None => None
      | Some (man3, exp3) =>
        let neg3 := negb ((neg1 && neg2) || (negb neg1 && negb neg2)) in
        Some (normalize_xfl false man3 exp3 neg3).1.1
      end
    end
  end.

Definition float_divide (hasFix : bool) (float1 float2 : Z) : option Z :=
  float_divide_internal float1 float2 hasFix.

Definition float_invert (fixV3 : bool) (float1 : Z) : option Z :=
  if float1 =? 0 then Some DIVISION_BY_ZERO else
  if float1 =? float_one_internal then Some float_one_internal else
  float_divide_internal float_one_internal float1 fixV3.
End Normalize.

(** ** Functions that need no normalization *)

Definition float_one : Z := float_one_internal.

Definition float_int (float1 decimal_places absolute : Z) : Z :=
  if invalid_float float1 then INVALID_FLOAT else
  if float1 =? 0 then 0 else
  let man1 := u64 (get_mantissa float1) in
  let exp1 := get_exponent float1 in
  let neg1 := is_negative float1 in
  if 15 <? decimal_places then INVALID_ARGUMENT else
  if neg1 && (absolute =? 0) then CANT_RETURN_NEGATIVE else
  let shift := s32 (- u32 (exp1 + decimal_places)) in
  if 15 <? shift then 0 else
  if shift <? 0 then TOO_BIG else
  s64 (if 0 <? shift then man1 / power_of_ten shift else man1).

Definition float_negate (float1 : Z) : Z :=
  if float1 =? 0 then 0 else
  if invalid_float float1 then INVALID_FLOAT else
  invert_sign float1.

Definition float_mantissa (float1 : Z) : Z :=
  if invalid_float float1 then INVALID_FLOAT else
  if float1 =? 0 then 0 else get_mantissa float1.

Definition float_sign (float1 : Z) : Z :=
  if invalid_float float1 then INVALID_FLOAT else
  if float1 =? 0 then 0 else
  if is_negative float1 then 1 else 0.
