(* ===== verification/XflFacts.v ===== *)
(** * Theorems on XFL numbers

    The fields of an XFL and the numbers they stand for, normalization under the
    documented accuracy of [log10], and the API functions of [Xfl]. *)

From S2P Require Import Prelude HookEnum GuardCheck Xfl.

(** ** Bits and fields *)

Lemma land_lnot_disjoint a b : Z.land a b = 0 -> Z.land a (Z.lnot b) = a.
Proof.
  intros H. apply Z.bits_inj'. intros n Hn. rewrite Z.land_spec, Z.lnot_spec by done.
  assert (Z.testbit (Z.land a b) n = false) as Hb by (rewrite H; apply Z.bits_0).
  rewrite Z.land_spec in Hb. by destruct (Z.testbit a n), (Z.testbit b n).
Qed.

Lemma land_shiftl a b n : 0 <= n -> Z.land a (Z.shiftl b n) = Z.shiftl (Z.land (Z.shiftr a n) b) n.
Proof.
  intros Hn. apply Z.bits_inj'. intros k Hk. rewrite Z.land_spec, !Z.shiftl_spec by done.
  destruct (Z_lt_le_dec k n).
  - rewrite !(Z.testbit_neg_r _ (k - n)) by lia. apply andb_false_r.
  - rewrite Z.land_spec, Z.shiftr_spec by lia. by replace (k - n + n) with k by lia.
Qed.

(** Bit 62 is clear below 2^62, and [invert_sign] sets it. *)
Lemma lxor_pow2 a n : 0 <= n -> 0 <= a < 2 ^ n -> Z.lxor a (2 ^ n) = a + 2 ^ n.
Proof.
  intros Hn Ha. symmetry. apply Z.add_nocarry_lxor.
  apply Z.bits_inj'. intros k Hk. rewrite Z.land_spec, Z.bits_0, Z.pow2_bits_eqb by lia.
  destruct (Z.eqb_spec n k) as [->|]; [|apply andb_false_r].
  rewrite Z.testbit_eqb, Z.div_small by lia. done.
Qed.

(** The numbers an XFL can hold. *)
Definition wf (m e : Z) : Prop := minMantissa <= m <= maxMantissa /\ minExponent <= e <= maxExponent.

Definition pack (m e : Z) (neg : bool) : Z := (if neg then 0 else 2 ^ 62) + (e + 97) * 2 ^ 54 + m.

Local Ltac unfold_bounds := unfold wf, minMantissa, maxMantissa, minExponent, maxExponent in *.

Lemma pack_range m e neg : wf m e -> 0 < pack m e neg < 2 ^ 63.
Proof. unfold pack. unfold_bounds. destruct neg; lia. Qed.

Lemma pack_shift m e neg : wf m e -> Z.shiftr (pack m e neg) 54 = (if neg then 0 else 256) + (e + 97).
Proof.
  intros Hw. rewrite Z.shiftr_div_pow2 by lia. unfold pack. unfold_bounds. symmetry.
  apply Z.div_unique with (r := m); [lia|]. destruct neg; lia.
Qed.

Lemma get_mantissa_pack m e neg : wf m e -> get_mantissa (pack m e neg) = m.
Proof.
  intros Hw. pose proof (pack_range m e neg Hw). unfold get_mantissa.
  replace (pack m e neg <? 0) with false by lia. replace (pack m e neg =? 0) with false by lia.
  rewrite u64_small by lia. rewrite pack_shift, Z.shiftl_mul_pow2 by (done || lia).
  unfold pack. unfold_bounds. rewrite s64_small; destruct neg; lia.
Qed.

Lemma get_exponent_pack m e neg : wf m e -> get_exponent (pack m e neg) = e.
Proof.
  intros Hw. pose proof (pack_range m e neg Hw). unfold get_exponent.
  replace (pack m e neg <? 0) with false by lia. replace (pack m e neg =? 0) with false by lia.
  rewrite u64_small by lia. rewrite pack_shift by done. change 0xFF with (Z.ones 8).
  rewrite Z.land_ones by lia. unfold_bounds. destruct neg; [rewrite Z.mod_small; lia|].
  replace (256 + (e + 97)) with (e + 97 + 1 * 2 ^ 8) by lia. rewrite Z.mod_add, Z.mod_small; lia.
Qed.

Lemma is_negative_eq f : is_negative f = ((f / 2 ^ 62) mod 2 =? 0).
Proof.
  unfold is_negative. rewrite Z.shiftr_div_pow2 by lia. change 1 with (Z.ones 1). by rewrite Z.land_ones.
Qed.

Lemma is_negative_pack m e neg : wf m e -> is_negative (pack m e neg) = neg.
Proof.
  intros Hw. rewrite is_negative_eq. unfold pack. unfold_bounds.
  replace ((if neg then 0 else 2 ^ 62) + (e + 97) * 2 ^ 54 + m)
    with ((e + 97) * 2 ^ 54 + m + (if neg then 0 else 1) * 2 ^ 62) by (destruct neg; lia).
  rewrite Z.div_add, Z.div_small by lia. by destruct neg.
Qed.

Lemma invalid_float_pack m e neg : wf m e -> invalid_float (pack m e neg) = false.
Proof.
  intros Hw. pose proof (pack_range m e neg Hw). unfold invalid_float.
  rewrite get_mantissa_pack, get_exponent_pack by done. unfold_bounds. rewrite u64_small by lia.
  destruct (pack m e neg <? 0) eqn:?; [lia|]. destruct (pack m e neg =? 0); [done|lia].
Qed.

Lemma invert_sign_pack m e neg : wf m e -> invert_sign (pack m e neg) = pack m e (negb neg).
Proof.
  intros Hw. pose proof (pack_range m e neg Hw). pose proof (pack_range m e (negb neg) Hw).
  unfold invert_sign. rewrite u64_small by lia. change (Z.shiftl 1 62) with (2 ^ 62).
  assert (0 <= pack m e true < 2 ^ 62) by (unfold pack; unfold_bounds; lia).
  assert (pack m e false = Z.lxor (pack m e true) (2 ^ 62)) as Hx.
  { rewrite lxor_pow2 by lia. unfold pack. lia. }
  destruct neg; simpl in *.
  - rewrite <- Hx. apply s64_small. lia.
  - rewrite Hx, Z.lxor_assoc, Z.lxor_nilpotent, Z.lxor_0_r. apply s64_small. lia.
Qed.

Lemma set_exponent_fields s m e :
  0 <= s <= 1 -> wf m e -> set_exponent (s * 2 ^ 62 + m) e = s * 2 ^ 62 + (e + 97) * 2 ^ 54 + m.
Proof.
  intros Hs Hw. unfold set_exponent. unfold_bounds.
  replace (80 <? e) with false by lia. replace (e <? -96) with false by lia.
  rewrite (u64_small (e + 97)), (Z.shiftl_mul_pow2 (e + 97)) by lia. rewrite u64_small, s64_small by lia.
  rewrite land_lnot_disjoint; [lia|]. rewrite land_shiftl, Z.shiftr_div_pow2 by lia.
  replace (s * 2 ^ 62 + m) with (m + s * 2 ^ 8 * 2 ^ 54) by lia. rewrite Z.div_add, Z.div_small by lia.
  change 0xFF with (Z.ones 8). by rewrite Z.land_ones, Z.add_0_l, Z.mod_mul.
Qed.

(** [make_float] builds the packed number. *)
Lemma make_float_pack m e neg : wf m e -> make_float m e neg = pack m e neg.
Proof.
  intros Hw. pose proof (set_exponent_fields 0 m e ltac:(lia) Hw) as Hse.
  pose proof (is_negative_pack m e true Hw) as Hneg. pose proof (invert_sign_pack m e true Hw) as Hinv.
  unfold make_float, set_sign. unfold set_mantissa at 1 2 3 4. simpl get_mantissa. unfold pack in *. unfold_bounds.
  replace (m =? 0) with false by lia. replace (9999999999999999 <? m) with false by lia.
  replace (m <? 1000000000000000) with false by lia. replace (80 <? e) with false by lia.
  replace (e <? -96) with false by lia. change (u64 (0 - 0)) with 0. rewrite Z.add_0_l, (s64_small m) by lia.
  rewrite Z.mul_0_l, !Z.add_0_l in *. rewrite Hse, Hneg. simpl. destruct neg; [done|]. simpl in Hinv. by rewrite Hinv.
Qed.

Lemma make_float_amount_pack m e (neg : bool) :
  wf m e -> make_float_amount (if neg then - m else m) e = pack m e neg.
Proof.
  intros Hw. pose proof Hw as [Hm _]. unfold make_float_amount, pack. cbv zeta. unfold minMantissa, maxMantissa in Hm.
  replace ((if neg then - m else m) <? 0) with neg by (destruct neg; lia).
  replace (if neg then (if neg then - m else m) * -1 else if neg then - m else m) with m by (destruct neg; lia).
  rewrite u64_small by lia. unfold set_mantissa. unfold_bounds.
  replace (9999999999999999 <? m) with false by lia. replace (m <? 1000000000000000) with false by lia.
  pose proof (set_exponent_fields (if neg then 0 else 1) m e ltac:(destruct neg; lia) Hw) as Hse.
  destruct neg.
  - change (set_sign 0 true) with 0. change (u64 (0 - get_mantissa 0)) with 0.
    rewrite Z.add_0_l, s64_small by lia. exact Hse.
  - change (set_sign 0 false) with (2 ^ 62). change (u64 (2 ^ 62 - get_mantissa (2 ^ 62))) with (2 ^ 62).
    rewrite s64_small by lia. rewrite Z.mul_1_l in Hse. exact Hse.
Qed.

(** A non-zero valid XFL is a packed number. *)
Lemma valid_pack f :
  is_s64 f -> invalid_float f = false -> f <> 0 ->
  exists m e neg, wf m e /\ f = pack m e neg.
Proof.
  unfold is_s64, invalid_float. intros Hf Hv Hnz.
  destruct (Z.ltb_spec f 0); [done|]. destruct (Z.eqb_spec f 0); [done|].
  unfold get_mantissa, get_exponent in Hv.
  replace (f <? 0) with false in Hv by lia. replace (f =? 0) with false in Hv by lia.
  rewrite !(u64_small f) in Hv by lia. rewrite Z.shiftl_mul_pow2, !Z.shiftr_div_pow2 in Hv by lia.
  change 0xFF with (Z.ones 8) in Hv. rewrite Z.land_ones in Hv by lia.
  pose proof (Z.div_mod f (2 ^ 54) ltac:(lia)) as Hf1. pose proof (Z.mod_pos_bound f (2 ^ 54) ltac:(lia)).
  set (q := f / 2 ^ 54) in *. set (m := f mod 2 ^ 54) in *.
  assert (0 <= q < 512) by lia.
  replace (f - q * 2 ^ 54) with m in Hv by lia. rewrite s64_small, u64_small in Hv by lia.
  pose proof (Z.div_mod q 256 ltac:(lia)) as Hq. pose proof (Z.mod_pos_bound q 256 ltac:(lia)).
  change (2 ^ 8) with 256 in Hv.
  exists m, (q mod 256 - 97), (q / 256 =? 0). unfold_bounds. split; [lia|]. unfold pack.
  destruct (Z.eqb_spec (q / 256) 0); lia.
Qed.

(** ** Claims on the representation *)

(** An XFL holds what [make_float] is given: for every mantissa and exponent in
    range and either sign the result is a valid XFL, and the accessors return the
    mantissa, the exponent and the sign. *)
Theorem make_float_roundtrip m e neg :
  minMantissa <= m <= maxMantissa -> minExponent <= e <= maxExponent ->
  let f := make_float m e neg in
  get_mantissa f = m /\ get_exponent f = e /\ is_negative f = neg /\ invalid_float f = false /\ 0 < f < 2 ^ 63.
Proof.
  intros Hm He. cbv zeta. assert (wf m e) as Hw by done. rewrite make_float_pack by done.
  split_and!; [by apply get_mantissa_pack|by apply get_exponent_pack|by apply is_negative_pack
              |by apply invalid_float_pack|apply pack_range; done..].
Qed.

Lemma make_float_roundtrip_witness :
  let f := make_float 1234567890123456 (-20) true in
  get_mantissa f = 1234567890123456 /\ get_exponent f = -20 /\ is_negative f = true /\
  invalid_float f = false /\ 0 < f < 2 ^ 63.
Proof. apply (make_float_roundtrip 1234567890123456 (-20) true); unfold_bounds; lia. Defined.

(** [make_float] of the parts of a valid XFL gives the XFL back, so that valid
    XFLs and the numbers they stand for correspond one to one. *)
Theorem make_float_unique f :
  is_s64 f -> invalid_float f = false ->
  make_float (get_mantissa f) (get_exponent f) (is_negative f) = f.
Proof.
  intros Hf Hv. destruct (Z.eq_dec f 0) as [->|Hnz]; [done|].
  destruct (valid_pack f Hf Hv Hnz) as (m & e & neg & Hw & ->).
  by rewrite get_mantissa_pack, get_exponent_pack, is_negative_pack, make_float_pack.
Qed.

Lemma make_float_unique_witness :
  let f := float_one_internal in
  make_float (get_mantissa f) (get_exponent f) (is_negative f) = f.
Proof. apply (make_float_unique float_one_internal); vm_compute; [split; congruence|reflexivity]. Defined.

(** [float_negate] is an involution on valid XFLs that keeps mantissa and
    exponent and flips the sign of every number but zero. *)
Theorem float_negate_spec f :
  is_s64 f -> invalid_float f = false ->
  float_negate (float_negate f) = f /\ get_mantissa (float_negate f) = get_mantissa f /\
  get_exponent (float_negate f) = get_exponent f /\
  (f <> 0 -> is_negative (float_negate f) = negb (is_negative f)) /\ invalid_float (float_negate f) = false.
Proof.
  intros Hf Hv. destruct (Z.eq_dec f 0) as [->|Hnz]; [split_and!; done|].
  destruct (valid_pack f Hf Hv Hnz) as (m & e & neg & Hw & ->).
  pose proof (pack_range m e neg Hw). pose proof (pack_range m e (negb neg) Hw).
  assert (forall n, pack m e n <> 0 -> float_negate (pack m e n) = pack m e (negb n)) as Hneg.
  { intros n Hn. unfold float_negate. rewrite (proj2 (Z.eqb_neq _ _)) by done.
    by rewrite invalid_float_pack, invert_sign_pack. }
  rewrite !Hneg, negb_involutive by lia.
  by rewrite !get_mantissa_pack, !get_exponent_pack, !is_negative_pack, invalid_float_pack.
Qed.

Lemma float_negate_spec_witness :
  let f := float_one_internal in
  float_negate (float_negate f) = f /\ get_mantissa (float_negate f) = get_mantissa f /\
  get_exponent (float_negate f) = get_exponent f /\
  (f <> 0 -> is_negative (float_negate f) = negb (is_negative f)) /\ invalid_float (float_negate f) = false.
Proof. apply (float_negate_spec float_one_internal); vm_compute; [split; congruence|reflexivity]. Defined.

(** ** Normalization *)

(** What the code relies on of [log10] of the C library, truncated to an integer,
    on the positive 64-bit integers: it is never too small, and too large only by
    the rounding of a number just below a power of ten. *)
Definition log10_ok (log10 : Z -> Z) : Prop :=
  forall m, 0 < m < 2 ^ 64 ->
    0 <= log10 m /\ 10 ^ log10 m * (10 ^ 13 - 1) <= m * 10 ^ 13 /\ m < 10 ^ (log10 m + 1).

(** The number of decimal digits less one, by repeated division. *)
Fixpoint ilog10_loop (fuel : nat) (m : Z) : Z :=
  match fuel with
  | O => 0
  | S fuel => if m <? 10 then 0 else 1 + ilog10_loop fuel (m / 10)
  end.
Definition ilog10 (m : Z) : Z := ilog10_loop 20 m.

Lemma ilog10_loop_spec fuel : forall m, 0 < m < 10 ^ Z.of_nat fuel ->
  0 <= ilog10_loop fuel m /\ 10 ^ ilog10_loop fuel m <= m < 10 ^ (ilog10_loop fuel m + 1).
Proof.
  induction fuel as [|fuel IH]; intros m Hm; [simpl in Hm; lia|]. cbn [ilog10_loop].
  destruct (Z.ltb_spec m 10); [simpl; lia|].
  rewrite Nat2Z.inj_succ, Z.pow_succ_r in Hm by lia.
  pose proof (Z.div_mod m 10 ltac:(lia)). pose proof (Z.mod_pos_bound m 10 ltac:(lia)).
  destruct (IH (m / 10)) as (Hk & Hlo & Hhi); [lia|]. set (k := ilog10_loop fuel (m / 10)) in *.
  replace (1 + k + 1) with (Z.succ (k + 1)) by lia. replace (1 + k) with (Z.succ k) by lia.
  rewrite !Z.pow_succ_r by lia. lia.
Qed.

Lemma ilog10_ok : log10_ok ilog10.
Proof. intros m Hm. destruct (ilog10_loop_spec 20 m) as (? & ? & ?); [lia|]. unfold ilog10. lia. Qed.

(** [m * 10 ^ (- s)], truncated. *)
Definition trunc10 (m s : Z) : Z := if s <=? 0 then m * 10 ^ (- s) else m / 10 ^ s.

Section Norm.
Context (log10 : Z -> Z) (Hlog : log10_ok log10).

Lemma log10_le_19 m : 0 < m < 2 ^ 64 -> 0 <= log10 m <= 19.
Proof.
  intros Hm. destruct (Hlog m Hm) as (H0 & Hlo & _). split; [done|].
  destruct (Z_le_gt_dec (log10 m) 19); [done|].
  pose proof (Z.pow_le_mono_r 10 20 (log10 m) ltac:(lia) ltac:(lia)). lia.
Qed.

Lemma pow10_split a b : 0 <= a -> 0 <= b -> 10 ^ (a + b) = 10 ^ a * 10 ^ b.
Proof. intros. by apply Z.pow_add_r. Qed.

(** The scaled mantissa has sixteen digits, or is just below. *)
Lemma trunc10_range m :
  0 < m < 2 ^ 64 -> 10 ^ 15 - 100 <= trunc10 m (log10 m - 15) < 10 ^ 16.
Proof.
  intros Hm. pose proof (log10_le_19 m Hm). destruct (Hlog m Hm) as (_ & Hlo & Hhi).
  set (k := log10 m) in *. unfold trunc10. destruct (Z.leb_spec (k - 15) 0) as [Hs|Hs].
  - replace (- (k - 15)) with (15 - k) by lia.
    pose proof (pow10_split k (15 - k) ltac:(lia) ltac:(lia)) as Hp. replace (k + (15 - k)) with 15 in Hp by lia.
    rewrite pow10_split in Hhi by lia. assert (0 < 10 ^ (15 - k)) by lia. nia.
  - assert (0 < 10 ^ (k - 15)) by lia. split.
    + apply Z.div_le_lower_bound; [done|].
      pose proof (pow10_split (k - 15) 15 ltac:(lia) ltac:(lia)) as Hp. replace (k - 15 + 15) with k in Hp by lia. nia.
    + apply Z.div_lt_upper_bound; [done|].
      pose proof (pow10_split (k - 15) 16 ltac:(lia) ltac:(lia)) as Hp.
      replace (k - 15 + 16) with (k + 1) in Hp by lia. lia.
Qed.

Lemma norm_scale_eq (sman : bool) m exp :
  0 < m < 2 ^ (if sman then 63 else 64) -> - 2 ^ 30 <= exp <= 2 ^ 30 ->
  norm_scale log10 sman m exp = inl (trunc10 m (log10 m - 15), exp + (log10 m - 15)).
Proof.
  intros Hm He. assert (0 < m < 2 ^ 64) as Hm' by (destruct sman; lia).
  pose proof (log10_le_19 m Hm'). pose proof (trunc10_range m Hm') as Ht. unfold norm_scale, trunc10, power_of_ten in *.
  set (k := log10 m) in *. cbv zeta.
  destruct (Z.ltb_spec 0 (15 - k)).
  - replace (18 <? 15 - k) with false by lia. replace (k - 15 <=? 0) with true in * by lia.
    replace (- (k - 15)) with (15 - k) in * by lia. rewrite s32_small by lia.
    destruct sman; [rewrite s64_small by lia|rewrite u64_small by lia]; do 2 f_equal; lia.
  - destruct (Z.ltb_spec (15 - k) 0).
    + replace (18 <? - (15 - k)) with false by lia. replace (k - 15 <=? 0) with false by lia.
      replace (- (15 - k)) with (k - 15) by lia. rewrite s32_small by lia. do 2 f_equal; lia.
    + replace (k - 15) with 0 by lia. simpl. do 2 f_equal; lia.
Qed.

(** Mantissa and shift after scaling and correction. *)
Definition norm_pair (m : Z) : Z * Z :=
  let s := log10 m - 15 in
  let a := trunc10 m s in
  if a <? minMantissa then
    if a =? minMantissa - 1 then (minMantissa, s) else (a * 10, s - 1)
  else (a, s).

Lemma norm_fix_eq sman m exp :
  0 < m < 2 ^ 64 -> - 2 ^ 30 <= exp <= 2 ^ 30 ->
  norm_fix sman (trunc10 m (log10 m - 15)) (exp + (log10 m - 15)) = ((norm_pair m).1, exp + (norm_pair m).2).
Proof.
  intros Hm He. pose proof (log10_le_19 m Hm). pose proof (trunc10_range m Hm) as Ht. unfold norm_fix, norm_pair. cbv zeta.
  set (a := trunc10 m (log10 m - 15)) in *. unfold minMantissa, maxMantissa.
  destruct (Z.ltb_spec a 1000000000000000).
  - destruct (Z.eqb_spec a (1000000000000000 - 1)).
    + replace (9999999999999999 <? a + 1) with false by lia. simpl. f_equal; lia.
    + replace ((if sman then s64 else u64) (a * 10)) with (a * 10)
        by (destruct sman; [rewrite s64_small|rewrite u64_small]; lia).
      replace (9999999999999999 <? a * 10) with false by lia. rewrite s32_small by lia. simpl. f_equal; lia.
  - replace (9999999999999999 <? a) with false by lia. done.
Qed.

Lemma norm_pair_range m :
  0 < m < 2 ^ 64 -> minMantissa <= (norm_pair m).1 <= maxMantissa /\ -16 <= (norm_pair m).2 <= 4.
Proof.
  intros Hm. pose proof (log10_le_19 m Hm). pose proof (trunc10_range m Hm). unfold norm_pair. cbv zeta. unfold_bounds.
  repeat case_match; simpl; lia.
Qed.

(** [M * 10 ^ s] stands for [m], up to ten units of the last of its sixteen digits. *)
Definition near (m M s : Z) : Prop := Z.abs (m * 10 ^ 16 - M * 10 ^ (s + 16)) <= 10 * 10 ^ (s + 16).

Lemma trunc10_error m s :
  0 < m -> -16 <= s -> 0 <= m * 10 ^ 16 - trunc10 m s * 10 ^ (s + 16) < 10 ^ (s + 16).
Proof.
  intros Hm Hs. unfold trunc10. destruct (Z.leb_spec s 0).
  - replace (m * 10 ^ (- s) * 10 ^ (s + 16)) with (m * (10 ^ (- s) * 10 ^ (s + 16))) by ring.
    rewrite <- pow10_split by lia. replace (- s + (s + 16)) with 16 by lia.
    assert (0 < 10 ^ (s + 16)) by lia. lia.
  - rewrite pow10_split by lia. assert (0 < 10 ^ s) by lia.
    pose proof (Z.div_mod m (10 ^ s) ltac:(lia)). pose proof (Z.mod_pos_bound m (10 ^ s) ltac:(lia)). nia.
Qed.

Lemma norm_pair_near m : 0 < m < 2 ^ 64 -> near m (norm_pair m).1 (norm_pair m).2.
Proof.
  intros Hm. pose proof (log10_le_19 m Hm). pose proof (trunc10_range m Hm).
  pose proof (trunc10_error m (log10 m - 15) ltac:(lia) ltac:(lia)) as He.
  unfold near, norm_pair. cbv zeta. set (a := trunc10 m (log10 m - 15)) in *. set (k := log10 m) in *.
  assert (0 < 10 ^ (k - 15 + 16)) by lia. unfold minMantissa.
  destruct (Z.ltb_spec a 1000000000000000); [|simpl; lia].
  destruct (Z.eqb_spec a (1000000000000000 - 1)) as [Ha|]; [simpl; nia|]. simpl.
  destruct (Z.eq_dec k 0) as [Hk0|].
  - exfalso. subst a. unfold trunc10 in *. rewrite Hk0 in *. simpl in *. lia.
  - replace (10 ^ (k - 15 + 16)) with (10 * 10 ^ (k - 15 - 1 + 16)) in *; [nia|].
    replace (k - 15 + 16) with (Z.succ (k - 15 - 1 + 16)) by lia. rewrite Z.pow_succ_r; lia.
Qed.

(** When [log10] is exact the mantissa is truncated. *)
Lemma norm_pair_exact m :
  0 < m < 2 ^ 64 -> 10 ^ log10 m <= m -> norm_pair m = (trunc10 m (log10 m - 15), log10 m - 15).
Proof.
  intros Hm Hlo. pose proof (log10_le_19 m Hm). unfold norm_pair. cbv zeta.
  assert (minMantissa <= trunc10 m (log10 m - 15)); [|by replace (_ <? minMantissa) with false by lia].
  unfold trunc10, minMantissa. destruct (Z.leb_spec (log10 m - 15) 0).
  - pose proof (pow10_split (log10 m) (- (log10 m - 15)) ltac:(lia) ltac:(lia)) as Hp.
    replace (log10 m + - (log10 m - 15)) with 15 in Hp by lia. assert (0 < 10 ^ (- (log10 m - 15))) by lia. nia.
  - apply Z.div_le_lower_bound; [lia|].
    pose proof (pow10_split (log10 m - 15) 15 ltac:(lia) ltac:(lia)) as Hp.
    replace (log10 m - 15 + 15) with (log10 m) in Hp by lia. lia.
Qed.

(** The result of a normalization to [M * 10 ^ E]. *)
Definition xfl_or_error (M E : Z) (neg : bool) : Z :=
  if E <? minExponent then 0 else if maxExponent <? E then XFL_OVERFLOW else pack M E neg.

Lemma normalize_core (sman : bool) m exp neg :
  0 < m < 2 ^ (if sman then 63 else 64) -> m <> 2 ^ 63 -> - 2 ^ 30 <= exp <= 2 ^ 30 ->
  (normalize_xfl log10 sman m exp neg).1.1 = xfl_or_error (norm_pair m).1 (exp + (norm_pair m).2) neg /\
  (minExponent <= exp + (norm_pair m).2 <= maxExponent -> (sman = false \/ neg = false) ->
   normalize_xfl log10 sman m exp neg =
     (pack (norm_pair m).1 (exp + (norm_pair m).2) neg, (norm_pair m).1, exp + (norm_pair m).2)).
Proof.
  intros Hm H63 He. assert (0 < m < 2 ^ 64) as Hm' by (destruct sman; lia).
  pose proof (norm_pair_range m Hm') as [HM Hs]. pose proof (trunc10_range m Hm') as Ht. unfold normalize_xfl, xfl_or_error.
  replace (m =? 0) with false by lia.
  replace (m =? (if sman then - 2 ^ 63 else 2 ^ 63)) with false by (destruct sman; lia).
  replace (sman && (m <? 0)) with false by (destruct sman; simpl; lia).
  rewrite norm_scale_eq by done. set (a := trunc10 m (log10 m - 15)) in *.
  replace (a =? 0) with false by lia. subst a. rewrite norm_fix_eq by done.
  set (M := (norm_pair m).1) in *. set (E := exp + (norm_pair m).2) in *.
  destruct (Z.ltb_spec E minExponent); [by split; [|lia]|].
  replace (M =? 0) with false by (unfold_bounds; lia).
  destruct (Z.ltb_spec maxExponent E); [by split; [|lia]|].
  assert (wf M E) as Hw by (split; lia). rewrite u64_small by (unfold_bounds; lia).
  rewrite make_float_pack by done. split; [done|]. intros _ Hn.
  by replace (sman && neg) with false by (destruct Hn; subst; by destruct sman || destruct neg).
Qed.
End Norm.

(** A negative mantissa sets the sign and is otherwise like its absolute value. *)
Lemma normalize_negative log10 m exp neg :
  0 < m < 2 ^ 63 ->
  (normalize_xfl log10 true (- m) exp neg).1.1 = (normalize_xfl log10 true m exp true).1.1.
Proof.
  intros Hm. unfold normalize_xfl.
  replace (- m =? 0) with false by lia. replace (m =? 0) with false by lia.
  replace (- m =? - 2 ^ 63) with false by lia. replace (m =? - 2 ^ 63) with false by lia.
  replace (true && (- m <? 0)) with true by lia. replace (true && (m <? 0)) with false by lia.
  replace (- m * -1) with m by lia. destruct (norm_scale log10 true m exp) as [[a b]|r]; [|done].
  destruct (a =? 0); [done|]. destruct (norm_fix true a b) as [c d]. by repeat case_match.
Qed.

(** [normalize_xfl] returns the number it is given in sixteen digits. For every
    mantissa (unsigned here) and exponent there are a mantissa [M] in range and an
    exponent [E] with [M * 10 ^ E] within ten units of the last place of the
    argument, truncated exactly when [log10] is exact there; the result is that
    XFL, or zero when [E] is too small, or [XFL_OVERFLOW] when it is too large. *)
Theorem normalize_xfl_correct log10 m exp neg :
  log10_ok log10 -> 0 < m < 2 ^ 64 -> m <> 2 ^ 63 -> - 2 ^ 30 <= exp <= 2 ^ 30 ->
  exists M s, minMantissa <= M <= maxMantissa /\ near m M s /\
    (10 ^ log10 m <= m -> M = trunc10 m s /\ s = log10 m - 15) /\
    (normalize_xfl log10 false m exp neg).1.1 =
      if exp + s <? minExponent then 0 else
      if maxExponent <? exp + s then XFL_OVERFLOW else make_float M (exp + s) neg.
Proof.
  intros Hlog Hm H63 He. pose proof (norm_pair_range log10 Hlog m Hm) as [HM Hs].
  exists (norm_pair log10 m).1, (norm_pair log10 m).2. split; [done|]. split; [by apply norm_pair_near|].
  split; [by intros Hlo; rewrite norm_pair_exact|].
  destruct (normalize_core log10 Hlog false m exp neg) as [-> _]; [done..|]. unfold xfl_or_error.
  destruct (Z.ltb_spec (exp + (norm_pair log10 m).2) minExponent); [done|].
  destruct (Z.ltb_spec maxExponent (exp + (norm_pair log10 m).2)); [done|]. by rewrite make_float_pack.
Qed.

Lemma normalize_xfl_correct_witness :
  exists M s, minMantissa <= M <= maxMantissa /\ near 12345678901234567890 M s /\
    (10 ^ ilog10 12345678901234567890 <= 12345678901234567890 ->
       M = trunc10 12345678901234567890 s /\ s = ilog10 12345678901234567890 - 15) /\
    (normalize_xfl ilog10 false 12345678901234567890 (-4) true).1.1 =
      if -4 + s <? minExponent then 0 else
      if maxExponent <? -4 + s then XFL_OVERFLOW else make_float M (-4 + s) true.
Proof. apply (normalize_xfl_correct ilog10 12345678901234567890 (-4) true ilog10_ok); lia. Defined.

Lemma float_set_pair log10 exp mantissa :
  log10_ok log10 -> 0 < Z.abs mantissa < 2 ^ 63 -> - 2 ^ 30 <= exp <= 2 ^ 30 ->
  let p := norm_pair log10 (Z.abs mantissa) in
  float_set log10 exp mantissa =
    if (minExponent <=? exp + p.2) && (exp + p.2 <=? maxExponent)
    then pack p.1 (exp + p.2) (mantissa <? 0) else INVALID_FLOAT.
Proof.
  intros Hlog Hm He. cbv zeta. unfold float_set. replace (mantissa =? 0) with false by lia.
  assert ((normalize_xfl log10 true mantissa exp false).1.1 =
          xfl_or_error (norm_pair log10 (Z.abs mantissa)).1 (exp + (norm_pair log10 (Z.abs mantissa)).2) (mantissa <? 0)) as Hn.
  { destruct (Z.ltb_spec mantissa 0).
    - replace mantissa with (- Z.abs mantissa) at 1 by lia. rewrite normalize_negative by lia.
      by apply normalize_core; [done|lia..].
    - replace mantissa with (Z.abs mantissa) at 1 by lia. by apply normalize_core; [done|lia..]. }
  destruct (normalize_xfl _ _ _ _ _) as [[r a] b]. simpl in Hn. subst r.
  pose proof (norm_pair_range log10 Hlog (Z.abs mantissa) ltac:(lia)) as [HM _]. unfold xfl_or_error.
  set (p := norm_pair log10 (Z.abs mantissa)) in *.
  destruct (Z.ltb_spec (exp + p.2) minExponent); [by replace (_ && _) with false by lia|].
  destruct (Z.ltb_spec maxExponent (exp + p.2)); [by replace (_ && _) with false by lia|].
  replace (_ && _) with true by lia. pose proof (pack_range p.1 (exp + p.2) (mantissa <? 0) ltac:(split; lia)).
  unfold XFL_OVERFLOW. by replace (_ || _) with false by lia.
Qed.

(** [float_set] returns a valid XFL that stands for [mantissa * 10 ^ exp] (up to
    ten units of the sixteenth digit) with its sign, or [INVALID_FLOAT] exactly when
    the exponent leaves the range. *)
Theorem float_set_correct log10 exp mantissa :
  log10_ok log10 -> 0 < Z.abs mantissa < 2 ^ 63 -> - 2 ^ 30 <= exp <= 2 ^ 30 ->
  exists M s, minMantissa <= M <= maxMantissa /\ near (Z.abs mantissa) M s /\
    float_set log10 exp mantissa =
      if (minExponent <=? exp + s) && (exp + s <=? maxExponent)
      then make_float M (exp + s) (mantissa <? 0) else INVALID_FLOAT.
Proof.
  intros Hlog Hm He. rewrite float_set_pair by done. cbv zeta.
  pose proof (norm_pair_range log10 Hlog (Z.abs mantissa) ltac:(lia)) as [HM _].
  exists (norm_pair log10 (Z.abs mantissa)).1, (norm_pair log10 (Z.abs mantissa)).2.
  split; [done|]. split; [apply norm_pair_near; [done|lia]|].
  destruct (_ && _) eqn:HE; [|done]. rewrite make_float_pack; [done|split; lia].
Qed.

Lemma float_set_correct_witness :
  exists M s, minMantissa <= M <= maxMantissa /\ near (Z.abs (-25)) M s /\
    float_set ilog10 3 (-25) =
      if (minExponent <=? 3 + s) && (3 + s <=? maxExponent)
      then make_float M (3 + s) (-25 <? 0) else INVALID_FLOAT.
Proof. apply (float_set_correct ilog10 3 (-25) ilog10_ok); simpl; lia. Defined.

(** An integer below 10^15 - 1 is scaled exactly. *)
Lemma norm_pair_integer log10 n :
  log10_ok log10 -> 0 < n < 10 ^ 15 - 1 ->
  -15 <= (norm_pair log10 n).2 <= 0 /\ (norm_pair log10 n).1 = n * 10 ^ (- (norm_pair log10 n).2).
Proof.
  intros Hlog Hn. destruct (Hlog n) as (Hk & Hlo & Hhi); [lia|].
  assert (log10 n <= 15).
  { destruct (Z_le_gt_dec (log10 n) 15); [done|].
    pose proof (Z.pow_le_mono_r 10 16 (log10 n) ltac:(lia) ltac:(lia)). lia. }
  unfold norm_pair, trunc10. cbv zeta. set (k := log10 n) in *. replace (k - 15 <=? 0) with true by lia.
  destruct (Z.ltb_spec (n * 10 ^ (- (k - 15))) minMantissa) as [Hlt|]; [|simpl; lia].
  destruct (Z.eqb_spec (n * 10 ^ (- (k - 15))) (minMantissa - 1)) as [Heq|]; simpl.
  - exfalso. unfold minMantissa in *. replace (- (k - 15)) with (15 - k) in * by lia.
    destruct (Z.eq_dec k 15) as [->|]; [simpl in Heq; lia|].
    replace (15 - k) with (Z.succ (14 - k)) in Heq by lia. rewrite Z.pow_succ_r in Heq by lia. lia.
  - assert (1 <= k).
    { destruct (Z.eq_dec k 0) as [Hk0|]; [|lia]. rewrite Hk0 in Hlt. unfold minMantissa in Hlt. simpl in Hlt. lia. }
    split; [lia|]. replace (- (k - 15 - 1)) with (Z.succ (- (k - 15))) by lia. rewrite Z.pow_succ_r by lia. lia.
Qed.

(** [float_int] undoes [float_set] on integers: every integer below 10^15 - 1
    becomes an XFL that reads back as that integer. *)
Theorem float_set_int_roundtrip log10 n :
  log10_ok log10 -> 0 < n < 10 ^ 15 - 1 -> float_int (float_set log10 0 n) 0 0 = n.
Proof.
  intros Hlog Hn. rewrite float_set_pair by (done || lia). cbv zeta. replace (Z.abs n) with n by lia.
  destruct (norm_pair_integer log10 n Hlog Hn) as [Hs HM]. pose proof (norm_pair_range log10 Hlog n ltac:(lia)) as [HM' _].
  set (p := norm_pair log10 n) in *. assert (wf p.1 (0 + p.2)) as Hw by (split; unfold_bounds; lia).
  replace (_ && _) with true by (unfold_bounds; lia). replace (n <? 0) with false by lia.
  pose proof (pack_range p.1 (0 + p.2) false Hw). unfold float_int.
  rewrite invalid_float_pack, get_mantissa_pack, get_exponent_pack, is_negative_pack by done.
  replace (_ =? 0) with false by lia. change (15 <? 0) with false. cbn [andb]. cbv zeta. unfold_bounds.
  rewrite u64_small by lia. assert (s32 (- u32 (0 + p.2 + 0)) = - p.2) as ->.
  { rewrite Z.add_0_r, Z.add_0_l. unfold u32, s32. destruct (Z.eq_dec p.2 0) as [->|]; [done|].
    rewrite <- (Z.mod_unique_pos p.2 (2 ^ 32) (-1) (p.2 + 2 ^ 32)) by lia.
    rewrite <- (Z.mod_unique_pos _ (2 ^ 32) (-1) (- p.2 + 2 ^ 31)); lia. }
  replace (15 <? - p.2) with false by lia. replace (- p.2 <? 0) with false by lia. unfold power_of_ten.
  rewrite s64_small; rewrite HM; destruct (Z.ltb_spec 0 (- p.2)).
  all: try (rewrite Z.div_mul by lia; lia). all: replace (- p.2) with 0 by lia; simpl; lia.
Qed.

Lemma float_set_int_roundtrip_witness : float_int (float_set ilog10 0 1234567) 0 0 = 1234567.
Proof. apply (float_set_int_roundtrip ilog10 1234567 ilog10_ok). lia. Defined.

(** ** Multiplication *)

(** The product of two mantissas has sixteen or seventeen digits after the
    division. *)
Lemma product_range m1 m2 :
  minMantissa <= m1 <= maxMantissa -> minMantissa <= m2 <= maxMantissa ->
  10 ^ 15 <= m1 * m2 / 10 ^ 15 < 10 ^ 17 /\
  0 <= m1 * m2 - m1 * m2 / 10 ^ 15 * 10 ^ 15 < 10 ^ 15.
Proof.
  unfold_bounds. intros H1 H2. pose proof (Z.div_mod (m1 * m2) (10 ^ 15) ltac:(lia)).
  pose proof (Z.mod_pos_bound (m1 * m2) (10 ^ 15) ltac:(lia)). assert (10 ^ 30 <= m1 * m2 <= 10 ^ 32 - 1) by nia. lia.
Qed.

Lemma product_shift log10 P :
  log10_ok log10 -> 10 ^ 15 <= P < 10 ^ 17 -> 0 <= (norm_pair log10 P).2 <= 2.
Proof.
  intros Hlog HP. destruct (Hlog P) as (_ & Hlo & Hhi); [lia|].
  assert (15 <= log10 P).
  { destruct (Z_lt_le_dec (log10 P) 15); [|done].
    pose proof (Z.pow_le_mono_r 10 (log10 P + 1) 15 ltac:(lia) ltac:(lia)). lia. }
  assert (log10 P <= 17).
  { destruct (Z_lt_le_dec 17 (log10 P)); [|done].
    pose proof (Z.pow_le_mono_r 10 18 (log10 P) ltac:(lia) ltac:(lia)). lia. }
  unfold norm_pair, trunc10. cbv zeta. destruct (Z.eq_dec (log10 P) 15) as [->|]; [|repeat case_match; simpl; lia].
  change (15 - 15 <=? 0) with true. cbv iota. change (10 ^ (- (15 - 15))) with 1.
  rewrite (proj2 (Z.ltb_ge (P * 1) minMantissa)) by (unfold minMantissa; lia). simpl. lia.
Qed.

Lemma product_error m1 m2 P M s :
  0 <= m1 * m2 - P * 10 ^ 15 < 10 ^ 15 -> 0 <= s -> near P M s ->
  Z.abs (m1 * m2 - M * 10 ^ (15 + s)) <= 11 * 10 ^ (15 + s).
Proof.
  unfold near. intros HP Hs. rewrite !pow10_split by lia. assert (1 <= 10 ^ s) by lia. nia.
Qed.

(** [float_multiply] of two non-zero valid XFLs: there are a mantissa [M] in
    range and a shift [s] such that [M * 10 ^ (e1 + e2 + 15 + s)] is the product of
    the two numbers up to eleven units of the last place, with the sign of the
    product; the result is this XFL, zero on underflow, [XFL_OVERFLOW] on overflow. *)
Theorem float_multiply_correct log10 m1 e1 n1 m2 e2 n2 :
  log10_ok log10 ->
  minMantissa <= m1 <= maxMantissa /\ minExponent <= e1 <= maxExponent ->
  minMantissa <= m2 <= maxMantissa /\ minExponent <= e2 <= maxExponent ->
  exists M s, minMantissa <= M <= maxMantissa /\ 0 <= s <= 2 /\
    Z.abs (m1 * m2 - M * 10 ^ (15 + s)) <= 11 * 10 ^ (15 + s) /\
    float_multiply log10 (make_float m1 e1 n1) (make_float m2 e2 n2) =
      let E := e1 + e2 + 15 + s in
      if E <? minExponent then 0 else
      if maxExponent <? E then XFL_OVERFLOW else make_float M E (xorb n1 n2).
Proof.
  intros Hlog Hw1 Hw2. destruct (product_range m1 m2) as [HP HPr]; [apply Hw1|apply Hw2|].
  set (P := m1 * m2 / 10 ^ 15) in *. assert (0 < P < 2 ^ 64) as HP64 by lia.
  pose proof (norm_pair_range log10 Hlog P HP64) as [HM _]. pose proof (product_shift log10 P Hlog HP) as Hs.
  exists (norm_pair log10 P).1, (norm_pair log10 P).2. split_and!; [lia..| |].
  { eapply product_error; [exact HPr|lia|by apply norm_pair_near]. }
  rewrite !make_float_pack by done. pose proof (pack_range m1 e1 n1 Hw1). pose proof (pack_range m2 e2 n2 Hw2).
  unfold float_multiply. rewrite !invalid_float_pack, !get_mantissa_pack, !get_exponent_pack, !is_negative_pack by done.
  replace (_ || _) with false by lia. unfold float_multiply_internal_parts, power_of_ten. unfold_bounds.
  rewrite (u64_small m1), (u64_small m2) by lia. fold P. rewrite (u64_small P) by lia.
  replace (P <? P) with false by lia. rewrite s32_small by lia. cbv zeta.
  replace (n1 && negb n2 || negb n1 && n2) with (xorb n1 n2) by (by destruct n1, n2).
  destruct (normalize_core log10 Hlog false P (e1 + e2 + 15) (xorb n1 n2)) as [Hn _]; [lia..|].
  destruct (normalize_xfl _ _ _ _ _) as [[r a] b]. simpl in Hn. subst r. unfold xfl_or_error. unfold_bounds.
  set (p := norm_pair log10 P) in *.
  destruct (Z.ltb_spec (e1 + e2 + 15 + p.2) (-96)); [done|].
  destruct (Z.ltb_spec 80 (e1 + e2 + 15 + p.2)); [done|].
  assert (wf p.1 (e1 + e2 + 15 + p.2)) as Hw by (unfold_bounds; lia).
  pose proof (pack_range _ _ (xorb n1 n2) Hw). unfold EXPONENT_UNDERSIZED, EXPONENT_OVERSIZED.
  replace (_ =? -29) with false by lia. replace (_ =? -28) with false by lia. by rewrite make_float_pack.
Qed.

Lemma float_multiply_correct_witness :
  exists M s, minMantissa <= M <= maxMantissa /\ 0 <= s <= 2 /\
    Z.abs (2000000000000000 * 3500000000000000 - M * 10 ^ (15 + s)) <= 11 * 10 ^ (15 + s) /\
    float_multiply ilog10 (make_float 2000000000000000 (-15) false) (make_float 3500000000000000 (-14) true) =
      let E := -15 + -14 + 15 + s in
      if E <? minExponent then 0 else
      if maxExponent <? E then XFL_OVERFLOW else make_float M E (xorb false true).
Proof. apply (float_multiply_correct ilog10); [exact ilog10_ok|unfold_bounds; lia..]. Defined.

(** ** Division *)

Lemma div_digit_spec fuel hf : forall r d i,
  0 < d -> 0 <= r < Z.of_nat fuel * d ->
  exists q r', div_digit fuel hf r d i = Some (r', i + q) /\ r = q * d + r' /\ 0 <= q < Z.of_nat fuel /\ 0 <= r' <= d.
Proof.
  induction fuel as [|fuel IH]; intros r d i Hd Hr; [lia|]. cbn [div_digit].
  destruct (if hf then d <=? r else d <? r) eqn:Hc.
  - assert (d <= r) by (destruct hf; lia).
    destruct (Z.eq_dec (r - d) 0) as [Hz|].
    + exists 1, 0. destruct fuel as [|fuel]; [lia|]. cbn [div_digit]. rewrite Hz.
      replace (if hf then d <=? 0 else d <? 0) with false by (destruct hf; lia). split_and!; (done || lia).
    + destruct (IH (r - d) d (i + 1) Hd) as (q & r' & -> & Hr' & Hq & Hr''); [rewrite Nat2Z.inj_succ in Hr; lia|].
      exists (q + 1), r'. split_and!; try lia. do 2 f_equal. lia.
  - exists 0, r. assert (r <= d) by (destruct hf; lia). split_and!; try lia. do 2 f_equal. lia.
Qed.

(** One round of the loop, with [p] the weight of the digits to come. *)
Lemma div_round p d t d1 r r' i D n :
  1 <= p -> d = 10 * d1 + t -> 0 <= t <= 9 -> r = i * d + r' -> 0 <= i <= 19 -> 0 <= n ->
  0 <= 9 * D <= 19 * (10 * p - 1) -> (r' - 10) * p <= D * d1 <= (r' + 20 * n) * p ->
  0 <= 9 * (i * (10 * p) + D) <= 19 * (10 * (10 * p) - 1) /\
  (r - 10) * (10 * p) <= (i * (10 * p) + D) * d <= (r + 20 * (n + 1)) * (10 * p).
Proof.
  intros Hp Hd Ht Hr Hi Hn HD HDd. assert (0 <= i * p <= 19 * p) by nia. split; [lia|].
  assert ((i * (10 * p) + D) * d = (r - r') * (10 * p) + 10 * (D * d1) + t * D) as ->.
  { assert (r - r' = i * d) as -> by lia. rewrite Hd. ring. }
  assert (0 <= t * D <= 9 * D) by nia. lia.
Qed.

(** The digits of the quotient: with [n + 1] digits in the divisor [d], the loop
    returns [q * 10 ^ (n + 1) + D] with [D] the quotient [r * 10 ^ n / d], up to the
    error of cutting the divisor in each round. *)
Lemma div_digits_spec hf n : forall fuel r d q e,
  (S n <= fuel)%nat -> 10 ^ Z.of_nat n <= d < 10 ^ Z.of_nat (S n) -> 0 <= r < 20 * d ->
  0 <= q -> (q + 3) * 10 ^ Z.of_nat (S n) < 2 ^ 64 -> - 2 ^ 20 <= e - Z.of_nat n -> e <= 2 ^ 20 ->
  exists D, div_digits fuel hf r d q e = Some (q * 10 ^ Z.of_nat (S n) + D, e - Z.of_nat n) /\
    0 <= 9 * D <= 19 * (10 ^ Z.of_nat (S n) - 1) /\
    (r - 10) * 10 ^ Z.of_nat n <= D * d <= (r + 20 * Z.of_nat (S n)) * 10 ^ Z.of_nat n.
Proof.
  induction n as [|n IH]; intros fuel r d q e Hf Hd Hr Hq Hov He1 He2;
    destruct fuel as [|fuel]; try lia; cbn [div_digits]; replace (0 <? d) with true by lia;
    destruct (div_digit_spec 20 hf r d 0) as (i & r' & -> & Hri & Hi & Hr'); try lia.
  - simpl in Hd, Hov. rewrite (Z.div_small d 10) by lia. simpl. exists i.
    rewrite (u64_small (q * 10)), u64_small by lia. split_and!; try lia. do 2 f_equal; lia.
  - assert (10 ^ Z.of_nat (S (S n)) = 10 * (10 * 10 ^ Z.of_nat n)) as E2
      by (rewrite !Nat2Z.inj_succ, !Z.pow_succ_r by lia; ring).
    assert (10 ^ Z.of_nat (S n) = 10 * 10 ^ Z.of_nat n) as E1 by (rewrite !Nat2Z.inj_succ, !Z.pow_succ_r by lia; ring).
    rewrite E2, E1 in *. pose proof (Z.div_mod d 10 ltac:(lia)) as Hdm. pose proof (Z.mod_pos_bound d 10 ltac:(lia)).
    assert (1 <= 10 ^ Z.of_nat n) as Hp by lia. set (p := 10 ^ Z.of_nat n) in *. replace (d / 10 =? 0) with false by lia.
    assert (q <= q * p) by nia. cbv zeta. rewrite (Z.add_0_l i), (u64_small (q * 10)) by lia.
    rewrite u64_small, s32_small by lia.
    destruct (IH fuel r' (d / 10) (q * 10 + i) (e - 1)) as (D & -> & HD & HDd); rewrite ?E1; try lia.
    { assert (i * p <= 19 * p) by nia. lia. }
    exists (i * (10 * p) + D). split; [do 2 f_equal; [ring|lia]|].
    replace (Z.of_nat (S (S n))) with (Z.of_nat (S n) + 1) by lia.
    by eapply (div_round p d (d mod 10) (d / 10) r r'); lia.
Qed.

(** The two loops before the digits make the divisor fit the dividend. *)
Lemma div_prepare a1 a2 x :
  minMantissa <= a1 <= maxMantissa -> minMantissa <= a2 <= maxMantissa -> -1000 <= x <= 1000 ->
  exists d0 x0 d c n, div_shrink 20 a1 a2 x = Some (d0, x0) /\ d0 <> 0 /\ div_grow 20 a1 d0 x0 = Some (d, x + c) /\
    (n = 14 \/ n = 15)%nat /\ 10 ^ Z.of_nat n <= d < 10 ^ Z.of_nat (S n) /\ d <= a1 < 20 * d /\
    0 <= c <= 1 /\ 0 <= a2 - d * 10 ^ c <= 9.
Proof.
  unfold_bounds. intros H1 H2 Hx. cbn [div_shrink]. destruct (Z.ltb_spec a1 a2).
  - pose proof (Z.div_mod a2 10 ltac:(lia)). pose proof (Z.mod_pos_bound a2 10 ltac:(lia)). set (h := a2 / 10) in *.
    replace (a1 <? h) with false by lia. rewrite s32_small by lia.
    destruct (Z_lt_le_dec a1 (h * 10)).
    + exists h, (x + 1), h, 1, 14%nat. split; [done|]. split; [lia|]. split; [|simpl; split_and!; (lia || by left)].
      cbn [div_grow]. replace (h <? a1) with true by lia. rewrite u64_small by lia.
      by replace (a1 <? h * 10) with true by lia.
    + exists h, (x + 1), (h * 10), 0, 15%nat. split; [done|]. split; [lia|]. split; [|simpl; split_and!; (lia || by right)].
      cbn [div_grow]. replace (h <? a1) with true by lia. rewrite !u64_small by lia.
      replace (a1 <? h * 10) with false by lia. rewrite s32_small by lia.
      replace (x + 1 - 1) with (x + 0) by lia. destruct (Z.ltb_spec (h * 10) a1); [|done].
      by replace (a1 <? h * 10 * 10) with true by lia.
  - exists a2, x, a2, 0, 15%nat. split; [done|]. split; [lia|]. split; [|simpl; split_and!; (lia || by right)].
    rewrite Z.add_0_r. cbn [div_grow]. destruct (Z.ltb_spec a2 a1); [|done]. rewrite u64_small by lia.
    by replace (a1 <? a2 * 10) with true by lia.
Qed.

(** [x] is [y] up to [k] parts in 10^14. *)
Definition rel (k x y : Z) : Prop := Z.abs (x - y) * 10 ^ 14 <= k * y.

Lemma rel_trans k1 k2 x y z :
  0 <= k1 <= 1000 -> 0 <= k2 <= 1000 -> 0 <= z -> rel k1 x y -> rel k2 y z -> rel (k1 + k2 + 1) x z.
Proof.
  unfold rel. intros Hk1 Hk2 Hz H1 H2. assert (y * 10 ^ 14 <= (10 ^ 14 + 1000) * z) by nia.
  assert (k1 * y * 10 ^ 14 <= k1 * ((10 ^ 14 + 1000) * z)) by nia. assert (0 <= k1 * z <= 1000 * z) by nia.
  assert (k1 * y <= (k1 + 1) * z) by nia. lia.
Qed.

Lemma rel_sym k x y : 0 <= k <= 1000 -> 0 <= y -> rel k x y -> rel (k + 1) y x.
Proof. unfold rel. intros Hk Hy H. assert ((10 ^ 14 - 1000) * y <= x * 10 ^ 14) by nia. nia. Qed.

Lemma rel_mul k x y c : 0 <= c -> rel k x y -> rel k (x * c) (y * c).
Proof.
  unfold rel. intros Hc H. replace (x * c - y * c) with ((x - y) * c) by ring.
  rewrite Z.abs_mul, (Z.abs_eq c) by done. nia.
Qed.

Lemma rel_cancel k x y c : 0 < c -> rel k (x * c) (y * c) -> rel k x y.
Proof.
  unfold rel. intros Hc. replace (x * c - y * c) with ((x - y) * c) by ring.
  rewrite Z.abs_mul, (Z.abs_eq c) by lia. nia.
Qed.

Lemma near_rel m M s : minMantissa <= M -> -16 <= s -> near m M s -> rel 1 (m * 10 ^ 16) (M * 10 ^ (s + 16)).
Proof. unfold near, rel, minMantissa. intros HM Hs H. assert (0 < 10 ^ (s + 16)) by lia. nia. Qed.

Lemma norm_pair_normal log10 m :
  log10_ok log10 -> minMantissa <= m <= maxMantissa ->
  0 <= (norm_pair log10 m).2 <= 1 /\ rel 1 m ((norm_pair log10 m).1 * 10 ^ (norm_pair log10 m).2).
Proof.
  intros Hlog Hm. unfold_bounds. assert (0 <= (norm_pair log10 m).2 <= 1) as Hs.
  { pose proof (product_shift log10 m Hlog ltac:(lia)). split; [lia|].
    destruct (Hlog m) as (_ & Hlo & _); [lia|].
    assert (log10 m <= 16); [|unfold norm_pair; cbv zeta; repeat case_match; simpl; lia].
    destruct (Z_lt_le_dec 16 (log10 m)); [|done].
    pose proof (Z.pow_le_mono_r 10 17 (log10 m) ltac:(lia) ltac:(lia)). lia. }
  split; [done|]. apply (rel_cancel 1 _ _ (10 ^ 16)); [lia|]. rewrite <- Z.mul_assoc, <- pow10_split by lia.
  apply near_rel; [apply norm_pair_range; [done|lia]|lia|]. apply norm_pair_near; [done|lia].
Qed.

Local Ltac pos := repeat first [apply Z.mul_nonneg_nonneg | apply Z.mul_pos_pos]; lia.

(** The errors of the stages of a division, put together. *)
Lemma div_chain M m2 D a2 d a1 m1 s s1 s2 c n g :
  0 < m1 -> 0 < m2 -> 0 < D -> 0 < d -> 0 < a1 -> 0 < a2 ->
  -16 <= s -> 0 <= s1 -> 0 <= s2 -> 0 <= c -> 0 <= n -> 0 <= g -> s + s1 + g = n + c + s2 ->
  rel 2 (M * 10 ^ (s + 16)) (D * 10 ^ 16) -> rel 1 m2 (a2 * 10 ^ s2) -> rel 2 a2 (d * 10 ^ c) ->
  rel 32 (D * d) (a1 * 10 ^ n) -> rel 2 (a1 * 10 ^ s1) m1 ->
  rel 43 (M * m2) (m1 * 10 ^ g).
Proof.
  intros Hm1 Hm2 HD Hd Ha1 Ha2 Hs Hs1 Hs2 Hc Hn Hg Heq R1 R2 R3 R4 R5.
  assert (0 < 10 ^ s1 /\ 0 < 10 ^ s2 /\ 0 < 10 ^ c /\ 0 < 10 ^ n /\ 0 < 10 ^ (s + 16)) as (P1 & P2 & Pc & Pn & Ps) by lia.
  apply (rel_cancel _ _ _ (10 ^ (s + 16) * 10 ^ s1)); [pos|].
  replace (m1 * 10 ^ g * (10 ^ (s + 16) * 10 ^ s1)) with (m1 * (10 ^ n * 10 ^ 16 * 10 ^ c * 10 ^ s2)).
  2: { rewrite <- (Z.mul_assoc m1 (10 ^ g)). f_equal. rewrite <- !pow10_split by lia. f_equal. lia. }
  apply (rel_trans 40 2 _ (a1 * 10 ^ s1 * (10 ^ n * 10 ^ 16 * 10 ^ c * 10 ^ s2))); [lia|lia|pos| |by apply rel_mul; [pos|]].
  apply (rel_trans 7 32 _ (D * d * (10 ^ s1 * 10 ^ 16 * 10 ^ c * 10 ^ s2))); [lia|lia|pos| |].
  2: { replace (a1 * 10 ^ s1 * _) with (a1 * 10 ^ n * (10 ^ s1 * 10 ^ 16 * 10 ^ c * 10 ^ s2)) by ring. by apply rel_mul; [pos|]. }
  apply (rel_trans 4 2 _ (a2 * (D * 10 ^ s1 * 10 ^ 16 * 10 ^ s2))); [lia|lia|pos| |].
  2: { replace (D * d * _) with (d * 10 ^ c * (D * 10 ^ s1 * 10 ^ 16 * 10 ^ s2)) by ring. by apply rel_mul; [pos|]. }
  apply (rel_trans 2 1 _ (m2 * (D * 10 ^ s1 * 10 ^ 16))); [lia|lia|pos| |].
  - replace (m2 * _) with (D * 10 ^ 16 * (m2 * 10 ^ s1)) by ring.
    replace (M * m2 * _) with (M * 10 ^ (s + 16) * (m2 * 10 ^ s1)) by ring. by apply rel_mul; [pos|].
  - replace (a2 * _) with (a2 * 10 ^ s2 * (D * 10 ^ s1 * 10 ^ 16)) by ring. by apply rel_mul; [pos|].
Qed.

(** The quotient of two normal mantissas, from the loops to the normalization. *)
Lemma div_stages log10 hf m1 m2 e1 e2 :
  log10_ok log10 -> minMantissa <= m1 <= maxMantissa -> minMantissa <= m2 <= maxMantissa ->
  -96 <= e1 <= 79 -> -96 <= e2 <= 79 ->
  let p1 := norm_pair log10 m1 in let p2 := norm_pair log10 m2 in
  exists d0 x0 d x D y, div_shrink 20 p1.1 p2.1 (e2 + p2.2) = Some (d0, x0) /\ d0 <> 0 /\
    div_grow 20 p1.1 d0 x0 = Some (d, x) /\
    div_digits 20 hf p1.1 d 0 (s32 (e1 + p1.2 - x)) = Some (D, y) /\
    0 < D < 2 ^ 63 /\ -1000 <= y <= 1000 /\
    let p := norm_pair log10 D in
    0 <= e1 - e2 - (y + p.2) /\ rel 43 (p.1 * m2) (m1 * 10 ^ (e1 - e2 - (y + p.2))).
Proof.
  intros Hlog Hm1 Hm2 He1 He2 p1 p2. assert (0 < m1 < 2 ^ 64 /\ 0 < m2 < 2 ^ 64) as [B1 B2] by (unfold_bounds; lia).
  pose proof (norm_pair_range log10 Hlog m1 B1) as [Ha1 _]. pose proof (norm_pair_range log10 Hlog m2 B2) as [Ha2 _].
  pose proof (norm_pair_normal log10 m1 Hlog Hm1) as [Hs1 R5]. pose proof (norm_pair_normal log10 m2 Hlog Hm2) as [Hs2 R2].
  fold p1 in Ha1, Hs1, R5. fold p2 in Ha2, Hs2, R2. clearbody p1 p2.
  destruct (div_prepare p1.1 p2.1 (e2 + p2.2) Ha1 Ha2 ltac:(lia)) as (d0 & x0 & d & c & n & Hsh & Hd0 & Hgr & Hn & Hd & Hda & Hc & Hdc).
  assert (0 < d) as Hdpos by lia. assert (14 <= Z.of_nat n <= 15) as Hn' by lia. clear Hn.
  assert (10 ^ 14 <= 10 ^ Z.of_nat n) by (apply Z.pow_le_mono_r; lia).
  assert (10 ^ Z.of_nat (S n) <= 10 ^ 16) by (apply Z.pow_le_mono_r; lia). exists d0, x0, d, (e2 + p2.2 + c).
  rewrite s32_small by lia. unfold minMantissa, maxMantissa in *.
  destruct (div_digits_spec hf n 20 p1.1 d 0 (e1 + p1.2 - (e2 + p2.2 + c))) as (D & HD & HDr & HDd); try lia.
  rewrite Z.mul_0_l, Z.add_0_l in HD.
  assert (0 < D) by (apply (Z.mul_pos_cancel_r D d Hdpos); lia).
  assert (D < 2 ^ 63) by lia.
  exists D, (e1 + p1.2 - (e2 + p2.2 + c) - Z.of_nat n). do 6 (split; [done || lia|]).
  assert (0 < D < 2 ^ 64) as BD by lia. pose proof (norm_pair_range log10 Hlog D BD) as [HM Hs].
  pose proof (norm_pair_near log10 Hlog D BD) as HN. cbv zeta. set (p := norm_pair log10 D) in *.
  set (g := e1 - e2 - _). assert (p.2 + p1.2 + g = Z.of_nat n + c + p2.2) as Hg by (subst g; lia). split; [lia|].
  eapply (div_chain p.1 m2 D p2.1 d p1.1 m1 p.2 p1.2 p2.2 c (Z.of_nat n) g); unfold_bounds; try lia.
  - apply rel_sym with (k := 1); [lia|lia|]. apply near_rel; [unfold minMantissa; lia|lia|done].
  - exact R2.
  - unfold rel. lia.
  - unfold rel. clear -HDd Ha1 Hn'. set (q := 10 ^ Z.of_nat n) in *. assert (0 < q) by lia.
    assert (0 <= (p1.1 - 10 ^ 15) * q) by (apply Z.mul_nonneg_nonneg; lia).
    assert (Z.of_nat (S n) * q <= 16 * q) by (apply Z.mul_le_mono_nonneg_r; lia). lia.
  - apply rel_sym with (k := 1); [lia|pos|done].
Qed.

Lemma float_one_pack : float_one_internal = pack 1000000000000000 (-15) false.
Proof. done. Qed.

(** [float_divide] returns, with or without the division fix, and divides: for
    non-zero XFLs [m1 * 10 ^ e1] and [m2 * 10 ^ e2] with exponents below 80 and a
    divisor other than one, there are a mantissa [M] in range and an exponent [E]
    with [M * 10 ^ E] times the divisor equal to the dividend up to 43 parts in
    10^14; the result is this XFL with the sign of the quotient, zero on underflow,
    [XFL_OVERFLOW] on overflow. The loops by subtraction never run out of fuel. *)
Theorem float_divide_correct log10 hasFix m1 e1 n1 m2 e2 n2 :
  log10_ok log10 ->
  minMantissa <= m1 <= maxMantissa /\ minExponent <= e1 < maxExponent ->
  minMantissa <= m2 <= maxMantissa /\ minExponent <= e2 < maxExponent ->
  make_float m2 e2 n2 <> float_one_internal ->
  exists M E, minMantissa <= M <= maxMantissa /\ 0 <= e1 - e2 - E /\
    Z.abs (M * m2 - m1 * 10 ^ (e1 - e2 - E)) * 10 ^ 14 <= 43 * (m1 * 10 ^ (e1 - e2 - E)) /\
    float_divide log10 hasFix (make_float m1 e1 n1) (make_float m2 e2 n2) =
      Some (if E <? minExponent then 0 else
            if maxExponent <? E then XFL_OVERFLOW else make_float M E (xorb n1 n2)).
Proof.
  intros Hlog [Hm1 He1] [Hm2 He2] Hone. unfold minExponent, maxExponent in He1, He2.
  destruct (div_stages log10 hasFix m1 m2 e1 e2) as (d0 & x0 & d & x & D & y & Hsh & Hd0 & Hgr & Hdi & HD & Hy & Hg & HR); [done|done|done|lia|lia|].
  assert (wf m1 e1) as Hw1 by (unfold_bounds; lia). assert (wf m2 e2) as Hw2 by (unfold_bounds; lia).
  pose proof (norm_pair_range log10 Hlog D ltac:(lia)) as [HM _].
  exists (norm_pair log10 D).1, (y + (norm_pair log10 D).2). split; [done|]. split; [done|]. split; [exact HR|].
  rewrite make_float_pack in Hone by done. rewrite !make_float_pack by done.
  pose proof (pack_range m1 e1 n1 Hw1). pose proof (pack_range m2 e2 n2 Hw2).
  unfold float_divide, float_divide_internal.
  rewrite !invalid_float_pack, !get_mantissa_pack, !get_exponent_pack, !is_negative_pack by done.
  rewrite !(proj2 (Z.eqb_neq _ _)) by (done || lia). unfold minMantissa, maxMantissa in *.
  rewrite (u64_small m1), (u64_small m2) by lia.
  pose proof (norm_pair_range log10 Hlog m1 ltac:(lia)) as [Hp1 _]. pose proof (norm_pair_normal log10 m1 Hlog Hm1) as [Hs1 _].
  pose proof (norm_pair_range log10 Hlog m2 ltac:(lia)) as [Hp2 _]. pose proof (norm_pair_normal log10 m2 Hlog Hm2) as [Hs2 _].
  destruct (normalize_core log10 Hlog false m1 e1 false) as [_ ->]; [lia|lia|lia| |unfold_bounds; lia|by left].
  destruct (normalize_core log10 Hlog false m2 e2 false) as [_ ->]; [lia|lia|lia| |unfold_bounds; lia|by left].
  pose proof (pack_range (norm_pair log10 m1).1 (e1 + (norm_pair log10 m1).2) false ltac:(unfold_bounds; lia)).
  pose proof (pack_range (norm_pair log10 m2).1 (e2 + (norm_pair log10 m2).2) false ltac:(unfold_bounds; lia)).
  replace (_ || _) with false by lia. rewrite (proj2 (Z.eqb_neq _ _)) by lia.
  rewrite Hsh, (proj2 (Z.eqb_neq d0 0)) by done. rewrite Hgr, Hdi. f_equal.
  replace (negb (n1 && n2 || negb n1 && negb n2)) with (xorb n1 n2) by (by destruct n1, n2).
  destruct (normalize_core log10 Hlog false D y (xorb n1 n2)) as [-> _]; [lia..|]. unfold xfl_or_error.
  destruct (Z.ltb_spec (y + (norm_pair log10 D).2) minExponent); [done|].
  destruct (Z.ltb_spec maxExponent (y + (norm_pair log10 D).2)); [done|]. rewrite make_float_pack; [done|]. split; unfold_bounds; lia.
Qed.

Lemma float_divide_correct_witness :
  exists M E, minMantissa <= M <= maxMantissa /\ 0 <= -15 - -14 - E /\
    Z.abs (M * 3000000000000000 - 1000000000000000 * 10 ^ (-15 - -14 - E)) * 10 ^ 14
      <= 43 * (1000000000000000 * 10 ^ (-15 - -14 - E)) /\
    float_divide ilog10 true (make_float 1000000000000000 (-15) false) (make_float 3000000000000000 (-14) true) =
      Some (if E <? minExponent then 0 else
            if maxExponent <? E then XFL_OVERFLOW else make_float M E (xorb false true)).
Proof.
  apply (float_divide_correct ilog10 true 1000000000000000 (-15) false 3000000000000000 (-14) true ilog10_ok);
    [unfold_bounds; lia..|by vm_compute].
Defined.

(** ** The largest mantissa *)

(** A sixteen digit mantissa can be rounded up. The double nearest to
    9999999999999999 is 10^16, whose [log10] is 16, so that [float_set] divides the
    mantissa by ten and returns 10^15 * 10^1, although the number given is an XFL
    mantissa and would need no change. *)
Theorem float_set_rounds_up log10 :
  (forall a b, to_double a = to_double b -> log10 a = log10 b) -> log10 (10 ^ 16) = 16 ->
  float_set log10 0 9999999999999999 = make_float 1000000000000000 1 false.
Proof.
  intros Hd H16. assert (log10 9999999999999999 = 16) as Hl.
  { rewrite <- H16. apply Hd. by vm_compute. }
  unfold float_set, normalize_xfl, norm_scale. simpl. rewrite Hl. by vm_compute.
Qed.

Definition double_log10 (m : Z) : Z :=
  match to_double m with SpecFloat.S754_finite _ p e => ilog10 (Z.pos p * 2 ^ e) | _ => 0 end.

Lemma float_set_rounds_up_witness :
  float_set double_log10 0 9999999999999999 = make_float 1000000000000000 1 false.
Proof.
  apply (float_set_rounds_up double_log10); [intros a b; unfold double_log10; by intros ->|by vm_compute].
Defined.
