(* ===== verification/Number.v ===== *)
(** * Decimal floating point numbers (src/src/ripple/basics/Number.h, impl/Number.cpp)

    [Number] is a mantissa ([int64_t]) and an exponent ([int]); a normal number has
    sixteen digits. The rounding mode, a thread-local variable of the source, is an
    argument. [Guard] collects the digits an operation shifts out: sixteen of them
    as nibbles of a 64-bit word, a sticky bit for the rest, and a sign.

    Loops that shift by the difference of two exponents run that many times; the
    others take fuel, which [NumberFacts] shows to be enough for [normalize],
    multiplication, addition of equal signs and the conversion to an integer. *)

From S2P Require Import Prelude.

Record Number := mkNumber { mantissa_ : Z; exponent_ : Z }.

#[export] Instance Number_eq_dec : EqDecision Number.
Proof. solve_decision. Defined.

Definition Number_zero : Number := mkNumber 0 (- 2 ^ 31).

Definition Number_minMantissa : Z := 1000000000000000.
Definition Number_maxMantissa : Z := 9999999999999999.
Definition Number_minExponent : Z := -32768.
Definition Number_maxExponent : Z := 32768.

Inductive rounding_mode := to_nearest | towards_zero | downward | upward.

(** ** Guard *)

Record Guard := mkGuard { digits_ : Z; xbit_ : bool; sbit_ : bool }.

Definition Guard_new : Guard := mkGuard 0 false false.
Definition set_negative (g : Guard) : Guard := mkGuard (digits_ g) (xbit_ g) true.

Definition Guard_push (d : Z) (g : Guard) : Guard :=
  mkGuard (Z.lor (Z.shiftr (digits_ g) 4) (u64 (Z.shiftl (Z.land d 0xF) 60)))
    (xbit_ g || negb (Z.land (digits_ g) 0xF =? 0)) (sbit_ g).

Definition Guard_pop (g : Guard) : Z * Guard :=
  (Z.shiftr (Z.land (digits_ g) 0xF000000000000000) 60,
   mkGuard (u64 (Z.shiftl (digits_ g) 4)) (xbit_ g) (sbit_ g)).

Definition Guard_round (mode : rounding_mode) (g : Guard) : Z :=
  let nonzero := (0 <? digits_ g) || xbit_ g in
  match mode with
  | towards_zero => -1
  | downward => if sbit_ g then (if nonzero then 1 else -1) else -1
  | upward => if sbit_ g then -1 else (if nonzero then 1 else -1)
  | to_nearest =>
    if 0x5000000000000000 <? digits_ g then 1 else
    if digits_ g <? 0x5000000000000000 then -1 else
    if xbit_ g then 1 else 0
  end.

(** [r == 1 || (r == 0 && (m & 1) == 1)] *)
Definition rounds (r m : Z) : bool := (r =? 1) || ((r =? 0) && (Z.land m 1 =? 1)).

(** [++m; if (m > maxMantissa) { m /= 10; ++e; }] when the guard says so. *)
Definition round_up (mode : rounding_mode) (g : Guard) (m e : Z) : Z * Z :=
  if rounds (Guard_round mode g) m then
    let m := m + 1 in
    if Number_maxMantissa <? m then (m / 10, e + 1) else (m, e)
  else (m, e).

(** ** normalize *)

Fixpoint scale_up {E} (fuel : nat) (m e : Z) : outcome E (Z * Z) :=
  if (m <? Number_minMantissa) && (Number_minExponent <? e) then
    match fuel with
    | O => Timeout
    | S fuel => scale_up fuel (u64 (m * 10)) (e - 1)
    end
  else Ret (m, e).

Fixpoint scale_down {E} (fuel : nat) (g : Guard) (m e : Z) : outcome E (Guard * Z * Z) :=
  if Number_maxMantissa <? m then
    match fuel with
    | O => Timeout
    | S fuel =>
      if Number_maxExponent <=? e then Throw overflow_error
      else scale_down fuel (Guard_push (m mod 10) g) (m / 10) (e + 1)
    end
  else Ret (g, m, e).

Definition Number_normalize {E} (mode : rounding_mode) (n : Number) : outcome E Number :=
  if mantissa_ n =? 0 then Ret Number_zero else
  let negative := mantissa_ n <? 0 in
  let m := u64 (mantissa_ n) in
  let m := if negative then u64 (- m) else m in
  let* '(m, e) := scale_up 20 m (exponent_ n) in
  let g := if negative then set_negative Guard_new else Guard_new in
  let* '(g, m, e) := scale_down 20 g m e in
  if (e <? Number_minExponent) || (m <? Number_minMantissa) then Ret Number_zero else
  let '(m, e) := round_up mode g m e in
  if Number_maxExponent <? e then Throw overflow_error else
  Ret (mkNumber (if negative then - m else m) e).

(** [Number{mantissa, exponent}] *)
Definition Number_make {E} (mode : rounding_mode) (mantissa exponent : Z) : outcome E Number :=
  Number_normalize mode (mkNumber mantissa exponent).

Definition Number_one : Number := mkNumber 1000000000000000 (-15).
Definition Number_neg (x : Number) : Number := mkNumber (- mantissa_ x) (exponent_ x).

Definition isnormal (x : Number) : bool :=
  let abs_m := if mantissa_ x <? 0 then - mantissa_ x else mantissa_ x in
  (Number_minMantissa <=? abs_m) && (abs_m <=? Number_maxMantissa) &&
  (Number_minExponent <=? exponent_ x) && (exponent_ x <=? Number_maxExponent).

Definition Number_lt (x y : Number) : bool :=
  let lneg := mantissa_ x <? 0 in
  let rneg := mantissa_ y <? 0 in
  if negb (Bool.eqb lneg rneg) then lneg else
  if mantissa_ x =? 0 then 0 <? mantissa_ y else
  if mantissa_ y =? 0 then false else
  if exponent_ y <? exponent_ x then lneg else
  if exponent_ x <? exponent_ y then negb lneg else
  mantissa_ x <? mantissa_ y.

Definition Number_abs (x : Number) : Number := if Number_lt x Number_zero then Number_neg x else x.

(** ** Addition *)

(** [do { g.push(m % 10); m /= 10; } while (...)], [n] times. *)
Fixpoint align (n : nat) (g : Guard) (m : Z) : Guard * Z :=
  match n with
  | O => (g, m)
  | S n => align n (Guard_push (m mod 10) g) (m / 10)
  end.

(** [while (xm < minMantissa) { xm *= 10; xm -= g.pop(); --xe; }] *)
Fixpoint borrow {E} (fuel : nat) (g : Guard) (xm xe : Z) : outcome E (Guard * Z * Z) :=
  if xm <? Number_minMantissa then
    match fuel with
    | O => Timeout
    | S fuel => let '(d, g) := Guard_pop g in borrow fuel g (xm * 10 - d) (xe - 1)
    end
  else Ret (g, xm, xe).

(** Operands of the same sign: the sum of the aligned mantissas. *)
Definition add_magnitudes {E} (mode : rounding_mode) (g : Guard) (xm ym xe xn : Z) : outcome E Number :=
  let xm := xm + ym in
  let '(g, xm, xe) :=
    if Number_maxMantissa <? xm then (Guard_push (xm mod 10) g, xm / 10, xe + 1) else (g, xm, xe) in
  let '(xm, xe) := round_up mode g xm xe in
  if Number_maxExponent <? xe then Throw overflow_error else Ret (mkNumber (xm * xn) xe).

(** Operands of opposite signs: the difference of the aligned mantissas. *)
Definition sub_magnitudes {E} (mode : rounding_mode) (g : Guard) (xm ym xe xn yn : Z) : outcome E Number :=
  let '(xm, xn) := if ym <? xm then (xm - ym, xn) else (ym - xm, yn) in
  let* '(g, xm, xe) := borrow 40 g xm xe in
  let '(xm, xe) :=
    if rounds (Guard_round mode g) xm then
      let xm := xm - 1 in
      if xm <? Number_minMantissa then (xm * 10, xe - 1) else (xm, xe)
    else (xm, xe) in
  let '(xm, xe) := if xe <? Number_minExponent then (0, exponent_ Number_zero) else (xm, xe) in
  Ret (mkNumber (xm * xn) xe).

Definition Number_add {E} (mode : rounding_mode) (x y : Number) : outcome E Number :=
  if decide (y = Number_zero) then Ret x else
  if decide (x = Number_zero) then Ret y else
  if decide (x = Number_neg y) then Ret Number_zero else
  let xn := if mantissa_ x <? 0 then -1 else 1 in
  let yn := if mantissa_ y <? 0 then -1 else 1 in
  let xm := Z.abs (mantissa_ x) in
  let ym := Z.abs (mantissa_ y) in
  let xe := exponent_ x in
  let ye := exponent_ y in
  let '(g, xm, ym, e) :=
    if xe <? ye then
      let '(g, xm) := align (Z.to_nat (ye - xe)) (if xn =? -1 then set_negative Guard_new else Guard_new) xm in
      (g, xm, ym, ye)
    else
      let '(g, ym) := align (Z.to_nat (xe - ye)) (if (ye <? xe) && (yn =? -1) then set_negative Guard_new else Guard_new) ym in
      (g, xm, ym, xe) in
  if xn =? yn then add_magnitudes mode g xm ym e xn
  else sub_magnitudes mode g xm ym e xn yn.

Definition Number_sub {E} (mode : rounding_mode) (x y : Number) : outcome E Number :=
  Number_add mode x (Number_neg y).

(** ** Multiplication *)

Definition u128 (x : Z) : Z := x mod 2 ^ 128.

(** Quotient and remainder of a 128-bit integer by ten, by shifts and additions. *)
Definition divu10 (u : Z) : Z * Z :=
  let q := u128 (Z.shiftr u 1 + Z.shiftr u 2) in
  let q := u128 (q + Z.shiftr q 4) in
  let q := u128 (q + Z.shiftr q 8) in
  let q := u128 (q + Z.shiftr q 16) in
  let q := u128 (q + Z.shiftr q 32) in
  let q := u128 (q + Z.shiftr q 64) in
  let q := Z.shiftr q 3 in
  let r := u32 (u128 (u - u128 (u128 (Z.shiftl q 3) + u128 (Z.shiftl q 1)))) in
  let c := Z.shiftr (u32 (r + 6)) 4 in
  (u128 (q + c), u32 (r - u32 (c * 10))).

Fixpoint mul_down {E} (fuel : nat) (g : Guard) (zm ze : Z) : outcome E (Guard * Z * Z) :=
  if Number_maxMantissa <? zm then
    match fuel with
    | O => Timeout
    | S fuel => let '(q, r) := divu10 zm in mul_down fuel (Guard_push r g) q (ze + 1)
    end
  else Ret (g, zm, ze).

Definition Number_mul {E} (mode : rounding_mode) (x y : Number) : outcome E Number :=
  if decide (x = Number_zero) then Ret x else
  if decide (y = Number_zero) then Ret y else
  let xn := if mantissa_ x <? 0 then -1 else 1 in
  let yn := if mantissa_ y <? 0 then -1 else 1 in
  let zm := u128 (Z.abs (mantissa_ x) * Z.abs (mantissa_ y)) in
  let ze := exponent_ x + exponent_ y in
  let zn := xn * yn in
  let g := if zn =? -1 then set_negative Guard_new else Guard_new in
  let* '(g, zm, ze) := mul_down 20 g zm ze in
  let '(xm, xe) := round_up mode g (s64 zm) ze in
  let '(xm, xe) := if xe <? Number_minExponent then (0, exponent_ Number_zero) else (xm, xe) in
  if Number_maxExponent <? xe then Throw overflow_error else
  Ret (mkNumber (xm * zn) xe).

(** ** Division, conversion and powers *)

Definition Number_div {E} (mode : rounding_mode) (x y : Number) : outcome E Number :=
  if decide (y = Number_zero) then Throw overflow_error else
  if decide (x = Number_zero) then Ret x else
  let np := if mantissa_ x <? 0 then -1 else 1 in
  let dp := if mantissa_ y <? 0 then -1 else 1 in
  let nm := Z.abs (mantissa_ x) in
  let dm := Z.abs (mantissa_ y) in
  let f := 100000000000000000 in
  let m := s64 (u128 (nm * f) / dm) in
  Number_normalize mode (mkNumber (m * (np * dp)) (exponent_ x - exponent_ y - 17)).

(** [for (; offset > 0; --offset) { ...; drops *= 10; }] *)
Fixpoint rep_up {E} (n : nat) (drops : Z) : outcome E Z :=
  match n with
  | O => Ret drops
  | S n => if (2 ^ 63 - 1) / 10 <? drops then Throw overflow_error else rep_up n (drops * 10)
  end.

(** [operator rep]: to an integer. *)
Definition Number_rep {E} (mode : rounding_mode) (x : Number) : outcome E Z :=
  if mantissa_ x =? 0 then Ret (mantissa_ x) else
  let negative := mantissa_ x <? 0 in
  let g := if negative then set_negative Guard_new else Guard_new in
  let '(g, drops) := align (Z.to_nat (- exponent_ x)) g (Z.abs (mantissa_ x)) in
  let* drops := rep_up (Z.to_nat (exponent_ x)) drops in
  let drops := if rounds (Guard_round mode g) drops then drops + 1 else drops in
  Ret (if sbit_ g then - drops else drops).

(** [power(f, n)], by halving [n]. *)
Fixpoint Number_power_loop {E} (fuel : nat) (mode : rounding_mode) (f : Number) (n : Z) : outcome E Number :=
  if n =? 0 then Ret Number_one else
  if n =? 1 then Ret f else
  match fuel with
  | O => Timeout
  | S fuel =>
    let* r := Number_power_loop fuel mode f (n / 2) in
    let* r := Number_mul mode r r in
    if negb (n mod 2 =? 0) then Number_mul mode r f else Ret r
  end.

Definition Number_power {E} (mode : rounding_mode) (f : Number) (n : Z) : outcome E Number :=
  Number_power_loop 32 mode f n.
