(* ===== verification/NumberFacts.v ===== *)
(** * Theorems on Number

    Division by ten with shifts, the guard digits, correct rounding of
    normalization, multiplication and addition of like signs, the order, and the
    conversion to an integer. *)

From S2P Require Import Prelude Number.

(** ** Division by ten *)

Lemma shiftr_range x n : 0 <= n -> 0 <= x -> 0 <= Z.shiftr x n /\ 2 ^ n * Z.shiftr x n <= x < 2 ^ n * Z.shiftr x n + 2 ^ n.
Proof.
  intros Hn Hx. rewrite Z.shiftr_div_pow2 by done. pose proof (Z.div_mod x (2 ^ n) ltac:(lia)).
  pose proof (Z.mod_pos_bound x (2 ^ n) ltac:(lia)). pose proof (Z.div_pos x (2 ^ n) Hx ltac:(lia)). lia.
Qed.

Lemma u128_small x : 0 <= x < 2 ^ 128 -> u128 x = x.
Proof. apply Z.mod_small. Qed.

(** One step [q + (q >> n)], which stays below [q * (1 + 2 ^ -n)]. *)
Lemma divu10_step q n : 0 <= n -> 0 <= q -> q + Z.shiftr q n < 2 ^ 128 ->
  exists s, u128 (q + Z.shiftr q n) = q + s /\ 0 <= s /\ 2 ^ n * s <= q < 2 ^ n * s + 2 ^ n.
Proof.
  intros Hn Hq Hlt. pose proof (shiftr_range q n Hn Hq) as [? ?]. exists (Z.shiftr q n).
  rewrite u128_small by lia. split_and!; lia.
Qed.

Lemma divu10_quotient u : 0 <= u < 2 ^ 128 -> divu10 u = (u / 10, u mod 10).
Proof.
  intros Hu. unfold divu10.
  pose proof (shiftr_range u 1 ltac:(lia) ltac:(lia)) as [Ha Ha']. pose proof (shiftr_range u 2 ltac:(lia) ltac:(lia)) as [Hb Hb'].
  set (a := Z.shiftr u 1) in *. set (b := Z.shiftr u 2) in *. rewrite (u128_small (a + b)) by lia.
  destruct (divu10_step (a + b) 4) as (s4 & -> & ? & ?); [lia|lia|pose proof (shiftr_range (a + b) 4); lia|].
  destruct (divu10_step (a + b + s4) 8) as (s8 & -> & ? & ?); [lia|lia|pose proof (shiftr_range (a + b + s4) 8); lia|].
  destruct (divu10_step (a + b + s4 + s8) 16) as (s16 & -> & ? & ?); [lia|lia|pose proof (shiftr_range (a + b + s4 + s8) 16); lia|].
  destruct (divu10_step (a + b + s4 + s8 + s16) 32) as (s32' & -> & ? & ?); [lia|lia|pose proof (shiftr_range (a + b + s4 + s8 + s16) 32); lia|].
  assert (0 <= a + b + s4 + s8 + s16 + s32' < 2 ^ 127 + 2 ^ 126 + 2 ^ 125) as Hq4 by lia.
  set (q4 := a + b + s4 + s8 + s16 + s32') in *.
  destruct (divu10_step q4 64) as (s64' & -> & ? & ?); [lia|lia|pose proof (shiftr_range q4 64 ltac:(lia) ltac:(lia)); lia|].
  pose proof (shiftr_range (q4 + s64') 3 ltac:(lia) ltac:(lia)) as [Hq Hq']. set (q := Z.shiftr (q4 + s64') 3) in *.
  assert (0 <= u - 10 * q <= 19) as Hr by lia.
  rewrite !Z.shiftl_mul_pow2, (u128_small (q * 2 ^ 3)), (u128_small (q * 2 ^ 1)) by lia.
  rewrite (u128_small (q * 2 ^ 3 + q * 2 ^ 1)) by lia.
  replace (u - (q * 2 ^ 3 + q * 2 ^ 1)) with (u - 10 * q) by lia. rewrite (u128_small (u - 10 * q)) by lia.
  rewrite (u32_small (u - 10 * q)), (u32_small (_ + 6)) by lia.
  rewrite Z.shiftr_div_pow2 by lia. pose proof (Z.div_mod u 10 ltac:(lia)). pose proof (Z.mod_pos_bound u 10 ltac:(lia)).
  destruct (Z_lt_le_dec (u - 10 * q) 10).
  - rewrite (Z.div_small (_ + 6)) by lia. rewrite u128_small, (u32_small (0 * 10)), u32_small by lia. f_equal; lia.
  - replace ((u - 10 * q + 6) / 2 ^ 4) with 1 by (apply (Z.div_unique_pos _ _ _ (u - 10 * q - 10)); lia).
    rewrite u128_small, (u32_small (1 * 10)), u32_small by lia. f_equal; lia.
Qed.

(** ** Guard digits *)

(** The guard holds the [k] digits of [F], the last of them least significant in
    [F]: the top nibble is the top digit, and the other nibbles and the sticky bit
    tell whether the rest of [F] is zero. *)
Definition guard_holds (g : Guard) (k F : Z) : Prop :=
  0 <= digits_ g < 2 ^ 64 /\ 0 <= k /\ 0 <= F < 10 ^ k /\
  (k = 0 -> digits_ g = 0 /\ xbit_ g = false) /\
  (0 < k -> digits_ g / 2 ^ 60 = F / 10 ^ (k - 1) /\
            ((digits_ g mod 2 ^ 60 =? 0) && negb (xbit_ g)) = (F mod 10 ^ (k - 1) =? 0)).

Lemma guard_holds_new s : guard_holds (mkGuard 0 false s) 0 0.
Proof. unfold guard_holds. simpl. split_and!; lia. Qed.

(** Whether any digit is not zero. *)
Lemma guard_holds_zero g k F : guard_holds g k F -> ((digits_ g =? 0) && negb (xbit_ g)) = (F =? 0).
Proof.
  intros (Hd & Hk & HF & H0 & H1). destruct (Z.eq_dec k 0) as [->|].
  - destruct (H0 eq_refl) as [-> ->]. simpl in HF. replace (F =? 0) with true by lia. done.
  - destruct (H1 ltac:(lia)) as [Ht Hz]. assert (0 < 10 ^ (k - 1)) by lia.
    pose proof (Z.div_mod (digits_ g) (2 ^ 60) ltac:(lia)). pose proof (Z.mod_pos_bound (digits_ g) (2 ^ 60) ltac:(lia)).
    pose proof (Z.div_mod F (10 ^ (k - 1)) ltac:(lia)). pose proof (Z.mod_pos_bound F (10 ^ (k - 1)) ltac:(lia)).
    pose proof (Z.div_pos F (10 ^ (k - 1)) ltac:(lia) ltac:(lia)).
    destruct (xbit_ g); simpl in *.
    + rewrite andb_false_r in *. symmetry. apply Z.eqb_neq. intros ->. rewrite Z.mod_0_l in Hz by lia. done.
    + rewrite andb_true_r in *. destruct (Z.eqb_spec F 0) as [->|Hn].
      * rewrite Z.div_0_l, Z.mod_0_l in * by lia. simpl in Hz. lia.
      * apply Z.eqb_neq. intros Hg. rewrite Hg in *. rewrite Z.mod_0_l, Z.div_0_l in * by lia. simpl in Hz. nia.
Qed.

Lemma land_low_high a d n : 0 <= n -> 0 <= a < 2 ^ n -> Z.land a (d * 2 ^ n) = 0.
Proof.
  intros Hn Ha. apply Z.bits_inj'. intros k Hk. rewrite Z.land_spec, Z.bits_0. destruct (Z_lt_le_dec k n).
  - rewrite (Z.mul_pow2_bits_low d n k) by lia. apply andb_false_r.
  - rewrite <- (Z.mod_small a (2 ^ n)), Z.mod_pow2_bits_high by lia. done.
Qed.

Lemma nibble_push w d : 0 <= w < 2 ^ 64 -> 0 <= d <= 9 ->
  Z.lor (Z.shiftr w 4) (u64 (Z.shiftl (Z.land d 0xF) 60)) = w / 16 + d * 2 ^ 60.
Proof.
  intros Hw Hd. change 0xF with (Z.ones 4). rewrite Z.land_ones, Z.mod_small by lia.
  rewrite Z.shiftl_mul_pow2, u64_small, Z.shiftr_div_pow2 by lia. change (2 ^ 4) with 16.
  assert (0 <= w / 16 < 2 ^ 60) by (split; [apply Z.div_pos|apply Z.div_lt_upper_bound]; lia).
  pose proof (land_low_high (w / 16) d 60 ltac:(lia) ltac:(lia)) as Hz.
  by rewrite <- Z.lxor_lor, Z.add_nocarry_lxor.
Qed.

Lemma guard_holds_push g k F d :
  guard_holds g k F -> 0 <= d <= 9 -> guard_holds (Guard_push d g) (k + 1) (d * 10 ^ k + F).
Proof.
  intros Hg Hd. pose proof (guard_holds_zero g k F Hg) as Hz. destruct Hg as (Hw & Hk & HF & _ & _).
  unfold guard_holds, Guard_push. simpl. rewrite nibble_push by done. change 15 with (Z.ones 4).
  rewrite Z.land_ones by lia. change (2 ^ 4) with 16.
  pose proof (Z.div_mod (digits_ g) 16 ltac:(lia)) as Hdm. pose proof (Z.mod_pos_bound (digits_ g) 16 ltac:(lia)) as Hm.
  set (w := digits_ g) in *. set (h := w / 16) in *. set (l := w mod 16) in *.
  assert (0 <= h < 2 ^ 60) by lia. assert (0 < 10 ^ k) by lia.
  assert (10 ^ (k + 1) = 10 * 10 ^ k) as Hp by (rewrite Z.add_1_r, Z.pow_succ_r by lia; lia).
  assert (0 <= d * 10 ^ k <= 9 * 10 ^ k) by nia.
  split; [lia|]. split; [lia|]. split; [lia|]. split; [lia|]. intros _. replace (k + 1 - 1) with k by lia. split.
  - rewrite Z.div_add, Z.div_small by lia. rewrite Z.add_comm with (n := d * 10 ^ k), Z.div_add, (Z.div_small F) by lia. lia.
  - rewrite Z.mod_add, (Z.mod_small h) by lia. rewrite Z.add_comm with (n := d * 10 ^ k), Z.mod_add, (Z.mod_small F) by lia.
    rewrite <- Hz. destruct (xbit_ g); simpl; [by rewrite !andb_false_r|]. rewrite andb_true_r, negb_involutive.
    destruct (Z.eqb_spec h 0), (Z.eqb_spec l 0), (Z.eqb_spec w 0); simpl; try done; lia.
Qed.

(** ** Rounding *)

(** Whether a magnitude with fraction [F / 10 ^ k] is rounded away from zero. *)
Definition round_away (mode : rounding_mode) (neg odd : bool) (F k : Z) : bool :=
  match mode with
  | to_nearest => (10 ^ k <? 2 * F) || ((2 * F =? 10 ^ k) && odd)
  | towards_zero => false
  | downward => neg && negb (F =? 0)
  | upward => negb neg && negb (F =? 0)
  end.

(** [N / 10 ^ k] rounded to an integer; [neg] is the sign of the number. *)
Definition rnd (mode : rounding_mode) (neg : bool) (N k : Z) : Z :=
  let q := N / 10 ^ k in
  if round_away mode neg (Z.odd q) (N mod 10 ^ k) k then q + 1 else q.

Lemma rounds_away mode g m k F :
  guard_holds g k F -> rounds (Guard_round mode g) m = round_away mode (sbit_ g) (Z.odd m) F k.
Proof.
  intros Hg. pose proof (guard_holds_zero g k F Hg) as Hz. destruct Hg as (Hw & Hk & HF & H0 & H1).
  assert (negb (F =? 0) = ((0 <? digits_ g) || xbit_ g)) as Hnz.
  { rewrite <- Hz, negb_andb, negb_involutive. f_equal. destruct (Z.eqb_spec (digits_ g) 0); lia. }
  unfold rounds, Guard_round, round_away. rewrite Hnz. destruct mode; try done.
  2,3: by destruct (sbit_ g), ((0 <? digits_ g) || xbit_ g).
  assert ((Z.land m 1 =? 1) = Z.odd m) as ->.
  { change 1 with (Z.ones 1) at 1. rewrite Z.land_ones, Zmod_odd by lia. by destruct (Z.odd m). }
  destruct (Z.eq_dec k 0) as [->|].
  - destruct (H0 eq_refl) as [-> ->]. simpl in HF. replace F with 0 by lia. done.
  - destruct (H1 ltac:(lia)) as [Ht Hr]. assert (10 ^ k = 10 * 10 ^ (k - 1)) as Hp.
    { rewrite <- Z.pow_succ_r by lia. f_equal. lia. }
    assert (0 < 10 ^ (k - 1)) by lia. set (P := 10 ^ (k - 1)) in *. rewrite Hp.
    pose proof (Z.div_mod F P ltac:(lia)). pose proof (Z.mod_pos_bound F P ltac:(lia)).
    pose proof (Z.div_mod (digits_ g) (2 ^ 60) ltac:(lia)). pose proof (Z.mod_pos_bound (digits_ g) (2 ^ 60) ltac:(lia)).
    set (t := F / P) in *. set (f := F mod P) in *. set (lo := digits_ g mod 2 ^ 60) in *.
    change 0x5000000000000000 with (5 * 2 ^ 60). rewrite Ht in *.
    destruct (Z.ltb_spec (5 * 2 ^ 60) (digits_ g)); [|destruct (Z.ltb_spec (digits_ g) (5 * 2 ^ 60))]; simpl.
    + assert (10 * P < 2 * F); [|by rewrite (proj2 (Z.ltb_lt _ _))]. destruct (Z.eq_dec t 5) as [->|]; [|assert (6 * P <= t * P) by nia; lia].
      replace (lo =? 0) with false in Hr by lia. simpl in Hr. lia.
    + assert (t <= 4) by lia. assert (t * P <= 4 * P) by nia. assert (2 * F < 10 * P) by lia.
      by rewrite (proj2 (Z.ltb_ge _ _)), (proj2 (Z.eqb_neq _ _)) by lia.
    + assert (t = 5 /\ lo = 0) as [Ht5 Hlo] by lia. rewrite Hlo in Hr. rewrite Ht5 in *. simpl in Hr.
      destruct (xbit_ g); simpl in *.
      * by rewrite (proj2 (Z.ltb_lt _ _)) by lia.
      * by rewrite (proj2 (Z.ltb_ge _ _)), (proj2 (Z.eqb_eq _ _)) by lia.
Qed.

Lemma round_up_rnd mode g k F m e :
  guard_holds g k F ->
  round_up mode g m e =
    let M := rnd mode (sbit_ g) (m * 10 ^ k + F) k in
    if Number_maxMantissa <? M then (if M =? m then (m, e) else (M / 10, e + 1)) else (M, e).
Proof.
  intros Hg. pose proof Hg as (_ & Hk & HF & _). unfold round_up, rnd. rewrite (rounds_away mode g m k F Hg).
  assert (0 < 10 ^ k) by lia. rewrite (Z.add_comm (m * 10 ^ k)), Z.div_add, Z.mod_add, (Z.div_small F), (Z.mod_small F), Z.add_0_l by lia.
  destruct (round_away _ _ _ _ _).
  - replace (m + 1 =? m) with false by lia. done.
  - rewrite Z.eqb_refl. by destruct (_ <? m).
Qed.

(** ** Reference: a number rounded to sixteen digits *)

(** [N * 10 ^ e], where [N] has [16 + s] digits, with the sign [neg]. *)
Definition rounded {E} (mode : rounding_mode) (neg : bool) (N s e : Z) : outcome E Number :=
  let M := rnd mode neg N s in
  let '(M, e') := if Number_maxMantissa <? M then (M / 10, e + s + 1) else (M, e + s) in
  if Number_maxExponent <? e' then Throw overflow_error
  else Ret (mkNumber (if neg then - M else M) e').

Lemma round_up_le mode g k F m e :
  guard_holds g k F -> m <= Number_maxMantissa ->
  round_up mode g m e =
    let M := rnd mode (sbit_ g) (m * 10 ^ k + F) k in
    if Number_maxMantissa <? M then (M / 10, e + 1) else (M, e).
Proof.
  intros Hg Hm. rewrite (round_up_rnd mode g k F) by done. cbv zeta.
  destruct (Z.ltb_spec Number_maxMantissa (rnd mode (sbit_ g) (m * 10 ^ k + F) k)); [|done].
  by rewrite (proj2 (Z.eqb_neq _ _)) by lia.
Qed.

(** Rounding leaves at least the truncated mantissa, and at most one more. *)
Lemma rnd_range mode neg N k : rnd mode neg N k = N / 10 ^ k \/ rnd mode neg N k = N / 10 ^ k + 1.
Proof. unfold rnd. destruct (round_away _ _ _ _ _); lia. Qed.

(** A digit moved from the mantissa to the guard. *)
Lemma guard_shift g k F m :
  guard_holds g k F -> 0 <= m ->
  guard_holds (Guard_push (m mod 10) g) (k + 1) (m mod 10 * 10 ^ k + F) /\
  m * 10 ^ k + F = m / 10 * 10 ^ (k + 1) + (m mod 10 * 10 ^ k + F).
Proof.
  intros Hg Hm. pose proof Hg as (_ & Hk & _). pose proof (Z.mod_pos_bound m 10 ltac:(lia)).
  pose proof (Z.div_mod m 10 ltac:(lia)). split; [apply guard_holds_push; [done|lia]|].
  rewrite Z.pow_add_r, Z.pow_1_r by lia. rewrite H0 at 1. ring.
Qed.

Lemma push_sbit d g : sbit_ (Guard_push d g) = sbit_ g.
Proof. done. Qed.

(** The state after [s] digits of [N] have moved to the guard. *)
Definition shifted (g : Guard) (neg : bool) (N s m : Z) : Prop :=
  sbit_ g = neg /\ guard_holds g s (N mod 10 ^ s) /\ m = N / 10 ^ s.

Lemma shifted_new (neg : bool) N :
  shifted (if neg then set_negative Guard_new else Guard_new) neg N 0 N.
Proof.
  split; [by destruct neg|]. rewrite Z.pow_0_r, Z.mod_1_r, Z.div_1_r. split; [|done].
  destruct neg; apply guard_holds_new.
Qed.

Lemma shifted_push g neg N s m :
  0 <= N -> shifted g neg N s m -> shifted (Guard_push (m mod 10) g) neg N (s + 1) (m / 10).
Proof.
  intros HN (Hs & Hg & ->). pose proof Hg as (_ & Hk & _). assert (0 < 10 ^ s) by lia.
  destruct (guard_shift g s (N mod 10 ^ s) (N / 10 ^ s)) as [Hg' Heq]; [done|apply Z.div_pos; lia|].
  assert (10 ^ (s + 1) = 10 ^ s * 10) as Hp by (rewrite Z.pow_add_r by lia; lia).
  assert (N / 10 ^ s / 10 = N / 10 ^ (s + 1)) as Hq by (rewrite Hp, Z.div_div by lia; done).
  split; [done|]. split; [|done].
  replace (N mod 10 ^ (s + 1)) with (N / 10 ^ s mod 10 * 10 ^ s + N mod 10 ^ s); [done|].
  pose proof (Z.div_mod N (10 ^ s) ltac:(lia)). pose proof (Z.div_mod N (10 ^ (s + 1)) ltac:(lia)). rewrite Hq in Heq. lia.
Qed.

Lemma shifted_round mode g neg N s m e :
  shifted g neg N s m -> m <= Number_maxMantissa ->
  round_up mode g m e =
    let M := rnd mode neg N s in if Number_maxMantissa <? M then (M / 10, e + 1) else (M, e).
Proof.
  intros (<- & Hg & ->) Hm. pose proof Hg as (_ & Hk & _). rewrite (round_up_le mode g s (N mod 10 ^ s)) by done.
  replace (N / 10 ^ s * 10 ^ s + N mod 10 ^ s) with N; [done|].
  pose proof (Z.div_mod N (10 ^ s) ltac:(lia)). lia.
Qed.

Lemma align_shifted n : forall g neg N s m, 0 <= N -> shifted g neg N s m ->
  exists g', align n g m = (g', m / 10 ^ Z.of_nat n) /\ shifted g' neg N (s + Z.of_nat n) (m / 10 ^ Z.of_nat n).
Proof.
  induction n as [|n IH]; intros g neg N s m HN Hs.
  - exists g. rewrite Z.pow_0_r, Z.div_1_r, Z.add_0_r. done.
  - cbn [align]. apply shifted_push in Hs; [|done]. apply IH in Hs as (g' & -> & Hs); [|done].
    exists g'. assert (m / 10 / 10 ^ Z.of_nat n = m / 10 ^ Z.of_nat (S n)) as Hd.
    { rewrite Nat2Z.inj_succ, Z.pow_succ_r, Z.div_div by lia. done. }
    rewrite Hd in *. split; [done|]. by replace (s + Z.of_nat (S n)) with (s + 1 + Z.of_nat n) by lia.
Qed.

(** Sixteen digits remain exactly when [S] digits have been moved. *)
Lemma digits_left N s S :
  0 <= s <= S -> 10 ^ (15 + S) <= N < 10 ^ (16 + S) ->
  (Number_maxMantissa <? N / 10 ^ s) = (s <? S) /\ 10 ^ 15 <= N / 10 ^ s.
Proof.
  intros Hs HN. unfold Number_maxMantissa. assert (0 < 10 ^ s) by lia. assert (10 ^ 15 <= N / 10 ^ s).
  { apply Z.div_le_lower_bound; [done|]. rewrite <- Z.pow_add_r by lia.
    pose proof (Z.pow_le_mono_r 10 (s + 15) (15 + S)). lia. }
  split; [|done]. destruct (Z.ltb_spec s S).
  - apply Z.ltb_lt. apply Z.lt_le_trans with (10 ^ 16); [lia|]. apply Z.div_le_lower_bound; [done|].
    rewrite <- Z.pow_add_r by lia. pose proof (Z.pow_le_mono_r 10 (s + 16) (15 + S)). lia.
  - replace s with S in * by lia. apply Z.ltb_ge. enough (N / 10 ^ S < 10 ^ 16) by lia.
    apply Z.div_lt_upper_bound; [done|]. rewrite <- Z.pow_add_r by lia. replace (S + 16) with (16 + S) by lia. lia.
Qed.

Lemma mul_down_shifted {E} fuel : forall g neg N s ze S,
  shifted g neg N s (N / 10 ^ s) -> 0 <= N < 2 ^ 128 -> 0 <= s <= S -> 10 ^ (15 + S) <= N < 10 ^ (16 + S) ->
  S - s < Z.of_nat fuel ->
  exists g', mul_down (E := E) fuel g (N / 10 ^ s) ze = Ret (g', N / 10 ^ S, ze + (S - s)) /\ shifted g' neg N S (N / 10 ^ S).
Proof.
  induction fuel as [|fuel IH]; intros g neg N s ze S Hsh HN Hs HS Hf; [lia|]. cbn [mul_down].
  destruct (digits_left N s S Hs HS) as [-> Hlo]. destruct (Z.ltb_spec s S).
  - assert (N / 10 ^ s <= N) by (apply Z.div_le_upper_bound; [lia|]; assert (1 <= 10 ^ s) by lia; nia).
    rewrite divu10_quotient by lia. apply shifted_push in Hsh; [|lia].
    assert (N / 10 ^ s / 10 = N / 10 ^ (s + 1)) as Hq.
    { assert (0 < 10 ^ s) by lia. by rewrite Z.div_div, Z.pow_add_r by lia. }
    rewrite Hq in *. destruct (IH _ neg N (s + 1) (ze + 1) S Hsh) as (g' & -> & Hs'); [lia|lia|done|lia|].
    exists g'. split; [|done]. do 2 f_equal. lia.
  - assert (s = S) as -> by lia. exists g. split; [|done]. do 2 f_equal. lia.
Qed.

Lemma isnormal_spec x :
  isnormal x = true <->
  Number_minMantissa <= Z.abs (mantissa_ x) <= Number_maxMantissa /\
  Number_minExponent <= exponent_ x <= Number_maxExponent.
Proof.
  unfold isnormal. rewrite !andb_true_iff, !Z.leb_le.
  replace (if mantissa_ x <? 0 then - mantissa_ x else mantissa_ x) with (Z.abs (mantissa_ x))
    by (destruct (Z.ltb_spec (mantissa_ x) 0); lia). lia.
Qed.

Lemma normal_not_zero x : isnormal x = true -> x <> Number_zero.
Proof. intros H ->. done. Qed.

Definition sign_of (x : Number) : bool := mantissa_ x <? 0.

Lemma Number_mul_ref E mode x y s :
  isnormal x = true -> isnormal y = true ->
  let P := Z.abs (mantissa_ x) * Z.abs (mantissa_ y) in
  10 ^ (15 + s) <= P < 10 ^ (16 + s) -> 0 <= s ->
  Number_mul (E := E) mode x y =
    let* r := rounded mode (xorb (sign_of x) (sign_of y)) P s (exponent_ x + exponent_ y) in
    Ret (if exponent_ r <? Number_minExponent then Number_zero else r).
Proof.
  intros Hx Hy P HP Hs. pose proof (normal_not_zero x Hx). pose proof (normal_not_zero y Hy).
  apply isnormal_spec in Hx as [Hxm Hxe]. apply isnormal_spec in Hy as [Hym Hye].
  unfold Number_mul. rewrite !decide_False by done. cbv zeta. fold P. unfold Number_minMantissa, Number_maxMantissa in *.
  assert (10 ^ 30 <= P <= 10 ^ 32 - 1) as HPb by (subst P; nia). rewrite u128_small by lia.
  set (zn := (if _ <? 0 then -1 else 1) * _). set (neg := xorb (sign_of x) (sign_of y)).
  assert (zn = if neg then -1 else 1) as Hzn by (subst zn neg; unfold sign_of; by destruct (_ <? 0), (_ <? 0)).
  assert (s <= 17) by (destruct (Z_lt_le_dec 17 s); [pose proof (Z.pow_le_mono_r 10 33 (15 + s)); lia|done]).
  pose proof (shifted_new neg P) as Hsh. replace P with (P / 10 ^ 0) in Hsh at 2 by (by rewrite Z.pow_0_r, Z.div_1_r).
  destruct (mul_down_shifted (E := E) 20 _ neg P 0 (exponent_ x + exponent_ y) s Hsh) as (g & Hmd & Hsh'); [lia|lia|done|lia|].
  rewrite Z.pow_0_r, Z.div_1_r, Z.sub_0_r in Hmd.
  replace (if zn =? -1 then set_negative Guard_new else Guard_new) with (if neg then set_negative Guard_new else Guard_new)
    by (rewrite Hzn; by destruct neg).
  rewrite Hmd. cbn [obind]. destruct (digits_left P s s ltac:(lia) HP) as [Hle Hge].
  rewrite Z.ltb_irrefl in Hle. apply Z.ltb_ge in Hle. unfold Number_maxMantissa in Hle. rewrite s64_small by lia.
  rewrite (shifted_round mode g neg P s) by done. cbv zeta. unfold rounded. cbv zeta.
  set (M := rnd mode neg P s). destruct (if Number_maxMantissa <? M then _ else _) as [M' e'] eqn:HM'.
  replace (if Number_maxMantissa <? M then _ else _) with (M', e') by (rewrite <- HM'; by destruct (_ <? M)).
  unfold Number_minExponent, Number_maxExponent. destruct (Z.ltb_spec e' (-32768)).
  - replace (32768 <? e') with false by lia. simpl. by replace (e' <? -32768) with true by lia.
  - destruct (32768 <? e'); [done|]. simpl. replace (e' <? -32768) with false by lia. do 2 f_equal.
    rewrite Hzn. destruct neg; lia.
Qed.

(** Multiplication is correctly rounded in every rounding mode. The exact product
    [P] of the mantissas is rounded to sixteen digits (with the carry into the
    exponent), the result is zero when the exponent is too small, and
    [overflow_error] is thrown when it is too large. *)
Theorem Number_mul_rounded E mode x y s :
  isnormal x = true -> isnormal y = true ->
  let P := Z.abs (mantissa_ x) * Z.abs (mantissa_ y) in
  10 ^ (15 + s) <= P < 10 ^ (16 + s) -> 0 <= s ->
  Number_mul (E := E) mode x y =
    let* r := rounded mode (xorb (sign_of x) (sign_of y)) P s (exponent_ x + exponent_ y) in
    Ret (if exponent_ r <? Number_minExponent then Number_zero else r).
Proof. apply Number_mul_ref. Qed.

Lemma Number_mul_rounded_witness :
  Number_mul (E := unit) downward (mkNumber 3333333333333333 (-16)) (mkNumber (-2000000000000001) (-15)) =
    let* r := rounded downward (xorb false true) (3333333333333333 * 2000000000000001) 15 (-16 + -15) in
    Ret (if exponent_ r <? Number_minExponent then Number_zero else r).
Proof.
  apply (Number_mul_rounded unit downward (mkNumber 3333333333333333 (-16)) (mkNumber (-2000000000000001) (-15)) 15);
    [done|done|vm_compute; split; congruence|lia].
Defined.

(** ** normalize *)

Lemma scale_down_shifted {E} fuel : forall g neg N s e S,
  shifted g neg N s (N / 10 ^ s) -> 0 <= N -> 0 <= s <= S -> 10 ^ (15 + S) <= N < 10 ^ (16 + S) ->
  S - s < Z.of_nat fuel ->
  exists g', shifted g' neg N S (N / 10 ^ S) /\
    scale_down (E := E) fuel g (N / 10 ^ s) e =
      if (s <? S) && (Number_maxExponent <? e + (S - s)) then Throw overflow_error
      else Ret (g', N / 10 ^ S, e + (S - s)).
Proof.
  induction fuel as [|fuel IH]; intros g neg N s e S Hsh HN Hs HS Hf; [lia|]. cbn [scale_down].
  destruct (digits_left N s S Hs HS) as [-> Hlo]. destruct (Z.ltb_spec s S); simpl.
  - apply shifted_push in Hsh; [|lia].
    assert (N / 10 ^ s / 10 = N / 10 ^ (s + 1)) as Hq.
    { assert (0 < 10 ^ s) by lia. by rewrite Z.div_div, Z.pow_add_r by lia. }
    rewrite Hq in *. destruct (IH _ neg N (s + 1) (e + 1) S Hsh) as (g' & Hs' & Hsd); [lia|lia|done|lia|].
    exists g'. split; [done|]. destruct (Z.leb_spec Number_maxExponent e).
    + by replace (Number_maxExponent <? e + (S - s)) with true by lia.
    + rewrite Hsd. replace (e + 1 + (S - (s + 1))) with (e + (S - s)) by lia.
      destruct (Z.ltb_spec (s + 1) S); simpl; [done|]. by replace (Number_maxExponent <? e + (S - s)) with false by lia.
  - assert (s = S) as -> by lia. exists g. split; [done|]. do 2 f_equal. lia.
Qed.

Lemma scale_up_spec {E} fuel : forall m e d,
  0 < m -> 0 <= d -> d < Z.of_nat fuel -> 10 ^ 15 <= m * 10 ^ d < 10 ^ 16 ->
  if Number_minExponent <=? e - d then scale_up (E := E) fuel m e = Ret (m * 10 ^ d, e - d)
  else exists m' e', scale_up (E := E) fuel m e = Ret (m', e') /\ 0 < m' <= Number_maxMantissa /\
         (e' < Number_minExponent \/ m' < Number_minMantissa).
Proof.
  induction fuel as [|fuel IH]; intros m e d Hm Hd Hf Hmd; [lia|]. cbn [scale_up].
  unfold Number_minMantissa, Number_minExponent in *. destruct (Z.eq_dec d 0) as [->|].
  - rewrite Z.pow_0_r, Z.mul_1_r in *. rewrite Z.sub_0_r. replace (m <? 1000000000000000) with false by lia. simpl.
    destruct (Z.leb_spec (-32768) e); [done|]. exists m, e. unfold Number_maxMantissa. split_and!; (done || lia).
  - assert (10 ^ d = 10 * 10 ^ (d - 1)) as Hp by (rewrite <- Z.pow_succ_r by lia; f_equal; lia).
    assert (1 <= 10 ^ (d - 1)) by lia. assert (m * 10 < 10 ^ 16) by nia.
    destruct (Z.ltb_spec m 1000000000000000) as [Hlt|]; [|lia]. destruct (Z.ltb_spec (-32768) e); simpl.
    + rewrite u64_small by lia. specialize (IH (m * 10) (e - 1) (d - 1)).
      replace (e - 1 - (d - 1)) with (e - d) in IH by lia. replace (m * 10 * 10 ^ (d - 1)) with (m * 10 ^ d) in IH by lia.
      apply IH; lia.
    + replace (-32768 <=? e - d) with false by lia. exists m, e. unfold Number_maxMantissa. split_and!; (done || lia).
Qed.

Lemma rnd_exact mode neg N : rnd mode neg N 0 = N.
Proof.
  unfold rnd, round_away. rewrite Z.pow_0_r, Z.div_1_r, Z.mod_1_r. destruct mode; simpl; [done|done| |]; by rewrite andb_false_r.
Qed.

(** The part of [normalize] after scaling up. *)
Lemma normalize_tail {E} mode (neg : bool) N s e :
  0 < N < 2 ^ 64 -> 0 <= s < 20 -> 10 ^ (15 + s) <= N < 10 ^ (16 + s) ->
  (let* '(g, m, e) := scale_down (E := E) 20 (if neg then set_negative Guard_new else Guard_new) N e in
   if (e <? Number_minExponent) || (m <? Number_minMantissa) then Ret Number_zero else
   let '(m, e) := round_up mode g m e in
   if Number_maxExponent <? e then Throw overflow_error else Ret (mkNumber (if neg then - m else m) e)) =
  if e + s <? Number_minExponent then Ret Number_zero else rounded mode neg N s e.
Proof.
  intros HN Hs HS. pose proof (shifted_new neg N) as Hsh. replace N with (N / 10 ^ 0) in Hsh at 2 by (by rewrite Z.pow_0_r, Z.div_1_r).
  destruct (scale_down_shifted (E := E) 20 _ neg N 0 e s Hsh) as (g & Hsh' & Hsd); [lia|lia|done|lia|].
  rewrite Z.pow_0_r, Z.div_1_r, Z.sub_0_r in Hsd. rewrite Hsd.
  destruct (digits_left N s s ltac:(lia) HS) as [Hle Hge]. rewrite Z.ltb_irrefl in Hle. apply Z.ltb_ge in Hle.
  unfold rounded. cbv zeta. set (M := rnd mode neg N s). unfold Number_minExponent, Number_maxExponent.
  destruct ((0 <? s) && (32768 <? e + s)) eqn:Hov.
  - replace (e + s <? -32768) with false by lia. simpl. destruct (_ <? M); [replace (32768 <? e + s + 1) with true by lia|replace (32768 <? e + s) with true by lia]; done.
  - cbn [obind]. replace (N / 10 ^ s <? Number_minMantissa) with false by (unfold Number_minMantissa; lia).
    rewrite orb_false_r. destruct (e + s <? -32768); [done|]. rewrite (shifted_round mode g neg N s) by done. done.
Qed.

Lemma unsigned_abs n : is_s64 n -> (if n <? 0 then u64 (- u64 n) else u64 n) = Z.abs n.
Proof.
  unfold is_s64. intros Hn. destruct (Z.ltb_spec n 0); [|rewrite u64_small; lia].
  unfold u64. rewrite <- (Z.mod_unique_pos n (2 ^ 64) (-1) (n + 2 ^ 64)) by lia.
  rewrite <- (Z.mod_unique_pos (- (n + 2 ^ 64)) (2 ^ 64) (-1) (- n)); lia.
Qed.

Lemma Number_normalize_ref E mode n e s :
  is_s64 n -> -15 <= s -> 10 ^ (15 + s) <= Z.abs n < 10 ^ (16 + s) ->
  Number_normalize (E := E) mode (mkNumber n e) =
    if e + s <? Number_minExponent then Ret Number_zero
    else rounded mode (n <? 0) (Z.abs n * 10 ^ Z.max 0 (- s)) (Z.max 0 s) (e + Z.min 0 s).
Proof.
  intros Hn Hs HS. pose proof Hn as Hn'. unfold is_s64 in Hn'. unfold Number_normalize. cbn [mantissa_ exponent_].
  assert (0 < 10 ^ (15 + s)) by lia. replace (n =? 0) with false by lia. cbv zeta. rewrite unsigned_abs by done.
  set (a := Z.abs n) in *.
  assert (s < 5) by (destruct (Z_lt_le_dec s 5); [done|pose proof (Z.pow_le_mono_r 10 20 (15 + s)); lia]).
  destruct (Z_lt_le_dec s 0) as [Hneg|Hpos].
  - replace (Z.max 0 (- s)) with (- s) by lia. replace (Z.max 0 s) with 0 by lia. replace (Z.min 0 s) with s by lia.
    assert (10 ^ 15 <= a * 10 ^ (- s) < 10 ^ 16) as Ha.
    { assert (0 < 10 ^ (- s)) by lia. split.
      - replace (10 ^ 15) with (10 ^ (15 + s) * 10 ^ (- s)) by (rewrite <- Z.pow_add_r by lia; f_equal; lia). nia.
      - replace (10 ^ 16) with (10 ^ (16 + s) * 10 ^ (- s)) by (rewrite <- Z.pow_add_r by lia; f_equal; lia). nia. }
    pose proof (scale_up_spec (E := E) 20 a e (- s)) as Hu. replace (e - - s) with (e + s) in Hu by lia.
    destruct (Z.leb_spec Number_minExponent (e + s)).
    + rewrite Hu by lia. cbn [obind]. rewrite (normalize_tail mode (n <? 0) _ 0) by (simpl; lia).
      by rewrite Z.add_0_r.
    + destruct Hu as (m' & e' & -> & Hm' & Hz); [lia..|]. replace (e + s <? Number_minExponent) with true by lia.
      cbn [obind]. unfold scale_down. replace (Number_maxMantissa <? m') with false by lia. cbn [obind].
      by replace ((e' <? Number_minExponent) || (m' <? Number_minMantissa)) with true by lia.
  - replace (Z.max 0 (- s)) with 0 by lia. replace (Z.max 0 s) with s by lia. replace (Z.min 0 s) with 0 by lia.
    rewrite Z.pow_0_r, Z.mul_1_r, Z.add_0_r. pose proof (Z.pow_le_mono_r 10 15 (15 + s)).
    cbn [scale_up]. replace (a <? Number_minMantissa) with false by (unfold Number_minMantissa; lia). cbn [andb obind].
    by rewrite (normalize_tail mode (n <? 0) a s) by lia.
Qed.

(** [normalize] is correct rounding to sixteen digits: for a mantissa [n] of
    [16 + s] digits it scales up exactly when [s] is negative, rounds when [s] is
    positive (carry included), returns zero when the exponent gets too small and
    throws [overflow_error] when it gets too large; it always terminates. *)
Theorem Number_normalize_rounded E mode n e s :
  is_s64 n -> -15 <= s -> 10 ^ (15 + s) <= Z.abs n < 10 ^ (16 + s) ->
  Number_normalize (E := E) mode (mkNumber n e) =
    if e + s <? Number_minExponent then Ret Number_zero
    else rounded mode (n <? 0) (Z.abs n * 10 ^ Z.max 0 (- s)) (Z.max 0 s) (e + Z.min 0 s).
Proof. apply Number_normalize_ref. Qed.

Lemma Number_normalize_rounded_witness :
  Number_normalize (E := unit) to_nearest (mkNumber (-123456789012345675) 3) =
    if 3 + 2 <? Number_minExponent then Ret Number_zero
    else rounded to_nearest true (Z.abs (-123456789012345675) * 10 ^ Z.max 0 (- 2)) (Z.max 0 2) (3 + Z.min 0 2).
Proof. apply (Number_normalize_rounded unit to_nearest (-123456789012345675) 3 2); [unfold is_s64; lia|lia|simpl; lia]. Defined.

Lemma rnd_correct neg N k :
  0 <= k -> 0 <= N ->
  (2 * Z.abs (rnd to_nearest neg N k * 10 ^ k - N) <= 10 ^ k /\
   (2 * Z.abs (rnd to_nearest neg N k * 10 ^ k - N) = 10 ^ k -> Z.even (rnd to_nearest neg N k) = true)) /\
  (rnd towards_zero neg N k * 10 ^ k <= N < (rnd towards_zero neg N k + 1) * 10 ^ k) /\
  (if neg then (rnd downward neg N k - 1) * 10 ^ k < N <= rnd downward neg N k * 10 ^ k
   else rnd downward neg N k * 10 ^ k <= N < (rnd downward neg N k + 1) * 10 ^ k) /\
  (if neg then rnd upward neg N k * 10 ^ k <= N < (rnd upward neg N k + 1) * 10 ^ k
   else (rnd upward neg N k - 1) * 10 ^ k < N <= rnd upward neg N k * 10 ^ k).
Proof.
  intros Hk HN. unfold rnd, round_away. pose proof (Z.div_mod N (10 ^ k) ltac:(lia)).
  pose proof (Z.mod_pos_bound N (10 ^ k) ltac:(lia)). set (q := N / 10 ^ k) in *. set (F := N mod 10 ^ k) in *.
  split; [|split; [lia|split; (destruct neg; simpl; [|]; destruct (Z.eqb_spec F 0); simpl; lia)]].
  destruct (Z.ltb_spec (10 ^ k) (2 * F)); simpl; [lia|].
  destruct (Z.eqb_spec (2 * F) (10 ^ k)); simpl; [|lia]. split; [destruct (Z.odd q); lia|]. intros _.
  destruct (Z.odd q) eqn:Ho; [by rewrite Z.even_add, <- Z.negb_odd, Ho|by rewrite <- Z.negb_odd, Ho].
Qed.

(** [N] with its last [k] digits moved to a guard and rounded as the guard says. *)
Definition guard_rounded (mode : rounding_mode) (neg : bool) (N : Z) (k : nat) : Z :=
  let '(g, m) := align k (if neg then set_negative Guard_new else Guard_new) N in
  if rounds (Guard_round mode g) m then m + 1 else m.

Lemma guard_rounded_rnd mode neg N k : 0 <= N -> guard_rounded mode neg N k = rnd mode neg N (Z.of_nat k).
Proof.
  intros HN. unfold guard_rounded. destruct (align_shifted k _ neg N 0 N HN (shifted_new neg N)) as (g & -> & Hs & Hg & _).
  rewrite Z.add_0_l in *. rewrite (rounds_away _ _ _ _ _ Hg), Hs. done.
Qed.

(** The guard rounds correctly. Moving any number of digits of [N] to the guard
    and rounding as it says gives, to nearest, an integer at distance at most one
    half from [N / 10 ^ k], and an even one when the distance is one half; towards
    zero, downward and upward (for the sign [neg]) the next integer in that
    direction. Only sixteen digits are kept, so this is about the sticky bit. *)
Theorem guard_round_correct neg N k :
  0 <= N ->
  let D := 10 ^ Z.of_nat k in let r mode := guard_rounded mode neg N k in
  (2 * Z.abs (r to_nearest * D - N) <= D /\
   (2 * Z.abs (r to_nearest * D - N) = D -> Z.even (r to_nearest) = true)) /\
  (r towards_zero * D <= N < (r towards_zero + 1) * D) /\
  (if neg then (r downward - 1) * D < N <= r downward * D else r downward * D <= N < (r downward + 1) * D) /\
  (if neg then r upward * D <= N < (r upward + 1) * D else (r upward - 1) * D < N <= r upward * D).
Proof. intros HN. cbv beta zeta. rewrite !guard_rounded_rnd by done. apply rnd_correct; [lia|done]. Qed.

Lemma guard_round_correct_witness :
  let D := 10 ^ Z.of_nat 20 in let r mode := guard_rounded mode true 150000000000000000001 20 in
  (2 * Z.abs (r to_nearest * D - 150000000000000000001) <= D /\
   (2 * Z.abs (r to_nearest * D - 150000000000000000001) = D -> Z.even (r to_nearest) = true)) /\
  (r towards_zero * D <= 150000000000000000001 < (r towards_zero + 1) * D) /\
  ((r downward - 1) * D < 150000000000000000001 <= r downward * D) /\
  (r upward * D <= 150000000000000000001 < (r upward + 1) * D).
Proof. apply (guard_round_correct true 150000000000000000001 20). lia. Defined.

(** [divu10] divides: for every 128-bit integer the shifts and additions give the
    quotient and the remainder by ten. *)
Theorem divu10_correct u : 0 <= u < 2 ^ 128 -> divu10 u = (u / 10, u mod 10).
Proof. apply divu10_quotient. Qed.

Lemma divu10_correct_witness : divu10 (10 ^ 32 + 7) = ((10 ^ 32 + 7) / 10, (10 ^ 32 + 7) mod 10).
Proof. apply (divu10_correct (10 ^ 32 + 7)). lia. Defined.

(** ** Addition *)

Lemma shifted_add g neg N s m y :
  shifted g neg N s m -> shifted g neg (N + y * 10 ^ s) s (m + y).
Proof.
  intros (Hs & Hg & ->). pose proof Hg as (_ & Hk & _). assert (0 < 10 ^ s) by lia.
  unfold shifted. rewrite Z.mod_add, Z.div_add by lia. done.
Qed.

(** The sign of the guard only matters for the directed modes. *)
Definition unsigned_mode (mode : rounding_mode) : bool :=
  match mode with to_nearest | towards_zero => true | _ => false end.

Lemma shifted_round_unsigned mode g neg neg' N s m e :
  shifted g neg' N s m -> m <= Number_maxMantissa -> neg' = neg \/ unsigned_mode mode = true ->
  round_up mode g m e =
    let M := rnd mode neg N s in if Number_maxMantissa <? M then (M / 10, e + 1) else (M, e).
Proof.
  intros Hsh Hm Hor. rewrite (shifted_round mode g neg' N s) by done.
  destruct Hor as [->|Hu]; [done|]. replace (rnd mode neg' N s) with (rnd mode neg N s); [done|]. by destruct mode.
Qed.

Lemma digits_unique N a b :
  0 <= a -> 10 ^ (15 + a) <= N < 10 ^ (16 + a) -> 10 ^ (15 + b) <= N < 10 ^ (16 + b) -> a = b.
Proof.
  intros Ha HA HB. assert (~ 16 + a <= 15 + b) by (intros Hge; pose proof (Z.pow_le_mono_r 10 (16 + a) (15 + b)); lia).
  assert (~ 16 + b <= 15 + a); [|lia]. intros Hge. destruct (Z_lt_le_dec (16 + b) 0).
  - rewrite (Z.pow_neg_r 10 (16 + b)) in HB by lia. assert (0 < 10 ^ (15 + a)) by lia. lia.
  - pose proof (Z.pow_le_mono_r 10 (16 + b) (15 + a)). lia.
Qed.

(** The number of digits of [N] from its leading part. *)
Lemma shifted_digits g neg N j m :
  shifted g neg N j m -> 0 <= N -> 10 ^ 15 <= m <= Number_maxMantissa -> 10 ^ (15 + j) <= N < 10 ^ (16 + j).
Proof.
  intros (_ & (_ & Hk & _) & ->) HN Hm. unfold Number_maxMantissa in Hm. rewrite !Z.pow_add_r by lia.
  assert (0 < 10 ^ j) by lia. pose proof (Z.div_mod N (10 ^ j) ltac:(lia)). pose proof (Z.mod_pos_bound N (10 ^ j) ltac:(lia)).
  assert (10 ^ 15 * 10 ^ j <= N / 10 ^ j * 10 ^ j <= (10 ^ 16 - 1) * 10 ^ j) by nia. lia.
Qed.

(** Adding the aligned magnitudes rounds the exact sum [N], which has sixteen or
    seventeen digits before the last [j]. *)
Lemma add_magnitudes_rounded {E} mode g neg neg' N j xm ym e s :
  shifted g neg' N j (xm + ym) -> 0 <= N -> neg' = neg \/ unsigned_mode mode = true ->
  10 ^ 15 <= xm + ym < 2 * 10 ^ 16 -> 10 ^ (15 + s) <= N < 10 ^ (16 + s) ->
  add_magnitudes (E := E) mode g xm ym (e + j) (if neg then -1 else 1) = rounded mode neg N s e.
Proof.
  intros Hsh HN Hor Hm HS. pose proof Hsh as (_ & (_ & Hj & _) & _). unfold add_magnitudes. cbv zeta.
  assert (forall M, M * (if neg then -1 else 1) = if neg then - M else M) as Hsgn by (intros; destruct neg; lia).
  destruct (Z.ltb_spec Number_maxMantissa (xm + ym)).
  - apply shifted_push in Hsh; [|done]. assert (10 ^ 15 <= (xm + ym) / 10 <= Number_maxMantissa) as Hq.
    { unfold Number_maxMantissa in *. split; [apply Z.div_le_lower_bound|apply Z.div_le_upper_bound]; lia. }
    pose proof (shifted_digits _ _ _ _ _ Hsh HN Hq) as HS'. assert (s = j + 1) as -> by (symmetry; eapply digits_unique; [lia|done..]).
    rewrite (shifted_round_unsigned mode _ neg neg' N (j + 1)) by (done || lia). unfold rounded. cbv zeta.
    replace (e + j + 1) with (e + (j + 1)) by lia. by destruct (Number_maxMantissa <? rnd mode neg N (j + 1)); rewrite Hsgn.
  - pose proof (shifted_digits _ _ _ _ _ Hsh HN ltac:(lia)) as HS'. assert (s = j) as -> by (symmetry; by eapply digits_unique).
    rewrite (shifted_round_unsigned mode g neg neg' N j) by done. unfold rounded. cbv zeta.
    by destruct (Number_maxMantissa <? rnd mode neg N j); rewrite Hsgn.
Qed.

(** A mantissa of sixteen digits. *)
Definition minMax (m : Z) : Prop := Number_minMantissa <= m <= Number_maxMantissa.

(** The smaller operand [a] is shifted by [j] digits and added to [b]. *)
Lemma align_add {E} mode (neg neg' : bool) a b j e s :
  minMax a -> minMax b -> 0 <= j -> neg' = neg \/ unsigned_mode mode = true ->
  10 ^ (15 + s) <= a + b * 10 ^ j < 10 ^ (16 + s) ->
  exists g m, align (Z.to_nat j) (if neg' then set_negative Guard_new else Guard_new) a = (g, m) /\
    add_magnitudes (E := E) mode g m b (e + j) (if neg then -1 else 1) = rounded mode neg (a + b * 10 ^ j) s e /\
    add_magnitudes (E := E) mode g b m (e + j) (if neg then -1 else 1) = rounded mode neg (a + b * 10 ^ j) s e.
Proof.
  unfold minMax, Number_minMantissa, Number_maxMantissa. intros Ha Hb Hj Hor HS.
  destruct (align_shifted (Z.to_nat j) _ neg' a 0 a ltac:(lia) (shifted_new neg' a)) as (g & Hal & Hsh).
  rewrite Z.add_0_l, Z2Nat.id in * by lia. apply (shifted_add _ _ _ _ _ b) in Hsh. assert (0 < 10 ^ j) by lia.
  assert (0 <= a / 10 ^ j <= a) by (split; [apply Z.div_pos; lia|apply Z.div_le_upper_bound; nia]).
  exists g, (a / 10 ^ j). split; [done|]. split.
  - eapply add_magnitudes_rounded; [exact Hsh|nia|done|lia|done].
  - eapply add_magnitudes_rounded; [rewrite (Z.add_comm b); exact Hsh|nia|done|lia|done].
Qed.

Lemma Number_add_ref E mode x y s :
  isnormal x = true -> isnormal y = true -> sign_of x = sign_of y ->
  exponent_ x <> exponent_ y \/ sign_of x = false \/ unsigned_mode mode = true ->
  let e := Z.min (exponent_ x) (exponent_ y) in
  let N := Z.abs (mantissa_ x) * 10 ^ (exponent_ x - e) + Z.abs (mantissa_ y) * 10 ^ (exponent_ y - e) in
  10 ^ (15 + s) <= N < 10 ^ (16 + s) ->
  Number_add (E := E) mode x y = rounded mode (sign_of x) N s e.
Proof.
  intros Hx Hy Hsg Hor e N HS. pose proof (normal_not_zero x Hx). pose proof (normal_not_zero y Hy).
  apply isnormal_spec in Hx as [Hxm Hxe]. apply isnormal_spec in Hy as [Hym Hye].
  assert (x <> Number_neg y) as Hne.
  { intros ->. unfold sign_of, Number_neg, Number_minMantissa in *. cbn [mantissa_] in *. lia. }
  unfold Number_add. rewrite !decide_False by done. cbv zeta. set (neg := sign_of x) in *.
  assert (forall z, (if mantissa_ z <? 0 then -1 else 1) = if sign_of z then -1 else 1) as Hsn by done.
  rewrite !Hsn, <- Hsg. fold neg. unfold Number_minMantissa, Number_maxMantissa in *.
  assert (((if neg then -1 else 1) =? -1) = neg) as Hn1 by (by destruct neg). rewrite Hn1, Z.eqb_refl.
  destruct (Z.ltb_spec (exponent_ x) (exponent_ y)).
  - destruct (align_add (E := E) mode neg neg (Z.abs (mantissa_ x)) (Z.abs (mantissa_ y)) (exponent_ y - exponent_ x) (exponent_ x) s)
      as (g & m & -> & Ha & _); [done|done|lia|by left| |].
    + subst N e. rewrite Z.min_l, Z.sub_diag, Z.pow_0_r, Z.mul_1_r in HS by lia. done.
    + subst N e. rewrite Z.min_l, Z.sub_diag, Z.pow_0_r, Z.mul_1_r by lia.
      by replace (exponent_ x + (exponent_ y - exponent_ x)) with (exponent_ y) in Ha by lia.
  - destruct (align_add (E := E) mode neg ((exponent_ y <? exponent_ x) && neg) (Z.abs (mantissa_ y)) (Z.abs (mantissa_ x)) (exponent_ x - exponent_ y) (exponent_ y) s)
      as (g & m & -> & _ & Ha); [done|done|lia| | |].
    + destruct Hor as [Hor|[Hor|Hor]]; [left; by replace (_ <? _) with true by lia|left; rewrite Hor; apply andb_false_r|by right].
    + subst N e. rewrite Z.min_r, Z.sub_diag, Z.pow_0_r, Z.mul_1_r in HS by lia. by rewrite Z.add_comm with (n := Z.abs (mantissa_ y)).
    + subst N e. rewrite Z.min_r, Z.sub_diag, Z.pow_0_r, Z.mul_1_r, (Z.add_comm (_ * 10 ^ _)) by lia.
      by replace (exponent_ y + (exponent_ x - exponent_ y)) with (exponent_ x) in Ha by lia.
Qed.

(** Addition of numbers of the same sign is correctly rounded: the result is the
    exact sum [N * 10 ^ e], [e] the smaller exponent, rounded to sixteen digits.
    (In the directed modes the exponents must differ for negative numbers.) *)
Theorem Number_add_rounded E mode x y s :
  isnormal x = true -> isnormal y = true -> sign_of x = sign_of y ->
  exponent_ x <> exponent_ y \/ sign_of x = false \/ unsigned_mode mode = true ->
  let e := Z.min (exponent_ x) (exponent_ y) in
  let N := Z.abs (mantissa_ x) * 10 ^ (exponent_ x - e) + Z.abs (mantissa_ y) * 10 ^ (exponent_ y - e) in
  10 ^ (15 + s) <= N < 10 ^ (16 + s) ->
  Number_add (E := E) mode x y = rounded mode (sign_of x) N s e.
Proof. apply Number_add_ref. Qed.

Lemma Number_add_rounded_witness :
  let x := mkNumber (-9999999999999995) 2 in let y := mkNumber (-7777777777777777) 0 in
  Number_add (E := unit) upward x y = rounded upward true (9999999999999995 * 10 ^ 2 + 7777777777777777 * 10 ^ 0) 3 0.
Proof.
  apply (Number_add_rounded unit upward (mkNumber (-9999999999999995) 2) (mkNumber (-7777777777777777) 0) 3);
    [done|done|done|by left|vm_compute; split; congruence].
Defined.

(** Three sums that are not correctly rounded. To nearest, 10^15 - 0.1 gives
    10^15, although 999999999999999.9 has sixteen digits: no digit is recovered from
    the guard when the difference still has sixteen digits before rounding.
    Downward, two negative numbers with the same exponent are rounded up, because the
    sign of the guard is not set. Towards zero, a difference is rounded away from
    zero, because the guard then holds digits to subtract. *)
Theorem Number_add_misrounded :
  (Number_add (E := unit) to_nearest (mkNumber 1000000000000000 0) (mkNumber (-1000000000000000) (-16)) =
     Ret (mkNumber 1000000000000000 0) /\
   1000000000000000 * 10 ^ 16 - 1000000000000000 = 9999999999999999 * 10 ^ 15) /\
  (Number_add (E := unit) downward (mkNumber (-9999999999999999) 0) (mkNumber (-9999999999999999) 0) =
     Ret (mkNumber (-1999999999999999) 1) /\
   -9999999999999999 + -9999999999999999 < -1999999999999999 * 10) /\
  (Number_add (E := unit) towards_zero (mkNumber 2000000000000000 0) (mkNumber (-1000000000000000) (-16)) =
     Ret (mkNumber 2000000000000000 0) /\
   2000000000000000 * 10 ^ 16 - 1000000000000000 < 2000000000000000 * 10 ^ 16).
Proof. split_and!; vm_compute; reflexivity. Qed.

(** ** Order and conversion *)

(** Larger exponents mean larger magnitudes of normal numbers. *)
Lemma magnitude_lt m1 m2 d : minMax (Z.abs m1) -> minMax (Z.abs m2) -> 0 < d -> Z.abs m2 < Z.abs m1 * 10 ^ d.
Proof.
  unfold minMax, Number_minMantissa, Number_maxMantissa. intros H1 H2 Hd.
  pose proof (Z.pow_le_mono_r 10 1 d ltac:(lia) ltac:(lia)). nia.
Qed.

Lemma Number_lt_value x y :
  isnormal x = true \/ x = Number_zero -> isnormal y = true \/ y = Number_zero ->
  let e := Z.min (exponent_ x) (exponent_ y) in
  Number_lt x y = (mantissa_ x * 10 ^ (exponent_ x - e) <? mantissa_ y * 10 ^ (exponent_ y - e)).
Proof.
  intros Hx Hy e. assert (0 < 10 ^ (exponent_ x - e)) as Px by (apply Z.pow_pos_nonneg; lia).
  assert (0 < 10 ^ (exponent_ y - e)) as Py by (apply Z.pow_pos_nonneg; lia). unfold Number_lt. cbv zeta.
  assert (mantissa_ x = 0 \/ minMax (Z.abs (mantissa_ x))) as [Hx0|Hxm].
  { destruct Hx as [Hx| ->]; [right; by apply isnormal_spec in Hx as [? _]|by left]. }
  - rewrite Hx0, Z.mul_0_l. simpl. destruct (Z.ltb_spec (mantissa_ y) 0); simpl; [symmetry; apply Z.ltb_ge; nia|].
    destruct (Z.ltb_spec 0 (mantissa_ y)); symmetry; [apply Z.ltb_lt; nia|apply Z.ltb_ge; nia].
  - assert (mantissa_ y = 0 \/ minMax (Z.abs (mantissa_ y))) as [Hy0|Hym].
    { destruct Hy as [Hy| ->]; [right; by apply isnormal_spec in Hy as [? _]|by left]. }
    + rewrite Hy0, Z.mul_0_l. simpl. destruct (Z.ltb_spec (mantissa_ x) 0); simpl; [symmetry; apply Z.ltb_lt; nia|].
      destruct (Z.eqb_spec (mantissa_ x) 0); symmetry; apply Z.ltb_ge; nia.
    + pose proof Hxm as [Hx1 _]. pose proof Hym as [Hy1 _]. unfold Number_minMantissa in Hx1, Hy1.
      replace (mantissa_ x =? 0) with false by lia. replace (mantissa_ y =? 0) with false by lia.
      destruct (Z.lt_trichotomy (exponent_ x) (exponent_ y)) as [He|[He|He]].
      * replace (exponent_ y <? exponent_ x) with false by lia. replace (exponent_ x <? exponent_ y) with true by lia.
        pose proof (magnitude_lt _ _ (exponent_ y - e) Hym Hxm ltac:(lia)) as Hm.
        replace (exponent_ x - e) with 0 in * by lia. rewrite Z.pow_0_r, Z.mul_1_r.
        destruct (Z.ltb_spec (mantissa_ x) 0), (Z.ltb_spec (mantissa_ y) 0); simpl; symmetry; (apply Z.ltb_lt; nia) || (apply Z.ltb_ge; nia).
      * replace (exponent_ y <? exponent_ x) with false by lia. replace (exponent_ x <? exponent_ y) with false by lia.
        replace (exponent_ x - e) with 0 by lia. replace (exponent_ y - e) with 0 by lia. rewrite !Z.pow_0_r, !Z.mul_1_r.
        destruct (Z.ltb_spec (mantissa_ x) 0), (Z.ltb_spec (mantissa_ y) 0); simpl; lia.
      * replace (exponent_ y <? exponent_ x) with true by lia.
        pose proof (magnitude_lt _ _ (exponent_ x - e) Hxm Hym ltac:(lia)) as Hm.
        replace (exponent_ y - e) with 0 in * by lia. rewrite Z.pow_0_r, Z.mul_1_r.
        destruct (Z.ltb_spec (mantissa_ x) 0), (Z.ltb_spec (mantissa_ y) 0); simpl; symmetry; (apply Z.ltb_lt; nia) || (apply Z.ltb_ge; nia).
Qed.

(** The order of Numbers is the order of the values: for two numbers, normal or
    zero, [x < y] exactly when the mantissas scaled to the smaller exponent compare so. *)
Theorem Number_lt_correct x y :
  isnormal x = true \/ x = Number_zero -> isnormal y = true \/ y = Number_zero ->
  let e := Z.min (exponent_ x) (exponent_ y) in
  Number_lt x y = (mantissa_ x * 10 ^ (exponent_ x - e) <? mantissa_ y * 10 ^ (exponent_ y - e)).
Proof. apply Number_lt_value. Qed.

Lemma Number_lt_correct_witness :
  let x := mkNumber (-2000000000000000) 3 in let y := mkNumber 9000000000000000 (-4) in
  Number_lt x y = (mantissa_ x * 10 ^ (exponent_ x - Z.min 3 (-4)) <? mantissa_ y * 10 ^ (exponent_ y - Z.min 3 (-4))).
Proof. apply (Number_lt_correct (mkNumber (-2000000000000000) 3) (mkNumber 9000000000000000 (-4))); by left. Defined.

(** The conversion of a normal number with a negative or zero exponent to an
    integer is correctly rounded in every mode. *)
Theorem Number_rep_rounded E mode x :
  isnormal x = true -> exponent_ x <= 0 ->
  Number_rep (E := E) mode x =
    let r := rnd mode (sign_of x) (Z.abs (mantissa_ x)) (- exponent_ x) in Ret (if sign_of x then - r else r).
Proof.
  intros Hx He. apply isnormal_spec in Hx as [Hm _]. unfold Number_minMantissa, Number_maxMantissa in Hm. unfold Number_rep.
  replace (mantissa_ x =? 0) with false by lia. cbv zeta. fold (sign_of x).
  destruct (align_shifted (Z.to_nat (- exponent_ x)) _ (sign_of x) (Z.abs (mantissa_ x)) 0 _ ltac:(lia) (shifted_new _ _)) as (g & -> & Hs & Hg & _).
  rewrite Z.add_0_l, Z2Nat.id in * by lia. replace (Z.to_nat (exponent_ x)) with 0%nat by lia. cbn [rep_up obind].
  rewrite (rounds_away _ _ _ _ _ Hg), Hs. unfold rnd. by destruct (round_away _ _ _ _ _).
Qed.

Lemma Number_rep_rounded_witness :
  Number_rep (E := unit) to_nearest (mkNumber (-1234500000000000) (-14)) =
    let r := rnd to_nearest true (Z.abs (-1234500000000000)) (- (-14)) in Ret (if true then - r else r).
Proof. apply (Number_rep_rounded unit to_nearest (mkNumber (-1234500000000000) (-14))); [done|simpl; lia]. Defined.
