(* ===== verification/IOUAmount.v ===== *)
(** * Issued currency amounts (src/src/ripple/basics/IOUAmount.h, impl/IOUAmount.cpp)

    An [IOUAmount] is a mantissa and an exponent between -96 and 80; zero has the
    exponent -100. [sw] is [getSTNumberSwitchover()]: with it the arithmetic is that
    of [Number], without it the older code truncates. *)

From S2P Require Import Prelude Number.

Record IOUAmount := mkIOU { iou_mantissa : Z; iou_exponent : Z }.

#[export] Instance IOUAmount_eq_dec : EqDecision IOUAmount.
Proof. solve_decision. Defined.

Definition IOU_zero : IOUAmount := mkIOU 0 (-100).

Definition IOU_minMantissa : Z := 1000000000000000.
Definition IOU_maxMantissa : Z := 9999999999999999.
Definition IOU_minExponent : Z := -96.
Definition IOU_maxExponent : Z := 80.

(** [IOUAmount(Number const&)] *)
Definition IOU_of_Number {E} (n : Number) : outcome E IOUAmount :=
  if IOU_maxExponent <? exponent_ n then Throw overflow_error else
  if exponent_ n <? IOU_minExponent then Ret IOU_zero else
  Ret (mkIOU (mantissa_ n) (exponent_ n)).

Fixpoint iou_up {E} (fuel : nat) (m e : Z) : outcome E (Z * Z) :=
  if (m <? IOU_minMantissa) && (IOU_minExponent <? e) then
    match fuel with O => Timeout | S fuel => iou_up fuel (m * 10) (e - 1) end
  else Ret (m, e).

Fixpoint iou_down {E} (fuel : nat) (m e : Z) : outcome E (Z * Z) :=
  if IOU_maxMantissa <? m then
    match fuel with
    | O => Timeout
    | S fuel => if IOU_maxExponent <=? e then Throw overflow_error else iou_down fuel (m / 10) (e + 1)
    end
  else Ret (m, e).

Definition IOU_normalize {E} (sw : bool) (mode : rounding_mode) (a : IOUAmount) : outcome E IOUAmount :=
  if iou_mantissa a =? 0 then Ret IOU_zero else
  if sw then
    let* v := Number_make mode (iou_mantissa a) (iou_exponent a) in
    IOU_of_Number v
  else
  let negative := iou_mantissa a <? 0 in
  if iou_mantissa a =? - 2 ^ 63 then Undef UB_signed else
  let m := if negative then - iou_mantissa a else iou_mantissa a in
  let* '(m, e) := iou_up 20 m (iou_exponent a) in
  let* '(m, e) := iou_down 20 m e in
  if (e <? IOU_minExponent) || (m <? IOU_minMantissa) then Ret IOU_zero else
  if IOU_maxExponent <? e then Throw overflow_error else
  Ret (mkIOU (if negative then - m else m) e).

(** [IOUAmount(mantissa, exponent)] *)
Definition IOU_make {E} (sw : bool) (mode : rounding_mode) (m e : Z) : outcome E IOUAmount :=
  IOU_normalize sw mode (mkIOU m e).

(** [operator Number] *)
Definition IOU_Number {E} (mode : rounding_mode) (a : IOUAmount) : outcome E Number :=
  Number_make mode (iou_mantissa a) (iou_exponent a).

(** [m /= 10], [n] times; the division of [int64_t] truncates. *)
Fixpoint quot10 (n : nat) (m : Z) : Z := match n with O => m | S n => quot10 n (Z.quot m 10) end.

Definition IOU_add {E} (sw : bool) (mode : rounding_mode) (a b : IOUAmount) : outcome E IOUAmount :=
  if decide (b = IOU_zero) then Ret a else
  if decide (a = IOU_zero) then Ret b else
  if sw then
    let* x := IOU_Number mode a in
    let* y := IOU_Number mode b in
    let* n := Number_add mode x y in
    IOU_of_Number n
  else
  let ma := quot10 (Z.to_nat (iou_exponent b - iou_exponent a)) (iou_mantissa a) in
  let mb := quot10 (Z.to_nat (iou_exponent a - iou_exponent b)) (iou_mantissa b) in
  let m := ma + mb in
  if (-10 <=? m) && (m <=? 10) then Ret IOU_zero else
  IOU_make sw mode m (Z.max (iou_exponent a) (iou_exponent b)).

Definition IOU_lt {E} (mode : rounding_mode) (a b : IOUAmount) : outcome E bool :=
  let* x := IOU_Number mode a in
  let* y := IOU_Number mode b in
  Ret (Number_lt x y).

Definition IOU_neg {E} (sw : bool) (mode : rounding_mode) (a : IOUAmount) : outcome E IOUAmount :=
  IOU_make sw mode (- iou_mantissa a) (iou_exponent a).

Definition IOU_sub {E} (sw : bool) (mode : rounding_mode) (a b : IOUAmount) : outcome E IOUAmount :=
  let* n := IOU_neg sw mode b in IOU_add sw mode a n.

Definition IOU_signum (a : IOUAmount) : Z :=
  if iou_mantissa a <? 0 then -1 else if negb (iou_mantissa a =? 0) then 1 else 0.

Definition IOU_minPositiveAmount {E} (sw : bool) (mode : rounding_mode) : outcome E IOUAmount :=
  IOU_make sw mode IOU_minMantissa IOU_minExponent.

(** ** mulRatio *)

(** [log10Ceil]: the index of the first of the powers 10^0 .. 10^29 not below [v]. *)
Fixpoint log10Ceil_from (n : nat) (i : Z) (v : Z) : Z :=
  match n with
  | O => i
  | S n => if v <=? 10 ^ i then i else log10Ceil_from n (i + 1) v
  end.
Definition log10Ceil (v : Z) : Z := log10Ceil_from 30 0 v.

Definition log10Floor (v : Z) : Z := let l := log10Ceil v in if 10 ^ l =? v then l else l - 1.

Definition fl64 : Z := log10Floor (2 ^ 63 - 1).

(** The scaled quotient: [low], whether there is a remainder, and the exponent. *)
Definition ratio_scaled (mul den exponent : Z) : Z * bool * Z :=
  let low := mul / den in
  let rem := u128 (mul - u128 (low * den)) in
  let '(low, rem, exponent) :=
    if rem =? 0 then (low, rem, exponent) else
    let roomToGrow := fl64 - log10Ceil low in
    let '(low, rem, exponent) :=
      if 0 <? roomToGrow
      then (u128 (low * 10 ^ roomToGrow), u128 (rem * 10 ^ roomToGrow), exponent - roomToGrow)
      else (low, rem, exponent) in
    let addRem := rem / den in
    (u128 (low + addRem), u128 (rem - u128 (addRem * den)), exponent) in
  let hasRem := negb (rem =? 0) in
  let mustShrink := log10Ceil low - fl64 in
  if 0 <? mustShrink then
    let sav := low in
    let low := low / 10 ^ mustShrink in
    let hasRem := if hasRem then hasRem else negb (u128 (sav - u128 (low * 10 ^ mustShrink)) =? 0) in
    (low, hasRem, exponent + mustShrink)
  else (low, hasRem, exponent).

Definition mulRatio {E} (sw : bool) (mode : rounding_mode) (amt : IOUAmount) (num den : Z) (roundUp : bool)
  : outcome E IOUAmount :=
  if den =? 0 then Throw runtime_error else
  let neg := iou_mantissa amt <? 0 in
  let mul := u128 ((if neg then - iou_mantissa amt else iou_mantissa amt) * num) in
  let '(low, hasRem, exponent) := ratio_scaled mul den (iou_exponent amt) in
  let mantissa := s64 low in
  let mantissa := if neg then mantissa * -1 else mantissa in
  let* result := IOU_make sw mode mantissa exponent in
  if hasRem && roundUp && negb neg then
    if iou_mantissa result =? 0 then IOU_minPositiveAmount sw mode
    else IOU_make sw mode (iou_mantissa result + 1) (iou_exponent result)
  else if hasRem && negb roundUp && neg then
    if iou_mantissa result =? 0 then IOU_make sw mode (- IOU_minMantissa) IOU_minExponent
    else IOU_make sw mode (iou_mantissa result - 1) (iou_exponent result)
  else Ret result.
