(* ===== verification/HookMemory.v ===== *)
(** * Memory of a hook (src/src/ripple/app/hook/Macro.h)

    The linear memory of the WebAssembly instance is a list of bytes; the API
    functions get offsets and lengths ([uint32_t]) into it. *)

From S2P Require Import Prelude HookEnum.

(** [NOT_IN_BOUNDS] *)
Definition NOT_IN_BOUNDS (ptr len memory_length : Z) : bool :=
  (memory_length <=? ptr) || (memory_length <? ptr + len).

(** [HOOK_SETUP], at the start of every API function: an instance without memory gets
    [INTERNAL_ERROR], and nothing changes. The models of functions that do not
    mention it are the bodies between [HOOK_SETUP] and [HOOK_TEARDOWN]. *)
Definition HOOK_SETUP {S} (memory_length : Z) (ctx : S) (body : Z * S) : Z * S :=
  if memory_length =? 0 then (INTERNAL_ERROR, ctx) else body.

(** [n] bytes of the memory from [ptr]. *)
Definition mem_slice (mem : list Z) (ptr n : Z) : list Z := take (Z.to_nat n) (drop (Z.to_nat ptr) mem).

(** The memory with [bs] written at [ptr]. *)
Definition mem_set (mem : list Z) (ptr : Z) (bs : list Z) : list Z :=
  take (Z.to_nat ptr) mem ++ bs ++ drop (Z.to_nat ptr + length bs) mem.

(** [WRITE_WASM_MEMORY]: the memory and the number of bytes written, or the return
    code. [WasmEdge_MemoryInstanceSetData] writes within bounds. *)
Definition WRITE_WASM_MEMORY (mem : list Z) (dst len : Z) (src : list Z) : (list Z * Z) + Z :=
  let bytes_to_write := Z.min (lenZ src) len in
  if lenZ mem <? dst + bytes_to_write then inr OUT_OF_BOUNDS
  else inl (mem_set mem dst (take (Z.to_nat bytes_to_write) src), bytes_to_write).

(** [WRITE_WASM_MEMORY_AND_RETURN]: the code returned and the memory after it. *)
Definition WRITE_WASM_MEMORY_AND_RETURN (mem : list Z) (dst len : Z) (src : list Z) : Z * list Z :=
  match WRITE_WASM_MEMORY mem dst len src with
  | inl (mem', written) => (written, mem')
  | inr code => (code, mem)
  end.

(** The loop of [data_as_int64]: [output += ((uint64_t)ptr[i]) << j] with [j] the
    bytes that follow. *)
Fixpoint sum_shifted (bs : list Z) (output : Z) : Z :=
  match bs with
  | [] => output
  | b :: rest => sum_shifted rest (u64 (output + u64 (Z.shiftl b (8 * lenZ rest))))
  end.

Definition data_as_int64 (bs : list Z) : Z :=
  if 8 <? lenZ bs then TOO_BIG
  else
    let output := sum_shifted bs 0 in
    if Z.testbit output 63 then TOO_BIG else s64 output.

(** [WRITE_WASM_MEMORY_OR_RETURN_AS_INT64]: an account is stored with a length
    byte, which is not written. *)
Definition WRITE_WASM_MEMORY_OR_RETURN_AS_INT64 (mem : list Z) (write_ptr write_len : Z) (data : list Z)
    (is_account : bool) : Z * list Z :=
  let data_len := if is_account then lenZ data - 1 else lenZ data in
  let data := if is_account then drop 1 data else data in
  if data_len <? 0 then (INTERNAL_ERROR, mem)
  else if data_len =? 0 then (0, mem)
  else if write_ptr =? 0 then (data_as_int64 data, mem)
  else if write_len <? data_len then (TOO_SMALL, mem)
  else WRITE_WASM_MEMORY_AND_RETURN mem write_ptr write_len data.

(** The number a byte string is in big-endian order: [base_uint::fromVoid]. *)
Definition fromVoid (bs : list Z) : Z := foldl (fun acc b => acc * 256 + b) 0 bs.

(** ** Lemmas *)

Lemma mem_set_length mem ptr bs :
  0 <= ptr -> ptr + lenZ bs <= lenZ mem -> lenZ (mem_set mem ptr bs) = lenZ mem.
Proof.
  unfold mem_set, lenZ. intros Hp Hl. rewrite !length_app, length_take, length_drop. lia.
Qed.

Lemma mem_slice_set mem ptr bs :
  0 <= ptr -> ptr + lenZ bs <= lenZ mem -> mem_slice (mem_set mem ptr bs) ptr (lenZ bs) = bs.
Proof.
  unfold mem_slice, mem_set, lenZ. intros Hp Hl. rewrite Nat2Z.id.
  rewrite drop_app_length' by (rewrite length_take; lia). by rewrite take_app_length.
Qed.

(** What is written does not change the rest of the memory. *)
Lemma mem_set_other mem ptr bs i :
  0 <= ptr -> ptr + lenZ bs <= lenZ mem -> (i < Z.to_nat ptr \/ Z.to_nat ptr + length bs <= i)%nat ->
  mem_set mem ptr bs !! i = mem !! i.
Proof.
  unfold mem_set, lenZ. intros Hp Hl [Hi|Hi].
  - rewrite lookup_app_l by (rewrite length_take; lia). by rewrite lookup_take_lt.
  - rewrite lookup_app_r by (rewrite length_take; lia). rewrite length_take, Nat.min_l by lia.
    rewrite lookup_app_r by lia. rewrite lookup_drop. f_equal. lia.
Qed.

Lemma mem_set_nil mem ptr : mem_set mem ptr [] = mem.
Proof. unfold mem_set. simpl. rewrite Nat.add_0_r. apply take_drop. Qed.

(** Writes one after the other are one write. *)
Lemma mem_set_app mem ptr a b :
  0 <= ptr -> ptr + lenZ a <= lenZ mem ->
  mem_set (mem_set mem ptr a) (ptr + lenZ a) b = mem_set mem ptr (a ++ b).
Proof.
  unfold mem_set, lenZ. intros Hp Hl.
  replace (Z.to_nat (ptr + Z.of_nat (length a))) with (Z.to_nat ptr + length a)%nat by lia.
  assert (Ht : length (take (Z.to_nat ptr) mem) = Z.to_nat ptr) by (rewrite length_take; lia).
  rewrite (app_assoc (take _ mem)). rewrite take_app_length' by (rewrite length_app; lia).
  rewrite drop_app_ge by (rewrite length_app; lia). rewrite length_app, Ht, drop_drop, <- !app_assoc, length_app.
  do 4 f_equal. lia.
Qed.

Lemma lookup_mem_slice mem ptr n (i : nat) :
  mem_slice mem ptr n !! i = if decide (i < Z.to_nat n)%nat then mem !! (Z.to_nat ptr + i)%nat else None.
Proof. unfold mem_slice. rewrite lookup_take. case_decide; [by rewrite lookup_drop|done]. Qed.

(** A write does not change what is read elsewhere. *)
Lemma mem_slice_set_other mem ptr bs p n :
  0 <= ptr -> ptr + lenZ bs <= lenZ mem -> 0 <= p -> p + n <= ptr \/ ptr + lenZ bs <= p ->
  mem_slice (mem_set mem ptr bs) p n = mem_slice mem p n.
Proof.
  intros Hp Hl Hp2 Hd. apply list_eq. intros i. rewrite !lookup_mem_slice. case_decide; [|done].
  apply mem_set_other; [done..|]. unfold lenZ in *. lia.
Qed.

(** A slice in two parts. *)
Lemma mem_slice_split mem ptr n l r :
  0 <= ptr -> mem_slice mem ptr n = l ++ r ->
  mem_slice mem ptr (lenZ l) = l /\ mem_slice mem (ptr + lenZ l) (lenZ r) = r.
Proof.
  unfold mem_slice, lenZ. intros Hp H. rewrite !Nat2Z.id.
  assert (Hlen : (length l + length r <= Z.to_nat n)%nat).
  { rewrite <- length_app, <- H, length_take. lia. }
  assert (Hd : drop (Z.to_nat ptr) mem = l ++ r ++ drop (Z.to_nat n) (drop (Z.to_nat ptr) mem)).
  { rewrite app_assoc, <- H. by rewrite take_drop. }
  split.
  - rewrite Hd. by rewrite take_app_length.
  - replace (Z.to_nat (ptr + Z.of_nat (length l))) with (Z.to_nat ptr + length l)%nat by lia.
    rewrite <- drop_drop, Hd, drop_app_length. by rewrite take_app_length.
Qed.

(** A write that fits. *)
Lemma write_and_return mem dst len src :
  dst + lenZ src <= lenZ mem -> lenZ src <= len ->
  WRITE_WASM_MEMORY_AND_RETURN mem dst len src = (lenZ src, mem_set mem dst src).
Proof.
  intros Hl Hlen. unfold WRITE_WASM_MEMORY_AND_RETURN, WRITE_WASM_MEMORY. rewrite Z.min_l by lia.
  replace (lenZ mem <? dst + lenZ src) with false by lia. unfold lenZ. rewrite Nat2Z.id. by rewrite take_ge by lia.
Qed.

Lemma mem_set_chain mem p a b q :
  0 <= p -> p + lenZ a <= lenZ mem -> q = p + lenZ a -> mem_set (mem_set mem p a) q b = mem_set mem p (a ++ b).
Proof. intros ? ? ->. by apply mem_set_app. Qed.

(** A part of what was written, found by skipping the parts before it. *)
Lemma mem_slice_inner mem p bs o n :
  0 <= p -> p + lenZ bs <= lenZ mem -> 0 <= o -> 0 <= n -> o + n <= lenZ bs ->
  mem_slice (mem_set mem p bs) (p + o) n = mem_slice bs o n.
Proof.
  intros Hp Hl Ho Hn Hon. apply list_eq. intros i. rewrite !lookup_mem_slice. case_decide; [|done].
  unfold mem_set, lenZ in *. rewrite lookup_app_r by (rewrite length_take; lia).
  rewrite lookup_app_l by (rewrite length_take; lia). f_equal. rewrite length_take. lia.
Qed.

Lemma mem_slice_skip a r o n : lenZ a <= o -> mem_slice (a ++ r) o n = mem_slice r (o - lenZ a) n.
Proof.
  unfold mem_slice, lenZ. intros Ho. rewrite drop_app_ge by lia. do 2 f_equal. lia.
Qed.

Lemma mem_slice_head b r o n : o = 0 -> n = lenZ b -> mem_slice (b ++ r) o n = b.
Proof. intros -> ->. unfold mem_slice, lenZ. rewrite Nat2Z.id. change (Z.to_nat 0) with 0%nat. rewrite drop_0. apply take_app_length. Qed.

(** Writes joined into one, and reads of what was written. *)
Ltac mem_fits :=
  repeat rewrite ?lenZ_app, ?lenZ_cons, ?(@lenZ_nil Z), ?mem_set_length by mem_fits; (done || lia || congruence).
Ltac mem_chain :=
  match goal with |- context [mem_set (mem_set ?m ?p ?a) ?q ?b] => rewrite (mem_set_chain m p a b q) by mem_fits end.

Ltac slice_part :=
  first [rewrite mem_slice_head by mem_fits | rewrite mem_slice_skip by mem_fits].

(** ** Numbers in big-endian order *)

Lemma foldl_be bs c : foldl (fun acc b => acc * 256 + b) c bs = c * 256 ^ lenZ bs + fromVoid bs.
Proof.
  unfold fromVoid. revert c. induction bs as [|b bs IH]; intros c; simpl.
  { rewrite lenZ_nil. lia. }
  rewrite IH, (IH (0 * 256 + b)). autorewrite with mach. rewrite Z.pow_add_r by (pose proof (lenZ_nonneg bs); lia). lia.
Qed.

Lemma fromVoid_cons b bs : fromVoid (b :: bs) = b * 256 ^ lenZ bs + fromVoid bs.
Proof. unfold fromVoid at 1. simpl. rewrite foldl_be. lia. Qed.

Lemma fromVoid_app a b : fromVoid (a ++ b) = fromVoid a * 256 ^ lenZ b + fromVoid b.
Proof. unfold fromVoid at 1. rewrite foldl_app. apply foldl_be. Qed.

Lemma fromVoid_range bs : bytesOk bs -> 0 <= fromVoid bs < 256 ^ lenZ bs.
Proof.
  induction 1 as [|b bs Hb Hbs IH]; [done|]. rewrite fromVoid_cons. unfold is_u8 in Hb. autorewrite with mach.
  rewrite Z.pow_add_r by (pose proof (lenZ_nonneg bs); lia). nia.
Qed.

Lemma pow256_le k : 0 <= k <= 8 -> 256 ^ k <= 2 ^ 64.
Proof. intros Hk. change 256 with (2 ^ 8). rewrite <- Z.pow_mul_r by lia. apply Z.pow_le_mono_r; lia. Qed.

Lemma sum_shifted_spec bs c :
  bytesOk bs -> lenZ bs <= 8 -> 0 <= c -> c + fromVoid bs < 2 ^ 64 -> sum_shifted bs c = c + fromVoid bs.
Proof.
  intros Hb. revert c. induction Hb as [|b bs Hb Hbs IH]; intros c Hl Hc Hr; simpl.
  { unfold fromVoid. simpl. lia. }
  autorewrite with mach in Hl. rewrite fromVoid_cons in *. pose proof (fromVoid_range bs Hbs).
  pose proof (lenZ_nonneg bs). unfold is_u8 in Hb.
  assert (Hsh : Z.shiftl b (8 * lenZ bs) = b * 256 ^ lenZ bs).
  { rewrite Z.shiftl_mul_pow2, Z.pow_mul_r by lia. done. }
  rewrite Hsh, (u64_small (b * _)), (u64_small (c + _)) by nia. rewrite IH by nia. lia.
Qed.

(** The number of the bytes, or [TOO_BIG] when it does not fit in 63 bits. *)
Lemma data_as_int64_spec bs :
  bytesOk bs -> data_as_int64 bs =
  if (lenZ bs <=? 8) && (fromVoid bs <? 2 ^ 63) then fromVoid bs else TOO_BIG.
Proof.
  intros Hb. unfold data_as_int64. destruct (Z.ltb_spec 8 (lenZ bs)) as [Hl|Hl].
  { by replace (lenZ bs <=? 8) with false by lia. }
  replace (lenZ bs <=? 8) with true by lia. cbn [andb]. pose proof (fromVoid_range bs Hb) as Hr.
  pose proof (pow256_le (lenZ bs)). pose proof (lenZ_nonneg bs).
  rewrite sum_shifted_spec by (done || lia). rewrite Z.add_0_l.
  destruct (Z.ltb_spec (fromVoid bs) (2 ^ 63)) as [Hs|Hs].
  - replace (Z.testbit (fromVoid bs) 63) with false; [by apply s64_small; lia|].
    rewrite Z.testbit_eqb by lia. rewrite Z.div_small by lia. done.
  - replace (Z.testbit (fromVoid bs) 63) with true; [done|].
    rewrite Z.testbit_eqb by lia. assert (fromVoid bs / 2 ^ 63 = 1) as ->; [|done].
    symmetry. apply (Z.div_unique _ _ _ (fromVoid bs - 2 ^ 63)); lia.
Qed.
