(* ===== verification/XflApi.v ===== *)
(** * XFL functions over amounts and memory (src/src/ripple/app/hook/impl/applyHook.cpp)

    The float functions of the hook API that use [IOUAmount], and the conversion
    between XFL and serialized amounts in the memory of the hook. [sw] is the
    [STNumberSwitchover] setting and [mode] the rounding mode in force. *)

From S2P Require Import Prelude HookEnum Number IOUAmount Xfl HookMemory.

(** [catch (std::overflow_error& e) { return XFL_OVERFLOW; }]; other exceptions and
    undefined operations pass. *)
Definition catch_overflow (m : outcome unit Z) : outcome unit Z :=
  match m with Throw overflow_error => Ret XFL_OVERFLOW | _ => m end.

(** Signed mantissa of an XFL. *)
Definition signed_mantissa (float1 : Z) : Z :=
  get_mantissa float1 * (if is_negative float1 then -1 else 1).

(** ** Ratio, comparison and sum *)

(** The mantissa and exponent left in the arguments, or the error code. *)
Definition mulratio_internal (sw : bool) (mode : rounding_mode) (man1 exp1 : Z) (round_up : bool) (numerator denominator : Z)
  : outcome unit ((Z * Z) + Z) :=
  match
    (let* amt := IOU_make sw mode man1 exp1 in
     let* out := mulRatio sw mode amt numerator denominator round_up in
     Ret (inl (iou_mantissa out, iou_exponent out)))
  with
  | Throw overflow_error => Ret (inr XFL_OVERFLOW)
  | m => m
  end.

Definition float_mulratio (sw : bool) (mode : rounding_mode) (float1 round_up numerator denominator : Z) : outcome unit Z :=
  if invalid_float float1 then Ret INVALID_FLOAT else
  if float1 =? 0 then Ret 0 else
  if denominator =? 0 then Ret DIVISION_BY_ZERO else
  let* r := mulratio_internal sw mode (get_mantissa float1) (get_exponent float1) (0 <? round_up) numerator denominator in
  match r with
  | inr _ => Ret XFL_OVERFLOW
  | inl (man1, exp1) =>
    let man1 := if man1 <? 0 then man1 * -1 else man1 in
    Ret (make_float (u64 man1) exp1 (is_negative float1))
  end.

Definition EQUAL : Z := 1.
Definition LESS : Z := 2.
Definition GREATER : Z := 4.

Definition float_compare (sw : bool) (rmode : rounding_mode) (float1 float2 mode : Z) : outcome unit Z :=
  if invalid_float float1 then Ret INVALID_FLOAT else
  if invalid_float float2 then Ret INVALID_FLOAT else
  let equal_flag := negb (Z.land mode EQUAL =? 0) in
  let less_flag := negb (Z.land mode LESS =? 0) in
  let greater_flag := negb (Z.land mode GREATER =? 0) in
  let not_equal := less_flag && greater_flag in
  if (equal_flag && less_flag && greater_flag) || (mode =? 0) then Ret INVALID_ARGUMENT else
  if negb (Z.land mode (Z.lnot 7) =? 0) then Ret INVALID_ARGUMENT else
  catch_overflow (
    let* amt1 := IOU_make sw rmode (signed_mantissa float1) (get_exponent float1) in
    let* amt2 := IOU_make sw rmode (signed_mantissa float2) (get_exponent float2) in
    if not_equal && negb (bool_decide (amt1 = amt2)) then Ret 1 else
    if equal_flag && bool_decide (amt1 = amt2) then Ret 1 else
    let* gt := if greater_flag then IOU_lt rmode amt2 amt1 else Ret false in
    if (gt : bool) then Ret 1 else
    let* lt := if less_flag then IOU_lt rmode amt1 amt2 else Ret false in
    if (lt : bool) then Ret 1 else Ret 0).

Definition float_sum (sw : bool) (mode : rounding_mode) (float1 float2 : Z) : outcome unit Z :=
  if invalid_float float1 then Ret INVALID_FLOAT else
  if invalid_float float2 then Ret INVALID_FLOAT else
  if float1 =? 0 then Ret float2 else
  if float2 =? 0 then Ret float1 else
  catch_overflow (
    let* amt1 := IOU_make sw mode (signed_mantissa float1) (get_exponent float1) in
    let* amt2 := IOU_make sw mode (signed_mantissa float2) (get_exponent float2) in
    let* amt1 := IOU_add sw mode amt1 amt2 in
    let result := make_float_amount (iou_mantissa amt1) (iou_exponent amt1) in
    Ret (if result =? EXPONENT_UNDERSIZED then 0 else result)).

(** ** Serialized amounts *)

Definition validateChar (c : Z) : bool :=
  ((0x61 <=? c) && (c <=? 0x7A)) || ((0x41 <=? c) && (c <=? 0x5A)) || ((0x30 <=? c) && (c <=? 0x39)) ||
  (* ? ! @ # $ % ^ & * < > ( ) { } [ ] | *)
  existsb (Z.eqb c) [0x3F; 0x21; 0x40; 0x23; 0x24; 0x25; 0x5E; 0x26; 0x2A; 0x3C; 0x3E; 0x28; 0x29; 0x7B; 0x7D; 0x5B; 0x5D; 0x7C].

(** The twenty bytes of a currency, or [None]. *)
Definition parseCurrency (cu : list Z) : option (list Z) :=
  if lenZ cu =? 20 then Some cu else
  match cu with
  | [a; b; c] =>
    if negb (validateChar a) || negb (validateChar b) || negb (validateChar c) then None
    else Some (replicate 12 0 ++ [a; b; c] ++ replicate 5 0)
  | _ => None
  end.

(** The field header [float_sto] writes. *)
Definition sto_header (type field : Z) : list Z :=
  if (field <? 16) && (type <? 16) then [u8 (u8 (Z.shiftl (u8 type) 4) + u8 field)]
  else if (16 <=? field) && (type <? 16) then [u8 (Z.shiftl (u8 type) 4); u8 field]
  else if (field <? 16) && (16 <=? type) then [u8 (Z.shiftl (u8 field) 4); u8 type]
  else [0; u8 type; u8 field].

(** Byte [i] of [man], counted from the least significant. *)
Definition byte_of (man i : Z) : Z := Z.land (Z.shiftr man (8 * i)) 0xFF.

(** The eight bytes of an amount in drops. *)
Definition xrp_bytes (man : Z) (neg : bool) : list Z :=
  [u8 ((if neg then 0x00 else 0x40) + Z.land (Z.shiftr man 56) 0x3F);
   byte_of man 6; byte_of man 5; byte_of man 4; byte_of man 3; byte_of man 2; byte_of man 1; byte_of man 0].

(** The eight bytes of an issued amount. *)
Definition iou_bytes (man exp : Z) (neg : bool) : list Z :=
  if man =? 0 then [0x80; 0; 0; 0; 0; 0; 0; 0] else
  let exp := exp + 97 in
  [u8 ((if neg then 0x80 else 0xC0) + u8 (Z.shiftr exp 2));
   u8 (u8 (Z.shiftl (u8 (Z.land exp 3)) 6) + Z.land (u8 (Z.shiftr man 48)) 0x3F);
   byte_of man 5; byte_of man 4; byte_of man 3; byte_of man 2; byte_of man 1; byte_of man 0].

(** The return value and the memory. *)
Definition float_sto (mem : list Z) (write_ptr write_len cread_ptr cread_len iread_ptr iread_len float1 field_code : Z)
  : Z * list Z :=
  if NOT_IN_BOUNDS write_ptr write_len (lenZ mem) then (OUT_OF_BOUNDS, mem) else
  match
    (if cread_len =? 0 then (if negb (cread_ptr =? 0) then inr INVALID_ARGUMENT else inl None)
     else if negb (cread_len =? 20) && negb (cread_len =? 3) then inr INVALID_ARGUMENT
     else if NOT_IN_BOUNDS cread_ptr cread_len (lenZ mem) then inr OUT_OF_BOUNDS
     else match parseCurrency (mem_slice mem cread_ptr cread_len) with
          | None => inr INVALID_ARGUMENT
          | c => inl c
          end)
  with
  | inr ret => (ret, mem)
  | inl currency =>
  match
    (if iread_len =? 0 then (if negb (iread_ptr =? 0) then inr INVALID_ARGUMENT else inl None)
     else if negb (iread_len =? 20) then inr INVALID_ARGUMENT
     else if NOT_IN_BOUNDS iread_ptr iread_len (lenZ mem) then inr OUT_OF_BOUNDS
     else inl (Some (mem_slice mem iread_ptr iread_len)))
  with
  | inr ret => (ret, mem)
  | inl issuer =>
  if invalid_float float1 then (INVALID_FLOAT, mem) else
  let field := Z.land field_code 0xFFFF in
  let type := Z.shiftr field_code 16 in
  let is_xrp := field_code =? 0 in
  let is_short := field_code =? 0xFFFFFFFF in
  let bytes_needed := 8 +
    (if (field =? 0) && (type =? 0) then 0
     else if (field =? 0xFFFF) && (type =? 0xFFFF) then 0
     else if (field <? 16) && (type <? 16) then 1
     else if (16 <=? field) && (type <? 16) then 2
     else if (field <? 16) && (16 <=? type) then 2 else 3) in
  match issuer, currency with
  | Some _, None | None, Some _ => (INVALID_ARGUMENT, mem)
  | None, None =>
    if negb is_xrp && negb is_short then (INVALID_ARGUMENT, mem) else
    if write_len <? bytes_needed then (TOO_SMALL, mem) else
    let man := u64 (get_mantissa float1) in
    let exp := get_exponent float1 in
    let neg := is_negative float1 in
    if is_xrp then
      let shift := - exp in
      if 15 <? shift then (0, mem) else
      if shift <? 0 then (XFL_OVERFLOW, mem) else
      let man := if 0 <? shift then man / power_of_ten shift else man in
      match WRITE_WASM_MEMORY mem write_ptr write_len (xrp_bytes man neg) with
      | inl (mem, n) => (n, mem)
      | inr ret => (ret, mem)
      end
    else
      match WRITE_WASM_MEMORY mem write_ptr write_len (iou_bytes man exp neg) with
      | inl (mem, n) => (n, mem)
      | inr ret => (ret, mem)
      end
  | Some issuer, Some currency =>
    if is_xrp then (INVALID_ARGUMENT, mem) else
    if is_short then (INVALID_ARGUMENT, mem) else
    let bytes_needed := bytes_needed + 40 in
    if write_len <? bytes_needed then (TOO_SMALL, mem) else
    let hdr := sto_header type field in
    let mem := mem_set mem write_ptr hdr in
    let n0 := lenZ hdr in
    let out := iou_bytes (u64 (get_mantissa float1)) (get_exponent float1) (is_negative float1) in
    match WRITE_WASM_MEMORY mem (write_ptr + n0) (write_len - n0) out with
    | inr ret => (ret, mem)
    | inl (mem, n1) =>
      match WRITE_WASM_MEMORY mem (write_ptr + n0 + n1) (write_len - n0 - n1) currency with
      | inr ret => (ret, mem)
      | inl (mem, n2) =>
        match WRITE_WASM_MEMORY mem (write_ptr + n0 + n1 + n2) (write_len - n0 - n1 - n2) issuer with
        | inr ret => (ret, mem)
        | inl (mem, n3) => (n0 + n1 + n2 + n3, mem)
        end
      end
    end
  end end end.

(** The length of the header before an amount in [bs], or the error code. *)
Definition sto_header_length (bs : list Z) : Z + Z :=
  if 8 <? lenZ bs then
    let hi := Z.shiftr (nth 0 bs 0) 4 in
    let lo := Z.land (nth 0 bs 0) 0xF in
    if (hi =? 0) && (lo =? 0) then (if lenZ bs <? 11 then inr NOT_AN_OBJECT else inl 3)
    else if (hi =? 0) || (lo =? 0) then (if lenZ bs <? 10 then inr NOT_AN_OBJECT else inl 2)
    else inl 1
  else inl 0.

(** The sign, exponent and mantissa of eight serialized bytes. *)
Definition sto_amount (bs : list Z) : bool * Z * Z :=
  let b i := nth i bs 0 in
  let is_xrp := Z.land (b 0%nat) 0x80 =? 0 in
  let neg := Z.land (b 0%nat) 0x40 =? 0 in
  let exponent := if is_xrp then 0 else Z.shiftl (Z.land (b 0%nat) 0x3F) 2 + Z.shiftr (b 1%nat) 6 - 97 in
  let mantissa := Z.shiftl (Z.land (b 1%nat) 0x3F) 48 + Z.shiftl (b 2%nat) 40 + Z.shiftl (b 3%nat) 32 +
    Z.shiftl (b 4%nat) 24 + Z.shiftl (b 5%nat) 16 + Z.shiftl (b 6%nat) 8 + b 7%nat in
  (neg, exponent, mantissa).

Definition float_sto_set (log10 : Z -> Z) (mem : list Z) (read_ptr read_len : Z) : Z :=
  if read_len <? 8 then NOT_AN_OBJECT else
  if NOT_IN_BOUNDS read_ptr read_len (lenZ mem) then OUT_OF_BOUNDS else
  let bs := mem_slice mem read_ptr read_len in
  match sto_header_length bs with
  | inr ret => ret
  | inl n =>
    let bs := drop (Z.to_nat n) bs in
    if lenZ bs <? 8 then NOT_AN_OBJECT else
    let '(neg, exponent, mantissa) := sto_amount bs in
    if mantissa =? 0 then 0 else
    let '(ret, _, _) := normalize_xfl log10 false mantissa exponent neg in ret
  end.

(** [Serializer::addFieldID], the header of a field in the protocol. *)
Definition addFieldID (type name : Z) : list Z :=
  if type <? 16 then
    if name <? 16 then [u8 (Z.lor (Z.shiftl type 4) name)] else [u8 (Z.shiftl type 4); u8 name]
  else if name <? 16 then [u8 name; u8 type]
  else [0; u8 type; u8 name].
