(* ===== verification/XflApiFacts.v ===== *)
(** * Theorems on sums, comparisons and serialization of XFL numbers *)

From S2P Require Import Prelude HookEnum Number NumberFacts IOUAmount Xfl XflFacts HookMemory XflApi.

Local Ltac unfold_bounds :=
  unfold wf, minMantissa, maxMantissa, minExponent, maxExponent, IOU_minMantissa, IOU_maxMantissa,
    IOU_minExponent, IOU_maxExponent, Number_minMantissa, Number_maxMantissa, Number_minExponent, Number_maxExponent in *.

(** ** Amounts of normal numbers *)

(** A mantissa with its sign. *)
Definition signed (neg : bool) (m : Z) : Z := if neg then - m else m.

Lemma signed_abs neg m : 0 < m -> Z.abs (signed neg m) = m.
Proof. unfold signed. destruct neg; lia. Qed.

Lemma signed_lt neg m : 0 < m -> (signed neg m <? 0) = neg.
Proof. unfold signed. destruct neg; lia. Qed.

Lemma signed_mantissa_pack m e neg : wf m e -> signed_mantissa (pack m e neg) = signed neg m.
Proof.
  intros Hw. unfold signed_mantissa, signed. rewrite get_mantissa_pack, is_negative_pack by done. destruct neg; lia.
Qed.

Lemma Number_make_normal {E} mode neg m e :
  wf m e -> Number_make (E := E) mode (signed neg m) e = Ret (mkNumber (signed neg m) e).
Proof.
  intros Hw. unfold Number_make. pose proof Hw as [Hm He]. unfold_bounds.
  rewrite (Number_normalize_ref E mode _ e 0); [|unfold is_s64, signed; destruct neg; lia|lia|rewrite signed_abs by lia; simpl; lia].
  unfold_bounds. replace (e + 0 <? -32768) with false by lia. rewrite signed_abs, signed_lt by lia. simpl Z.max. simpl Z.min.
  rewrite Z.pow_0_r, Z.mul_1_r. unfold rounded. rewrite rnd_exact. unfold_bounds.
  replace (9999999999999999 <? m) with false by lia. rewrite !Z.add_0_r. by replace (32768 <? e) with false by lia.
Qed.

Lemma IOU_make_normal {E} sw mode neg m e :
  wf m e -> IOU_make (E := E) sw mode (signed neg m) e = Ret (mkIOU (signed neg m) e).
Proof.
  intros Hw. unfold IOU_make, IOU_normalize. cbn [iou_mantissa iou_exponent]. pose proof Hw as [Hm He]. unfold_bounds.
  replace (signed neg m =? 0) with false by (unfold signed; destruct neg; lia). destruct sw.
  - rewrite Number_make_normal by done. cbn [obind]. unfold IOU_of_Number. cbn [exponent_ mantissa_]. unfold_bounds.
    replace (80 <? e) with false by lia. by replace (e <? -96) with false by lia.
  - rewrite signed_lt by lia. replace (signed neg m =? - 2 ^ 63) with false by (unfold signed; destruct neg; lia).
    replace (if neg then - signed neg m else signed neg m) with m by (unfold signed; destruct neg; lia).
    cbn [iou_up iou_down]. unfold_bounds. replace (m <? 1000000000000000) with false by lia. cbn [andb obind].
    cbn [iou_down]. unfold_bounds. replace (9999999999999999 <? m) with false by lia. cbn [obind].
    replace ((e <? -96) || (m <? 1000000000000000)) with false by lia. by replace (80 <? e) with false by lia.
Qed.

Lemma signed_isnormal neg m e : wf m e -> isnormal (mkNumber (signed neg m) e) = true.
Proof. intros [Hm He]. apply isnormal_spec. cbn [mantissa_ exponent_]. unfold_bounds. rewrite signed_abs; lia. Qed.

(** ** Sum *)

(** The XFL of a sum [N * 10 ^ e] of [16 + s] digits. *)
Definition sum_xfl (mode : rounding_mode) (neg : bool) (N s e : Z) : Z :=
  let M := rnd mode neg N s in
  let '(M, E) := if maxMantissa <? M then (M / 10, e + s + 1) else (M, e + s) in
  if maxExponent <? E then XFL_OVERFLOW else make_float M E neg.

Lemma rounded_mantissa mode neg N s :
  0 <= s -> 10 ^ (15 + s) <= N < 10 ^ (16 + s) ->
  let M := rnd mode neg N s in
  minMantissa <= (if maxMantissa <? M then M / 10 else M) <= maxMantissa.
Proof.
  intros Hs HS M. destruct (digits_left N s s ltac:(lia) HS) as [Hle Hge]. rewrite Z.ltb_irrefl in Hle. apply Z.ltb_ge in Hle.
  pose proof (rnd_range mode neg N s) as HM. fold M in HM. unfold_bounds.
  destruct (Z.ltb_spec 9999999999999999 M); [|lia]. assert (M = 10 ^ 16) as -> by lia. change (10 ^ 16 / 10) with 1000000000000000. lia.
Qed.

(** [float_sum] of numbers of the same sign is the exact sum, correctly rounded to
    sixteen digits, or [XFL_OVERFLOW] when it is too large. *)
Theorem float_sum_rounded mode m1 e1 m2 e2 neg s :
  minMantissa <= m1 <= maxMantissa /\ minExponent <= e1 <= maxExponent ->
  minMantissa <= m2 <= maxMantissa /\ minExponent <= e2 <= maxExponent ->
  e1 <> e2 \/ neg = false \/ unsigned_mode mode = true ->
  let e := Z.min e1 e2 in
  let N := m1 * 10 ^ (e1 - e) + m2 * 10 ^ (e2 - e) in
  0 <= s -> 10 ^ (15 + s) <= N < 10 ^ (16 + s) ->
  float_sum true mode (make_float m1 e1 neg) (make_float m2 e2 neg) = Ret (sum_xfl mode neg N s e).
Proof.
  intros Hw1 Hw2 Hor e N Hs0 HS. rewrite !make_float_pack by done.
  pose proof (pack_range m1 e1 neg Hw1). pose proof (pack_range m2 e2 neg Hw2).
  unfold float_sum. rewrite !invalid_float_pack by done. rewrite !(proj2 (Z.eqb_neq _ _)) by lia.
  rewrite !signed_mantissa_pack, !get_exponent_pack, !IOU_make_normal by done. cbn [obind]. unfold IOU_add.
  assert (forall m' e', wf m' e' -> mkIOU (signed neg m') e' <> IOU_zero) as Hnz.
  { intros m' e' [Hm' _] [= Hz]. unfold signed in Hz. unfold_bounds. destruct neg; lia. }
  rewrite !decide_False by auto. unfold IOU_Number. cbn [iou_mantissa iou_exponent].
  rewrite !Number_make_normal by done. cbn [obind]. pose proof Hw1 as [Hm1 He1]. pose proof Hw2 as [Hm2 He2].
  rewrite (Number_add_ref unit mode _ _ s); unfold sign_of; cbn [mantissa_ exponent_];
    rewrite ?signed_lt, ?signed_abs by (unfold_bounds; lia); [|by apply signed_isnormal|by apply signed_isnormal|done|done|done].
  fold e. fold N. unfold rounded, sum_xfl. pose proof (rounded_mantissa mode neg N s Hs0 HS) as HM. cbv zeta in *.
  set (M := rnd mode neg N s) in *. unfold Number_maxMantissa. change 9999999999999999 with maxMantissa.
  set (p := if maxMantissa <? M then (M / 10, e + s + 1) else (M, e + s)).
  assert (minMantissa <= p.1 <= maxMantissa /\ -96 <= p.2) as [Hp1 Hp2].
  { subst p. subst e. unfold minExponent in *. destruct (maxMantissa <? M); simpl; lia. }
  destruct p as [M' E']. cbn [fst snd] in *. unfold Number_maxExponent, maxExponent.
  destruct (Z.ltb_spec 32768 E'); [by replace (80 <? E') with true by lia|]. cbn [obind]. unfold IOU_of_Number.
  cbn [mantissa_ exponent_]. unfold IOU_maxExponent, IOU_minExponent. destruct (Z.ltb_spec 80 E'); [done|].
  replace (E' <? -96) with false by lia. cbn [obind iou_mantissa iou_exponent]. assert (wf M' E') as Hw by (unfold_bounds; lia).
  rewrite make_float_amount_pack, make_float_pack by done. pose proof (pack_range M' E' neg Hw).
  unfold EXPONENT_UNDERSIZED. by replace (pack M' E' neg =? -29) with false by lia.
Qed.

Lemma float_sum_rounded_witness :
  float_sum true to_nearest (make_float 9999999999999999 0 true) (make_float 5555555555555555 (-2) true) =
    Ret (sum_xfl to_nearest true (9999999999999999 * 10 ^ 2 + 5555555555555555 * 10 ^ 0) 3 (-2)).
Proof.
  apply (float_sum_rounded to_nearest 9999999999999999 0 5555555555555555 (-2) true 3);
    [unfold_bounds; lia|unfold_bounds; lia|by left|lia|vm_compute; split; congruence].
Defined.

(** ** Comparison *)

(** The value of a valid XFL in units of 10^-96, the smallest exponent. *)
Definition xfl_value (f : Z) : Z :=
  if f =? 0 then 0 else signed_mantissa f * 10 ^ (get_exponent f + 96).

(** The amount of a valid XFL, zero included, and its value. *)
Lemma IOU_make_xfl sw mode f :
  is_s64 f -> invalid_float f = false ->
  exists a, IOU_make (E := unit) sw mode (signed_mantissa f) (get_exponent f) = Ret a /\
    ((f = 0 /\ a = IOU_zero) \/
     exists m e neg, wf m e /\ a = mkIOU (signed neg m) e /\ f = pack m e neg).
Proof.
  intros Hf Hv. destruct (Z.eq_dec f 0) as [->|Hnz].
  - exists IOU_zero. split; [done|by left].
  - destruct (valid_pack f Hf Hv Hnz) as (m & e & neg & Hw & ->). exists (mkIOU (signed neg m) e).
    rewrite signed_mantissa_pack, get_exponent_pack, IOU_make_normal by done. split; [done|]. right. by exists m, e, neg.
Qed.

(** The Number of such an amount. *)
Lemma IOU_Number_xfl mode f a :
  (f = 0 /\ a = IOU_zero) \/ (exists m e neg, wf m e /\ a = mkIOU (signed neg m) e /\ f = pack m e neg) ->
  exists n, IOU_Number (E := unit) mode a = Ret n /\ (isnormal n = true \/ n = Number_zero) /\
    forall b, b <= -96 -> b <= exponent_ n -> mantissa_ n * 10 ^ (exponent_ n - b) = xfl_value f * 10 ^ (-96 - b).
Proof.
  intros [[-> ->]|(m & e & neg & Hw & -> & ->)].
  - exists Number_zero. split; [done|]. split; [by right|]. intros b _ _. done.
  - exists (mkNumber (signed neg m) e). split; [by apply Number_make_normal|]. split; [left; by apply signed_isnormal|].
    intros b Hb Hbe. pose proof (pack_range m e neg Hw). unfold xfl_value. rewrite (proj2 (Z.eqb_neq _ _)) by lia.
    rewrite signed_mantissa_pack, get_exponent_pack by done. cbn [mantissa_ exponent_] in *.
    rewrite <- Z.mul_assoc. f_equal. unfold_bounds. rewrite <- Z.pow_add_r by lia. f_equal. lia.
Qed.

(** The order of the Numbers is the order of the values. *)
Lemma Number_lt_xfl n1 n2 v1 v2 :
  isnormal n1 = true \/ n1 = Number_zero -> isnormal n2 = true \/ n2 = Number_zero ->
  (forall b, b <= -96 -> b <= exponent_ n1 -> mantissa_ n1 * 10 ^ (exponent_ n1 - b) = v1 * 10 ^ (-96 - b)) ->
  (forall b, b <= -96 -> b <= exponent_ n2 -> mantissa_ n2 * 10 ^ (exponent_ n2 - b) = v2 * 10 ^ (-96 - b)) ->
  Number_lt n1 n2 = (v1 <? v2).
Proof.
  intros H1 H2 V1 V2. rewrite Number_lt_value by done. cbv zeta. set (e := Z.min (exponent_ n1) (exponent_ n2)).
  set (b := Z.min e (-96)). assert (0 < 10 ^ (e - b)) as Pe by (apply Z.pow_pos_nonneg; lia).
  assert (0 < 10 ^ (-96 - b)) as Pb by (apply Z.pow_pos_nonneg; lia).
  specialize (V1 b ltac:(lia) ltac:(lia)). specialize (V2 b ltac:(lia) ltac:(lia)).
  replace (exponent_ n1 - b) with (exponent_ n1 - e + (e - b)) in V1 by lia.
  replace (exponent_ n2 - b) with (exponent_ n2 - e + (e - b)) in V2 by lia.
  rewrite Z.pow_add_r, Z.mul_assoc in V1, V2 by lia.
  set (A := mantissa_ n1 * 10 ^ (exponent_ n1 - e)) in *. set (B := mantissa_ n2 * 10 ^ (exponent_ n2 - e)) in *.
  destruct (Z.ltb_spec v1 v2); [apply Z.ltb_lt|apply Z.ltb_ge]; nia.
Qed.

Lemma wf_exponent_le a b x y : wf a x -> wf b y -> a * 10 ^ (x + 96) = b * 10 ^ (y + 96) -> x <= y.
Proof.
  intros Ha Hb Hab. destruct (Z_lt_le_dec y x); [|done]. exfalso.
  replace (x + 96) with (x - y + (y + 96)) in Hab by lia. unfold_bounds.
  rewrite Z.pow_add_r, Z.mul_assoc in Hab by lia. apply Z.mul_cancel_r in Hab; [|lia].
  pose proof (Z.pow_le_mono_r 10 1 (x - y) ltac:(lia) ltac:(lia)). nia.
Qed.

(** Different representations are different values. *)
Lemma xfl_value_inj f1 f2 :
  is_s64 f1 -> invalid_float f1 = false -> is_s64 f2 -> invalid_float f2 = false ->
  xfl_value f1 = xfl_value f2 -> f1 = f2.
Proof.
  intros Hf1 Hv1 Hf2 Hv2. unfold xfl_value.
  assert (forall m e neg, wf m e -> signed neg m * 10 ^ (e + 96) <> 0) as Hnz.
  { intros m e neg Hw. unfold_bounds. assert (0 < 10 ^ (e + 96)) by lia. unfold signed. destruct neg; nia. }
  destruct (Z.eqb_spec f1 0) as [->|N1]; destruct (Z.eqb_spec f2 0) as [->|N2]; [done|..].
  - destruct (valid_pack f2 Hf2 Hv2 N2) as (m & e & neg & Hw & ->). rewrite signed_mantissa_pack, get_exponent_pack by done.
    intros H. by destruct (Hnz m e neg Hw).
  - destruct (valid_pack f1 Hf1 Hv1 N1) as (m & e & neg & Hw & ->). rewrite signed_mantissa_pack, get_exponent_pack by done.
    intros H. by destruct (Hnz m e neg Hw).
  - destruct (valid_pack f1 Hf1 Hv1 N1) as (m1 & e1 & n1 & Hw1 & ->). destruct (valid_pack f2 Hf2 Hv2 N2) as (m2 & e2 & n2 & Hw2 & ->).
    rewrite !signed_mantissa_pack, !get_exponent_pack by done. intros Heq.
    assert (0 < 10 ^ (e1 + 96) /\ 0 < 10 ^ (e2 + 96)) as [P1 P2] by (unfold_bounds; lia).
    assert (n1 = n2) as -> by (unfold_bounds; unfold signed in Heq; destruct n1, n2; (done || nia)).
    assert (m1 * 10 ^ (e1 + 96) = m2 * 10 ^ (e2 + 96)) as Hm by (unfold signed in Heq; destruct n2; lia).
    assert (e1 = e2) as -> by (apply Z.le_antisymm; eauto using wf_exponent_le). assert (m1 = m2) as -> by nia. done.
Qed.

(** [float_compare] compares values. For valid XFLs and each of the six modes it
    returns 1 when one of the relations the mode asks for holds between the two
    values, and 0 otherwise; with and without the Number switchover. *)
Theorem float_compare_correct sw rmode f1 f2 mode :
  is_s64 f1 -> invalid_float f1 = false -> is_s64 f2 -> invalid_float f2 = false -> 1 <= mode <= 6 ->
  float_compare sw rmode f1 f2 mode =
    Ret (if (Z.testbit mode 0 && (xfl_value f1 =? xfl_value f2)) || (Z.testbit mode 1 && (xfl_value f1 <? xfl_value f2)) ||
            (Z.testbit mode 2 && (xfl_value f2 <? xfl_value f1)) then 1 else 0).
Proof.
  intros Hf1 Hv1 Hf2 Hv2 Hmode. unfold float_compare. rewrite Hv1, Hv2.
  destruct (IOU_make_xfl sw rmode f1 Hf1 Hv1) as (a1 & -> & Ha1). destruct (IOU_make_xfl sw rmode f2 Hf2 Hv2) as (a2 & -> & Ha2).
  destruct (IOU_Number_xfl rmode f1 a1 Ha1) as (n1 & Hn1 & Hno1 & V1). destruct (IOU_Number_xfl rmode f2 a2 Ha2) as (n2 & Hn2 & Hno2 & V2).
  pose proof (Number_lt_xfl n1 n2 _ _ Hno1 Hno2 V1 V2) as L12. pose proof (Number_lt_xfl n2 n1 _ _ Hno2 Hno1 V2 V1) as L21.
  assert (bool_decide (a1 = a2) = (xfl_value f1 =? xfl_value f2)) as Heq.
  { destruct (Z.eqb_spec (xfl_value f1) (xfl_value f2)) as [Hv|Hv].
    - apply bool_decide_eq_true. apply xfl_value_inj in Hv as ->; [|done..]. clear -Ha1 Ha2.
      destruct Ha1 as [[H1 ->]|(m & e & n & Hw & -> & ->)], Ha2 as [[H2 ->]|(m' & e' & n' & Hw' & -> & H2)]; try done.
      + subst f2. pose proof (pack_range _ _ n' Hw'). lia.
      + pose proof (pack_range _ _ n Hw). lia.
      + pose proof (f_equal get_exponent H2). pose proof (f_equal signed_mantissa H2).
        rewrite !get_exponent_pack, !signed_mantissa_pack in * by done. congruence.
    - apply bool_decide_eq_false. intros ->. apply Hv. rewrite Hn1 in Hn2. injection Hn2 as ->.
      apply (Z.mul_cancel_r _ _ (10 ^ (-96 - Z.min (-96) (exponent_ n2)))); [apply Z.pow_nonzero; lia|].
      rewrite <- V1, <- V2 by lia. done. }
  cbn [obind]. unfold IOU_lt. rewrite Hn1, Hn2. cbn [obind]. rewrite L12, L21, Heq.
  set (eqb := xfl_value f1 =? xfl_value f2) in *. set (ltb := xfl_value f1 <? xfl_value f2) in *. set (gtb := xfl_value f2 <? xfl_value f1) in *.
  assert (eqb = negb ltb && negb gtb) as Htri by (subst eqb ltb gtb; lia). clear Heq. clearbody eqb ltb gtb. subst eqb.
  assert (mode = 1 \/ mode = 2 \/ mode = 3 \/ mode = 4 \/ mode = 5 \/ mode = 6) as Hm by lia.
  destruct Hm as [->|[->|[->|[->|[->| ->]]]]]; by destruct ltb, gtb.
Qed.

Lemma float_compare_correct_witness :
  float_compare true to_nearest (make_float 2000000000000000 (-15) true) float_one_internal 2 =
    let f1 := make_float 2000000000000000 (-15) true in let f2 := float_one_internal in
    Ret (if (Z.testbit 2 0 && (xfl_value f1 =? xfl_value f2)) || (Z.testbit 2 1 && (xfl_value f1 <? xfl_value f2)) ||
            (Z.testbit 2 2 && (xfl_value f2 <? xfl_value f1)) then 1 else 0).
Proof.
  apply (float_compare_correct true to_nearest (make_float 2000000000000000 (-15) true) float_one_internal 2);
    try (vm_compute; split; congruence); by vm_compute.
Defined.

(** ** Serialization *)

(** The first byte of an issued amount and its parts. *)
Lemma first_byte (neg : bool) x :
  0 <= x < 64 ->
  let b := u8 ((if neg then 0x80 else 0xC0) + u8 x) in
  Z.land b 0x80 <> 0 /\ (Z.land b 0x40 =? 0) = neg /\ Z.land b 0x3F = x.
Proof.
  intros Hx. pose proof (forall_byte (fun x => negb (x <? 64) ||
    (let b := u8 ((if neg then 0x80 else 0xC0) + u8 x) in
     negb (Z.land b 0x80 =? 0) && eqb (Z.land b 0x40 =? 0) neg && (Z.land b 0x3F =? x)))) as H.
  specialize (H ltac:(destruct neg; by vm_compute) x ltac:(lia)). cbv beta zeta in H.
  replace (x <? 64) with true in H by lia. apply orb_true_iff in H as [H|H]; [done|]. rewrite !andb_true_iff, negb_true_iff, Z.eqb_neq, Z.eqb_eq in H.
  destruct H as [[H1 H2%eqb_prop] H3]. done.
Qed.

Lemma low_bits x k : 0 <= x < 2 ^ k -> 0 <= k -> Z.land x (Z.ones k) = x.
Proof. intros Hx Hk. rewrite Z.land_ones by done. by apply Z.mod_small. Qed.

Lemma byte_of_eq m i : 0 <= i -> byte_of m i = (m / 2 ^ (8 * i)) mod 256.
Proof.
  intros Hi. unfold byte_of. rewrite Z.shiftr_div_pow2 by lia. change 0xFF with (Z.ones 8). by rewrite Z.land_ones.
Qed.

(** The low six bytes of a number. *)
Lemma six_bytes m : 0 <= m ->
  m / 2 ^ 48 * 2 ^ 48 + byte_of m 5 * 2 ^ 40 + byte_of m 4 * 2 ^ 32 + byte_of m 3 * 2 ^ 24 +
  byte_of m 2 * 2 ^ 16 + byte_of m 1 * 2 ^ 8 + byte_of m 0 = m.
Proof.
  intros Hm. rewrite !byte_of_eq by lia. change (8 * 5) with 40. change (8 * 4) with 32. change (8 * 3) with 24.
  change (8 * 2) with 16. change (8 * 1) with 8. change (8 * 0) with 0.
  assert (forall k k', 0 <= k -> k' = k + 8 -> m / 2 ^ k = m / 2 ^ k' * 256 + (m / 2 ^ k) mod 256) as H.
  { intros k k' Hk ->. rewrite Z.pow_add_r by lia. rewrite <- Z.div_div by lia. change (2 ^ 8) with 256.
    pose proof (Z.div_mod (m / 2 ^ k) 256 ltac:(lia)). lia. }
  pose proof (H 0 8 ltac:(lia) eq_refl) as H0. pose proof (H 8 16 ltac:(lia) eq_refl). pose proof (H 16 24 ltac:(lia) eq_refl).
  pose proof (H 24 32 ltac:(lia) eq_refl). pose proof (H 32 40 ltac:(lia) eq_refl). pose proof (H 40 48 ltac:(lia) eq_refl).
  rewrite Z.pow_0_r, Z.div_1_r in *. lia.
Qed.

Lemma sto_amount_iou_bytes m e neg : wf m e -> sto_amount (iou_bytes m e neg) = (neg, e, m).
Proof.
  intros Hw. unfold sto_amount, iou_bytes. unfold_bounds. replace (m =? 0) with false by lia. cbv zeta. cbn [nth].
  assert (0 <= Z.shiftr (e + 97) 2 < 64) as Hx.
  { rewrite Z.shiftr_div_pow2 by lia. split; [apply Z.div_pos|apply Z.div_lt_upper_bound]; lia. }
  destruct (first_byte neg _ Hx) as (H80 & -> & ->). rewrite (proj2 (Z.eqb_neq _ _)) by done.
  change (Z.land (e + 97) 3) with (Z.land (e + 97) (Z.ones 2)). rewrite Z.land_ones by lia. rewrite !Z.shiftr_div_pow2 in * by lia.
  pose proof (Z.mod_pos_bound (e + 97) (2 ^ 2) ltac:(lia)) as Hl. pose proof (Z.div_mod (e + 97) (2 ^ 2) ltac:(lia)) as He.
  set (l := (e + 97) mod 2 ^ 2) in *. assert (0 <= m / 2 ^ 48 < 64) as Hh by (split; [apply Z.div_pos|apply Z.div_lt_upper_bound]; lia).
  pose proof (six_bytes m ltac:(lia)) as H6. set (h := m / 2 ^ 48) in *.
  change 0x3F with (Z.ones 6). rewrite (u8_small l), (u8_small h), (low_bits h) by lia.
  rewrite !Z.shiftl_mul_pow2 by lia. rewrite (u8_small (l * 2 ^ 6)), (u8_small (l * 2 ^ 6 + h)) by lia.
  rewrite Z.land_ones by lia. replace (l * 2 ^ 6 + h) with (h + l * 2 ^ 6) by lia.
  rewrite Z.mod_add, Z.div_add, (Z.mod_small h), (Z.div_small h) by lia. f_equal; [f_equal; lia|lia].
Qed.

Lemma WRITE_WASM_MEMORY_in mem dst len src :
  lenZ src <= len -> dst + lenZ src <= lenZ mem ->
  WRITE_WASM_MEMORY mem dst len src = inl (mem_set mem dst src, lenZ src).
Proof.
  intros Hl Hd. unfold WRITE_WASM_MEMORY. rewrite Z.min_l by done. replace (_ <? _) with false by lia.
  unfold lenZ. by rewrite Nat2Z.id, firstn_all.
Qed.

(** The amount of a normal number needs no change when [log10] is exact. *)
Lemma normalize_exact log10 m e neg :
  log10_ok log10 -> wf m e -> 10 ^ log10 m <= m -> (normalize_xfl log10 false m e neg).1.1 = pack m e neg.
Proof.
  intros Hlog Hw Hlo. pose proof Hw as [Hm He]. unfold_bounds. destruct (Hlog m) as (Hk & _ & Hhi); [lia|].
  assert (log10 m = 15) as Hl.
  { assert (~ log10 m <= 14) by (intros H; pose proof (Z.pow_le_mono_r 10 (log10 m + 1) 15); lia).
    assert (~ 16 <= log10 m) by (intros H'; pose proof (Z.pow_le_mono_r 10 16 (log10 m)); lia). lia. }
  destruct (normalize_core log10 Hlog false m e neg) as [-> _]; [lia..|].
  rewrite norm_pair_exact by (done || lia). rewrite Hl. change (15 - 15) with 0. cbn [fst snd]. unfold trunc10, xfl_or_error.
  unfold_bounds. rewrite !Z.add_0_r. simpl. replace (e <? -96) with false by lia. replace (80 <? e) with false by lia.
  by rewrite Z.mul_1_r.
Qed.

(** What [float_sto] writes of a packed number, and what [float_sto_set] makes of it. *)
Lemma float_sto_written log10 mem ptr len m e neg :
  wf m e -> 8 <= len -> 0 <= ptr -> ptr + len <= lenZ mem ->
  exists mem', float_sto mem ptr len 0 0 0 0 (pack m e neg) 0xFFFFFFFF = (8, mem') /\
    float_sto_set log10 mem' ptr 8 = (normalize_xfl log10 false m e neg).1.1 /\ lenZ mem' = lenZ mem /\
    forall i, (i < Z.to_nat ptr \/ Z.to_nat ptr + 8 <= i)%nat -> mem' !! i = mem !! i.
Proof.
  intros Hw Hlen Hptr Hmem. pose proof Hw as [Hm He].
  set (bs := iou_bytes m e neg). assert (lenZ bs = 8) as Hbs by (unfold bs, iou_bytes; by replace (m =? 0) with false by (unfold_bounds; lia)).
  exists (mem_set mem ptr bs). unfold float_sto, NOT_IN_BOUNDS. replace ((lenZ mem <=? ptr) || (lenZ mem <? ptr + len)) with false by lia.
  rewrite invalid_float_pack, get_mantissa_pack, get_exponent_pack, is_negative_pack by done. cbn [Z.eqb negb].
  rewrite u64_small by (unfold_bounds; lia). fold bs. change (0xFFFFFFFF =? 0) with false. change (0xFFFFFFFF =? 0xFFFFFFFF) with true.
  change (Z.land 0xFFFFFFFF 0xFFFF) with 0xFFFF. change (Z.shiftr 0xFFFFFFFF 16) with 0xFFFF. cbn [negb andb Z.eqb].
  change (8 + _) with 8. replace (len <? 8) with false by lia. rewrite WRITE_WASM_MEMORY_in, Hbs by lia.
  split; [done|]. pose proof (mem_set_length mem ptr bs Hptr ltac:(lia)) as Hml. pose proof (mem_slice_set mem ptr bs Hptr ltac:(lia)) as Hsl.
  rewrite Hbs in Hsl. split; [|split; [done|intros i Hi; apply mem_set_other; [done|lia|]; unfold lenZ in Hbs; lia]].
  unfold float_sto_set, NOT_IN_BOUNDS. change (8 <? 8) with false. rewrite Hml.
  replace ((lenZ mem <=? ptr) || (lenZ mem <? ptr + 8)) with false by lia. rewrite Hsl. unfold sto_header_length. rewrite Hbs.
  change (8 <? 8) with false. cbv iota. change (drop (Z.to_nat 0) bs) with bs. rewrite Hbs. change (8 <? 8) with false. unfold bs.
  rewrite sto_amount_iou_bytes by done. replace (m =? 0) with false by (unfold_bounds; lia).
  by destruct (normalize_xfl _ _ _ _ _) as [[r a] b].
Qed.

(** The same for zero. *)
Lemma float_sto_zero log10 mem ptr len :
  8 <= len -> 0 <= ptr -> ptr + len <= lenZ mem ->
  exists mem', float_sto mem ptr len 0 0 0 0 0 0xFFFFFFFF = (8, mem') /\
    float_sto_set log10 mem' ptr 8 = 0 /\ lenZ mem' = lenZ mem /\
    forall i, (i < Z.to_nat ptr \/ Z.to_nat ptr + 8 <= i)%nat -> mem' !! i = mem !! i.
Proof.
  intros Hlen Hptr Hmem. exists (mem_set mem ptr (iou_bytes 0 0 false)). assert (lenZ (iou_bytes 0 0 false) = 8) as Hbs by done.
  pose proof (mem_set_length mem ptr (iou_bytes 0 0 false) Hptr ltac:(lia)) as Hml. pose proof (mem_slice_set mem ptr (iou_bytes 0 0 false) Hptr ltac:(lia)) as Hsl.
  rewrite Hbs in Hsl. split_and!; [| |done|intros i Hi; apply mem_set_other; [done|lia|]; unfold lenZ in Hbs; lia].
  - unfold float_sto, NOT_IN_BOUNDS. replace ((lenZ mem <=? ptr) || (lenZ mem <? ptr + len)) with false by lia.
    change (invalid_float 0) with false. change (iou_bytes (u64 (get_mantissa 0)) _ _) with (iou_bytes 0 0 false).
    change (0xFFFFFFFF =? 0) with false. change (0xFFFFFFFF =? 0xFFFFFFFF) with true.
    change (Z.land 0xFFFFFFFF 0xFFFF) with 0xFFFF. change (Z.shiftr 0xFFFFFFFF 16) with 0xFFFF. cbn [negb andb Z.eqb].
    change (8 + _) with 8. replace (len <? 8) with false by lia. by rewrite WRITE_WASM_MEMORY_in, Hbs by lia.
  - unfold float_sto_set, NOT_IN_BOUNDS. change (8 <? 8) with false. rewrite Hml.
    replace ((lenZ mem <=? ptr) || (lenZ mem <? ptr + 8)) with false by lia. by rewrite Hsl.
Qed.

(** The shift of a mantissa in range is zero, or one just below 10^16. *)
Lemma norm_pair_shift log10 m : log10_ok log10 -> minMantissa <= m <= maxMantissa -> 0 <= (norm_pair log10 m).2 <= 1.
Proof.
  intros Hlog Hm. unfold_bounds. destruct (Hlog m) as (Hk & Hlo & Hhi); [lia|].
  assert (~ log10 m <= 14) by (intros H; pose proof (Z.pow_le_mono_r 10 (log10 m + 1) 15); lia).
  assert (~ 17 <= log10 m) by (intros H'; pose proof (Z.pow_le_mono_r 10 17 (log10 m)); lia).
  unfold norm_pair. cbv zeta. unfold_bounds. destruct (decide (log10 m = 15)) as [->|].
  - change (15 - 15) with 0. unfold trunc10. cbn [Z.leb Z.compare Z.opp Z.pow]. rewrite Z.mul_1_r. replace (m <? 1000000000000000) with false by lia. done.
  - replace (log10 m) with 16 by lia. repeat case_match; cbn; lia.
Qed.

(** C40: [float_sto_set] reads back what [float_sto] writes. The eight bytes of the
    short form of any valid XFL fit anywhere in the memory, the rest of which is
    unchanged. They decode to the same XFL if it is zero, if the mantissa is below
    10^16 - 1000, or if [log10] does not round the mantissa up to a power of ten.
    Any other XFL decodes to a number within ten units of the last place, or to
    [XFL_OVERFLOW] when the exponent grows beyond the largest. *)
Theorem float_sto_roundtrip log10 mem ptr len f :
  log10_ok log10 -> is_s64 f -> invalid_float f = false ->
  8 <= len -> 0 <= ptr -> ptr + len <= lenZ mem ->
  let m := get_mantissa f in
  exists mem', float_sto mem ptr len 0 0 0 0 f 0xFFFFFFFF = (8, mem') /\
    (f = 0 \/ m < 10 ^ 16 - 1000 \/ 10 ^ log10 m <= m -> float_sto_set log10 mem' ptr 8 = f) /\
    (f <> 0 -> exists M s, minMantissa <= M <= maxMantissa /\ near m M s /\
      float_sto_set log10 mem' ptr 8 = if maxExponent <? get_exponent f + s then XFL_OVERFLOW else make_float M (get_exponent f + s) (is_negative f)) /\
    lenZ mem' = lenZ mem /\ forall i, (i < Z.to_nat ptr \/ Z.to_nat ptr + 8 <= i)%nat -> mem' !! i = mem !! i.
Proof.
  intros Hlog Hf Hv Hlen Hptr Hmem. cbv zeta. destruct (Z.eq_dec f 0) as [->|Hnz].
  { destruct (float_sto_zero log10 mem ptr len) as (mem' & Hw & Hr & Hfr); [done..|]. by exists mem'. }
  destruct (valid_pack f Hf Hv Hnz) as (m & e & neg & Hw & ->). rewrite get_mantissa_pack, get_exponent_pack, is_negative_pack by done.
  destruct (float_sto_written log10 mem ptr len m e neg) as (mem' & Hs & Hr & Hfr); [done..|]. exists mem'. rewrite Hr.
  split; [done|]. pose proof Hw as [Hm He]. split; [|split; [intros _|done]].
  - intros Hc. apply normalize_exact; [done..|]. destruct Hc as [|[Hc|]]; [done| |done]. unfold_bounds. destruct (Hlog m) as (Hk & Hlo & _); [lia|].
    assert (~ 16 <= log10 m) by (intros H'; pose proof (Z.pow_le_mono_r 10 16 (log10 m)); lia). pose proof (Z.pow_le_mono_r 10 (log10 m) 15). lia.
  - assert (0 < m < 2 ^ 64) as Hm' by (unfold_bounds; lia). pose proof (norm_pair_range log10 Hlog m Hm') as [HM _]. pose proof (norm_pair_shift log10 m Hlog Hm) as Hsh.
    exists (norm_pair log10 m).1, (norm_pair log10 m).2. split; [done|]. split; [by apply norm_pair_near|].
    destruct (normalize_core log10 Hlog false m e neg) as [-> _]; [done|unfold_bounds; lia..|]. unfold xfl_or_error. unfold_bounds.
    replace (e + (norm_pair log10 m).2 <? -96) with false by lia. destruct (Z.ltb_spec 80 (e + (norm_pair log10 m).2)); [done|].
    by rewrite make_float_pack by (unfold_bounds; lia).
Qed.

Lemma float_sto_roundtrip_witness :
  exists mem', float_sto (replicate 16 0) 3 8 0 0 0 0 (make_float 1234567890123456 (-20) true) 0xFFFFFFFF = (8, mem') /\
    float_sto_set ilog10 mem' 3 8 = make_float 1234567890123456 (-20) true.
Proof.
  destruct (float_sto_roundtrip ilog10 (replicate 16 0) 3 8 (make_float 1234567890123456 (-20) true) ilog10_ok) as (mem' & Hw & Hr & _);
    [by vm_compute|done|lia|lia|by vm_compute|]. exists mem'. split; [exact Hw|]. apply Hr. right. left. by vm_compute.
Defined.

(** The field header of [float_sto] is the one of the protocol for every type and
    field, except an uncommon type (16 and up) with a common field (below 16): there
    the field is written to the high half of the first byte, where the protocol has
    it in the low half, and the header reads as another field. *)
Theorem sto_header_protocol type field :
  0 < type < 256 -> 0 < field < 256 ->
  (sto_header type field = addFieldID type field) <-> ~ (16 <= type /\ field < 16).
Proof.
  intros Ht Hf. unfold sto_header, addFieldID.
  destruct (Z.ltb_spec type 16), (Z.ltb_spec field 16); cbn [andb].
  - split; [lia|]. intros _. rewrite (u8_small type), (u8_small field), Z.shiftl_mul_pow2 by lia. rewrite (u8_small (type * 2 ^ 4)) by lia.
    rewrite Z.lor_comm. pose proof (land_low_high field type 4 ltac:(lia) ltac:(lia)) as Hz.
    rewrite <- Z.lxor_lor, <- Z.add_nocarry_lxor by done. do 2 f_equal. lia.
  - replace (16 <=? field) with true by lia. cbn [andb]. split; [lia|]. by rewrite (u8_small type) by lia.
  - replace (16 <=? field) with false by lia. replace (16 <=? type) with true by lia. cbn [andb]. split; [|lia].
    intros Heq. exfalso. injection Heq as Heq. rewrite (u8_small field), Z.shiftl_mul_pow2, u8_small in Heq by lia. lia.
  - replace (16 <=? field) with true by lia. cbn [andb]. split; [lia|done].
Qed.

Lemma sto_header_protocol_witness :
  (sto_header 6 1 = addFieldID 6 1) <-> ~ (16 <= 6 /\ 1 < 16).
Proof. apply (sto_header_protocol 6 1); lia. Defined.

(** [mulRatio] asked to round up can return less than the exact result, with the
    Number switchover and without: a quotient without remainder that needs more than
    sixteen digits is cut by the normalization, which the rounding does not see. *)
Theorem mulRatio_rounds_down :
  mulRatio (E := unit) true to_nearest (mkIOU 1111111111111111 0) 11 1 true = Ret (mkIOU 1222222222222222 1) /\
  mulRatio (E := unit) false to_nearest (mkIOU 9999999999999999 0) 3 1 true = Ret (mkIOU 2999999999999999 1) /\
  1222222222222222 * 10 < 1111111111111111 * 11 /\ 2999999999999999 * 10 < 9999999999999999 * 3.
Proof. split_and!; vm_compute; reflexivity. Qed.
