(* ===== verification/GuardRuntime.v ===== *)
(** * The guard at run time (src/src/ripple/app/hook/impl/applyHook.cpp)

    The API function [_g], which a loop the checker accepted calls at the start of
    every iteration, with the part of [HookContext] it uses: the map from a guard
    id to its count and the exit of the hook. A call through the WebAssembly
    wrapper of [Macro.h] that returns [RC_ROLLBACK] ends the instance, so a run
    of a hook is a sequence of guard calls cut at the first that fails. Like every API
    function [_g] starts with [HOOK_SETUP]: in an instance without memory it counts
    nothing. The length of the memory does not change, since the checker refuses
    memory.grow. *)

From S2P Require Import Prelude HookEnum HookMemory.

Inductive ExitType := UNSET | WASM_ERROR | ROLLBACK | ACCEPT.

#[global] Instance ExitType_eq_dec : EqDecision ExitType.
Proof. solve_decision. Defined.

Record HookContext := mkContext {
  guard_map : gmap Z Z;
  exitType : ExitType;
  exitCode : Z
}.

(** The context [hook::apply] starts from. *)
Definition new_context (fixXahauV3 : bool) : HookContext :=
  mkContext ∅ (if fixXahauV3 then UNSET else ROLLBACK) (-1).

(** [if (guard_map.find(id) == end) guard_map[id] = 1; else guard_map[id]++;] *)
Definition count_call (m : gmap Z Z) (id : Z) : Z :=
  match m !! id with None => 1 | Some n => u32 (n + 1) end.

Definition _g (memory_length : Z) (ctx : HookContext) (id maxitr : Z) : Z * HookContext :=
  HOOK_SETUP memory_length ctx
    (let m := <[id := count_call (guard_map ctx) id]> (guard_map ctx) in
     if maxitr <? count_call (guard_map ctx) id
     then (RC_ROLLBACK, mkContext m ROLLBACK GUARD_VIOLATION)
     else (1, mkContext m (exitType ctx) (exitCode ctx))).

(** The wrapper of an API function: [None] ends the instance. *)
Definition api_return (return_code : Z) : option Z :=
  if (return_code =? RC_ROLLBACK) || (return_code =? RC_ACCEPT) then None else Some return_code.

(** The guard calls of a run, [(id, maxitr)] each: those that return to the hook,
    and the context at the end. *)
Fixpoint guard_run (memory_length : Z) (ctx : HookContext) (calls : list (Z * Z)) : list (Z * Z) * HookContext :=
  match calls with
  | [] => ([], ctx)
  | (id, maxitr) :: calls =>
    let '(code, ctx) := _g memory_length ctx id maxitr in
    match api_return code with
    | None => ([], ctx)
    | Some _ => let '(done, ctx) := guard_run memory_length ctx calls in ((id, maxitr) :: done, ctx)
    end
  end.

(** ** Counting *)

Definition guard_count (ctx : HookContext) (id : Z) : Z := default 0 (guard_map ctx !! id).

(** How many of the calls are for [id]. *)
Fixpoint calls_of (id : Z) (calls : list (Z * Z)) : Z :=
  match calls with
  | [] => 0
  | (x, _) :: calls => (if x =? id then 1 else 0) + calls_of id calls
  end.

Lemma calls_of_nonneg id calls : 0 <= calls_of id calls.
Proof. induction calls as [|[x m] calls IH]; simpl; [lia|]. destruct (x =? id); lia. Qed.
#[export] Hint Resolve calls_of_nonneg : mach.

Lemma calls_of_app id a b : calls_of id (a ++ b) = calls_of id a + calls_of id b.
Proof. induction a as [|[x m] a IH]; simpl; [done|]. rewrite IH. lia. Qed.

(** A call that returns counts one more, a violation is past the bound. *)
Lemma _g_spec ml ctx id maxitr :
  0 < ml -> 0 <= guard_count ctx id < 2 ^ 32 - 1 ->
  let '(code, ctx') := _g ml ctx id maxitr in
  (forall x, guard_count ctx' x = guard_count ctx x + (if id =? x then 1 else 0)) /\
  ((api_return code = Some 1 /\ guard_count ctx id + 1 <= maxitr /\
    exitType ctx' = exitType ctx /\ exitCode ctx' = exitCode ctx) \/
   (api_return code = None /\ maxitr < guard_count ctx id + 1 /\
    exitType ctx' = ROLLBACK /\ exitCode ctx' = GUARD_VIOLATION)).
Proof.
  intros Hml Hc. unfold _g, HOOK_SETUP. replace (ml =? 0) with false by lia.
  assert (Hn : count_call (guard_map ctx) id = guard_count ctx id + 1).
  { unfold count_call, guard_count in *. destruct (guard_map ctx !! id); simpl in *; [|done].
    by rewrite u32_small by lia. }
  rewrite Hn. destruct (maxitr <? _) eqn:Hm; (split; [|simpl; first [left; split_and!; (done || lia)|right; split_and!; (done || lia)]]);
    intros x; unfold guard_count; simpl; destruct (id =? x) eqn:Ex;
    try (assert (id = x) as <- by lia; rewrite lookup_insert_eq; simpl; unfold guard_count; lia);
    rewrite lookup_insert_ne by lia; lia.
Qed.

(** ** Runs *)

(** Every id stays below 2^32 calls over the whole run. *)
Definition no_wrap (ctx : HookContext) (calls : list (Z * Z)) : Prop :=
  forall id, 0 <= guard_count ctx id /\ guard_count ctx id + calls_of id calls < 2 ^ 32.

Lemma no_wrap_step ctx ctx' id m calls :
  no_wrap ctx ((id, m) :: calls) ->
  (forall x, guard_count ctx' x = guard_count ctx x + (if id =? x then 1 else 0)) ->
  no_wrap ctx' calls.
Proof.
  intros Hw Hc x. specialize (Hw x). rewrite Hc. simpl in Hw. destruct (id =? x); lia.
Qed.

Lemma guard_run_inv ml ctx calls :
  0 < ml -> no_wrap ctx calls ->
  let '(done, ctx') := guard_run ml ctx calls in
  (exists rest, calls = done ++ rest) /\
  (forall pre id m post, done = pre ++ (id, m) :: post ->
     guard_count ctx id + calls_of id pre + 1 <= m) /\
  ((done = calls /\ exitType ctx' = exitType ctx /\ exitCode ctx' = exitCode ctx) \/
   (exists id m rest, calls = done ++ (id, m) :: rest /\
      m < guard_count ctx id + calls_of id done + 1 /\
      exitType ctx' = ROLLBACK /\ exitCode ctx' = GUARD_VIOLATION)).
Proof.
  intros Hml. revert ctx. induction calls as [|[id m] calls IH]; intros ctx Hw; simpl.
  { split_and!; [by exists []| |by left]. by intros [|??] ????. }
  pose proof (_g_spec ml ctx id m Hml) as Hg. destruct (_g ml ctx id m) as [code ctx1].
  destruct Hg as [Hc Hr].
  { specialize (Hw id). simpl in Hw. rewrite Z.eqb_refl in Hw. pose proof (calls_of_nonneg id calls). lia. }
  destruct Hr as [(-> & Hm & Ht & He)|(-> & Hm & Ht & He)].
  - specialize (IH ctx1 (no_wrap_step _ _ _ _ _ Hw Hc)). destruct (guard_run ml ctx1 calls) as [done ctx2].
    destruct IH as ([rest ->] & Hpre & Hend). split_and!; [by exists rest| |].
    + intros [|[id' m'] pre] x n post Heq; simplify_eq/=; [lia|].
      specialize (Hpre pre x n post eq_refl). rewrite Hc in Hpre. lia.
    + destruct Hend as [(Hd & Ht2 & He2)|(x & n & rest' & Heq & Hn & Ht2 & He2)].
      * left. rewrite <- Hd. by rewrite Ht2, He2.
      * right. exists x, n, rest'. rewrite Heq. split_and!; [done| |done|done]. rewrite Hc in Hn. simpl. lia.
  - split_and!; [by eexists| |].
    + by intros [|??] ????.
    + right. exists id, m, calls. simpl. split_and!; (done || lia).
Qed.

Lemma no_wrap_new v3 calls : lenZ calls < 2 ^ 32 -> no_wrap (new_context v3) calls.
Proof.
  intros Hl id. unfold guard_count. simpl. rewrite lookup_empty. simpl.
  assert (calls_of id calls <= lenZ calls); [|lia].
  clear Hl. induction calls as [|[x m] calls IH]; [done|]. autorewrite with mach. simpl.
  destruct (x =? id); lia.
Qed.

(** Without memory every call returns, and nothing is counted. *)
Lemma guard_run_no_memory ctx calls : guard_run 0 ctx calls = (calls, ctx).
Proof. induction calls as [|[id m] calls IH]; [done|]. simpl. by rewrite IH. Qed.

(** C20: In an instance with memory a loop whose guard is [_g(id, m)] runs at most [m]
    times: in a run of fewer than 2^32 guard calls in which every call for [id] gives
    the bound [m], at most [m] calls for [id] return to the hook, whatever the other
    loops do. In an instance without memory the guards bound nothing: every call
    returns. *)
Theorem guard_run_bounded ml v3 calls id m :
  0 <= ml -> lenZ calls < 2 ^ 32 -> 0 <= m -> (forall n, (id, n) ∈ calls -> n = m) ->
  (0 < ml -> calls_of id (guard_run ml (new_context v3) calls).1 <= m) /\
  (ml = 0 -> guard_run ml (new_context v3) calls = (calls, new_context v3)).
Proof.
  intros _ Hl Hm Hsame. split; [|intros ->; apply guard_run_no_memory].
  intros Hml. pose proof (guard_run_inv ml (new_context v3) calls Hml (no_wrap_new v3 calls Hl)) as Hr.
  destruct (guard_run ml (new_context v3) calls) as [done ctx']. destruct Hr as ([rest ->] & Hpre & _). simpl.
  clear Hl. induction done as [|[x n] done IH] using rev_ind; [simpl; lia|].
  rewrite calls_of_app. simpl. destruct (x =? id) eqn:Ex.
  - assert (x = id) as -> by lia. assert (n = m) as -> by (apply Hsame; set_solver).
    specialize (Hpre done id m [] eq_refl). unfold guard_count in Hpre. simpl in Hpre.
    rewrite lookup_empty in Hpre. simpl in Hpre. lia.
  - enough (calls_of id done <= m) by lia. apply IH.
    + intros k Hk. apply Hsame. set_solver.
    + intros pre y k post ->. apply (Hpre pre y k (post ++ [(x, n)])). by rewrite <- app_assoc.
Qed.

Lemma guard_run_bounded_witness :
  calls_of 7 (guard_run 65536 (new_context false) [(7, 2); (9, 1); (7, 2); (7, 2)]).1 <= 2.
Proof.
  apply (guard_run_bounded 65536); [lia|vm_compute; done|lia| |lia].
  intros n Hn. rewrite !elem_of_cons in Hn. set_solver.
Defined.

(** The guard ends exactly the runs that break a bound. In a run of fewer than
    2^32 guard calls of an instance with memory either every call is within its bound
    and returns, and the exit of the hook is untouched, or the hook is rolled back
    with [GUARD_VIOLATION] at the first call that is one more than its bound. *)
Theorem guard_run_violation ml v3 calls :
  0 < ml -> lenZ calls < 2 ^ 32 ->
  let '(done, ctx) := guard_run ml (new_context v3) calls in
  (done = calls /\ exitType ctx = (if v3 then UNSET else ROLLBACK) /\ exitCode ctx = -1 /\
   forall pre id m post, calls = pre ++ (id, m) :: post -> calls_of id pre + 1 <= m) \/
  (exists id m rest, calls = done ++ (id, m) :: rest /\ m < calls_of id done + 1 /\
   exitType ctx = ROLLBACK /\ exitCode ctx = GUARD_VIOLATION /\
   forall pre id m post, done = pre ++ (id, m) :: post -> calls_of id pre + 1 <= m).
Proof.
  intros Hml Hl. pose proof (guard_run_inv ml (new_context v3) calls Hml (no_wrap_new v3 calls Hl)) as Hr.
  destruct (guard_run ml (new_context v3) calls) as [done ctx]. destruct Hr as (_ & Hpre & Hend).
  assert (Hz : forall id, guard_count (new_context v3) id = 0)
    by (intros id; unfold guard_count; simpl; by rewrite lookup_empty).
  destruct Hend as [(-> & Ht & He)|(id & m & rest & -> & Hm & Ht & He)].
  - left. rewrite Ht, He. split_and!; [done..|]. intros pre id m post Heq.
    specialize (Hpre pre id m post Heq). rewrite Hz in Hpre. lia.
  - right. exists id, m, rest. rewrite Hz in Hm. split_and!; [done|lia|done|done|].
    intros pre x n post Heq. specialize (Hpre pre x n post Heq). rewrite Hz in Hpre. lia.
Qed.

Lemma guard_run_violation_witness :
  exitCode (guard_run 65536 (new_context false) [(7, 1); (7, 1)]).2 = GUARD_VIOLATION.
Proof.
  pose proof (guard_run_violation 65536 false [(7, 1); (7, 1)] ltac:(lia) ltac:(vm_compute; done)) as H.
  destruct H as [(H & _)|(id & m & rest & _ & _ & _ & H & _)]; [discriminate H|exact H].
Defined.
