(* ===== verification/Sto.v ===== *)
(** * Serialized objects in the memory of a hook (src/src/ripple/app/hook/impl/applyHook.cpp)

    The light-weight parser [get_stobject_length] and the API functions on it:
    [sto_validate], [sto_subfield], [sto_subarray], [sto_emplace], [sto_erase].

    Pointers into the buffer between [start] and [end] are offsets into the list
    [bs] of its bytes, so a read at or past [end] is undefined. The recursion
    depth is counted down: [depth] levels are left, and [recursion_depth] is
    [MAX_DEPTH - depth]. A negative return value is [Exit] of its code. *)

From S2P Require Import Prelude HookEnum HookMemory.

(** ** The parser *)

Inductive parse_error :=
  pe_unexpected_end | pe_unknown_type_early | pe_unknown_type_late | pe_excessive_nesting | pe_excessive_size.

(** The return value and the out parameters of [get_stobject_length]. *)
Record sto_field := mkField {
  f_length : Z; f_type : Z; f_field : Z; f_payload_start : Z; f_payload_length : Z
}.

(** The type and field codes of the header at [start], and the offset after it. *)
Definition field_header (bs : list Z) (start : Z) : outcome parse_error (Z * Z * Z) :=
  let* b := vget bs start in
  let high := Z.shiftr b 4 in
  let low := Z.land b 0xF in
  let upto := start + 1 in
  if lenZ bs <=? upto then Exit pe_unexpected_end else
  if (0 <? high) && (0 <? low) then Ret (high, low, upto)
  else if 0 <? high then
    let* field := vget bs upto in Ret (high, field, upto + 1)
  else if 0 <? low then
    let* type := vget bs upto in Ret (type, low, upto + 1)
  else
    let* type := vget bs upto in
    if lenZ bs <=? upto + 1 then Exit pe_unexpected_end else
    let* field := vget bs (upto + 1) in
    Ret (type, field, upto + 2).

(** A variable length prefix: the length and the offset after it. *)
Definition vl_prefix (bs : list Z) (upto : Z) : outcome parse_error (Z * Z) :=
  let* length := vget bs upto in
  let upto := upto + 1 in
  if lenZ bs <=? upto then Exit pe_unexpected_end else
  if length <? 193 then Ret (length, upto)
  else if (192 <? length) && (length <? 241) then
    let* b := vget bs upto in
    if lenZ bs <? upto + 1 then Exit pe_unexpected_end else
    Ret ((length - 193) * 256 + (b + 193), upto + 1)
  else
    let* b2 := vget bs upto in
    if lenZ bs <=? upto + 1 then Exit pe_unexpected_end else
    let* b3 := vget bs (upto + 1) in
    if lenZ bs <=? upto + 2 then Exit pe_unexpected_end else
    Ret ((length - 241) * 65536 + (12481 + b2 * 256 + b3), upto + 2).

Definition is_vl (type : Z) : bool := (type =? 8) || (type =? 7) || (type =? 18) || (type =? 19).

Definition unknown_type (type : Z) : bool := (type <? 1) || (19 <? type) || ((9 <=? type) && (type <=? 13)).

(** The length of the types of a fixed length, -1 for the others. *)
Definition fixed_length (type : Z) : Z :=
  if type =? 1 then 2 else if type =? 2 then 4 else if type =? 3 then 8 else if type =? 4 then 16
  else if type =? 5 then 32 else if type =? 16 then 1 else if type =? 17 then 20 else -1.

(** The payload of a field that is neither an object nor an array: its length (-1
    for those) and the offset it starts at. *)
Definition payload (bs : list Z) (type upto : Z) : outcome parse_error (Z * Z) :=
  if is_vl type then vl_prefix bs upto
  else if ((1 <=? type) && (type <=? 5)) || (type =? 16) || (type =? 17) then Ret (fixed_length type, upto)
  else if type =? 6 then
    let* b := vget bs upto in
    if lenZ bs <=? upto then Exit pe_unexpected_end else
    Ret (if Z.shiftr b 6 =? 1 then 8 else 48, upto)
  else Ret (-1, upto).

(** The fields of an object or array from [upto] on: the offset of its end marker. *)
Fixpoint sub_loop (parse : Z -> outcome parse_error sto_field) (bs : list Z) (type : Z) (n : nat) (upto : Z)
  : outcome parse_error Z :=
  match n with
  | O => Exit pe_excessive_size
  | S n =>
    match parse upto with
    | Ret f =>
      let upto := upto + f_length f in
      if lenZ bs <=? upto then Exit pe_unexpected_end else
      let* b := vget bs upto in
      if ((b =? 0xE1) && (type =? 0xE)) || ((b =? 0xF1) && (type =? 0xF)) then Ret upto
      else sub_loop parse bs type n upto
    | Exit _ => Exit pe_unexpected_end
    | Throw x => Throw x
    | Undef u => Undef u
    | Timeout => Timeout
    end
  end.

Definition MAX_FIELDS : nat := 1024.
Definition MAX_DEPTH : nat := 11.

Fixpoint get_stobject_length (depth : nat) (bs : list Z) (start : Z) : outcome parse_error sto_field :=
  match depth with
  | O => Exit pe_excessive_nesting
  | S depth =>
    let* '(type, field, upto) := field_header bs start in
    if lenZ bs <=? upto then Exit pe_unexpected_end else
    if unknown_type type then Exit pe_unknown_type_early else
    let* '(length, upto) := payload bs type upto in
    if -1 <? length then Ret (mkField (length + (upto - start)) type field (upto - start) length)
    else if (type =? 15) || (type =? 14) then
      let payload_start := upto - start in
      let* upto := sub_loop (get_stobject_length depth bs) bs type MAX_FIELDS upto in
      Ret (mkField (upto + 1 - start) type field payload_start (upto - start - payload_start))
    else Exit pe_unknown_type_late
  end.

(** [(type << 16) + field] *)
Definition field_code (f : sto_field) : Z := Z.shiftl (f_type f) 16 + f_field f.

(** ** Reading *)

(** [((int64_t)(offset) << 32) + (uint32_t)(length)] *)
Definition location (offset length : Z) : Z := s64 (Z.shiftl offset 32 + u32 length).

(** What the API functions make of a parse: [Exit] is their own error code. *)
Definition parse_or {E A} (err : A) (m : outcome parse_error sto_field) (k : sto_field -> outcome E A)
  : outcome E A :=
  match m with
  | Ret f => k f
  | Exit _ => Ret err
  | Throw x => Throw x
  | Undef u => Undef u
  | Timeout => Timeout
  end.

(** [inl]: the location of the field, or an error; [inr]: where the loop ended. *)
Fixpoint subfield_loop {E} (n : nat) (bs : list Z) (field_id upto : Z) : outcome E (Z + Z) :=
  if lenZ bs <=? upto then Ret (inr upto) else
  match n with
  | O => Ret (inr upto)
  | S n =>
    parse_or (inl PARSE_ERROR) (get_stobject_length MAX_DEPTH bs upto) (fun f =>
    if field_code f =? field_id then
      if f_type f =? 0xF then Ret (inl (location upto (f_length f)))
      else Ret (inl (location (upto + f_payload_start f) (f_payload_length f)))
    else subfield_loop n bs field_id (upto + f_length f))
  end.

Definition sto_subfield {E} (mem : list Z) (read_ptr read_len field_id : Z) : outcome E Z :=
  if NOT_IN_BOUNDS read_ptr read_len (lenZ mem) then Ret OUT_OF_BOUNDS else
  if read_len <? 2 then Ret TOO_SMALL else
  let bs := mem_slice mem read_ptr read_len in
  let* r := subfield_loop MAX_FIELDS bs field_id 0 in
  match r with
  | inl code => Ret code
  | inr upto => Ret (if negb (upto =? lenZ bs) then PARSE_ERROR else DOESNT_EXIST)
  end.

Fixpoint subarray_loop {E} (n : nat) (bs : list Z) (index_id i upto : Z) : outcome E (Z + Z) :=
  if lenZ bs <=? upto then Ret (inr upto) else
  match n with
  | O => Ret (inr upto)
  | S n =>
    parse_or (inl PARSE_ERROR) (get_stobject_length MAX_DEPTH bs upto) (fun f =>
    if i =? index_id then Ret (inl (s64 (Z.shiftl upto 32 + f_length f)))
    else subarray_loop n bs index_id (i + 1) (upto + f_length f))
  end.

(** A wrapped array loses its first and last byte. *)
Definition sto_subarray {E} (mem : list Z) (read_ptr read_len index_id : Z) : outcome E Z :=
  if NOT_IN_BOUNDS read_ptr read_len (lenZ mem) then Ret OUT_OF_BOUNDS else
  if read_len <? 2 then Ret TOO_SMALL else
  let bs := mem_slice mem read_ptr read_len in
  let* b := vget bs 0 in
  let '(bs, upto) := if Z.land b 0xF0 =? 0xF0 then (take (length bs - 1) bs, 1) else (bs, 0) in
  if lenZ bs <=? upto then Ret PARSE_ERROR else
  let* r := subarray_loop MAX_FIELDS bs index_id 0 upto in
  match r with
  | inl code => Ret code
  | inr upto => Ret (if negb (upto =? lenZ bs) then PARSE_ERROR else DOESNT_EXIST)
  end.

Fixpoint validate_loop {E} (n : nat) (bs : list Z) (upto : Z) : outcome E (option Z) :=
  if lenZ bs <=? upto then Ret (Some upto) else
  match n with
  | O => Ret (Some upto)
  | S n =>
    parse_or None (get_stobject_length MAX_DEPTH bs upto) (fun f => validate_loop n bs (upto + f_length f))
  end.

Definition sto_validate {E} (mem : list Z) (read_ptr read_len : Z) : outcome E Z :=
  if NOT_IN_BOUNDS read_ptr read_len (lenZ mem) then Ret OUT_OF_BOUNDS else
  if read_len <? 2 then Ret TOO_SMALL else
  let bs := mem_slice mem read_ptr read_len in
  let* r := validate_loop MAX_FIELDS bs 0 in
  match r with
  | None => Ret 0
  | Some upto => Ret (if upto =? lenZ bs then 1 else 0)
  end.

(** ** Writing *)

(** The intervals [a, b) of a list, each against the later ones. *)
Fixpoint overlapping_memory (regions : list (Z * Z)) : bool :=
  match regions with
  | [] => false
  | (a, b) :: regions =>
    existsb (fun '(c, d) => negb ((d <=? a) || (b <=? c))) regions || overlapping_memory regions
  end.

(** [inr]: where the loop ended, [inject_start] and [inject_end]. *)
Fixpoint emplace_loop {E} (n : nat) (bs : list Z) (field_id upto : Z) : outcome E (Z + Z * Z * Z) :=
  if lenZ bs <=? upto then Ret (inr (upto, lenZ bs, lenZ bs)) else
  match n with
  | O => Ret (inr (upto, lenZ bs, lenZ bs))
  | S n =>
    parse_or (inl PARSE_ERROR) (get_stobject_length MAX_DEPTH bs upto) (fun f =>
    if field_code f =? field_id then Ret (inr (upto, upto, upto + f_length f))
    else if field_id <? field_code f then Ret (inr (upto, upto, upto))
    else emplace_loop n bs field_id (upto + f_length f))
  end.

(** [if (n > 0) WRITE_WASM_MEMORY(bytes_written, write_ptr + bytes_written,
    write_len - bytes_written, memory + ptr, n, ...)]; the source is read from the
    memory as it is by then. [inr]: the return code and the memory. *)
Definition write_part (write_ptr write_len ptr n : Z) (st : (list Z * Z) + (Z * list Z))
  : (list Z * Z) + (Z * list Z) :=
  match st with
  | inr e => inr e
  | inl (mem, bytes_written) =>
    if 0 <? n then
      match WRITE_WASM_MEMORY mem (write_ptr + bytes_written) (write_len - bytes_written) (mem_slice mem ptr n) with
      | inl (mem, k) => inl (mem, bytes_written + k)
      | inr code => inr (code, mem)
      end
    else inl (mem, bytes_written)
  end.

(** The tests on the arguments; [None] when they pass. *)
Definition emplace_args (memory_length write_ptr write_len sread_ptr sread_len fread_ptr fread_len : Z) : option Z :=
  if NOT_IN_BOUNDS write_ptr write_len memory_length then Some OUT_OF_BOUNDS else
  if NOT_IN_BOUNDS sread_ptr sread_len memory_length then Some OUT_OF_BOUNDS else
  if NOT_IN_BOUNDS fread_ptr fread_len memory_length then Some OUT_OF_BOUNDS else
  if write_len <? u32 (sread_len + fread_len) then Some TOO_SMALL else
  if 1024 * 16 <? sread_len then Some TOO_BIG else
  if sread_len <? 2 then Some TOO_SMALL else
  if (fread_len =? 0) && (fread_ptr =? 0) then
    if overlapping_memory [(write_ptr, u32 (write_ptr + write_len)); (sread_ptr, u32 (sread_ptr + sread_len))]
    then Some MEM_OVERLAP else None
  else
    if 4096 <? fread_len then Some TOO_BIG else
    if fread_len <? 2 then Some TOO_SMALL else
    if overlapping_memory [(write_ptr, u32 (write_ptr + write_len)); (sread_ptr, u32 (sread_ptr + sread_len));
                           (fread_ptr, u32 (fread_ptr + fread_len))]
    then Some MEM_OVERLAP else None.

(** The return code and the memory. *)
Definition sto_emplace {E} (mem : list Z) (write_ptr write_len sread_ptr sread_len fread_ptr fread_len field_id : Z)
  : outcome E (Z * list Z) :=
  match emplace_args (lenZ mem) write_ptr write_len sread_ptr sread_len fread_ptr fread_len with
  | Some code => Ret (code, mem)
  | None =>
    let bs := mem_slice mem sread_ptr sread_len in
    let* r := emplace_loop MAX_FIELDS bs field_id 0 in
    match r with
    | inl code => Ret (code, mem)
    | inr (upto, inject_start, inject_end) =>
      if lenZ bs <? upto then Ret (PARSE_ERROR, mem) else
      let st := write_part write_ptr write_len sread_ptr inject_start (inl (mem, 0)) in
      let st := write_part write_ptr write_len fread_ptr fread_len st in
      let st := write_part write_ptr write_len (sread_ptr + inject_end) (sread_len - inject_end) st in
      match st with
      | inl (mem, bytes_written) => Ret (bytes_written, mem)
      | inr (code, mem) => Ret (code, mem)
      end
    end
  end.

Definition sto_erase {E} (mem : list Z) (write_ptr write_len read_ptr read_len field_id : Z)
  : outcome E (Z * list Z) :=
  let* '(ret, mem) := sto_emplace mem write_ptr write_len read_ptr read_len 0 0 field_id in
  if (0 <? ret) && (ret =? read_len) then Ret (DOESNT_EXIST, mem) else Ret (ret, mem).
