(* ===== verification/StoFacts.v ===== *)
(** * Serialized objects: what the parser and the [sto_] functions do

    The parser reads only its buffer; a field parses the same wherever it stands
    and, up to an empty variable length field at the very end, whatever follows it.
    On a buffer that is a sequence of fields ([sto_parses]) the API functions
    validate, find, insert, replace and remove fields of that sequence. *)

From S2P Require Import Prelude HookEnum HookMemory Sto.

#[local] Opaque MAX_FIELDS MAX_DEPTH.

(** ** The parser stays in its buffer *)

Lemma vget_byte_clean {E} bs i :
  bytesOk bs -> 0 <= i < lenZ bs -> clean (E := E) (fun b => 0 <= b < 256) (vget bs i).
Proof.
  intros Hb Hi. destruct (@vget_in E bs i Hi) as (b & Hv & _). rewrite Hv. simpl.
  by eapply vget_byte.
Qed.

Lemma nibbles b : 0 <= b < 256 -> 0 <= Z.shiftr b 4 < 16 /\ 0 <= Z.land b 0xF < 16.
Proof.
  intros Hb. change 0xF with (Z.ones 4). rewrite Z.land_ones, Z.shiftr_div_pow2 by lia.
  change (2 ^ 4) with 16. split; [|apply Z.mod_pos_bound; lia].
  split; [apply Z.div_pos; lia|apply Z.div_lt_upper_bound; lia].
Qed.

(** [clean_read] goes through the reads and tests of a parser. *)
Ltac clean_read :=
  repeat match goal with
  | |- clean _ (obind (vget _ _) _) =>
    eapply clean_bind; [apply vget_byte_clean; [done|lia]|]; let b := fresh "b" in let Hb := fresh "Hb" in intros b Hb; cbv beta zeta in *
  | |- clean _ (if ?c then _ else _) => destruct c eqn:?
  | |- clean _ (Exit _) => exact I
  | |- clean _ (Ret _) => simpl
  end.

Lemma field_header_clean bs start :
  bytesOk bs -> 0 <= start < lenZ bs ->
  clean (fun '(type, field, upto) => start + 1 <= upto <= start + 3 /\ 0 <= type < 256 /\ 0 <= field < 256)
    (field_header bs start).
Proof.
  intros Hb Hs. unfold field_header.
  eapply clean_bind; [by apply vget_byte_clean|]. intros b Hbb. cbv beta zeta.
  pose proof (nibbles b Hbb) as [Hh Hl]. clean_read; lia.
Qed.

Lemma vl_prefix_clean bs upto :
  bytesOk bs -> 0 <= upto < lenZ bs ->
  clean (fun '(length, upto') => upto + 1 <= upto' <= upto + 3 /\ 0 <= length) (vl_prefix bs upto).
Proof. intros Hb Hs. unfold vl_prefix. clean_read; lia. Qed.

Lemma payload_clean bs type upto :
  bytesOk bs -> 0 <= upto < lenZ bs ->
  clean (fun '(length, upto') => upto <= upto' /\ ((length = -1 /\ upto' = upto) \/ (0 <= length /\ upto + 1 <= upto' + length)))
    (payload bs type upto).
Proof.
  intros Hb Hs. unfold payload. destruct (is_vl type).
  { eapply clean_mono; [by apply vl_prefix_clean|]. intros [l u]. lia. }
  clean_read.
  - unfold fixed_length. repeat case_match; lia.
  - case_match; lia.
  - lia.
Qed.

(** What a parsed field looks like. *)
Definition field_ok (f : sto_field) : Prop :=
  2 <= f_length f /\ 1 <= f_payload_start f /\ 0 <= f_payload_length f /\
  f_payload_start f + f_payload_length f <= f_length f /\
  1 <= f_type f <= 19 /\ 0 <= f_field f < 256.

Lemma sub_loop_clean parse bs type n upto :
  bytesOk bs -> (forall i, 0 <= i < lenZ bs -> clean field_ok (parse i)) -> 0 <= upto < lenZ bs ->
  clean (fun e => upto + 2 <= e < lenZ bs) (sub_loop parse bs type n upto).
Proof.
  intros Hb Hp. revert upto. induction n as [|n IH]; intros upto Hu; [exact I|]. cbn [sub_loop].
  specialize (Hp upto Hu). destruct (parse upto) as [f| | | |]; simpl in Hp |- *; try done.
  destruct Hp as (Hl & _). destruct (lenZ bs <=? upto + f_length f) eqn:?; [exact I|].
  eapply clean_bind; [apply vget_byte_clean; [done|lia]|]. intros b _. cbv beta.
  destruct (_ || _); [simpl; lia|].
  eapply clean_mono; [apply IH; lia|]. intros e. simpl. lia.
Qed.

Lemma get_stobject_length_ok depth bs start :
  bytesOk bs -> 0 <= start < lenZ bs -> clean field_ok (get_stobject_length depth bs start).
Proof.
  intros Hb. revert start. induction depth as [|depth IH]; intros start Hs; [exact I|].
  cbn [get_stobject_length]. eapply clean_bind; [by apply field_header_clean|].
  intros [[type field] upto] (Hu & Ht & Hf). destruct (lenZ bs <=? upto) eqn:?; [exact I|].
  destruct (unknown_type type) eqn:Hun; [exact I|]. unfold unknown_type in Hun.
  eapply clean_bind; [apply payload_clean; [done|lia]|]. intros [l u] [Hu' Hl].
  destruct (-1 <? l) eqn:?; [unfold field_ok; simpl; lia|].
  destruct ((type =? 15) || (type =? 14)); [|exact I].
  eapply clean_bind; [apply sub_loop_clean; [done|exact IH|lia]|].
  intros e He. simpl in He. unfold field_ok; simpl. lia.
Qed.

(** ** A field parses the same wherever it stands *)

Definition omap_out {E A B} (g : A -> B) (m : outcome E A) : outcome E B := let* a := m in Ret (g a).

Lemma lenZ_shift (p bs : list Z) i :
  (lenZ (p ++ bs) <=? lenZ p + i) = (lenZ bs <=? i) /\ (lenZ (p ++ bs) <? lenZ p + i) = (lenZ bs <? i).
Proof. rewrite lenZ_app. split; lia. Qed.

(** [shift] brings the offsets of a parser run behind a prefix to the form
    [lenZ p + i] and removes the prefix. *)
Ltac shift :=
  repeat rewrite <- (Z.add_assoc (lenZ _));
  repeat first
    [ rewrite vget_app_r by lia
    | rewrite (proj1 (lenZ_shift _ _ _))
    | rewrite (proj2 (lenZ_shift _ _ _)) ].

Lemma field_header_shift p bs i :
  0 <= i ->
  field_header (p ++ bs) (lenZ p + i) = omap_out (fun '(t, f, u) => (t, f, lenZ p + u)) (field_header bs i).
Proof.
  intros Hi. unfold field_header, omap_out. shift.
  destruct (vget bs i) as [b| | | |]; simpl; try done.
  destruct (lenZ bs <=? i + 1); [done|]. destruct (_ && _); [done|].
  destruct (0 <? _); [|destruct (0 <? _)]; destruct (vget bs (i + 1)); simpl; try done.
  destruct (lenZ bs <=? i + 1 + 1); [done|].
  destruct (vget bs (i + 1 + 1)); done.
Qed.

Lemma vl_prefix_shift p bs i :
  0 <= i -> vl_prefix (p ++ bs) (lenZ p + i) = omap_out (fun '(l, u) => (l, lenZ p + u)) (vl_prefix bs i).
Proof.
  intros Hi. unfold vl_prefix, omap_out. shift.
  destruct (vget bs i) as [b| | | |]; simpl; try done.
  destruct (lenZ bs <=? i + 1); [done|]. destruct (b <? 193); [done|].
  destruct (_ && _); destruct (vget bs (i + 1)); simpl; try done.
  - by destruct (lenZ bs <? _).
  - destruct (lenZ bs <=? _); [done|]. destruct (vget bs (i + 1 + 1)); simpl; try done.
    by destruct (lenZ bs <=? _).
Qed.

Lemma payload_shift p bs type i :
  0 <= i -> payload (p ++ bs) type (lenZ p + i) = omap_out (fun '(l, u) => (l, lenZ p + u)) (payload bs type i).
Proof.
  intros Hi. unfold payload. destruct (is_vl type); [by apply vl_prefix_shift|].
  destruct (_ || _); [done|]. destruct (type =? 6); [|done].
  unfold omap_out. shift. destruct (vget bs i); simpl; try done.
  destruct (lenZ bs <=? i); done.
Qed.

Lemma sub_loop_shift p bs parse parse' type n i :
  (forall i, 0 <= i < lenZ bs -> parse' (lenZ p + i) = parse i) ->
  (forall i, 0 <= i < lenZ bs -> clean field_ok (parse i)) -> 0 <= i < lenZ bs ->
  sub_loop parse' (p ++ bs) type n (lenZ p + i) = omap_out (fun e => lenZ p + e) (sub_loop parse bs type n i).
Proof.
  intros Heq Hok. revert i. induction n as [|n IH]; intros i Hi; [done|]. cbn [sub_loop].
  rewrite Heq by done. specialize (Hok i Hi). destruct (parse i) as [f| | | |]; simpl in Hok |- *; try done.
  destruct Hok as [Hl _]. shift. destruct (lenZ bs <=? i + f_length f) eqn:?; [done|]. shift.
  unfold omap_out. rewrite obind_assoc.
  destruct (vget bs (i + f_length f)); simpl; try done. destruct (_ || _); [done|].
  rewrite IH by lia. done.
Qed.

Lemma get_shift depth p bs i :
  bytesOk bs -> 0 <= i < lenZ bs ->
  get_stobject_length depth (p ++ bs) (lenZ p + i) = get_stobject_length depth bs i.
Proof.
  intros Hb. revert i. induction depth as [|depth IH]; intros i Hi; [done|]. cbn [get_stobject_length].
  rewrite field_header_shift by lia. unfold omap_out. rewrite obind_assoc.
  pose proof (field_header_clean bs i Hb Hi) as Hh.
  destruct (field_header bs i) as [[[type field] u]| | | |]; simpl in Hh |- *; try done.
  rewrite (proj1 (lenZ_shift _ _ _)). destruct (lenZ bs <=? u) eqn:?; [done|].
  destruct (unknown_type type); [done|]. rewrite payload_shift by lia. unfold omap_out. rewrite obind_assoc.
  pose proof (payload_clean bs type u Hb ltac:(lia)) as Hp.
  destruct (payload bs type u) as [[l u']| | | |]; simpl in Hp |- *; try done.
  replace (lenZ p + u' - (lenZ p + i)) with (u' - i) by lia.
  destruct (-1 <? l) eqn:?; [done|]. destruct (_ || _); [|done].
  erewrite sub_loop_shift; [|exact IH|intros; by apply get_stobject_length_ok|lia].
  unfold omap_out. rewrite obind_assoc.
  destruct (sub_loop _ bs type _ u'); simpl; try done. do 2 f_equal; lia.
Qed.

(** ** What follows a field does not matter *)

Lemma vget_stable {E} p r r' i (v : Z) : @vget E (p ++ r) i = Ret v -> i < lenZ p -> @vget E (p ++ r') i = Ret v.
Proof.
  intros [Hi Hv]%vget_ret Hl. destruct (@vget_in E (p ++ r') i) as (b & -> & Hb).
  { rewrite lenZ_app. pose proof (lenZ_nonneg r'). lia. }
  unfold lenZ in *. rewrite lookup_app_l in Hv by lia. rewrite lookup_app_l in Hb by lia. by simplify_eq.
Qed.

(** [stable] replays on the left a run that succeeded with another tail. *)
Ltac stable :=
  repeat (cbn [obind]; cbv beta zeta;
    match goal with
    | H : vget (?p ++ _) ?i = Ret ?v |- context [vget (?p ++ ?r') ?i] =>
      rewrite (vget_stable p _ r' i v H) by lia
    | H : ?c = ?b |- context [if ?c then _ else _] => rewrite H
    | |- context [if ?a <=? ?b then _ else _] => replace (a <=? b) with false by lia
    | |- context [if ?a <? ?b then _ else _] => replace (a <? b) with false by lia
    end).

Lemma field_header_stable p r r' start t fl u :
  field_header (p ++ r) start = Ret (t, fl, u) -> u <= lenZ p -> u < lenZ (p ++ r') ->
  field_header (p ++ r') start = Ret (t, fl, u).
Proof. unfold field_header. intros H Hu Hl. run_inv H; simplify_eq; stable; done. Qed.

Lemma vl_prefix_stable p r r' upto l u :
  vl_prefix (p ++ r) upto = Ret (l, u) -> u <= lenZ p -> u < lenZ (p ++ r') ->
  vl_prefix (p ++ r') upto = Ret (l, u).
Proof. unfold vl_prefix. intros H Hu Hl. run_inv H; simplify_eq; stable; done. Qed.

Lemma payload_stable p r r' type upto l u :
  payload (p ++ r) type upto = Ret (l, u) -> upto < lenZ p -> u <= lenZ p -> u < lenZ (p ++ r') ->
  payload (p ++ r') type upto = Ret (l, u).
Proof.
  unfold payload. intros H Hup Hu Hl. destruct (is_vl type); [by eapply vl_prefix_stable|].
  run_inv H; simplify_eq; stable; done.
Qed.

Lemma sub_loop_stable p r r' parse parse' type n upto e :
  bytesOk (p ++ r) -> (forall i, 0 <= i < lenZ (p ++ r) -> clean field_ok (parse i)) ->
  (forall i f, 0 <= i < lenZ p -> parse i = Ret f -> i + f_length f < lenZ p -> parse' i = Ret f) ->
  0 <= upto < lenZ p -> sub_loop parse (p ++ r) type n upto = Ret e -> e < lenZ p ->
  sub_loop parse' (p ++ r') type n upto = Ret e.
Proof.
  intros Hb Hok Heq. revert upto. induction n as [|n IH]; intros upto Hu; [done|]. cbn [sub_loop].
  pose proof (lenZ_app p r). pose proof (lenZ_app p r'). pose proof (lenZ_nonneg r). pose proof (lenZ_nonneg r').
  pose proof (Hok upto ltac:(lia)) as Hf. specialize (Heq upto).
  destruct (parse upto) as [f| | | |]; try done. intros Hrun He. simpl in Hf. destruct Hf as [Hl _].
  destruct (lenZ (p ++ r) <=? upto + f_length f) eqn:?; [done|].
  apply obind_ret in Hrun. destruct Hrun as (b & Hv & Hrun). cbv beta in Hrun.
  assert (Hm : upto + f_length f < lenZ p).
  { destruct (_ || _); [by simplify_eq|]. apply (clean_ret (fun e => upto + f_length f + 2 <= e < lenZ (p ++ r))) in Hrun.
    - lia.
    - apply sub_loop_clean; [done..|lia]. }
  rewrite (Heq f ltac:(lia) eq_refl Hm). stable. destruct (_ || _); [done|]. apply IH; (done || lia).
Qed.

Lemma get_stable depth p r r' start f :
  bytesOk (p ++ r) -> 0 <= start -> get_stobject_length depth (p ++ r) start = Ret f ->
  start + f_length f = lenZ p -> 0 < f_payload_length f \/ r' <> [] ->
  get_stobject_length depth (p ++ r') start = Ret f.
Proof.
  intros Hb. revert p r r' start f Hb. induction depth as [|depth IH]; intros p r r' start f Hb Hs H Hlen Hr; [done|].
  cbn [get_stobject_length] in H |- *.
  pose proof (lenZ_app p r). pose proof (lenZ_app p r'). pose proof (lenZ_nonneg r). pose proof (lenZ_nonneg r').
  assert (Hr' : 0 < f_payload_length f \/ 0 < lenZ r').
  { destruct Hr as [?|Hr]; [by left|right]. destruct r'; [done|]. rewrite lenZ_cons. pose proof (lenZ_nonneg r'). lia. }
  apply obind_ret in H. destruct H as ([[type field] upto] & Hh & H). cbv beta iota in H.
  assert (Hst : 0 <= start < lenZ (p ++ r)).
  { unfold field_header in Hh. apply obind_ret in Hh. destruct Hh as (b & [? _]%vget_ret & _). lia. }
  pose proof (clean_ret _ _ _ (field_header_clean _ _ Hb Hst) Hh) as Hhs. simpl in Hhs.
  destruct (lenZ (p ++ r) <=? upto) eqn:?; [done|]. destruct (unknown_type type) eqn:Hun; [done|].
  apply obind_ret in H. destruct H as ([l u] & Hp & H). cbv beta iota in H.
  pose proof (clean_ret _ _ _ (payload_clean (p ++ r) type upto Hb ltac:(lia)) Hp) as Hps. simpl in Hps.
  destruct (-1 <? l) eqn:Hl1.
  - simplify_eq/=. rewrite (field_header_stable p r r' _ _ _ _ Hh) by lia. stable.
    rewrite (payload_stable p r r' _ _ _ _ Hp) by lia. stable. done.
  - destruct (_ || _) eqn:Hty; [|done]. apply obind_ret in H. destruct H as (e & Hsub & H). simplify_eq/=.
    assert (He : upto + 2 <= e < lenZ (p ++ r)).
    { apply (clean_ret _ _ _ (sub_loop_clean _ (p ++ r) type MAX_FIELDS u Hb
        (fun i Hi => get_stobject_length_ok depth _ i Hb Hi) ltac:(lia))) in Hsub. lia. }
    rewrite (field_header_stable p r r' _ _ _ _ Hh) by lia. stable.
    rewrite (payload_stable p r r' _ _ _ _ Hp) by lia. stable.
    erewrite (sub_loop_stable p r r' _ (get_stobject_length depth (p ++ r'))); [done|exact Hb| | |lia|exact Hsub|lia].
    + intros i Hi. by apply get_stobject_length_ok.
    + intros i f Hi Hf Hlt. set (n := Z.to_nat (i + f_length f)).
      pose proof (clean_ret _ _ _ (get_stobject_length_ok depth (p ++ r) i Hb ltac:(lia)) Hf) as [Hfl _].
      assert (Hn : lenZ (take n p) = i + f_length f) by (unfold lenZ in *; rewrite length_take; lia).
      rewrite <- (take_drop n p), <- app_assoc in Hf, Hb |- *.
      apply (IH _ (drop n p ++ r)); [done|lia|done|lia|right].
      intros Hnil. apply app_eq_nil in Hnil as [Hnil _]. apply (f_equal length) in Hnil. unfold lenZ in *.
      rewrite length_drop in Hnil. simpl in Hnil. lia.
Qed.
