(* ===== verification/StoApiFacts.v ===== *)
(** * Serialized objects: correctness of the [sto_] functions *)

From Stdlib Require Import Sorted.
From S2P Require Import Prelude HookEnum HookMemory Sto StoFacts.

#[local] Opaque MAX_FIELDS MAX_DEPTH.

(** ** Objects as sequences of fields *)

(** [sto_parses bs fs]: the bytes are the fields [fs], each with its bytes, one after
    the other and with nothing left over. *)
Inductive sto_parses : list Z -> list (sto_field * list Z) -> Prop :=
| parses_nil : sto_parses [] []
| parses_cons f b rest fs :
    get_stobject_length MAX_DEPTH (b ++ rest) 0 = Ret f -> f_length f = lenZ b -> sto_parses rest fs ->
    sto_parses (b ++ rest) ((f, b) :: fs).

Definition bytes_of (fs : list (sto_field * list Z)) : list Z := concat (map snd fs).

Lemma sto_parses_bytes bs fs : sto_parses bs fs -> bs = bytes_of fs.
Proof. induction 1; simpl; [done|]. unfold bytes_of in *. simpl. by f_equal. Qed.

Lemma get_start depth bs f : get_stobject_length depth bs 0 = Ret f -> 0 < lenZ bs.
Proof.
  destruct depth; [done|]. cbn [get_stobject_length]. intros (x & Hh & _)%obind_ret.
  unfold field_header in Hh. apply obind_ret in Hh. destruct Hh as (b & [? _]%vget_ret & _). lia.
Qed.

Lemma get_field_ok bs f : bytesOk bs -> get_stobject_length MAX_DEPTH bs 0 = Ret f -> field_ok f.
Proof.
  intros Hb Hg. pose proof (get_start _ _ _ Hg).
  apply (clean_ret _ _ _ (get_stobject_length_ok MAX_DEPTH bs 0 Hb ltac:(lia)) Hg).
Qed.

Lemma bytesOk_app p r : bytesOk (p ++ r) <-> bytesOk p /\ bytesOk r.
Proof. apply Forall_app. Qed.

(** The parse at the start of the rest of a buffer. *)
Lemma get_at pre rest :
  bytesOk (pre ++ rest) -> 0 < lenZ rest ->
  get_stobject_length MAX_DEPTH (pre ++ rest) (lenZ pre) = get_stobject_length MAX_DEPTH rest 0.
Proof.
  intros [_ Hb]%bytesOk_app Hr. rewrite <- (get_shift MAX_DEPTH pre rest 0) by (done || lia). f_equal. lia.
Qed.

Lemma parses_head pre b rest f :
  bytesOk (pre ++ b ++ rest) -> get_stobject_length MAX_DEPTH (b ++ rest) 0 = Ret f -> f_length f = lenZ b ->
  (lenZ (pre ++ b ++ rest) <=? lenZ pre) = false /\
  get_stobject_length MAX_DEPTH (pre ++ b ++ rest) (lenZ pre) = Ret f /\
  lenZ pre + f_length f = lenZ (pre ++ b) /\ pre ++ b ++ rest = (pre ++ b) ++ rest.
Proof.
  intros Hb Hg Hl. pose proof (get_start _ _ _ Hg). split_and!; [|by rewrite get_at| |by rewrite app_assoc].
  - rewrite lenZ_app. lia.
  - rewrite lenZ_app. lia.
Qed.

(** ** Validation *)

Lemma validate_loop_complete {E} n pre rest fs :
  bytesOk (pre ++ rest) -> sto_parses rest fs -> (length fs <= n)%nat ->
  @validate_loop E n (pre ++ rest) (lenZ pre) = Ret (Some (lenZ (pre ++ rest))).
Proof.
  intros Hb Hp. revert n pre Hb. induction Hp as [|f b rest fs Hg Hl Hp IH]; intros n pre Hb Hn.
  { rewrite app_nil_r. destruct n; cbn [validate_loop]; by rewrite (proj2 (Z.leb_le _ _)) by lia. }
  destruct (parses_head pre b rest f Hb Hg Hl) as (Hle & Hget & Hnext & Happ).
  destruct n as [|n]; [simpl in Hn; lia|]. cbn [validate_loop]. rewrite Hle, Hget. cbn [parse_or].
  rewrite Hnext, Happ. apply IH; [by rewrite <- Happ|simpl in Hn; lia].
Qed.

Lemma validate_loop_sound {E} n pre rest :
  bytesOk (pre ++ rest) -> @validate_loop E n (pre ++ rest) (lenZ pre) = Ret (Some (lenZ (pre ++ rest))) ->
  exists fs, sto_parses rest fs /\ (length fs <= n)%nat.
Proof.
  revert pre rest. induction n as [|n IH]; intros pre rest Hb; cbn [validate_loop]; pose proof (lenZ_app pre rest) as Ha.
  all: destruct (decide (rest = [])) as [->|Hne]; [intros _; exists []; split; [constructor|simpl; lia]|].
  all: assert (Hr : 0 < lenZ rest) by (destruct rest; [done|]; rewrite lenZ_cons; pose proof (lenZ_nonneg rest); lia).
  all: rewrite (proj2 (Z.leb_gt _ _)) by lia.
  { intros Hv. exfalso. injection Hv. lia. }
  rewrite get_at by done. destruct (get_stobject_length MAX_DEPTH rest 0) as [f| | | |] eqn:Hg; cbn [parse_or]; try done.
  intros Hv. assert (Hbr : bytesOk rest) by by apply bytesOk_app in Hb as [_ ?].
  destruct (get_field_ok rest f Hbr Hg) as [Hf _].
  assert (Hl : f_length f <= lenZ rest).
  { destruct (Z.le_gt_cases (f_length f) (lenZ rest)) as [|Hgt]; [done|]. exfalso.
    destruct n; cbn [validate_loop] in Hv; rewrite (proj2 (Z.leb_le _ _)) in Hv by lia; injection Hv; lia. }
  set (k := Z.to_nat (f_length f)).
  assert (Hk : lenZ (take k rest) = f_length f) by (unfold lenZ in *; rewrite length_take; lia).
  rewrite <- (take_drop k rest) in Hb, Hg, Hv |- *. rewrite app_assoc in Hb, Hv.
  destruct (IH (pre ++ take k rest) (drop k rest)) as (fs & Hp & Hn); [done| |].
  { rewrite lenZ_app, Hk. done. }
  exists ((f, take k rest) :: fs). split; [by constructor|simpl; lia].
Qed.

Lemma mem_slice_bytesOk mem ptr n : bytesOk mem -> bytesOk (mem_slice mem ptr n).
Proof. intros Hm. apply Forall_take, Forall_drop, Hm. Qed.

Lemma in_bounds ptr len n : NOT_IN_BOUNDS ptr len n = false <-> ptr < n /\ ptr + len <= n.
Proof. unfold NOT_IN_BOUNDS. rewrite orb_false_iff. lia. Qed.

Lemma mem_slice_length mem ptr n : 0 <= ptr -> 0 <= n -> ptr + n <= lenZ mem -> lenZ (mem_slice mem ptr n) = n.
Proof. unfold mem_slice, lenZ. intros. rewrite length_take, length_drop. lia. Qed.

(** A parse inside the buffer is a field or an error. *)
Lemma parse_or_total {E A} (err : A) bs upto (k : sto_field -> outcome E A) :
  bytesOk bs -> 0 <= upto < lenZ bs ->
  (forall f, field_ok f -> exists r, k f = Ret r) ->
  exists r, parse_or err (get_stobject_length MAX_DEPTH bs upto) k = Ret r.
Proof.
  intros Hb Hu Hk. pose proof (get_stobject_length_ok MAX_DEPTH bs upto Hb Hu) as Hc.
  destruct (get_stobject_length MAX_DEPTH bs upto); simpl in *; try done; eauto.
Qed.

Lemma validate_loop_total {E} n bs upto :
  bytesOk bs -> 0 <= upto -> exists r, @validate_loop E n bs upto = Ret r.
Proof.
  intros Hb. revert upto. induction n as [|n IH]; intros upto Hu; cbn [validate_loop];
    (destruct (lenZ bs <=? upto) eqn:?; [by eexists|]); [by eexists|].
  apply parse_or_total; [done|lia|]. intros f [Hf _]. apply IH. lia.
Qed.

Lemma sto_validate_parses {E} mem read_ptr read_len fs :
  bytesOk mem -> 2 <= read_len -> NOT_IN_BOUNDS read_ptr read_len (lenZ mem) = false ->
  sto_parses (mem_slice mem read_ptr read_len) fs -> (length fs <= MAX_FIELDS)%nat ->
  @sto_validate E mem read_ptr read_len = Ret 1.
Proof.
  intros Hb Hl Hin Hfs Hn. unfold sto_validate. rewrite Hin, (proj2 (Z.ltb_ge _ _)) by lia.
  pose proof (@validate_loop_complete E MAX_FIELDS [] _ fs (mem_slice_bytesOk _ _ _ Hb) Hfs Hn) as Hloop.
  change (lenZ []) with 0 in Hloop. simpl app in Hloop. cbv zeta. rewrite Hloop. cbn [obind]. by rewrite Z.eqb_refl.
Qed.

(** [sto_validate] accepts exactly the buffers that are a sequence of at most 1024
    fields. For a buffer of two or more bytes inside the memory it returns 1 if the
    bytes parse as such a sequence with nothing left over, and 0 otherwise; it never
    reads outside of the buffer. *)
Theorem sto_validate_correct mem read_ptr read_len :
  bytesOk mem -> 0 <= read_ptr -> 2 <= read_len -> NOT_IN_BOUNDS read_ptr read_len (lenZ mem) = false ->
  exists r, @sto_validate unit mem read_ptr read_len = Ret r /\ (r = 0 \/ r = 1) /\
  (r = 1 <-> exists fs, sto_parses (mem_slice mem read_ptr read_len) fs /\ (length fs <= MAX_FIELDS)%nat).
Proof.
  intros Hb Hp Hl Hin. unfold sto_validate. rewrite Hin, (proj2 (Z.ltb_ge _ _)) by lia.
  set (bs := mem_slice mem read_ptr read_len).
  assert (Hbs : bytesOk bs) by by apply mem_slice_bytesOk.
  destruct (@validate_loop_total unit MAX_FIELDS bs 0 Hbs ltac:(lia)) as [r Hr]. cbv zeta. rewrite Hr. cbn [obind].
  assert (Hiff : r = Some (lenZ bs) <-> exists fs, sto_parses bs fs /\ (length fs <= MAX_FIELDS)%nat).
  { split.
    - intros ->. by apply (@validate_loop_sound unit MAX_FIELDS [] bs).
    - intros (fs & Hfs & Hn). pose proof (@validate_loop_complete unit MAX_FIELDS [] bs fs Hbs Hfs Hn) as Hc.
      change (lenZ []) with 0 in Hc. simpl in Hc. rewrite Hr in Hc. by simplify_eq. }
  setoid_rewrite <- Hiff. destruct r as [u|]; [|exists 0; naive_solver].
  destruct (u =? lenZ bs) eqn:Hu; [exists 1|exists 0]; (split_and!; [done|auto|split]); intros; try done.
  - f_equal. lia.
  - simplify_eq. lia.
Qed.

(** ** Reading a field *)

(** The first field with a code, and its offset. *)
Fixpoint find_field (field_id : Z) (fs : list (sto_field * list Z)) : option (Z * sto_field) :=
  match fs with
  | [] => None
  | (f, b) :: fs =>
    if field_code f =? field_id then Some (0, f)
    else match find_field field_id fs with Some (o, f) => Some (lenZ b + o, f) | None => None end
  end.

(** An array is returned with its header and end marker, other fields without. *)
Definition field_location (offset : Z) (f : sto_field) : Z :=
  if f_type f =? 0xF then location offset (f_length f)
  else location (offset + f_payload_start f) (f_payload_length f).

Lemma subfield_loop_spec {E} n pre rest fs field_id :
  bytesOk (pre ++ rest) -> sto_parses rest fs -> (length fs <= n)%nat ->
  @subfield_loop E n (pre ++ rest) field_id (lenZ pre) =
  Ret (match find_field field_id fs with
       | Some (o, f) => inl (field_location (lenZ pre + o) f)
       | None => inr (lenZ (pre ++ rest))
       end).
Proof.
  intros Hb Hp. revert n pre Hb. induction Hp as [|f b rest fs Hg Hl Hp IH]; intros n pre Hb Hn.
  { rewrite app_nil_r. destruct n; cbn [subfield_loop]; by rewrite (proj2 (Z.leb_le _ _)) by lia. }
  destruct (parses_head pre b rest f Hb Hg Hl) as (Hle & Hget & Hnext & Happ).
  destruct n as [|n]; [simpl in Hn; lia|]. cbn [subfield_loop find_field]. rewrite Hle, Hget. cbn [parse_or].
  unfold field_location at 1. destruct (field_code f =? field_id).
  { rewrite Z.add_0_r. by destruct (f_type f =? 15). }
  rewrite Hnext, Happ, IH by (rewrite <- ?Happ; (done || simpl in Hn; lia)).
  destruct (find_field field_id fs) as [[o g]|]; [|done].
  by rewrite lenZ_app, Z.add_assoc.
Qed.

Lemma sto_subfield_parses {E} mem read_ptr read_len field_id fs :
  bytesOk mem -> 2 <= read_len -> NOT_IN_BOUNDS read_ptr read_len (lenZ mem) = false ->
  sto_parses (mem_slice mem read_ptr read_len) fs -> (length fs <= MAX_FIELDS)%nat ->
  @sto_subfield E mem read_ptr read_len field_id =
  Ret (match find_field field_id fs with Some (o, f) => field_location o f | None => DOESNT_EXIST end).
Proof.
  intros Hb Hl Hin Hfs Hn. unfold sto_subfield. rewrite Hin, (proj2 (Z.ltb_ge _ _)) by lia.
  pose proof (@subfield_loop_spec E MAX_FIELDS [] _ fs field_id (mem_slice_bytesOk _ _ _ Hb) Hfs Hn) as Hloop.
  change (lenZ []) with 0 in Hloop. simpl app in Hloop. cbv zeta. rewrite Hloop. cbn [obind].
  destruct (find_field field_id fs) as [[o f]|]; [done|]. by rewrite Z.eqb_refl.
Qed.

(** [sto_subfield] finds fields. In a buffer that is a sequence of at most 1024
    fields it returns the location of the payload of the first field with the code
    (of the whole field if it is an array), and [DOESNT_EXIST] if there is none. *)
Theorem sto_subfield_correct mem read_ptr read_len field_id fs :
  bytesOk mem -> 2 <= read_len -> NOT_IN_BOUNDS read_ptr read_len (lenZ mem) = false ->
  sto_parses (mem_slice mem read_ptr read_len) fs -> (length fs <= MAX_FIELDS)%nat ->
  @sto_subfield unit mem read_ptr read_len field_id =
  Ret (match find_field field_id fs with Some (o, f) => field_location o f | None => DOESNT_EXIST end).
Proof. apply sto_subfield_parses. Qed.

(** ** Inserting, replacing and removing a field *)

(** The fields with [new] at the place of the code: instead of the first field with
    the code, or else before the first with a greater code, or else at the end. *)
Fixpoint emplace_fields (field_id : Z) (new fs : list (sto_field * list Z)) : list (sto_field * list Z) :=
  match fs with
  | [] => new
  | (f, b) :: fs =>
    if field_code f =? field_id then new ++ fs
    else if field_id <? field_code f then new ++ (f, b) :: fs
    else (f, b) :: emplace_fields field_id new fs
  end.

Lemma bytes_of_cons f b fs : bytes_of ((f, b) :: fs) = b ++ bytes_of fs.
Proof. done. Qed.
Lemma bytes_of_app fs gs : bytes_of (fs ++ gs) = bytes_of fs ++ bytes_of gs.
Proof. unfold bytes_of. by rewrite map_app, concat_app. Qed.

(** The loop cuts the object into what is before, what is replaced and what is after. *)
Lemma emplace_loop_spec {E} n pre rest fs field_id :
  bytesOk (pre ++ rest) -> sto_parses rest fs -> (length fs <= n)%nat ->
  exists before replaced after upto,
    rest = before ++ replaced ++ after /\ upto <= lenZ (pre ++ rest) /\
    @emplace_loop E n (pre ++ rest) field_id (lenZ pre) =
      Ret (inr (upto, lenZ pre + lenZ before, lenZ pre + lenZ before + lenZ replaced)) /\
    forall new, bytes_of (emplace_fields field_id new fs) = before ++ bytes_of new ++ after.
Proof.
  intros Hb Hp. revert n pre Hb. induction Hp as [|f b rest fs Hg Hl Hp IH]; intros n pre Hb Hn.
  { exists [], [], [], (lenZ pre). rewrite (app_nil_r pre). split_and!; [done|lia| |intros; simpl; by rewrite app_nil_r].
    rewrite lenZ_nil, !Z.add_0_r. destruct n; cbn [emplace_loop]; by rewrite (proj2 (Z.leb_le _ _)) by lia. }
  destruct (parses_head pre b rest f Hb Hg Hl) as (Hle & Hget & Hnext & Happ).
  destruct n as [|n]; [simpl in Hn; lia|]. cbn [emplace_loop emplace_fields]. rewrite Hle, Hget. cbn [parse_or].
  destruct (field_code f =? field_id).
  { exists [], b, rest, (lenZ pre). rewrite lenZ_nil, Z.add_0_r, Hl. split_and!; [done|lia|done|].
    intros new. by rewrite bytes_of_app, (sto_parses_bytes _ _ Hp). }
  destruct (field_id <? field_code f).
  { exists [], [], (b ++ rest), (lenZ pre). rewrite lenZ_nil, !Z.add_0_r. split_and!; [done|lia|done|].
    intros new. by rewrite bytes_of_app, bytes_of_cons, (sto_parses_bytes _ _ Hp). }
  rewrite Hnext, Happ. destruct (IH n (pre ++ b)) as (before & replaced & after & u & -> & Hu & Hloop & Hbytes).
  { by rewrite <- Happ. } { simpl in Hn. lia. }
  exists (b ++ before), replaced, after, u. rewrite Hloop, !lenZ_app in *. split_and!; [by rewrite <- app_assoc|lia| |].
  - do 4 f_equal; lia.
  - intros new. rewrite bytes_of_cons, Hbytes. by rewrite <- !app_assoc.
Qed.

(** One part of the output, read from the memory outside of the output buffer. *)
Lemma write_part_spec mem write_ptr write_len ptr n acc :
  0 <= write_ptr -> write_ptr + write_len <= lenZ mem -> 0 <= ptr -> 0 <= n -> ptr + n <= lenZ mem ->
  lenZ acc + n <= write_len -> n = 0 \/ ptr + n <= write_ptr \/ write_ptr + write_len <= ptr ->
  write_part write_ptr write_len ptr n (inl (mem_set mem write_ptr acc, lenZ acc)) =
  inl (mem_set mem write_ptr (acc ++ mem_slice mem ptr n), lenZ (acc ++ mem_slice mem ptr n)).
Proof.
  intros Hw Hwl Hp Hn Hpn Ha Hd. unfold write_part. pose proof (lenZ_nonneg acc).
  rewrite lenZ_app, mem_slice_length by lia.
  destruct (0 <? n) eqn:Hn0.
  2:{ assert (n = 0) as -> by lia. unfold mem_slice. simpl. by rewrite app_nil_r, Z.add_0_r. }
  rewrite mem_slice_set_other by lia. unfold WRITE_WASM_MEMORY.
  rewrite mem_slice_length, mem_set_length, Z.min_l, (proj2 (Z.ltb_ge _ _)) by lia.
  rewrite take_ge by (pose proof (mem_slice_length mem ptr n) as Hs; unfold lenZ in *; lia).
  by rewrite mem_set_app by lia.
Qed.

(** What the tests on the arguments establish. *)
Lemma emplace_args_ok n write_ptr write_len sread_ptr sread_len fread_ptr fread_len :
  n < 2 ^ 32 -> 0 <= write_ptr -> 0 <= write_len -> 0 <= sread_ptr -> 0 <= sread_len ->
  0 <= fread_ptr -> 0 <= fread_len ->
  emplace_args n write_ptr write_len sread_ptr sread_len fread_ptr fread_len = None ->
  write_ptr + write_len <= n /\ sread_ptr + sread_len <= n /\ fread_ptr + fread_len <= n /\
  sread_len + fread_len <= write_len /\ 2 <= sread_len /\
  (sread_ptr + sread_len <= write_ptr \/ write_ptr + write_len <= sread_ptr) /\
  (fread_len = 0 \/ fread_ptr + fread_len <= write_ptr \/ write_ptr + write_len <= fread_ptr).
Proof.
  intros Hn Hw Hwl Hs Hsl Hf Hfl. unfold emplace_args.
  destruct (NOT_IN_BOUNDS write_ptr _ _) eqn:Hbw; [done|]. apply in_bounds in Hbw.
  destruct (NOT_IN_BOUNDS sread_ptr _ _) eqn:Hbs; [done|]. apply in_bounds in Hbs.
  destruct (NOT_IN_BOUNDS fread_ptr _ _) eqn:Hbf; [done|]. apply in_bounds in Hbf.
  destruct (write_len <? _) eqn:Hsum; [done|]. destruct (_ <? sread_len) eqn:?; [done|].
  destruct (sread_len <? 2) eqn:?; [done|]. rewrite !(u32_small (_ + write_len)), !(u32_small (sread_ptr + _)) by lia.
  destruct ((fread_len =? 0) && (fread_ptr =? 0)) eqn:Hdel; cbn [overlapping_memory existsb].
  - destruct (_ || _) eqn:Hov; [done|]. intros _. rewrite u32_small in Hsum by lia. lia.
  - destruct (4096 <? fread_len) eqn:?; [done|]. destruct (fread_len <? 2) eqn:?; [done|].
    rewrite (u32_small (fread_ptr + _)) by lia. destruct (_ || _) eqn:Hov; [done|]. intros _.
    rewrite u32_small in Hsum by lia. lia.
Qed.

(** The memory after the three parts are written. *)
Lemma sto_emplace_run {E} mem write_ptr write_len sread_ptr sread_len fread_ptr fread_len field_id fs new :
  bytesOk mem -> lenZ mem < 2 ^ 32 -> 0 <= write_ptr -> 0 <= write_len -> 0 <= sread_ptr -> 0 <= sread_len ->
  0 <= fread_ptr -> 0 <= fread_len ->
  emplace_args (lenZ mem) write_ptr write_len sread_ptr sread_len fread_ptr fread_len = None ->
  sto_parses (mem_slice mem sread_ptr sread_len) fs -> (length fs <= MAX_FIELDS)%nat ->
  bytes_of new = mem_slice mem fread_ptr fread_len ->
  let out := bytes_of (emplace_fields field_id new fs) in
  lenZ out <= write_len /\ write_ptr + write_len <= lenZ mem /\
  @sto_emplace E mem write_ptr write_len sread_ptr sread_len fread_ptr fread_len field_id =
    Ret (lenZ out, mem_set mem write_ptr out).
Proof.
  intros Hb Hm Hw Hwl Hs Hsl Hf Hfl Hargs Hfs Hn Hnew. unfold sto_emplace. rewrite Hargs.
  destruct (emplace_args_ok _ _ _ _ _ _ _ Hm Hw Hwl Hs Hsl Hf Hfl Hargs) as (? & ? & ? & ? & ? & ? & ?).
  destruct (@emplace_loop_spec E MAX_FIELDS [] _ fs field_id (mem_slice_bytesOk _ _ _ Hb) Hfs Hn)
    as (before & replaced & after & upto & Hcut & Hu & Hloop & Hbytes).
  change (lenZ []) with 0 in Hloop. simpl app in Hloop, Hu. rewrite !Z.add_0_l in Hloop. cbv zeta. rewrite Hloop. cbn [obind].
  rewrite (proj2 (Z.ltb_ge _ _)) by lia. rewrite Hbytes, Hnew.
  pose proof (mem_slice_length mem sread_ptr sread_len Hs Hsl ltac:(lia)) as Hlen.
  rewrite Hcut, !lenZ_app in Hlen.
  pose proof (mem_slice_length mem fread_ptr fread_len Hf Hfl ltac:(lia)) as Hflen.
  pose proof (lenZ_nonneg before). pose proof (lenZ_nonneg replaced). pose proof (lenZ_nonneg after).
  destruct (mem_slice_split _ _ _ _ _ Hs Hcut) as [Hb1 Hrest].
  rewrite <- lenZ_app in Hlen. rewrite lenZ_app in Hlen.
  split_and!; [rewrite !lenZ_app; lia|lia|].
  assert (Hw1 : write_part write_ptr write_len sread_ptr (lenZ before) (inl (mem, 0)) =
                inl (mem_set mem write_ptr before, lenZ before)).
  { pose proof (write_part_spec mem write_ptr write_len sread_ptr (lenZ before) [] Hw) as Hw1.
    rewrite Hb1, mem_set_nil in Hw1. apply Hw1; rewrite ?lenZ_nil; lia. }
  rewrite Hw1, write_part_spec by lia.
  replace (sread_len - (lenZ before + lenZ replaced)) with (lenZ after) by lia.
  rewrite write_part_spec by (rewrite ?lenZ_app; lia).
  apply mem_slice_split in Hrest as Hs2; [|lia]. destruct Hs2 as [_ Ha2].
  replace (sread_ptr + (lenZ before + lenZ replaced)) with (sread_ptr + lenZ before + lenZ replaced) by lia.
  rewrite Ha2. by rewrite <- !app_assoc.
Qed.

(** [sto_emplace] puts the field at its place. When the arguments pass the tests
    and the source is a sequence of at most 1024 fields, it returns the length of the
    new object, writes there the fields of the source with the new one instead of
    the field of the same code, or else before the first of a greater code, or else
    at the end, and leaves the rest of the memory alone. *)
Theorem sto_emplace_correct mem write_ptr write_len sread_ptr sread_len fread_ptr fread_len field_id fs new :
  bytesOk mem -> lenZ mem < 2 ^ 32 -> 0 <= write_ptr -> 0 <= write_len -> 0 <= sread_ptr -> 0 <= sread_len ->
  0 <= fread_ptr -> 0 <= fread_len ->
  emplace_args (lenZ mem) write_ptr write_len sread_ptr sread_len fread_ptr fread_len = None ->
  sto_parses (mem_slice mem sread_ptr sread_len) fs -> (length fs <= MAX_FIELDS)%nat ->
  bytes_of new = mem_slice mem fread_ptr fread_len ->
  let out := bytes_of (emplace_fields field_id new fs) in
  exists mem',
    @sto_emplace unit mem write_ptr write_len sread_ptr sread_len fread_ptr fread_len field_id =
      Ret (lenZ out, mem') /\
    mem_slice mem' write_ptr (lenZ out) = out /\
    forall i : nat, (i < Z.to_nat write_ptr \/ Z.to_nat write_ptr + length out <= i)%nat -> mem' !! i = mem !! i.
Proof.
  intros Hb Hm Hw Hwl Hs Hsl Hf Hfl Hargs Hfs Hn Hnew out.
  destruct (@sto_emplace_run unit mem write_ptr write_len sread_ptr sread_len fread_ptr fread_len field_id fs new)
    as (Hlen & Hin & Hrun); [done..|]. fold out in Hlen, Hrun.
  exists (mem_set mem write_ptr out). split_and!; [done|apply mem_slice_set; lia|].
  intros i Hi. apply mem_set_other; (done || lia).
Qed.

(** ** The output is an object again *)

Lemma emplace_parses field_id g nb rest fs :
  bytesOk rest -> bytesOk nb -> sto_parses rest fs ->
  get_stobject_length MAX_DEPTH nb 0 = Ret g -> f_length g = lenZ nb -> 0 < f_payload_length g ->
  sto_parses (bytes_of (emplace_fields field_id [(g, nb)] fs)) (emplace_fields field_id [(g, nb)] fs).
Proof.
  intros Hb Hnb Hp Hg Hgl Hpos. pose proof (get_field_ok nb g Hnb Hg) as [Hg2 _].
  rewrite <- (app_nil_r nb) in Hg, Hnb.
  assert (Hput : forall r gs, sto_parses r gs -> sto_parses (nb ++ r) ((g, nb) :: gs)).
  { intros r gs Hr. constructor; [|done..]. eapply get_stable; [exact Hnb|lia|exact Hg|lia|by left]. }
  induction Hp as [|f b rest fs Hf Hl Hp IH]; cbn [emplace_fields].
  { apply Hput. constructor. }
  apply bytesOk_app in Hb as Hb2. destruct Hb2 as [Hbb Hbr].
  cbn [app]. destruct (_ =? _); [rewrite bytes_of_cons, <- (sto_parses_bytes _ _ Hp); by apply Hput|].
  destruct (_ <? _).
  - rewrite !bytes_of_cons, <- (sto_parses_bytes _ _ Hp). apply Hput. by constructor.
  - rewrite bytes_of_cons. constructor; [|done|by apply IH].
    eapply get_stable; [exact Hb|lia|exact Hf|lia|right].
    intros Hnil. assert (lenZ nb <= lenZ (bytes_of (emplace_fields field_id [(g, nb)] fs))); [|rewrite Hnil, lenZ_nil in *; lia].
    clear. induction fs as [|[f b] fs IH]; cbn [emplace_fields].
    + rewrite bytes_of_cons, lenZ_app. pose proof (lenZ_nonneg (bytes_of [])). lia.
    + cbn [app]. repeat case_match; rewrite ?bytes_of_cons, ?lenZ_app;
        pose proof (lenZ_nonneg b); pose proof (lenZ_nonneg (bytes_of fs)); lia.
Qed.

Lemma find_emplaced field_id g nb fs :
  field_code g = field_id ->
  exists pre post, bytes_of (emplace_fields field_id [(g, nb)] fs) = pre ++ nb ++ post /\
    find_field field_id (emplace_fields field_id [(g, nb)] fs) = Some (lenZ pre, g).
Proof.
  intros Hg. induction fs as [|[f b] fs IH]; cbn [emplace_fields].
  { exists [], []. cbn. rewrite Hg, Z.eqb_refl, app_nil_r. done. }
  destruct (field_code f =? field_id) eqn:He; [|destruct (field_id <? _)].
  - exists [], (bytes_of fs). cbn. by rewrite Hg, Z.eqb_refl.
  - exists [], (bytes_of ((f, b) :: fs)). cbn. by rewrite Hg, Z.eqb_refl.
  - destruct IH as (pre & post & Hb & Hf). exists (b ++ pre), post. split.
    + rewrite bytes_of_cons, Hb. by rewrite <- app_assoc.
    + cbn [find_field]. rewrite He, Hf, lenZ_app. done.
Qed.

Lemma bytesOk_emplace field_id g nb rest fs :
  sto_parses rest fs -> bytesOk rest -> bytesOk nb -> bytesOk (bytes_of (emplace_fields field_id [(g, nb)] fs)).
Proof.
  intros Hp Hb Hn. induction Hp as [|f b rest fs Hf Hl Hp IH]; cbn [emplace_fields app].
  { rewrite bytes_of_cons. by apply bytesOk_app. }
  apply bytesOk_app in Hb as [Hbb Hbr]. specialize (IH Hbr). rewrite (sto_parses_bytes _ _ Hp) in Hbr.
  repeat case_match; rewrite !bytes_of_cons, ?bytesOk_app; done.
Qed.

Lemma bytesOk_mem_set mem ptr bs : bytesOk mem -> bytesOk bs -> bytesOk (mem_set mem ptr bs).
Proof.
  intros Hm Hb. unfold mem_set. rewrite !bytesOk_app. split_and!; [by apply Forall_take|done|by apply Forall_drop].
Qed.

Lemma emplace_length field_id x fs : (length (emplace_fields field_id [x] fs) <= S (length fs))%nat.
Proof. induction fs as [|[f b] fs IH]; cbn [emplace_fields]; [simpl; lia|]. repeat case_match; simpl; lia. Qed.

(** C36: what [sto_emplace] wrote, [sto_subfield] reads back. When the arguments pass the
    tests, the source is a sequence of fewer than 1024 fields and the new bytes are one
    field with a payload and the given code, then the output is a sequence of fields
    again, and [sto_subfield] finds the new field in it, byte for byte. *)
Theorem sto_emplace_subfield mem write_ptr write_len sread_ptr sread_len fread_ptr fread_len fs g :
  bytesOk mem -> lenZ mem < 2 ^ 32 -> 0 <= write_ptr -> 0 <= write_len -> 0 <= sread_ptr -> 0 <= sread_len ->
  0 <= fread_ptr -> 0 <= fread_len ->
  emplace_args (lenZ mem) write_ptr write_len sread_ptr sread_len fread_ptr fread_len = None ->
  sto_parses (mem_slice mem sread_ptr sread_len) fs -> (length fs < MAX_FIELDS)%nat ->
  get_stobject_length MAX_DEPTH (mem_slice mem fread_ptr fread_len) 0 = Ret g ->
  f_length g = fread_len -> 0 < f_payload_length g ->
  exists n mem' o,
    @sto_emplace unit mem write_ptr write_len sread_ptr sread_len fread_ptr fread_len (field_code g) = Ret (n, mem') /\
    @sto_validate unit mem' write_ptr n = Ret 1 /\
    @sto_subfield unit mem' write_ptr n (field_code g) = Ret (field_location o g) /\
    mem_slice mem' (write_ptr + o) fread_len = mem_slice mem fread_ptr fread_len.
Proof.
  intros Hb Hm Hw Hwl Hs Hsl Hf Hfl Hargs Hfs Hn Hg Hgl Hpos.
  destruct (emplace_args_ok _ _ _ _ _ _ _ Hm Hw Hwl Hs Hsl Hf Hfl Hargs) as (? & ? & ? & ? & ? & ? & ?).
  set (nb := mem_slice mem fread_ptr fread_len) in *. set (id := field_code g).
  assert (Hnb : lenZ nb = fread_len) by (apply mem_slice_length; lia).
  destruct (@sto_emplace_run unit mem write_ptr write_len sread_ptr sread_len fread_ptr fread_len id fs [(g, nb)])
    as (Hlen & Hin & Hrun); [done..|lia|cbn; by rewrite app_nil_r|].
  set (out := bytes_of (emplace_fields id [(g, nb)] fs)) in *.
  assert (Hbs : bytesOk (mem_slice mem sread_ptr sread_len)) by by apply mem_slice_bytesOk.
  assert (Hbn : bytesOk nb) by by apply mem_slice_bytesOk.
  assert (Hparse : sto_parses out (emplace_fields id [(g, nb)] fs)) by (apply (emplace_parses id g nb _ fs Hbs Hbn Hfs Hg); lia).
  destruct (find_emplaced id g nb fs eq_refl) as (pre & post & Hout & Hfind). fold out in Hout.
  pose proof (emplace_length id (g, nb) fs) as Hcount.
  pose proof (get_field_ok nb g Hbn Hg) as [Hg2 _].
  pose proof (lenZ_nonneg pre). pose proof (lenZ_nonneg post).
  assert (Hlo : lenZ out = lenZ pre + (lenZ nb + lenZ post)) by by rewrite Hout, !lenZ_app.
  assert (Hslice : mem_slice (mem_set mem write_ptr out) write_ptr (lenZ out) = out) by (apply mem_slice_set; lia).
  assert (Hmem : bytesOk (mem_set mem write_ptr out)).
  { apply bytesOk_mem_set; [done|]. by apply (bytesOk_emplace id g nb (mem_slice mem sread_ptr sread_len) fs). }
  assert (Hin2 : NOT_IN_BOUNDS write_ptr (lenZ out) (lenZ (mem_set mem write_ptr out)) = false).
  { rewrite mem_set_length by lia. apply in_bounds. lia. }
  exists (lenZ out), (mem_set mem write_ptr out), (lenZ pre). split_and!; [done| | |].
  - apply (sto_validate_parses _ _ _ (emplace_fields id [(g, nb)] fs)); rewrite ?Hslice; (done || lia).
  - rewrite (sto_subfield_parses _ _ _ _ (emplace_fields id [(g, nb)] fs)); rewrite ?Hslice; try (done || lia).
    by rewrite Hfind.
  - rewrite Hout in Hslice at 3. apply mem_slice_split in Hslice as [_ Hs2]; [|lia].
    apply mem_slice_split in Hs2 as [Hs3 _]; [|lia]. by rewrite <- Hnb.
Qed.

(** ** Removing a field *)

(** The codes of the fields in the order of the canonical serialization. *)
Definition canonical (fs : list (sto_field * list Z)) : Prop :=
  StronglySorted Z.lt (map (fun x => field_code (fst x)) fs).

Definition has_code (field_id : Z) (x : sto_field * list Z) : bool := field_code (fst x) =? field_id.

Lemma no_code_above field_id fs :
  Forall (Z.lt field_id) (map (fun x => field_code (fst x)) fs) ->
  List.filter (fun x => negb (has_code field_id x)) fs = fs /\ existsb (has_code field_id) fs = false.
Proof.
  induction fs as [|[f b] fs IH]; [done|]. simpl. intros [Hf Hr]%Forall_cons. destruct (IH Hr) as [IH1 IH2].
  change (has_code field_id (f, b)) with (field_code f =? field_id). simpl in Hf.
  rewrite (proj2 (Z.eqb_neq _ _)) by lia. simpl. rewrite IH1, IH2. done.
Qed.

Lemma erase_fields field_id fs :
  canonical fs -> emplace_fields field_id [] fs = List.filter (fun x => negb (has_code field_id x)) fs.
Proof.
  unfold canonical. induction fs as [|[f b] fs IH]; [done|]. simpl. intros [Hs Hlt]%StronglySorted_inv.
  change (has_code field_id (f, b)) with (field_code f =? field_id).
  destruct (field_code f =? field_id) eqn:He; simpl.
  { apply Z.eqb_eq in He. rewrite He in Hlt. by rewrite (proj1 (no_code_above field_id fs Hlt)). }
  destruct (field_id <? field_code f) eqn:Hgt; [|by rewrite IH].
  assert (Hab : Forall (Z.lt field_id) (map (fun x => field_code (fst x)) fs)).
  { eapply Forall_impl; [exact Hlt|]. simpl. lia. }
  by rewrite (proj1 (no_code_above field_id fs Hab)).
Qed.

(** Bytes go away exactly when a field with the code is there. *)
Lemma erase_length field_id bs fs :
  bytesOk bs -> sto_parses bs fs ->
  let out := bytes_of (List.filter (fun x => negb (has_code field_id x)) fs) in
  if existsb (has_code field_id) fs then lenZ out < lenZ bs else out = bs.
Proof.
  intros Hb Hp. induction Hp as [|f b rest fs Hg Hl Hp IH]; [done|].
  pose proof (get_field_ok _ _ Hb Hg) as [Hf _]. apply bytesOk_app in Hb as [_ Hb]. specialize (IH Hb).
  simpl in *. change (has_code field_id (f, b)) with (field_code f =? field_id).
  destruct (field_code f =? field_id) eqn:He; simpl.
  - rewrite lenZ_app. destruct (existsb _ fs); [lia|]. rewrite IH. lia.
  - rewrite bytes_of_cons. destruct (existsb _ fs); [rewrite !lenZ_app; lia|]. by rewrite IH.
Qed.

(** [sto_erase] removes the field with the code. When the arguments pass the tests
    and the source is a sequence of at most 1024 fields in canonical order, it writes
    the other fields in order and returns their length; it returns [DOESNT_EXIST] if
    no field has the code. *)
Theorem sto_erase_correct mem write_ptr write_len read_ptr read_len field_id fs :
  bytesOk mem -> lenZ mem < 2 ^ 32 -> 0 <= write_ptr -> 0 <= write_len -> 0 <= read_ptr -> 0 <= read_len ->
  emplace_args (lenZ mem) write_ptr write_len read_ptr read_len 0 0 = None ->
  sto_parses (mem_slice mem read_ptr read_len) fs -> (length fs <= MAX_FIELDS)%nat -> canonical fs ->
  let out := bytes_of (List.filter (fun x => negb (has_code field_id x)) fs) in
  exists ret mem', @sto_erase unit mem write_ptr write_len read_ptr read_len field_id = Ret (ret, mem') /\
    ret = (if existsb (has_code field_id) fs then lenZ out else DOESNT_EXIST) /\
    mem_slice mem' write_ptr (lenZ out) = out.
Proof.
  intros Hb Hm Hw Hwl Hr Hrl Hargs Hfs Hn Hcan out. unfold sto_erase.
  destruct (@sto_emplace_run unit mem write_ptr write_len read_ptr read_len 0 0 field_id fs [])
    as (Hlen & Hin & Hrun); [done || lia..|].
  destruct (emplace_args_ok _ _ _ _ _ _ _ Hm Hw Hwl Hr Hrl (Z.le_refl 0) (Z.le_refl 0) Hargs) as (? & ? & ? & ? & ? & ? & ?).
  rewrite erase_fields in Hlen, Hrun by done. fold out in Hlen, Hrun. rewrite Hrun. cbn [obind].
  pose proof (erase_length field_id _ fs (mem_slice_bytesOk _ _ _ Hb) Hfs) as Hel. cbv zeta in Hel. fold out in Hel.
  pose proof (mem_slice_length mem read_ptr read_len Hr Hrl ltac:(lia)) as Hsl.
  exists (if existsb (has_code field_id) fs then lenZ out else DOESNT_EXIST), (mem_set mem write_ptr out).
  split_and!; [|done|apply mem_slice_set; lia].
  destruct (existsb _ fs).
  - rewrite andb_comm, (proj2 (Z.eqb_neq _ _)) by lia. done.
  - rewrite Hel, Hsl, Z.eqb_refl, (proj2 (Z.ltb_lt _ _)) by lia. done.
Qed.

(** ** No read outside of the buffers *)

Lemma subfield_loop_total {E} n bs field_id upto :
  bytesOk bs -> 0 <= upto -> exists r, @subfield_loop E n bs field_id upto = Ret r.
Proof.
  intros Hb. revert upto. induction n as [|n IH]; intros upto Hu; cbn [subfield_loop];
    (destruct (lenZ bs <=? upto) eqn:?; [by eexists|]); [by eexists|].
  apply parse_or_total; [done|lia|]. intros f [Hf _]. repeat case_match; eauto. apply IH. lia.
Qed.

Lemma subarray_loop_total {E} n bs index_id i upto :
  bytesOk bs -> 0 <= upto -> exists r, @subarray_loop E n bs index_id i upto = Ret r.
Proof.
  intros Hb. revert i upto. induction n as [|n IH]; intros i upto Hu; cbn [subarray_loop];
    (destruct (lenZ bs <=? upto) eqn:?; [by eexists|]); [by eexists|].
  apply parse_or_total; [done|lia|]. intros f [Hf _]. repeat case_match; eauto. apply IH. lia.
Qed.

Lemma emplace_loop_total {E} n bs field_id upto :
  bytesOk bs -> 0 <= upto -> exists r, @emplace_loop E n bs field_id upto = Ret r.
Proof.
  intros Hb. revert upto. induction n as [|n IH]; intros upto Hu; cbn [emplace_loop];
    (destruct (lenZ bs <=? upto) eqn:?; [by eexists|]); [by eexists|].
  apply parse_or_total; [done|lia|]. intros f [Hf _]. repeat case_match; eauto. apply IH. lia.
Qed.

(** C37: the [sto_] functions are memory safe. On every memory and for all arguments the
    four functions return a code: the parser terminates and reads only bytes of the
    buffer it was given. *)
Theorem sto_functions_safe mem write_ptr write_len read_ptr read_len fread_ptr fread_len id :
  bytesOk mem -> 0 <= read_ptr -> 0 <= read_len ->
  (exists r, @sto_validate unit mem read_ptr read_len = Ret r) /\
  (exists r, @sto_subfield unit mem read_ptr read_len id = Ret r) /\
  (exists r, @sto_subarray unit mem read_ptr read_len id = Ret r) /\
  (exists r, @sto_emplace unit mem write_ptr write_len read_ptr read_len fread_ptr fread_len id = Ret r).
Proof.
  intros Hb Hp Hl. pose proof (mem_slice_bytesOk mem read_ptr read_len Hb) as Hbs.
  unfold sto_validate, sto_subfield, sto_subarray, sto_emplace. cbv zeta. split_and!.
  - repeat (case_match; eauto). destruct (@validate_loop_total unit MAX_FIELDS _ 0 Hbs ltac:(lia)) as [r ->].
    destruct r; cbn [obind]; eauto.
  - repeat (case_match; eauto). destruct (@subfield_loop_total unit MAX_FIELDS _ id 0 Hbs ltac:(lia)) as [r ->].
    destruct r; cbn [obind]; eauto.
  - destruct (NOT_IN_BOUNDS _ _ _) eqn:Hin; eauto. apply in_bounds in Hin. destruct (read_len <? 2) eqn:?; eauto.
    pose proof (mem_slice_length mem read_ptr read_len Hp Hl ltac:(lia)) as Hlen.
    destruct (@vget_in unit (mem_slice mem read_ptr read_len) 0 ltac:(lia)) as (b & -> & _). cbn [obind].
    destruct (Z.land b 0xF0 =? 0xF0); cbv beta iota; (destruct (_ <=? _); [by eauto|]).
    + destruct (@subarray_loop_total unit MAX_FIELDS (take (length (mem_slice mem read_ptr read_len) - 1)
        (mem_slice mem read_ptr read_len)) id 0 1 (Forall_take _ _ _ Hbs) ltac:(lia)) as [r ->].
      destruct r; cbn [obind]; eauto.
    + destruct (@subarray_loop_total unit MAX_FIELDS _ id 0 0 Hbs ltac:(lia)) as [r ->].
      destruct r; cbn [obind]; eauto.
  - destruct (emplace_args _ _ _ _ _ _ _); eauto.
    destruct (@emplace_loop_total unit MAX_FIELDS _ id 0 Hbs ltac:(lia)) as [r ->].
    cbn [obind]. destruct r as [c|[[u i] e]]; eauto. destruct (_ <? u); eauto.
    destruct (write_part _ _ _ _ (write_part _ _ _ _ (write_part _ _ _ _ _))) as [[? ?]|[? ?]]; eauto.
Qed.

(** ** Examples

    A memory with the object [TransactionType, Sequence] at 0 and the field [Flags]
    at 8. *)

Definition example_mem : list Z :=
  [0x12; 0; 5] ++ [0x24; 0; 0; 0; 1] ++ [0x22; 0x80; 0; 0; 0] ++ replicate 51 0.
Definition example_fields : list (sto_field * list Z) :=
  [ (mkField 3 1 2 1 2, [0x12; 0; 5]); (mkField 5 2 4 1 4, [0x24; 0; 0; 0; 1]) ].
Definition example_flags : sto_field := mkField 5 2 2 1 4.

Lemma example_bytes : bytesOk example_mem.
Proof. unfold bytesOk, example_mem. by apply (bool_decide_unpack (Forall _ _)). Qed.

Lemma example_parses : sto_parses (mem_slice example_mem 0 8) example_fields.
Proof.
  apply (parses_cons _ [0x12; 0; 5] [0x24; 0; 0; 0; 1]); [by vm_compute..|].
  apply (parses_cons _ [0x24; 0; 0; 0; 1] []); [by vm_compute..|constructor].
Qed.

Lemma example_count : (length example_fields < MAX_FIELDS)%nat.
Proof. apply Nat.ltb_lt. by vm_compute. Qed.

Lemma sto_validate_correct_witness : exists r, @sto_validate unit example_mem 0 8 = Ret r /\ r = 1.
Proof.
  destruct (sto_validate_correct example_mem 0 8 example_bytes ltac:(lia) ltac:(lia) ltac:(by vm_compute))
    as (r & Hr & _ & Hiff).
  exists r. split; [done|]. apply Hiff. exists example_fields. split; [apply example_parses|].
  apply Nat.lt_le_incl, example_count.
Defined.

Lemma sto_subfield_correct_witness : @sto_subfield unit example_mem 0 8 0x20004 = Ret (location 4 4).
Proof.
  rewrite (sto_subfield_correct example_mem 0 8 0x20004 example_fields example_bytes ltac:(lia)
    ltac:(by vm_compute) example_parses (Nat.lt_le_incl _ _ example_count)).
  by vm_compute.
Defined.

Lemma sto_emplace_correct_witness :
  exists mem', @sto_emplace unit example_mem 16 32 0 8 8 5 0x20002 = Ret (13, mem') /\
    mem_slice mem' 16 13 = [0x12; 0; 5; 0x22; 0x80; 0; 0; 0; 0x24; 0; 0; 0; 1].
Proof.
  destruct (sto_emplace_correct example_mem 16 32 0 8 8 5 0x20002 example_fields [(example_flags, [0x22; 0x80; 0; 0; 0])]
    example_bytes ltac:(by vm_compute) ltac:(lia) ltac:(lia) ltac:(lia) ltac:(lia) ltac:(lia) ltac:(lia)
    ltac:(by vm_compute) example_parses (Nat.lt_le_incl _ _ example_count) ltac:(by vm_compute)) as (mem' & Hrun & Hout & _).
  exists mem'. split; [exact Hrun|exact Hout].
Defined.

Lemma sto_emplace_subfield_witness :
  exists n mem' o,
    @sto_emplace unit example_mem 16 32 0 8 8 5 (field_code example_flags) = Ret (n, mem') /\
    @sto_subfield unit mem' 16 n (field_code example_flags) = Ret (field_location o example_flags).
Proof.
  destruct (sto_emplace_subfield example_mem 16 32 0 8 8 5 example_fields example_flags
    example_bytes ltac:(by vm_compute) ltac:(lia) ltac:(lia) ltac:(lia) ltac:(lia) ltac:(lia) ltac:(lia)
    ltac:(by vm_compute) example_parses example_count ltac:(by vm_compute) eq_refl ltac:(by vm_compute))
    as (n & mem' & o & Hrun & _ & Hsub & _).
  by exists n, mem', o.
Defined.

Lemma sto_erase_correct_witness :
  exists ret mem', @sto_erase unit example_mem 16 32 0 8 0x20004 = Ret (ret, mem') /\ ret = 3.
Proof.
  destruct (sto_erase_correct example_mem 16 32 0 8 0x20004 example_fields
    example_bytes ltac:(by vm_compute) ltac:(lia) ltac:(lia) ltac:(lia) ltac:(lia)
    ltac:(by vm_compute) example_parses (Nat.lt_le_incl _ _ example_count)) as (ret & mem' & Hrun & Hret & _).
  { repeat constructor. }
  exists ret, mem'. split; [done|]. rewrite Hret. by vm_compute.
Defined.

Lemma sto_functions_safe_witness : exists r, @sto_subarray unit example_mem 8 20 1 = Ret r.
Proof. apply (sto_functions_safe example_mem 0 0 8 20 0 0 1 example_bytes); lia. Defined.

(** What the parser gets wrong. An object that ends in an empty variable length field
    is rejected, and accepted when another field follows; an empty array is rejected;
    [sto_subfield] gives the four payload bytes of a field of which only three are in
    the buffer; and [sto_subarray] takes one byte off an array whose header has two
    ([HookParameters], field 19), so that its element 0 is three bytes from the header
    on, and not the seven bytes of the element. *)
Theorem sto_parser_gaps :
  @sto_validate unit [0x12; 0; 5; 0x73; 0] 0 5 = Ret 0 /\
  @sto_validate unit [0x73; 0; 0x12; 0; 5] 0 5 = Ret 1 /\
  @sto_validate unit [0xF9; 0xF1] 0 2 = Ret 0 /\
  @sto_subfield unit [0x24; 0; 0; 0; 7; 7] 0 4 0x20004 = Ret (location 1 4) /\
  let params := [0xF0; 0x13; 0xE0; 0x17; 0x70; 0x18; 1; 0xAA; 0xE1; 0xF1] in
  @sto_validate unit params 0 10 = Ret 1 /\
  @sto_subarray unit params 0 10 0 = Ret (location 1 3) /\
  get_stobject_length MAX_DEPTH params 2 = Ret (mkField 7 14 23 2 4).
Proof. by vm_compute. Qed.
