(* ===== verification/LedgerDir.v ===== *)
(** * Ledger directories (src/src/ripple/ledger/impl/ApplyView.cpp)

    A directory is a doubly linked circle of pages in the ledger, the root being
    page 0; a page holds at most [dirNodeMaxEntries] keys. The pages of one
    directory are a map from the page number ([keylet::page]) to the page, so that
    two [peek]s of the same page see each other's changes, as the shared pointers
    of the source do. [LogicError] is [Throw logic_error]. *)

From S2P Require Import Prelude.

(** [ltDIR_NODE]: the links are optional fields, absent until they are set. *)
Record dir_page := mkPage {
  Indexes : list Z;
  IndexNext : option Z;
  IndexPrevious : option Z
}.

Abbreviation directory := (gmap Z dir_page).

Definition rootPage : Z := 0.
Definition dirNodeMaxEntries : Z := 32.
Definition dirNodeMaxPages : Z := 262144.

(** [getFieldU64]: an absent field reads as 0. *)
Definition getFieldU64 (f : option Z) : Z := default 0 f.

Definition next_page (pg : dir_page) : Z := getFieldU64 (IndexNext pg).
Definition prev_page (pg : dir_page) : Z := getFieldU64 (IndexPrevious pg).

Definition set_Indexes (v : list Z) (pg : dir_page) : dir_page := mkPage v (IndexNext pg) (IndexPrevious pg).
Definition set_IndexNext (v : Z) (pg : dir_page) : dir_page := mkPage (Indexes pg) (Some v) (IndexPrevious pg).
Definition set_IndexPrevious (v : Z) (pg : dir_page) : dir_page := mkPage (Indexes pg) (IndexNext pg) (Some v).

(** [peek] of a page that the code goes on to use without a null check after the
    [LogicError] that guards it. *)
Definition peek_page {E} (d : directory) (p : Z) : outcome E dir_page :=
  match d !! p with Some pg => Ret pg | None => Throw logic_error end.

(** [insert] of the view: an item that exists is a [LogicError]. *)
Definition insert_page {E} (d : directory) (p : Z) (pg : dir_page) : outcome E directory :=
  match d !! p with Some _ => Throw logic_error | None => Ret (<[p := pg]> d) end.

(** [indexes.insert(std::lower_bound(...), key)] in a sorted vector. *)
Fixpoint insert_sorted (key : Z) (l : list Z) : list Z :=
  match l with
  | [] => [key]
  | x :: r => if key <=? x then key :: l else x :: insert_sorted key r
  end.

(** The indexes of the page with [key] added. *)
Definition insert_index {E} (preserveOrder : bool) (indexes : list Z) (key : Z) : outcome E (list Z) :=
  if bool_decide (key ∈ indexes) then Throw logic_error
  else Ret (if preserveOrder then indexes ++ [key] else insert_sorted key (merge_sort Z.le indexes)).

(** [ApplyView::dirAdd]; the callback [describe] sets fields no operation reads. *)
Definition dirAdd {E} (fixPageCap preserveOrder : bool) (d : directory) (key : Z)
    : outcome E (option Z * directory) :=
  match d !! rootPage with
  | None =>
    let* d := insert_page d rootPage (mkPage [key] None None) in
    Ret (Some 0, d)
  | Some root =>
    let page := prev_page root in
    let* node := (if page =? 0 then Ret root else peek_page d page) in
    if lenZ (Indexes node) <? dirNodeMaxEntries then
      let* indexes := insert_index preserveOrder (Indexes node) key in
      Ret (Some page, <[page := set_Indexes indexes node]> d)
    else
      let new_page := u64 (page + 1) in
      if (dirNodeMaxPages <=? new_page) && negb fixPageCap then Ret (None, d)
      else
        let d := <[page := set_IndexNext new_page node]> d in
        let* root := peek_page d rootPage in
        let d := <[rootPage := set_IndexPrevious new_page root]> d in
        let* d := insert_page d new_page
                    (mkPage [key] None (if new_page =? 1 then None else Some (new_page - 1))) in
        Ret (Some new_page, d)
  end.

(** [ApplyView::dirInsert] *)
Definition dirInsert {E} (fixPageCap : bool) (d : directory) (key : Z) : outcome E (option Z * directory) :=
  dirAdd fixPageCap false d key.

(** [entries.erase(std::find(...))] *)
Fixpoint erase_first (key : Z) (l : list Z) : list Z :=
  match l with
  | [] => []
  | x :: r => if x =? key then r else x :: erase_first key r
  end.

Definition is_nil {A} (l : list A) : bool := match l with [] => true | _ => false end.

(** The part of [dirRemove] for an emptied root page [node]; an empty last page is
    a relic of older versions. *)
Definition dirRemove_root {E} (d : directory) (node : dir_page) (keepRoot : bool)
    : outcome E (bool * directory) :=
  let page := rootPage in
  let prevPage := prev_page node in
  let nextPage := next_page node in
  if (nextPage =? page) && negb (prevPage =? page) then Throw logic_error
  else if (prevPage =? page) && negb (nextPage =? page) then Throw logic_error
  else
    let* '(d, nextPage, prevPage) :=
      (if (nextPage =? prevPage) && negb (nextPage =? page) then
         let* last := peek_page d nextPage in
         if is_nil (Indexes last) then
           let d := <[page := set_IndexPrevious page (set_IndexNext page node)]> d in
           Ret (delete nextPage d, page, page)
         else Ret (d, nextPage, prevPage)
       else Ret (d, nextPage, prevPage)) in
    if keepRoot then Ret (true, d)
    else if (nextPage =? page) && (prevPage =? page) then Ret (true, delete page d)
    else Ret (true, d).

(** The part of [dirRemove] for another emptied page. *)
Definition dirRemove_unlink {E} (d : directory) (page : Z) (node : dir_page) (keepRoot : bool)
    : outcome E (bool * directory) :=
  let prevPage := prev_page node in
  let nextPage := next_page node in
  if nextPage =? page then Throw logic_error
  else if prevPage =? page then Throw logic_error
  else
    let* prev := peek_page d prevPage in
    let d := <[prevPage := set_IndexNext nextPage prev]> d in
    let* next := peek_page d nextPage in
    let next := set_IndexPrevious prevPage next in
    let d := <[nextPage := next]> d in
    let d := delete page d in
    let* '(d, nextPage) :=
      (if negb (nextPage =? rootPage) && (next_page next =? rootPage) && is_nil (Indexes next) then
         let d := delete nextPage d in
         let* prev := peek_page d prevPage in
         let d := <[prevPage := set_IndexNext rootPage prev]> d in
         let* root := peek_page d rootPage in
         Ret (<[rootPage := set_IndexPrevious prevPage root]> d, rootPage)
       else Ret (d, nextPage)) in
    if negb keepRoot && (nextPage =? rootPage) && (prevPage =? rootPage) then
      let* prev := peek_page d prevPage in
      if is_nil (Indexes prev) then Ret (true, delete prevPage d) else Ret (true, d)
    else Ret (true, d).

(** [ApplyView::dirRemove] *)
Definition dirRemove {E} (d : directory) (page key : Z) (keepRoot : bool) : outcome E (bool * directory) :=
  match d !! page with
  | None => Ret (false, d)
  | Some node =>
    if negb (bool_decide (key ∈ Indexes node)) then Ret (false, d)
    else
      let node := set_Indexes (erase_first key (Indexes node)) node in
      let d := <[page := node]> d in
      if negb (is_nil (Indexes node)) then Ret (true, d)
      else if page =? rootPage then dirRemove_root d node keepRoot
      else dirRemove_unlink d page node keepRoot
  end.

(** [ApplyView::emptyDirDelete], called with the keylet of a root page. *)
Definition emptyDirDelete {E} (d : directory) : outcome E (bool * directory) :=
  match d !! rootPage with
  | None => Ret (false, d)
  | Some node =>
    if negb (is_nil (Indexes node)) then Ret (false, d)
    else
      let prevPage := prev_page node in
      let nextPage := next_page node in
      if (nextPage =? rootPage) && negb (prevPage =? rootPage) then Throw logic_error
      else if (prevPage =? rootPage) && negb (nextPage =? rootPage) then Throw logic_error
      else if (nextPage =? prevPage) && negb (nextPage =? rootPage) then
        let* last := peek_page d nextPage in
        if negb (is_nil (Indexes last)) then Ret (false, d)
        else
          let d := <[rootPage := set_IndexPrevious rootPage (set_IndexNext rootPage node)]> d in
          Ret (true, delete rootPage (delete nextPage d))
      else if (nextPage =? rootPage) && (prevPage =? rootPage) then Ret (true, delete rootPage d)
      else Ret (true, d)
  end.

(** [ApplyView::dirDelete], which erases a page per round: the answer, the keys
    given to the callback in order, and the pages left. *)
Fixpoint dirDelete_loop {E} (fuel : nat) (d : directory) (pi : Z) : outcome E (bool * list Z * directory) :=
  match fuel with
  | O => Timeout
  | S fuel =>
    match d !! pi with
    | None => Ret (false, [], d)
    | Some page =>
      let d := delete pi d in
      match IndexNext page with
      | None => Ret (true, Indexes page, d)
      | Some pi =>
        let* '(r, items, d) := dirDelete_loop fuel d pi in
        Ret (r, Indexes page ++ items, d)
      end
    end
  end.

Definition dirDelete {E} (d : directory) : outcome E (bool * list Z * directory) :=
  dirDelete_loop (S (size d)) d rootPage.
