(* ===== verification/LedgerDirFacts.v ===== *)
(** * Ledger directories: the chain of pages and the set it holds

    The invariant of a directory ([dir_wf]): its pages are one circle through the
    root in increasing page numbers, no other page is empty or left over, no page
    is over its limit and no key is stored twice. Insertion and removal keep it,
    never reach a [LogicError] and implement a finite map from a key to the page
    that holds it. *)

From S2P Require Import Prelude LedgerDir.

(** ** The columns of a directory *)

Definition idx_of (d : directory) (p : Z) : option (list Z) := Indexes <$> d !! p.
Definition next_of (d : directory) (p : Z) : option Z := next_page <$> d !! p.
Definition prev_of (d : directory) (p : Z) : option Z := prev_page <$> d !! p.

(** [k] is stored in page [p]. *)
Definition in_page (d : directory) (p k : Z) : Prop := exists l, idx_of d p = Some l /\ k ∈ l.

Lemma idx_of_insert d p pg q :
  idx_of (<[p := pg]> d) q = if decide (q = p) then Some (Indexes pg) else idx_of d q.
Proof. unfold idx_of. case_decide; subst; [by rewrite lookup_insert_eq|by rewrite lookup_insert_ne]. Qed.
Lemma next_of_insert d p pg q :
  next_of (<[p := pg]> d) q = if decide (q = p) then Some (next_page pg) else next_of d q.
Proof. unfold next_of. case_decide; subst; [by rewrite lookup_insert_eq|by rewrite lookup_insert_ne]. Qed.
Lemma prev_of_insert d p pg q :
  prev_of (<[p := pg]> d) q = if decide (q = p) then Some (prev_page pg) else prev_of d q.
Proof. unfold prev_of. case_decide; subst; [by rewrite lookup_insert_eq|by rewrite lookup_insert_ne]. Qed.
Lemma idx_of_delete d p q : idx_of (delete p d) q = if decide (q = p) then None else idx_of d q.
Proof. unfold idx_of. case_decide; subst; [by rewrite lookup_delete_eq|by rewrite lookup_delete_ne]. Qed.
Lemma next_of_delete d p q : next_of (delete p d) q = if decide (q = p) then None else next_of d q.
Proof. unfold next_of. case_decide; subst; [by rewrite lookup_delete_eq|by rewrite lookup_delete_ne]. Qed.
Lemma prev_of_delete d p q : prev_of (delete p d) q = if decide (q = p) then None else prev_of d q.
Proof. unfold prev_of. case_decide; subst; [by rewrite lookup_delete_eq|by rewrite lookup_delete_ne]. Qed.

Create Rewrite HintDb dir.
#[export] Hint Rewrite idx_of_insert next_of_insert prev_of_insert idx_of_delete next_of_delete prev_of_delete : dir.

Lemma page_columns d p pg :
  d !! p = Some pg ->
  idx_of d p = Some (Indexes pg) /\ next_of d p = Some (next_page pg) /\ prev_of d p = Some (prev_page pg).
Proof. intros H. unfold idx_of, next_of, prev_of. by rewrite H. Qed.

Lemma idx_of_page d p l : idx_of d p = Some l -> exists pg, d !! p = Some pg /\ Indexes pg = l.
Proof. unfold idx_of. destruct (d !! p); simpl; intros; simplify_eq. by eexists. Qed.

Lemma idx_of_is_Some d p : is_Some (idx_of d p) <-> is_Some (d !! p).
Proof. unfold idx_of. apply fmap_is_Some. Qed.

(** ** Neighbours in a list *)

Fixpoint adj (l : list Z) (a b : Z) : Prop :=
  match l with
  | x :: ((y :: _) as r) => (x = a /\ y = b) \/ adj r a b
  | _ => False
  end.

Lemma adj_app l1 x l2 a b : adj (l1 ++ x :: l2) a b <-> adj (l1 ++ [x]) a b \/ adj (x :: l2) a b.
Proof.
  induction l1 as [|y l1 IH]; [simpl; tauto|]. destruct l1 as [|z l1]; [simpl; tauto|].
  change (adj ((y :: z :: l1) ++ x :: l2) a b) with ((y = a /\ z = b) \/ adj ((z :: l1) ++ x :: l2) a b).
  change (adj ((y :: z :: l1) ++ [x]) a b) with ((y = a /\ z = b) \/ adj ((z :: l1) ++ [x]) a b).
  tauto.
Qed.

Lemma adj_mid l1 x y l2 : adj (l1 ++ x :: y :: l2) x y.
Proof. apply adj_app. right. by left. Qed.

Lemma adj_snd x l a b : adj (x :: l) a b -> b ∈ l.
Proof.
  revert x. induction l as [|y l IH]; intros x; [done|]. intros [[_ ->]|H]; [left|right; by eapply IH].
Qed.

Lemma adj_fst l x a b : adj (l ++ [x]) a b -> a ∈ l.
Proof.
  induction l as [|y l IH]; [done|]. destruct l as [|z l]; [intros [[-> _]|[]]; left|].
  intros [[-> _]|H]; [left|right; by apply IH].
Qed.

(** ** The invariant *)

Record dir_chain (d : directory) (ps : list Z) : Prop := {
  chain_sorted : StronglySorted Z.lt (0 :: ps);
  chain_u64 : Forall is_u64 ps;
  chain_dom p : is_Some (idx_of d p) <-> p ∈ 0 :: ps;
  chain_next a b : adj (0 :: ps ++ [0]) a b -> next_of d a = Some b;
  chain_prev a b : adj (0 :: ps ++ [0]) a b -> prev_of d b = Some a
}.

Record dir_entries (d : directory) : Prop := {
  entries_cap p l : idx_of d p = Some l -> lenZ l <= dirNodeMaxEntries;
  entries_nodup p l : idx_of d p = Some l -> NoDup l;
  entries_unique p q k : in_page d p k -> in_page d q k -> p = q;
  entries_nonroot p : p <> 0 -> idx_of d p <> Some []
}.

Definition dir_wf (d : directory) : Prop := d = ∅ \/ (exists ps, dir_chain d ps) /\ dir_entries d.

(** The last page of the chain. *)
Lemma chain_last d ps :
  dir_chain d ps ->
  exists init L, 0 :: ps = init ++ [L] /\ prev_of d 0 = Some L /\ is_Some (d !! L) /\
    is_u64 L /\ (forall p, is_Some (idx_of d p) -> p <= L).
Proof.
  intros Hc. destruct (exists_last (l := 0 :: ps)) as (init & L & E); [done|]. exists init, L.
  assert (HL : L ∈ 0 :: ps) by (rewrite E; set_solver).
  split_and!; [done| | | |].
  - apply (chain_prev d ps Hc). rewrite app_comm_cons, E, <- app_assoc. apply adj_mid.
  - apply (chain_dom d ps Hc) in HL. unfold idx_of in HL. by rewrite fmap_is_Some in HL.
  - apply elem_of_cons in HL as [->|HL]; [by unfold is_u64; lia|].
    eapply Forall_forall in HL; [|apply (chain_u64 d ps Hc)]. done.
  - intros p Hp. apply (chain_dom d ps Hc) in Hp. rewrite E in Hp.
    pose proof (chain_sorted d ps Hc) as Hs. rewrite E in Hs.
    apply elem_of_app in Hp as [Hp|Hp%list_elem_of_singleton]; [|lia].
    apply StronglySorted_app_1_elem_of with (x1 := p) (x2 := L) in Hs; [lia|done|set_solver].
Qed.

Lemma sorted_lt_NoDup l : StronglySorted Z.lt l -> NoDup l.
Proof.
  induction 1 as [|x l Hs IH Hx]; constructor; [|done]. intros Hin.
  rewrite Forall_forall in Hx. specialize (Hx x Hin). lia.
Qed.

Lemma chain_NoDup d ps : dir_chain d ps -> NoDup (0 :: ps).
Proof. intros Hc. apply sorted_lt_NoDup, (chain_sorted d ps Hc). Qed.

(** ** Changes of the chain *)

(** Only the indexes change. *)
Lemma chain_same d d' ps :
  dir_chain d ps -> (forall p, is_Some (idx_of d' p) <-> is_Some (idx_of d p)) ->
  (forall p, next_of d' p = next_of d p) -> (forall p, prev_of d' p = prev_of d p) -> dir_chain d' ps.
Proof.
  intros Hc Hd Hn Hp. split; [apply Hc..| | |].
  - intros p. rewrite Hd. apply Hc.
  - intros a b. rewrite Hn. apply Hc.
  - intros a b. rewrite Hp. apply Hc.
Qed.

(** The neighbours in the circle with [n] at its end. *)
Lemma adj_snoc ps init L n a b :
  NoDup (0 :: ps) -> 0 :: ps = init ++ [L] -> (forall x, x ∈ 0 :: ps -> x < n) ->
  adj (0 :: (ps ++ [n]) ++ [0]) a b ->
  (adj (0 :: ps ++ [0]) a b /\ a <> L /\ b <> 0 /\ a <> n /\ b <> n) \/ (a = L /\ b = n) \/ (a = n /\ b = 0).
Proof.
  intros Hnd E Hlt Hab. rewrite <- app_assoc, app_comm_cons, E, <- app_assoc in Hab. simpl in Hab.
  apply adj_app in Hab as [Hab|[[-> ->]|[[-> ->]|[]]]]; [left|by auto..].
  pose proof (adj_fst _ _ _ _ Hab) as Ha. rewrite <- E in Hab. pose proof (adj_snd _ _ _ _ Hab) as Hb.
  assert (Hne : a ∈ 0 :: ps) by (rewrite E; set_solver).
  split_and!.
  - rewrite app_comm_cons, E, <- app_assoc. apply adj_app. left. by rewrite <- E.
  - intros ->. rewrite E in Hnd. apply NoDup_app in Hnd as (_ & Hx & _). apply (Hx L Ha). set_solver.
  - intros ->. by apply NoDup_cons in Hnd as [? _].
  - apply Hlt in Hne. lia.
  - assert (b < n) by (apply Hlt; by right). lia.
Qed.

(** A page [n] is linked in after the last page [L]. *)
Lemma chain_add d d' ps init L n :
  dir_chain d ps -> 0 :: ps = init ++ [L] -> L < n < 2 ^ 64 ->
  (forall p, is_Some (idx_of d' p) <-> is_Some (idx_of d p) \/ p = n) ->
  (forall p, next_of d' p = if decide (p = n) then Some 0 else if decide (p = L) then Some n else next_of d p) ->
  (forall p, prev_of d' p = if decide (p = 0) then Some n else if decide (p = n) then Some L else prev_of d p) ->
  dir_chain d' (ps ++ [n]).
Proof.
  intros Hc E Hn Hd Hnx Hpv. pose proof (chain_NoDup d ps Hc) as Hnd.
  pose proof (chain_sorted d ps Hc) as Hs.
  assert (Hlt : forall x, x ∈ 0 :: ps -> x < n).
  { intros x Hx. rewrite E in Hs, Hx. apply elem_of_app in Hx as [Hx|Hx%list_elem_of_singleton]; [|lia].
    apply StronglySorted_app_1_elem_of with (x1 := x) (x2 := L) in Hs; [lia|done|set_solver]. }
  assert (Hn0 : 0 < n) by (apply Hlt; set_solver).
  split.
  - rewrite app_comm_cons. apply StronglySorted_app_2; [|done|repeat constructor].
    intros x y Hx ->%list_elem_of_singleton. by apply Hlt.
  - apply Forall_app. split; [apply Hc|]. repeat constructor; lia.
  - intros p. rewrite Hd, (chain_dom d ps Hc). set_solver.
  - intros a b Hab. rewrite Hnx. destruct (adj_snoc ps init L n a b) as [(Ho & ?)|[[-> ->]|[-> ->]]]; [done..| | |].
    + rewrite !decide_False by tauto. by apply Hc.
    + rewrite decide_False by lia. by rewrite decide_True.
    + by rewrite decide_True.
  - intros a b Hab. rewrite Hpv. destruct (adj_snoc ps init L n a b) as [(Ho & ?)|[[-> ->]|[-> ->]]]; [done..| | |].
    + rewrite !decide_False by tauto. by apply Hc.
    + rewrite decide_False by lia. by rewrite decide_True.
    + by rewrite decide_True.
Qed.

(** The neighbours of a page that is not the root. *)
Lemma chain_split d ps p :
  dir_chain d ps -> p <> 0 -> is_Some (idx_of d p) ->
  exists l0 a r0 b l r, ps = l ++ p :: r /\ 0 :: l = l0 ++ [a] /\ r ++ [0] = b :: r0 /\
    prev_of d p = Some a /\ next_of d p = Some b.
Proof.
  intros Hc Hp Hin. apply (chain_dom d ps Hc) in Hin. apply elem_of_cons in Hin as [->|Hin]; [done|].
  apply list_elem_of_split in Hin as (l & r & ->).
  destruct (exists_last (l := 0 :: l)) as (l0 & a & El); [done|].
  destruct (r ++ [0]) as [|b r0] eqn:Er; [by destruct r|].
  exists l0, a, r0, b, l, r. split_and!; [done..| |].
  - apply (chain_prev d _ Hc). rewrite <- app_assoc, app_comm_cons, El, <- app_assoc. apply adj_mid.
  - apply (chain_next d _ Hc). rewrite <- app_assoc. change ((p :: r) ++ [0]) with (p :: (r ++ [0])).
    rewrite Er, app_comm_cons. apply adj_mid.
Qed.

(** The neighbours in the circle without [p], which was between [a] and [b]. *)
Lemma adj_cut l p r l0 a b r0 x y :
  NoDup (0 :: l ++ p :: r) -> 0 :: l = l0 ++ [a] -> r ++ [0] = b :: r0 ->
  adj (0 :: (l ++ r) ++ [0]) x y ->
  (x = a /\ y = b) \/ (adj (0 :: (l ++ p :: r) ++ [0]) x y /\ x <> a /\ y <> b /\ x <> p /\ y <> p).
Proof.
  intros Hnd El Er Hxy.
  assert (Hnd' : NoDup (l0 ++ [a] ++ p :: r)) by (rewrite app_assoc, <- El; exact Hnd).
  assert (Hb0 : b = 0 \/ b ∈ r).
  { assert (b ∈ r ++ [0]) by (rewrite Er; by left). set_solver. }
  assert (Hp : p <> 0 /\ ~ p ∈ l /\ ~ p ∈ r).
  { rewrite app_comm_cons in Hnd. apply NoDup_app in Hnd as (_ & Hx & Hy%NoDup_cons). set_solver. }
  rewrite <- app_assoc, app_comm_cons, El, Er, <- app_assoc in Hxy. simpl in Hxy.
  apply adj_app in Hxy as [Hxy|[[-> ->]|Hxy]]; [right|by left|right].
  - pose proof (adj_fst _ _ _ _ Hxy) as Hx. rewrite <- El in Hxy. pose proof (adj_snd _ _ _ _ Hxy) as Hy.
    assert (Hx0 : x ∈ 0 :: l) by (rewrite El; set_solver). split_and!.
    + rewrite <- app_assoc, app_comm_cons, El, <- app_assoc. apply adj_app. left. by rewrite <- El.
    + intros ->. apply NoDup_app in Hnd' as (_ & Hz & _). apply (Hz a Hx). set_solver.
    + intros ->. apply NoDup_cons in Hnd as [Hz1 Hz2]. apply NoDup_app in Hz2 as (_ & Hz3 & _).
      destruct Hb0 as [->|Hb0]; [set_solver|]. apply (Hz3 b Hy). set_solver.
    + intros ->. set_solver.
    + intros ->. set_solver.
  - pose proof (adj_snd _ _ _ _ Hxy) as Hy. rewrite <- Er in Hxy. pose proof (adj_fst _ _ _ _ Hxy) as Hx.
    assert (Hy0 : y ∈ r ++ [0]) by (rewrite Er; by right).
    split_and!.
    + rewrite <- app_assoc, app_comm_cons. change ((p :: r) ++ [0]) with (p :: (r ++ [0])).
      apply adj_app. right. rewrite Er. right. by rewrite <- Er.
    + intros ->. apply NoDup_app in Hnd' as (_ & _ & Hz). apply NoDup_cons in Hz as [Hz _]. set_solver.
    + intros ->. assert (Hrr : NoDup (r ++ [0])).
      { apply NoDup_app. apply NoDup_cons in Hnd as [Hz1 Hz2]. apply NoDup_app in Hz2 as (_ & _ & Hz3%NoDup_cons).
        split_and!; [tauto|set_solver|apply NoDup_singleton]. }
      rewrite Er in Hrr. by apply NoDup_cons in Hrr as [? _].
    + intros ->. tauto.
    + intros ->. set_solver.
Qed.

(** The page [p] is linked out. *)
Lemma chain_cut d d' l p r l0 a b r0 :
  dir_chain d (l ++ p :: r) -> 0 :: l = l0 ++ [a] -> r ++ [0] = b :: r0 ->
  (forall q, is_Some (idx_of d' q) <-> is_Some (idx_of d q) /\ q <> p) ->
  (forall q, q <> p -> next_of d' q = if decide (q = a) then Some b else next_of d q) ->
  (forall q, q <> p -> prev_of d' q = if decide (q = b) then Some a else prev_of d q) ->
  dir_chain d' (l ++ r).
Proof.
  intros Hc El Er Hd Hn Hv. pose proof (chain_NoDup d _ Hc) as Hnd.
  assert (Hb0 : b = 0 \/ b ∈ r).
  { assert (b ∈ r ++ [0]) by (rewrite Er; by left). set_solver. }
  assert (Hp : p <> 0 /\ ~ p ∈ l /\ ~ p ∈ r).
  { rewrite app_comm_cons in Hnd. apply NoDup_app in Hnd as (_ & Hx & Hy%NoDup_cons). set_solver. }
  assert (Ha0 : a = 0 \/ a ∈ l).
  { assert (a ∈ 0 :: l) by (rewrite El; set_solver). set_solver. }
  split.
  - pose proof (chain_sorted d _ Hc) as Hs. rewrite app_comm_cons in Hs |- *.
    apply StronglySorted_app_2; [|by apply StronglySorted_app_1_l in Hs|].
    + intros x y Hx Hy. eapply StronglySorted_app_1_elem_of; [exact Hs|done|by right].
    + apply StronglySorted_app_1_r in Hs. by inversion Hs.
  - pose proof (chain_u64 d _ Hc) as Hu. apply Forall_app in Hu as [? Hu]. inversion Hu; subst.
    by apply Forall_app.
  - intros q. rewrite Hd, (chain_dom d _ Hc). rewrite !elem_of_cons, !elem_of_app, elem_of_cons. naive_solver.
  - intros x y Hxy. destruct (adj_cut l p r l0 a b r0 x y) as [[-> ->]|(Ho & ? & ? & ? & ?)]; [done..| |].
    + rewrite Hn; [by rewrite decide_True|]. intros ->. destruct Ha0; tauto.
    + rewrite Hn, decide_False by done. by apply Hc.
  - intros x y Hxy. destruct (adj_cut l p r l0 a b r0 x y) as [[-> ->]|(Ho & ? & ? & ? & ?)]; [done..| |].
    + rewrite Hv; [by rewrite decide_True|]. intros ->. destruct Hb0; tauto.
    + rewrite Hv, decide_False by done. by apply Hc.
Qed.

(** ** Changes of the entries *)

Lemma insert_sorted_perm k l : insert_sorted k l ≡ₚ k :: l.
Proof.
  induction l as [|x l IH]; simpl; [done|]. destruct (k <=? x); [done|]. rewrite IH. constructor.
Qed.

Lemma insert_index_spec {E} po l k :
  ~ k ∈ l -> exists l', @insert_index E po l k = Ret l' /\ l' ≡ₚ k :: l.
Proof.
  intros Hk. unfold insert_index. rewrite bool_decide_eq_false_2 by done. eexists. split; [done|].
  destruct po; [by rewrite Permutation_app_comm|]. rewrite insert_sorted_perm.
  by rewrite merge_sort_Permutation.
Qed.

Lemma erase_first_spec k l :
  NoDup l -> NoDup (erase_first k l) /\ (forall x, x ∈ erase_first k l <-> x ∈ l /\ x <> k).
Proof.
  induction 1 as [|y l Hy Hl [IH1 IH2]]; simpl.
  { split; [constructor|]. intros x. rewrite elem_of_nil. tauto. }
  destruct (Z.eqb_spec y k) as [->|Hne]; (split; [try done|]).
  - intros x. rewrite elem_of_cons. naive_solver.
  - constructor; [rewrite IH2; tauto|done].
  - intros x. rewrite !elem_of_cons, IH2. naive_solver.
Qed.

Lemma erase_first_len k l : lenZ (erase_first k l) <= lenZ l.
Proof. induction l as [|x l IH]; simpl; [done|]. destruct (x =? k); autorewrite with mach; lia. Qed.

(** A key that is in no page is stored in [P], a new page or one with space. *)
Lemma entries_put d d' P l l' k :
  dir_entries d -> (forall q, ~ in_page d q k) ->
  default [] (idx_of d P) = l -> lenZ l < dirNodeMaxEntries -> l' ≡ₚ k :: l ->
  (forall q, idx_of d' q = if decide (q = P) then Some l' else idx_of d q) ->
  dir_entries d' /\ (forall q x, in_page d' q x <-> in_page d q x \/ (q = P /\ x = k)).
Proof.
  intros He Hk Hl Hcap Hp Hi.
  assert (Hin : forall q x, in_page d' q x <-> in_page d q x \/ (q = P /\ x = k)).
  { intros q x. unfold in_page. rewrite Hi. case_decide as Hq; [subst q|naive_solver].
    split.
    - intros (l1 & [= <-] & Hx). rewrite Hp in Hx. apply elem_of_cons in Hx as [->|Hx]; [by right|left].
      destruct (idx_of d P) as [l0|]; simpl in Hl; subst; [by eexists|set_solver].
    - intros [(l1 & Hl1 & Hx)|[_ ->]]; exists l'; (split; [done|]); rewrite Hp; [right|left].
      rewrite Hl1 in Hl. simpl in Hl. by subst. }
  split; [|done]. split.
  - intros q l1. rewrite Hi. case_decide; [|by apply He]. intros [= <-]. unfold lenZ. rewrite Hp.
    unfold lenZ in Hcap. simpl. lia.
  - intros q l1. rewrite Hi. case_decide as Hq; [|by apply He]. intros [= <-]. rewrite Hp. constructor.
    + intros Hx. apply (Hk P). destruct (idx_of d P) eqn:EP; simpl in Hl; subst; [by eexists|set_solver].
    + destruct (idx_of d P) eqn:EP; simpl in Hl; subst; [by eapply He|constructor].
  - intros p q x. rewrite !Hin. intros [H1|[-> ->]] [H2|[-> Hx]]; [by eapply He|..|done].
    + subst x. by destruct (Hk p).
    + by destruct (Hk q).
  - intros p Hp0. rewrite Hi. case_decide; [|by apply He]. intros [= ->].
    apply Permutation_nil_l in Hp. done.
Qed.

(** A key is taken out of the page [P], which stays or goes. *)
Lemma entries_drop d d' P l k o :
  dir_entries d -> idx_of d P = Some l -> k ∈ l ->
  (o = Some (erase_first k l) /\ (erase_first k l <> [] \/ P = 0)) \/ (o = None /\ erase_first k l = []) ->
  (forall q, idx_of d' q = if decide (q = P) then o else idx_of d q) ->
  dir_entries d' /\ (forall q x, in_page d' q x <-> in_page d q x /\ x <> k).
Proof.
  intros He HP Hk Ho Hi.
  destruct (erase_first_spec k l (entries_nodup d He P l HP)) as [Hnd Hel].
  assert (Hin : forall q x, in_page d' q x <-> in_page d q x /\ x <> k).
  { intros q x. unfold in_page. rewrite Hi. case_decide as Hq; [subst q|].
    - rewrite HP. split.
      + intros (l1 & -> & Hx). destruct Ho as [([= ->] & _)|[? _]]; [|done]. apply Hel in Hx. naive_solver.
      + intros ((l1 & [= <-] & Hx) & Hne). assert (Hx' : x ∈ erase_first k l) by (by apply Hel).
        destruct Ho as [(-> & _)|[_ E]]; [by eexists|]. rewrite E in Hx'. set_solver.
    - split; [|naive_solver]. intros (l1 & Hl1 & Hx). split; [by eexists|]. intros ->.
      apply Hq. apply (entries_unique d He q P k); by eexists. }
  split; [|done]. split.
  - intros q l1. rewrite Hi. case_decide; [|by apply He]. intros ->.
    destruct Ho as [([= ->] & _)|[? _]]; [|done]. pose proof (erase_first_len k l).
    pose proof (entries_cap d He P l HP). lia.
  - intros q l1. rewrite Hi. case_decide as Hq; [|by apply He]. intros ->.
    destruct Ho as [([= ->] & _)|[? _]]; done.
  - intros p q x. rewrite !Hin. intros [H1 _] [H2 _]. by eapply He.
  - intros p Hp0. rewrite Hi. case_decide; [|by apply He]. subst p.
    destruct Ho as [(-> & [H|H])|[-> _]]; naive_solver.
Qed.

Lemma dir_empty d : (forall p, ~ is_Some (idx_of d p)) -> d = ∅.
Proof.
  intros H. apply map_empty. intros p. destruct (d !! p) eqn:E; [|done].
  destruct (H p). by apply page_columns in E as (-> & _).
Qed.

Lemma empty_no_page p k : ~ in_page ∅ p k.
Proof. intros (l & Hl & _). unfold idx_of in Hl. by rewrite lookup_empty in Hl. Qed.

Lemma entries_empty : dir_entries ∅.
Proof.
  split; intros *; unfold idx_of; rewrite ?lookup_empty; try done. by intros ?%empty_no_page.
Qed.

(** ** Insertion *)

Lemma wf_root_page k : dir_wf {[ 0 := mkPage [k] None None ]}.
Proof.
  right. split.
  - exists []. split; [repeat constructor|constructor| | |].
    + intros p. rewrite list_elem_of_singleton. unfold idx_of. rewrite fmap_is_Some, lookup_singleton_is_Some. naive_solver.
    + intros a b [[<- <-]|[]]. by unfold next_of; rewrite lookup_singleton_eq.
    + intros a b [[<- <-]|[]]. by unfold prev_of; rewrite lookup_singleton_eq.
  - destruct (entries_put ∅ {[ 0 := mkPage [k] None None ]} 0 [] [k] k) as [He _]; try done.
    + apply entries_empty.
    + intros q. apply empty_no_page.
    + intros q. rewrite <- insert_empty, idx_of_insert. by case_decide.
Qed.

Lemma dirAdd_new_page {E} d k L root node init ps :
  dir_chain d ps -> 0 :: ps = init ++ [L] -> L + 1 < 2 ^ 64 -> d !! 0 = Some root -> d !! L = Some node ->
  0 <= L -> (forall p, is_Some (idx_of d p) -> p <= L) ->
  dir_entries d -> (forall q, ~ in_page d q k) ->
  exists d' : directory,
    (let d := <[L := set_IndexNext (L + 1) node]> d in
     let* root := peek_page d rootPage in
     let d := <[rootPage := set_IndexPrevious (L + 1) root]> d in
     let* d := insert_page (E := E) d (L + 1) (mkPage [k] None (if L + 1 =? 1 then None else Some (L + 1 - 1))) in
     Ret (Some (L + 1), d)) = Ret (Some (L + 1), d') /\
    dir_wf d' /\ (forall q x, in_page d' q x <-> in_page d q x \/ (q = L + 1 /\ x = k)) /\
    (forall q, is_Some (d' !! q) -> is_Some (d !! q) \/ q = L + 1).
Proof.
  intros Hc E0 HL Hroot Hnode H0 Hmax He Hk. unfold peek_page, rootPage. cbv zeta.
  assert (Hr : exists r, <[L:=set_IndexNext (L + 1) node]> d !! 0 = Some r /\ Indexes r = Indexes root /\
            next_page r = (if decide (0 = L) then L + 1 else next_page root)).
  { destruct (decide (0 = L)) as [<-|HL0].
    - rewrite lookup_insert_eq. eexists. split; [done|]. by assert (root = node) as -> by congruence.
    - rewrite lookup_insert_ne by done. by eexists. }
  destruct Hr as (r & Er & Hri & Hrn). rewrite Er. simpl. unfold insert_page.
  assert (Hnone : idx_of d (L + 1) = None).
  { destruct (idx_of d (L + 1)) eqn:E1; [|done]. specialize (Hmax (L + 1) ltac:(by eexists)). lia. }
  assert (d !! (L + 1) = None) as Hn.
  { destruct (d !! (L + 1)) eqn:E1; [|done]. apply page_columns in E1 as (E1 & _). congruence. }
  rewrite lookup_insert_ne, lookup_insert_ne, Hn by lia. simpl. eexists. split; [done|].
  apply page_columns in Hroot as (Hr1 & Hr2 & Hr3). apply page_columns in Hnode as (Hn1 & Hn2 & Hn3).
  destruct (entries_put d (<[L + 1 := mkPage [k] None (if L + 1 =? 1 then None else Some (L + 1 - 1))]>
     (<[0:=set_IndexPrevious (L + 1) r]> (<[L:=set_IndexNext (L + 1) node]> d))) (L + 1) [] [k] k)
     as [He' Hin]; [done|done|by rewrite Hnone|done|done| |].
  { intros q. autorewrite with dir. repeat case_decide; subst; simpl; congruence. }
  split_and!; [|done|].
  2: { intros q. rewrite !lookup_insert_is_Some'. intros [?|[<-|[<-|?]]]; [by right|left..|by left].
       - unfold idx_of in Hr1. destruct (d !! 0); [by eexists|done].
       - unfold idx_of in Hn1. destruct (d !! L); [by eexists|done]. }
  right. split; [|done]. exists (ps ++ [L + 1]).
  apply (chain_add d _ ps init L (L + 1)); [done|done|lia|..]; intros p; autorewrite with dir.
  - repeat case_decide; subst; simpl; rewrite ?Hr1, ?Hn1; split; intros; eauto; naive_solver.
  - destruct (decide (p = L + 1)); [done|]. destruct (decide (p = 0)); [subst p|by destruct (decide (p = L))].
    change (next_page (set_IndexPrevious (L + 1) r)) with (next_page r). rewrite Hrn.
    repeat case_decide; subst; (done || congruence).
  - destruct (decide (p = L + 1)); [subst p; rewrite decide_False by lia|].
    + f_equal. unfold prev_page. simpl. destruct (Z.eqb_spec (L + 1) 1); simpl; lia.
    + destruct (decide (p = 0)); [done|]. destruct (decide (p = L)); [subst; by rewrite Hn3|done].
Qed.

(** No page number is over [B]. *)
Definition pages_upto (d : directory) (B : Z) : Prop := forall p, is_Some (d !! p) -> p <= B.

Lemma dirAdd_spec {E} cap po d k :
  dir_wf d -> (forall q, ~ in_page d q k) -> (forall p, is_Some (d !! p) -> p + 1 < 2 ^ 64) ->
  (exists p d', @dirAdd E cap po d k = Ret (Some p, d') /\ dir_wf d' /\
     (forall q x, in_page d' q x <-> in_page d q x \/ (q = p /\ x = k)) /\
     (forall B, 0 <= B -> pages_upto d B -> pages_upto d' (B + 1))) \/
  (@dirAdd E cap po d k = Ret (None, d) /\ cap = false /\
     exists p, is_Some (d !! p) /\ dirNodeMaxPages <= p + 1).
Proof.
  intros Hwf Hk Hu. unfold dirAdd, rootPage. destruct Hwf as [->|[[ps Hc] He]].
  { left. rewrite lookup_empty. unfold insert_page. rewrite lookup_empty, insert_empty. simpl.
    do 2 eexists. split; [done|]. split_and!; [apply wf_root_page| |].
    2: { intros B HB _ p. rewrite lookup_singleton_is_Some. lia. }
    intros q x. split.
    - intros (l & Hl & Hx). unfold idx_of in Hl. destruct (decide (q = 0)) as [->|Hq].
      + rewrite lookup_singleton_eq in Hl. simplify_eq/=. right. set_solver.
      + by rewrite lookup_singleton_ne in Hl.
    - intros [H|[-> ->]]; [by apply empty_no_page in H|]. exists [k]. unfold idx_of. rewrite lookup_singleton_eq. set_solver. }
  destruct (chain_last d ps Hc) as (init & L & E0 & Hpv & [node Hnode] & HL64 & Hmax).
  destruct (d !! 0) as [root|] eqn:Hroot; [|by unfold prev_of in Hpv; rewrite Hroot in Hpv].
  assert (Hprev : prev_page root = L) by (unfold prev_of in Hpv; rewrite Hroot in Hpv; by simplify_eq/=).
  rewrite Hprev.
  assert (Hpeek : (if L =? 0 then Ret root else @peek_page E d L) = Ret node).
  { unfold peek_page. rewrite Hnode. destruct (Z.eqb_spec L 0) as [->|]; [|done]. f_equal. congruence. }
  rewrite Hpeek. simpl. destruct (page_columns d L node Hnode) as (Hi & Hn & Hp).
  destruct (lenZ (Indexes node) <? dirNodeMaxEntries) eqn:Hfull.
  - left. destruct (insert_index_spec (E := E) po (Indexes node) k) as (l' & -> & Hl').
    { intros Hin. apply (Hk L). by eexists. }
    simpl. do 2 eexists. split; [done|].
    destruct (entries_put d (<[L:=set_Indexes l' node]> d) L (Indexes node) l' k) as [He' Hin'];
      [done|done|by rewrite Hi|lia|done|intros q; autorewrite with dir; by case_decide|].
    split_and!; [|done|].
    2: { intros B HB Hup p. rewrite lookup_insert_is_Some'. intros [<-|Hp']; [specialize (Hup L ltac:(by eexists))|apply Hup in Hp']; lia. }
    right. split; [|done]. exists ps. apply (chain_same d); [done|..]; intros p; autorewrite with dir;
      (case_decide; [subst p|done]); rewrite ?Hi, ?Hn, ?Hp; done.
  - rewrite u64_small by (unfold is_u64 in HL64; specialize (Hu L ltac:(by eexists)); lia).
    destruct ((dirNodeMaxPages <=? L + 1) && negb cap) eqn:Hcap.
    + right. split; [done|]. destruct cap; [by rewrite andb_false_r in Hcap|]. split; [done|].
      exists L. split; [by eexists|]. lia.
    + left. exists (L + 1).
      destruct (dirAdd_new_page (E := E) d k L root node init ps) as (d' & Ed & Hwf & Hin & Hsub); try done.
      * apply Hu. by eexists.
      * unfold is_u64 in HL64. lia.
      * exists d'. split_and!; [done..|]. intros B HB Hup q [Hq| ->]%Hsub; [apply Hup in Hq; lia|].
        specialize (Hup L ltac:(by eexists)). lia.
Qed.

(** ** Removal *)

Lemma chain_page d ps p : dir_chain d ps -> p ∈ 0 :: ps -> exists pg, d !! p = Some pg.
Proof. intros Hc Hp. apply (chain_dom d ps Hc) in Hp as [l Hl]. apply idx_of_page in Hl as (pg & ? & _). by eexists. Qed.

Lemma is_nil_spec {A} (l : list A) : is_nil l = true <-> l = [].
Proof. by destruct l. Qed.

(** A page other than the root holds a key. *)
Lemma nonroot_key d ps p : dir_chain d ps -> dir_entries d -> p ∈ ps -> exists k, in_page d p k.
Proof.
  intros Hc He Hp. pose proof (chain_NoDup d ps Hc) as Hnd%NoDup_cons.
  destruct (chain_page d ps p Hc) as [pg Hpg]; [by right|].
  destruct (page_columns d p pg Hpg) as (Hi & _).
  destruct (Indexes pg) as [|k l] eqn:El.
  - destruct (entries_nonroot d He p); [|done]. intros ->. tauto.
  - exists k, (k :: l). set_solver.
Qed.

(** The links of the root: to itself, or to other pages on both sides. *)
Lemma root_links d ps root :
  dir_chain d ps -> d !! 0 = Some root ->
  (ps = [] /\ next_page root = 0 /\ prev_page root = 0) \/
  (exists y, y ∈ ps /\ y <> 0 /\ next_page root = y /\ prev_page root <> 0).
Proof.
  intros Hc Hroot. destruct (page_columns d 0 root Hroot) as (_ & Hn & Hv).
  pose proof (chain_NoDup d ps Hc) as [Hz _]%NoDup_cons.
  assert (Hnext : forall y, adj (0 :: ps ++ [0]) 0 y -> next_page root = y).
  { intros y Hy. apply (chain_next d ps Hc) in Hy. congruence. }
  destruct ps as [|y ps].
  - left. split_and!; [done|apply Hnext; by left|].
    assert (Hp : prev_of d 0 = Some 0) by (apply (chain_prev d _ Hc); by left). congruence.
  - right. exists y. split_and!; [by left|set_solver|apply Hnext; by left|].
    destruct (chain_last d _ Hc) as (init & L & EL & Hpv & _). intros H0.
    assert (L = 0) as -> by congruence. destruct init as [|z init]; [done|].
    injection EL as _ EL. rewrite EL in Hz. set_solver.
Qed.

(** The pages that the unlinking of [p] between [a] and [b] leaves. *)
Definition unlinked (d : directory) (p a b : Z) (prev next : dir_page) : directory :=
  delete p (<[b := set_IndexPrevious a next]> (<[a := set_IndexNext b prev]> d)).

Lemma unlinked_columns d p a b prev next :
  a <> p -> b <> p -> d !! a = Some prev -> (<[a := set_IndexNext b prev]> d) !! b = Some next ->
  (forall q, idx_of (unlinked d p a b prev next) q = if decide (q = p) then None else idx_of d q) /\
  (forall q, q <> p -> next_of (unlinked d p a b prev next) q = if decide (q = a) then Some b else next_of d q) /\
  (forall q, q <> p -> prev_of (unlinked d p a b prev next) q = if decide (q = b) then Some a else prev_of d q).
Proof.
  intros Ha Hb Hpa Hpb. destruct (page_columns d a prev Hpa) as (A1 & A2 & A3).
  destruct (page_columns _ b next Hpb) as (B1 & B2 & B3). autorewrite with dir in B1, B2, B3.
  unfold unlinked. split_and!; intros q; [|intros Hq..]; autorewrite with dir.
  - destruct (decide (q = p)); [done|]. destruct (decide (q = b)); [subst q; simpl|].
    + rewrite <- B1. destruct (decide (b = a)); [subst; by rewrite A1|done].
    + destruct (decide (q = a)); [subst; by rewrite A1|done].
  - rewrite decide_False by done. destruct (decide (q = b)); [subst q|].
    + change (next_page (set_IndexPrevious a next)) with (next_page next). rewrite <- B2.
      by destruct (decide (b = a)).
    + by destruct (decide (q = a)).
  - rewrite decide_False by done. destruct (decide (q = b)); [done|].
    destruct (decide (q = a)); [subst; by rewrite A3|done].
Qed.

Definition removed (d : directory) (k : Z) (keepRoot : bool) (d' : directory) : Prop :=
  dir_wf d' /\ (forall q x, in_page d' q x <-> in_page d q x /\ x <> k) /\
  (forall q, is_Some (d' !! q) -> is_Some (d !! q)) /\
  (if keepRoot then is_Some (d' !! 0) else (forall q x, ~ in_page d' q x) -> d' = ∅).

(** The entry was the only one of the whole directory. *)
Lemma removed_all d k :
  (forall q x, in_page d q x -> x = k) -> removed d k false ∅.
Proof.
  intros H. split_and!; [by left| |by intros q []|done]. intros q x. split; [by intros ?%empty_no_page|].
  intros [Hx Hne]. by apply H in Hx.
Qed.

(** The end of [dirRemove] when a page between [a] and [b] was linked out: the root
    goes too when it is all that is left and it is empty. *)
Lemma dirRemove_sweep {E} d d' k L R l0 a b r0 keepRoot :
  dir_chain d' (L ++ R) -> dir_entries d' -> (forall q x, in_page d' q x <-> in_page d q x /\ x <> k) ->
  (forall q, is_Some (d' !! q) -> is_Some (d !! q)) -> 0 :: L = l0 ++ [a] -> R ++ [0] = b :: r0 ->
  exists d'',
    (if negb keepRoot && (b =? rootPage) && (a =? rootPage) then
       let* prev := @peek_page E d' a in
       if is_nil (Indexes prev) then Ret (true, delete a d') else Ret (true, d')
     else Ret (true, d')) = Ret (true, d'') /\ removed d k keepRoot d''.
Proof.
  intros Hc He Hin Hsub EL ER. unfold rootPage.
  assert (Hwf : dir_wf d') by (right; by split; [exists (L ++ R)|]).
  destruct (chain_page d' _ 0 Hc) as [root Hroot]; [by left|].
  pose proof (chain_NoDup d' _ Hc) as [Hz _]%NoDup_cons.
  assert (Hkeep : (exists q x, in_page d' q x) \/ keepRoot = true -> removed d k keepRoot d').
  { intros Hor. split_and!; [done..|]. destruct keepRoot; [by eexists|].
    destruct Hor as [(q & x & Hx)|?]; [intros H; by destruct (H q x)|done]. }
  destruct (negb keepRoot && (b =? 0) && (a =? 0)) eqn:Hend.
  - assert (a = 0) as -> by lia. assert (b = 0) as -> by lia.
    destruct keepRoot; [done|].
    assert (L ++ R = []) as HLR.
    { destruct L as [|x L _] using rev_ind.
      - destruct R as [|y R]; [done|]. simplify_eq/=. set_solver.
      - rewrite app_comm_cons in EL. apply app_inj_tail in EL as [_ ->]. set_solver. }
    rewrite HLR in Hc. unfold peek_page. rewrite Hroot. simpl.
    destruct (page_columns d' 0 root Hroot) as (Hi & _).
    destruct (Indexes root) as [|x l] eqn:Er; simpl; eexists; (split; [done|]).
    + replace (delete 0 d') with (∅ : directory).
      * apply removed_all. intros q x Hx. destruct (decide (x = k)); [done|].
        assert (Hq : in_page d' q x) by (by apply Hin). destruct Hq as (l & Hl & Hxl).
        assert (q = 0) as ->. { apply list_elem_of_singleton, (chain_dom d' _ Hc). by eexists. }
        rewrite Hi in Hl. simplify_eq. set_solver.
      * symmetry. apply dir_empty. intros q. rewrite idx_of_delete. case_decide; [by intros []|].
        rewrite (chain_dom d' _ Hc), list_elem_of_singleton. tauto.
    + apply Hkeep. left. exists 0, x, (x :: l). set_solver.
  - eexists. split; [done|]. apply Hkeep. destruct keepRoot; [by right|left].
    destruct (L ++ R) as [|y ys] eqn:Ey.
    + exfalso. destruct L as [|? ?], R as [|? ?]; simplify_eq/=.
      by destruct l0 as [|? [|]]; simplify_eq/=.
    + exists y. eapply (nonroot_key d' _ y Hc He). by left.
Qed.

Lemma dirRemove_unlink_spec {E} d ps p k l keepRoot node :
  dir_chain d ps -> dir_entries d -> p <> 0 -> d !! p = Some node -> Indexes node = l -> k ∈ l ->
  erase_first k l = [] ->
  let node' := set_Indexes [] node in
  exists d', @dirRemove_unlink E (<[p := node']> d) p node' keepRoot = Ret (true, d') /\ removed d k keepRoot d'.
Proof.
  intros Hc He Hp0 Hnode Hl Hk Her node'. destruct (page_columns d p node Hnode) as (Hi & Hn & Hv).
  destruct (chain_split d ps p Hc Hp0) as (l0 & a & r0 & b & L & R & -> & EL & ER & Hpa & Hpb); [by eexists|].
  pose proof (chain_NoDup d _ Hc) as Hnd.
  assert (HaL : a ∈ 0 :: L) by (rewrite EL; set_solver).
  assert (HbR : b ∈ R ++ [0]) by (rewrite ER; set_solver).
  assert (Hpn : ~ p ∈ 0 :: L /\ ~ p ∈ R).
  { rewrite app_comm_cons in Hnd. apply NoDup_app in Hnd as (_ & Hx & Hy%NoDup_cons). set_solver. }
  assert (Hap : a <> p) by (intros ->; tauto).
  assert (Hbp : b <> p) by (intros ->; set_solver).
  assert (Ea : prev_page node' = a) by (rewrite Hpa in Hv; by simplify_eq).
  assert (Eb : next_page node' = b) by (rewrite Hpb in Hn; by simplify_eq).
  destruct (chain_page d _ a Hc) as [prev Hprev]; [set_solver|].
  destruct (chain_page d _ b Hc) as [nx Hnx]; [set_solver|].
  unfold dirRemove_unlink, peek_page. cbv zeta. rewrite Ea, Eb.
  replace (b =? p) with false by lia. replace (a =? p) with false by lia.
  rewrite (lookup_insert_ne d p a node') by done. rewrite Hprev. cbn [obind].
  assert (Hnext : exists next, <[a:=set_IndexNext b prev]> (<[p:=node']> d) !! b = Some next /\ Indexes next = Indexes nx).
  { destruct (decide (a = b)) as [<-|Hab]; [rewrite lookup_insert_eq|rewrite !lookup_insert_ne by done; by eexists].
    eexists. split; [done|]. by assert (nx = prev) as -> by congruence. }
  destruct Hnext as (next & Hnext & Hni). rewrite Hnext. cbn [obind].
  destruct (unlinked_columns (<[p:=node']> d) p a b prev next Hap Hbp) as (C1 & C2 & C3);
    [by rewrite lookup_insert_ne|done|].
  fold (unlinked (<[p:=node']> d) p a b prev next). set (d' := unlinked (<[p:=node']> d) p a b prev next) in *.
  assert (C1' : forall q, idx_of d' q = if decide (q = p) then None else idx_of d q).
  { intros q. rewrite C1. autorewrite with dir. by destruct (decide (q = p)). }
  destruct (entries_drop d d' p l k None) as [He' Hin]; [done|by rewrite Hi, Hl|done|by right|done|].
  assert (Hc' : dir_chain d' (L ++ R)).
  { apply (chain_cut d d' L p R l0 a b r0 Hc EL ER).
    - intros q. rewrite C1'. destruct (decide (q = p)); split; [by intros []|naive_solver|by split|tauto].
    - intros q Hq. rewrite C2 by done. autorewrite with dir. by rewrite (decide_False (P := q = p)).
    - intros q Hq. rewrite C3 by done. autorewrite with dir. by rewrite (decide_False (P := q = p)). }
  assert (Hbne : b <> 0 -> Indexes nx <> []).
  { intros Hb0 Hnil. destruct (page_columns d b nx Hnx) as (Hbi & _). rewrite Hnil in Hbi.
    by apply (entries_nonroot d He b). }
  replace (negb (b =? rootPage) && (next_page (set_IndexPrevious a next) =? rootPage) &&
           is_nil (Indexes (set_IndexPrevious a next))) with false.
  2: { symmetry. simpl. rewrite Hni. unfold rootPage. destruct (Z.eqb_spec b 0); [done|].
       destruct (is_nil (Indexes nx)) eqn:En; [|by rewrite andb_false_r]. apply is_nil_spec in En. by destruct (Hbne n). }
  cbn [obind]. apply (dirRemove_sweep d d' k L R l0 a b r0); try done.
  intros q. rewrite <- !idx_of_is_Some, C1'. case_decide; [by intros []|done].
Qed.

Lemma dirRemove_root_spec {E} d ps k l keepRoot node :
  dir_chain d ps -> dir_entries d -> d !! 0 = Some node -> Indexes node = l -> k ∈ l ->
  erase_first k l = [] ->
  let node' := set_Indexes [] node in
  exists d', @dirRemove_root E (<[0 := node']> d) node' keepRoot = Ret (true, d') /\ removed d k keepRoot d'.
Proof.
  intros Hc He Hnode Hl Hk Her node'. destruct (page_columns d 0 node Hnode) as (Hi & Hn & Hv).
  destruct (entries_drop d (<[0:=node']> d) 0 l k (Some [])) as [He' Hin];
    [done|by rewrite Hi, Hl|done|left; rewrite Her; auto|intros q; autorewrite with dir; by case_decide|].
  assert (Hc' : dir_chain (<[0:=node']> d) ps).
  { apply (chain_same d); [done|..]; intros p; autorewrite with dir; (case_decide; [subst p|done]);
      rewrite ?Hi, ?Hn, ?Hv; done. }
  assert (Hsub : forall q, is_Some (<[0:=node']> d !! q) -> is_Some (d !! q)).
  { intros q [<-|?]%lookup_insert_is_Some'; [by eexists|done]. }
  unfold dirRemove_root, rootPage. cbv zeta.
  change (prev_page node') with (prev_page node). change (next_page node') with (next_page node).
  destruct (root_links d ps node Hc Hnode) as [(-> & -> & ->)|(y & Hy & Hy0 & -> & HL0)].
  - simpl. destruct keepRoot.
    + eexists. split; [done|]. split_and!; [right; by split; [eexists|]|done|done|]. by rewrite lookup_insert_eq.
    + eexists. split; [done|]. rewrite delete_insert_eq.
      replace (delete 0 d) with (∅ : directory).
      * apply removed_all. intros q x Hx. destruct (decide (x = k)); [done|].
        assert (Hq : in_page (<[0:=node']> d) q x) by (by apply Hin). destruct Hq as (l' & Hl' & Hxl).
        autorewrite with dir in Hl'. case_decide; [simplify_eq/=; set_solver|].
        assert (q ∈ [0]) by (apply (chain_dom d _ Hc); by eexists). set_solver.
      * symmetry. apply dir_empty. intros q. rewrite idx_of_delete. case_decide; [by intros []|].
        rewrite (chain_dom d _ Hc), list_elem_of_singleton. tauto.
  - replace (y =? 0) with false by lia. replace (prev_page node =? 0) with false by lia. cbn [andb negb].
    destruct (nonroot_key _ _ y Hc' He' Hy) as (x & Hx).
    assert (Hrem : removed d k keepRoot (<[0:=node']> d)).
    { split_and!; [right; by split; [eexists|]|done|done|]. destruct keepRoot; [by rewrite lookup_insert_eq|].
      intros H. by destruct (H y x). }
    destruct Hx as (lx & Hlx & Hx). apply idx_of_page in Hlx as (pgy & Hpgy & Hly).
    destruct (y =? prev_page node); cbn [andb].
    + unfold peek_page. rewrite Hpgy. cbn [obind]. rewrite Hly. destruct lx; [set_solver|]. simpl.
      replace (y =? 0) with false by lia. destruct keepRoot; by eexists.
    + cbn [obind]. replace (y =? 0) with false by lia. destruct keepRoot; by eexists.
Qed.

Lemma dirRemove_spec {E} d p k keepRoot :
  dir_wf d -> in_page d p k ->
  exists d', @dirRemove E d p k keepRoot = Ret (true, d') /\ removed d k keepRoot d'.
Proof.
  intros Hwf Hin. destruct Hwf as [->|[[ps Hc] He]]; [by apply empty_no_page in Hin|].
  destruct Hin as (l & Hl & Hk). apply idx_of_page in Hl as (node & Hnode & Hi).
  destruct (page_columns d p node Hnode) as (C1 & C2 & C3). rewrite Hi in C1.
  unfold dirRemove. rewrite Hnode, Hi, bool_decide_eq_true_2 by done. cbv zeta. cbn [negb].
  destruct (erase_first k l) as [|x r] eqn:Er; simpl.
  - unfold rootPage. destruct (Z.eqb_spec p 0) as [->|Hp].
    + by apply (dirRemove_root_spec d ps k l).
    + by apply (dirRemove_unlink_spec d ps p k l).
  - eexists. split; [done|].
    destruct (entries_drop d (<[p:=set_Indexes (x :: r) node]> d) p l k (Some (x :: r))) as [He' Hin'];
      [done|done|done|left; rewrite Er; by auto|intros q; autorewrite with dir; by case_decide|].
    assert (Hpx : in_page (<[p:=set_Indexes (x :: r) node]> d) p x).
    { exists (x :: r). autorewrite with dir. rewrite decide_True by done. set_solver. }
    split_and!; [|done| |].
    + right. split; [|done]. exists ps. apply (chain_same d); [done|..]; intros q; autorewrite with dir;
        (case_decide; [subst q|done]); rewrite ?C1, ?C2, ?C3; done.
    + intros q [<-|?]%lookup_insert_is_Some'; [by eexists|done].
    + destruct keepRoot; [|intros H; by destruct (H p x)].
      destruct (chain_page d ps 0 Hc) as [root Hroot]; [by left|].
      destruct (decide (p = 0)) as [->|]; [by rewrite lookup_insert_eq|]. rewrite lookup_insert_ne by done. by eexists.
Qed.

Lemma dirRemove_absent {E} d p k keepRoot :
  ~ in_page d p k -> @dirRemove E d p k keepRoot = Ret (false, d).
Proof.
  intros Hn. unfold dirRemove. destruct (d !! p) as [node|] eqn:Hp; [|done].
  rewrite bool_decide_eq_false_2; [done|]. intros Hk. apply Hn. exists (Indexes node).
  by destruct (page_columns d p node Hp) as (-> & _).
Qed.

(** ** Directories as finite maps

    [dir_repr d m]: the directory [d] is well-formed and stores exactly the keys of
    [m], each in the page [m] gives; without keys there are no pages. *)

Definition dir_repr (d : directory) (m : gmap Z Z) : Prop :=
  dir_wf d /\ (forall p k, in_page d p k <-> m !! k = Some p) /\ (m = ∅ -> d = ∅).

Lemma dir_repr_empty : dir_repr ∅ ∅.
Proof.
  split_and!; [by left| |done]. intros p k. rewrite lookup_empty. split; [by intros ?%empty_no_page|done].
Qed.

(** The root page exists when there is a key. *)
Lemma dir_repr_root d m : dir_repr d m -> is_Some (d !! 0) <-> m <> ∅.
Proof.
  intros (Hwf & Hm & He). split.
  - intros [r Hr] ->. by rewrite (He eq_refl), lookup_empty in Hr.
  - intros Hne. destruct Hwf as [->|[[ps Hc] _]].
    + apply map_choose in Hne as (k & p & Hk). apply Hm in Hk. by apply empty_no_page in Hk.
    + destruct (chain_page d ps 0 Hc) as [pg ?]; [by left|]. by eexists.
Qed.

Lemma dir_repr_insert {E} cap d m k B :
  dir_repr d m -> m !! k = None -> pages_upto d B -> 0 <= B < 2 ^ 64 - 1 ->
  (exists p d', @dirInsert E cap d k = Ret (Some p, d') /\ dir_repr d' (<[k := p]> m) /\ pages_upto d' (B + 1)) \/
  (@dirInsert E cap d k = Ret (None, d) /\ cap = false /\ dirNodeMaxPages <= B + 1).
Proof.
  intros (Hwf & Hm & _) Hk Hu HB. unfold dirInsert.
  destruct (dirAdd_spec (E := E) cap false d k Hwf) as [(p & d' & Ed & Hwf' & Hin & Hup)|(Ed & Hcap & p & Hp & Hb)].
  { intros q Hq. apply Hm in Hq. congruence. }
  { intros p Hp. apply Hu in Hp. lia. }
  - left. exists p, d'. split; [done|]. split; [|apply Hup; [lia|done]].
    split_and!; [done| |intros H; by apply insert_non_empty in H]. intros q x. rewrite Hin, Hm.
    destruct (decide (x = k)) as [->|Hx].
    + rewrite lookup_insert_eq. split; [intros [?|[-> _]]; congruence|]. intros [= ->]. by right.
    + rewrite lookup_insert_ne by done. naive_solver.
  - right. split_and!; [done..|]. apply Hu in Hp. lia.
Qed.

Lemma dir_repr_remove {E} d m k p B :
  dir_repr d m -> m !! k = Some p -> pages_upto d B ->
  exists d', @dirRemove E d p k false = Ret (true, d') /\ dir_repr d' (delete k m) /\ pages_upto d' B.
Proof.
  intros (Hwf & Hm & _) Hk Hu.
  destruct (dirRemove_spec (E := E) d p k false Hwf) as (d' & Ed & Hwf' & Hin & Hsub & Hend); [by apply Hm|].
  exists d'. split; [done|].
  assert (Hr : forall q x, in_page d' q x <-> delete k m !! x = Some q).
  { intros q x. rewrite Hin, Hm. rewrite lookup_delete_Some. naive_solver. }
  split; [split_and!; [done..|]|intros q Hq; by apply Hu, Hsub].
  intros Hempty. apply Hend. intros q x Hx. apply Hr in Hx. by rewrite Hempty in Hx.
Qed.

(** ** Sequences of operations

    The clients of a directory keep the page [dirInsert] answers in the object
    itself ([sfOwnerNode]) and give it back to [dirRemove]; [m] are these pages. *)

Inductive dir_op := OpInsert (key : Z) | OpRemove (key : Z).

Definition dir_step {E} (fixPageCap : bool) (dm : directory * gmap Z Z) (op : dir_op)
    : outcome E (directory * gmap Z Z) :=
  let '(d, m) := dm in
  match op with
  | OpInsert key =>
    let* '(page, d) := dirInsert fixPageCap d key in
    Ret (d, match page with Some page => <[key := page]> m | None => m end)
  | OpRemove key =>
    let* '(ok, d) := dirRemove d (default 0 (m !! key)) key false in
    Ret (d, if (ok : bool) then delete key m else m)
  end.

Fixpoint dir_run {E} (fixPageCap : bool) (dm : directory * gmap Z Z) (ops : list dir_op)
    : outcome E (directory * gmap Z Z) :=
  match ops with
  | [] => Ret dm
  | op :: ops => let* dm := dir_step fixPageCap dm op in dir_run fixPageCap dm ops
  end.

(** The specification: a set of keys; a key that is in it is not added and one
    that is not in it is not removed. *)
Fixpoint spec_run (S : gset Z) (ops : list dir_op) : option (gset Z) :=
  match ops with
  | [] => Some S
  | OpInsert key :: ops => if bool_decide (key ∈ S) then None else spec_run ({[key]} ∪ S) ops
  | OpRemove key :: ops => if bool_decide (key ∈ S) then spec_run (S ∖ {[key]}) ops else None
  end.

(** Page numbers the directory can still reach. *)
Definition page_limit (fixPageCap : bool) : Z := if fixPageCap then 2 ^ 64 - 1 else dirNodeMaxPages - 1.

Lemma dir_run_spec {E} cap ops : forall d m B S,
  dir_repr d m -> pages_upto d B -> 0 <= B -> B + lenZ ops < page_limit cap ->
  spec_run (dom m) ops = Some S ->
  exists d' m', @dir_run E cap (d, m) ops = Ret (d', m') /\ dir_repr d' m' /\ dom m' = S.
Proof.
  induction ops as [|[k|k] ops IH]; intros d m B S Hr Hu HB Hlim Hs; simpl in *.
  - simplify_eq. by exists d, m.
  - autorewrite with mach in Hlim. pose proof (lenZ_nonneg ops).
    case_bool_decide as Hk; [done|]. rewrite not_elem_of_dom in Hk.
    destruct (dir_repr_insert (E := E) cap d m k B) as [(p & d' & -> & Hr' & Hu')|(_ & -> & Hl)];
      [done|done|done|unfold page_limit, dirNodeMaxPages in Hlim; destruct cap; lia| |].
    + simpl. apply (IH _ _ (B + 1)); [done|done|lia|lia|]. by rewrite dom_insert_L.
    + unfold page_limit in Hlim. lia.
  - autorewrite with mach in Hlim. pose proof (lenZ_nonneg ops).
    case_bool_decide as Hk; [|done]. apply elem_of_dom in Hk as [p Hp]. rewrite Hp. simpl.
    destruct (dir_repr_remove (E := E) d m k p B) as (d' & -> & Hr' & Hu'); [done..|].
    simpl. apply (IH _ _ B); [done|done|lia|lia|]. by rewrite dom_delete_L.
Qed.

(** C23: paged directories implement finite sets. From the empty directory, any
    sequence of insertions of absent keys and removals of present keys, short
    enough for the page numbers, runs without a [LogicError] or a refusal; at the
    end the pages form one circle through the root in increasing numbers, no page
    but the root is empty or over 32 keys, the keys are exactly those the sequence
    leaves, each in the one page [dirInsert] answered, and no page is left when
    no key is. *)
Theorem dir_run_refines {E} cap ops S :
  spec_run ∅ ops = Some S -> lenZ ops < page_limit cap ->
  exists d m, @dir_run E cap (∅, ∅) ops = Ret (d, m) /\ dir_repr d m /\ dom m = S.
Proof.
  intros Hs Hl. apply (dir_run_spec cap ops ∅ ∅ 0); [apply dir_repr_empty|by intros p []|lia|lia|].
  by rewrite dom_empty_L.
Qed.

(** 33 keys: two pages. *)
Definition inserts (n : nat) : list dir_op := OpInsert <$> seqZ 0 (Z.of_nat n).

Lemma dir_run_refines_witness :
  exists d m, @dir_run unit false (∅, ∅) (inserts 33 ++ [OpRemove 32; OpRemove 7]) = Ret (d, m) /\
    dir_repr d m /\ dom m = list_to_set (seqZ 0 7 ++ seqZ 8 24).
Proof.
  apply (dir_run_refines false (inserts 33 ++ [OpRemove 32; OpRemove 7])); [|done].
  vm_compute. reflexivity.
Defined.

(** ** Deletion of a whole directory *)

(** On a well-formed directory [emptyDirDelete] deletes what has no keys and
    nothing else. *)
Lemma emptyDirDelete_spec {E} d :
  dir_wf d ->
  exists r d', @emptyDirDelete E d = Ret (r, d') /\
    (((forall p k, ~ in_page d p k) /\ d' = ∅ /\ (r = true <-> d <> ∅)) \/
     ((exists p k, in_page d p k) /\ d' = d)).
Proof.
  unfold emptyDirDelete, rootPage. intros [->|[[ps Hc] He]].
  { rewrite lookup_empty. exists false, ∅. split; [done|left]. split_and!; [apply empty_no_page|done|done]. }
  destruct (chain_page d ps 0 Hc) as [root Hroot]; [by left|]. rewrite Hroot.
  destruct (page_columns d 0 root Hroot) as (Hi & Hn & Hv).
  destruct (Indexes root) as [|k l] eqn:Er; simpl.
  2: { exists false, d. split; [done|right]. split; [|done]. exists 0, k, (k :: l). set_solver. }
  destruct (root_links d ps root Hc Hroot) as [(-> & -> & ->)|(y & Hy & Hy0 & -> & HL0)].
  - simpl. exists true, (delete 0 d). split; [done|left].
    assert (Hno : forall p k, ~ in_page d p k).
    { intros p k (l & Hl & Hk). assert (p ∈ [0]) as ->%list_elem_of_singleton by (apply (chain_dom d _ Hc); by eexists).
      rewrite Hi in Hl. simplify_eq. set_solver. }
    split_and!; [done| |].
    + apply dir_empty. intros q. rewrite idx_of_delete. case_decide; [by intros []|].
      rewrite (chain_dom d _ Hc), list_elem_of_singleton. tauto.
    + split; [|done]. intros _ ->. by rewrite lookup_empty in Hroot.
  - replace (y =? 0) with false by lia. replace (prev_page root =? 0) with false by lia. cbn [andb negb].
    destruct (nonroot_key _ _ y Hc He Hy) as (x & Hx).
    assert (Hkey : exists p k, in_page d p k) by (by do 2 eexists).
    destruct Hx as (lx & Hlx & Hx). apply idx_of_page in Hlx as (pgy & Hpgy & Hly).
    destruct (y =? prev_page root); cbn [andb]; [|by exists true, d; auto].
    unfold peek_page. rewrite Hpgy. cbn [obind]. rewrite Hly. destruct lx; [set_solver|]. simpl.
    exists false, d. by auto.
Qed.

(** The two functions that delete a whole directory do not answer what their
    documentation says. A directory of three pages whose root page was emptied
    holds 33 keys: [emptyDirDelete] answers that it was found and deleted, and
    changes nothing. A directory from which a page was removed has a last page
    with the link 0 set: [dirDelete] gives every key to the callback, erases every
    page and answers [false]; without the removal it answers [true]. *)
Theorem dir_delete_gaps :
  match @dir_run unit true (∅, ∅) (inserts 65 ++ (OpRemove <$> seqZ 0 32)) with
  | Ret (d, m) => size m = 33%nat /\ @emptyDirDelete unit d = Ret (true, d)
  | _ => False
  end /\
  match @dir_run unit true (∅, ∅) (inserts 33 ++ [OpRemove 32]) with
  | Ret (d, m) => @dirDelete unit d = Ret (false, seqZ 0 32, ∅)
  | _ => False
  end /\
  match @dir_run unit true (∅, ∅) (inserts 32) with
  | Ret (d, m) => @dirDelete unit d = Ret (true, seqZ 0 32, ∅)
  | _ => False
  end.
Proof. vm_compute. repeat split. Qed.
