(* ===== verification/HookState.v ===== *)
(** * Hook state in the ledger (src/src/ripple/app/hook/impl/applyHook.cpp)

    [setHookState] and what it uses: the account root, the state objects, the
    directory of each namespace and the list of namespaces of the account. The
    keylets are hashes of their arguments ([indexHash]); they are the class
    [Keylets], and [KeyletsInj] says that different arguments have different
    hashes. The reserves are XRPAmounts ([int64_t] drops), far from overflow. *)

From S2P Require Import Prelude HookEnum LedgerDir.

(** ** The ledger *)

Class Keylets := {
  keylet_hookState : Z -> Z -> Z -> Z;       (** account, key, namespace *)
  keylet_hookStateDir : Z -> Z -> Z          (** account, namespace *)
}.

Class KeyletsInj `{Keylets} := {
  hookState_inj a k n a' k' n' :
    keylet_hookState a k n = keylet_hookState a' k' n' -> a = a' /\ k = k' /\ n = n';
  hookStateDir_inj a n a' n' :
    keylet_hookStateDir a n = keylet_hookStateDir a' n' -> a = a' /\ n = n'
}.

(** The account root: the fields that hooks depend on. *)
Record account_root := mkAccount {
  Balance : Z;
  OwnerCount : Z;
  HookStateCount : Z;
  HookNamespaces : option (list Z);
  AccountFlags : Z;
  TouchCount : option Z
}.

(** [ltHOOK_STATE] *)
Record hook_state := mkState {
  HookStateData : list Z;
  HookStateKey : Z;
  OwnerNode : Z
}.

(** [Fees] *)
Record Fees := mkFees { reserve : Z; increment : Z }.

(** A hook installed on an account. The hash is absent in a blank entry, the other
    fields where those of the definition apply; a grant is a hash and the account it
    is for. A parameter is its name and value. *)
Record hook_grant := mkGrant { grant_HookHash : Z; Authorize : option Z }.
Record hook_obj := mkHook {
  hook_HookHash : option Z;
  hook_HookNamespace : option Z;
  HookGrants : option (list hook_grant);
  hook_HookOn : option Z;
  hook_HookCanEmit : option Z;
  hook_Flags : option Z;
  hook_HookParameters : option (list (list Z * list Z))
}.

(** [ltHOOK_DEFINITION] *)
Record hook_def := mkDef {
  def_HookNamespace : Z;
  def_HookOn : Z;
  def_HookCanEmit : option Z;
  def_Flags : Z;
  def_HookParameters : option (list (list Z * list Z));
  def_HookSetTxnID : Z;
  def_CreateCode : list Z;
  def_HookCallbackFee : option Z;
  def_Fee : Z;
  def_HookApiVersion : Z;
  def_ReferenceCount : option Z
}.

(** The view of the ledger a hook runs on: the amendments, fees, account roots,
    state objects and directories by keylet, the hooks of the accounts (an account
    whose hook object has no [sfHooks] has no entry) and the hook definitions by
    their hash. *)
Record ledger := mkLedger {
  fixXahauV1 : bool;
  fixPageCap : bool;
  fees : Fees;
  accounts : gmap Z account_root;
  states : gmap Z hook_state;
  dirs : gmap Z directory;
  hooks : gmap Z (list hook_obj);
  definitions : gmap Z hook_def
}.

Definition set_account (acc : Z) (r : account_root) (led : ledger) : ledger :=
  mkLedger (fixXahauV1 led) (fixPageCap led) (fees led) (<[acc := r]> (accounts led)) (states led)
    (dirs led) (hooks led) (definitions led).
Definition set_states (s : gmap Z hook_state) (led : ledger) : ledger :=
  mkLedger (fixXahauV1 led) (fixPageCap led) (fees led) (accounts led) s
    (dirs led) (hooks led) (definitions led).
Definition set_dir (k : Z) (d : directory) (led : ledger) : ledger :=
  mkLedger (fixXahauV1 led) (fixPageCap led) (fees led) (accounts led) (states led)
    (<[k := d]> (dirs led)) (hooks led) (definitions led).

(** The pages of the directory with the keylet [k], and whether its root exists. *)
Definition dir_at (led : ledger) (k : Z) : directory := default ∅ (dirs led !! k).
Definition dir_exists (led : ledger) (k : Z) : bool := bool_decide (is_Some (dir_at led k !! rootPage)).

(** ** Results of a transaction *)

Inductive ter :=
| tesSUCCESS | tesPARTIAL | tefINTERNAL | tefBAD_LEDGER | temHOOK_DATA_TOO_LARGE | temDISABLED | temMALFORMED
| terNO_HOOK | tecCLAIM | tecNO_ENTRY | tecREQUIRES_FLAG | tecINSUFFICIENT_RESERVE | tecDIR_FULL | tecNO_LINE_INSUF_RESERVE
| tecHOOK_REJECTED | tecINTERNAL
| temINVALID_FLAG | temBAD_AMOUNT | temBAD_CURRENCY | temREDUNDANT | terNO_ACCOUNT | tecNO_ISSUER | tecDUPLICATE
| tecNO_PERMISSION | tecCANT_ACCEPT_OWN_NFTOKEN_OFFER | tecINSUFFICIENT_PAYMENT | tecINSUFFICIENT_FUNDS
| tecINSUF_RESERVE_SELLER | tecFAILED_PROCESSING | telFAILED_PROCESSING.

#[global] Instance ter_eq_dec : EqDecision ter.
Proof. solve_decision. Defined.

Definition isTesSuccess (t : ter) : bool := match t with tesSUCCESS | tesPARTIAL => true | _ => false end.

(** ** Owner counts and reserves *)

Definition accountReserve (f : Fees) (ownerCount : Z) : Z := reserve f + ownerCount * increment f.

Definition confineOwnerCount (current adjustment : Z) : Z :=
  let adjusted := u32 (current + adjustment) in
  if 0 <? adjustment then
    if adjusted <? current then 2 ^ 32 - 1 else adjusted
  else
    if current <? adjusted then 0 else adjusted.

Definition set_OwnerCount (v : Z) (r : account_root) : account_root :=
  mkAccount (Balance r) v (HookStateCount r) (HookNamespaces r) (AccountFlags r) (TouchCount r).
Definition set_HookStateCount (v : Z) (r : account_root) : account_root :=
  mkAccount (Balance r) (OwnerCount r) v (HookNamespaces r) (AccountFlags r) (TouchCount r).
Definition set_HookNamespaces (v : option (list Z)) (r : account_root) : account_root :=
  mkAccount (Balance r) (OwnerCount r) (HookStateCount r) v (AccountFlags r) (TouchCount r).

Definition adjustOwnerCount (r : account_root) (amount : Z) : account_root :=
  set_OwnerCount (confineOwnerCount (OwnerCount r) amount) r.

Definition computeHookStateOwnerCount (hookStateCount : Z) : Z := hookStateCount.

(** ** The namespaces of an account *)

Definition namespaces (r : account_root) : list Z := default [] (HookNamespaces r).

Definition addHookNamespaceEntry (r : account_root) (ns : Z) : account_root :=
  if bool_decide (ns ∈ namespaces r) then r
  else set_HookNamespaces (Some (namespaces r ++ [ns])) r.

(** The elements of a [std::set] made from [l], in order. *)
Definition std_set (l : list Z) : list Z := merge_sort Z.le (remove_dups l).

Definition removeHookNamespaceEntry (r : account_root) (ns : Z) : account_root :=
  match HookNamespaces r with
  | None => r
  | Some vec =>
    if is_nil vec then set_HookNamespaces None r
    else
      let spaces := std_set (filter (fun u => u <> ns) vec) in
      if lenZ spaces =? lenZ vec then r
      else if is_nil spaces then set_HookNamespaces None r
      else set_HookNamespaces (Some spaces) r
  end.

Definition maxHookStateDataSize : Z := 256.

Section Ledger.
Context `{Keylets}.

(** ** [setHookState] *)

(** The deletion of the existing entry [st]. *)
Definition delete_state {E} (led : ledger) (acc ns key : Z) (sle : account_root) (st : hook_state)
    : outcome E (ter * ledger) :=
  let hookStateKeylet := keylet_hookState acc key ns in
  let hookStateDirKeylet := keylet_hookStateDir acc ns in
  let oldStateReserve := computeHookStateOwnerCount (HookStateCount sle) in
  if negb (dir_exists led hookStateDirKeylet) then Ret (tefBAD_LEDGER, led)
  else
    let* '(ok, d) := dirRemove (dir_at led hookStateDirKeylet) (OwnerNode st) hookStateKeylet false in
    if negb ok then Ret (tefBAD_LEDGER, led)
    else
      let led := set_dir hookStateDirKeylet d led in
      let nsDestroyed := negb (dir_exists led hookStateDirKeylet) in
      let led := set_states (delete hookStateKeylet (states led)) led in
      let stateCount := if 0 <? HookStateCount sle then HookStateCount sle - 1 else HookStateCount sle in
      let sle := if computeHookStateOwnerCount stateCount <? oldStateReserve then adjustOwnerCount sle (-1) else sle in
      let sle := set_HookStateCount stateCount sle in
      let sle := if nsDestroyed then removeHookNamespaceEntry sle ns else sle in
      Ret (tesSUCCESS, set_account acc sle led).

(** The creation of an entry. *)
Definition create_state {E} (led : ledger) (acc ns key : Z) (data : list Z) (sle : account_root)
    : outcome E (ter * ledger) :=
  let hookStateKeylet := keylet_hookState acc key ns in
  let hookStateDirKeylet := keylet_hookStateDir acc ns in
  let oldStateReserve := computeHookStateOwnerCount (HookStateCount sle) in
  let stateCount := u32 (HookStateCount sle + 1) in
  let ownerCount := u32 (OwnerCount sle + 1) in
  let grown := oldStateReserve <? computeHookStateOwnerCount stateCount in
  if grown && (Balance sle <? accountReserve (fees led) ownerCount) then Ret (tecINSUFFICIENT_RESERVE, led)
  else
    let sle := if grown then adjustOwnerCount sle 1 else sle in
    let sle := set_HookStateCount stateCount sle in
    let led := set_account acc sle led in
    let nsExists := dir_exists led hookStateDirKeylet in
    let* '(page, d) := dirInsert (fixPageCap led) (dir_at led hookStateDirKeylet) hookStateKeylet in
    match page with
    | None => Ret (tecDIR_FULL, led)
    | Some page =>
      let led := set_dir hookStateDirKeylet d led in
      let led := set_states (<[hookStateKeylet := mkState data key page]> (states led)) led in
      let sle := if negb nsExists then addHookNamespaceEntry sle ns else sle in
      Ret (tesSUCCESS, set_account acc sle led)
    end.

Definition setHookState {E} (led : ledger) (acc ns key : Z) (data : list Z) : outcome E (ter * ledger) :=
  match accounts led !! acc with
  | None => Ret (tefINTERNAL, led)
  | Some sle =>
    if maxHookStateDataSize <? lenZ data then Ret (temHOOK_DATA_TOO_LARGE, led)
    else
      let hookStateKeylet := keylet_hookState acc key ns in
      match states led !! hookStateKeylet, is_nil data with
      | None, true => Ret (tesSUCCESS, led)
      | Some st, true => delete_state led acc ns key sle st
      | None, false => create_state led acc ns key data sle
      | Some st, false =>
        Ret (tesSUCCESS, set_states (<[hookStateKeylet := mkState data key (OwnerNode st)]> (states led)) led)
      end
  end.

End Ledger.
