(* ===== verification/HookStateFacts.v ===== *)
(** * Hook state in the ledger: the invariant

    [ledger_wf]: for every account the counter [HookStateCount] is the number of
    its state objects, each of which is in the owner count, the list of namespaces
    has exactly those with objects, without repetition, and the directory of each
    namespace has exactly its objects, each in the page its [OwnerNode] says.
    [setHookState] keeps it, and it is a finite map update or fails for one of the
    stated reasons. *)

From S2P Require Import Prelude HookEnum LedgerDir LedgerDirFacts HookState.

Section Facts.
Context `{KeyletsInj}.

(** The data of a state entry. *)
Definition state_of (led : ledger) (a n k : Z) : option (list Z) :=
  HookStateData <$> states led !! keylet_hookState a k n.

Record account_ok (led : ledger) (a : Z) (r : account_root) (S : gset (Z * Z)) : Prop := {
  ok_set n k : (n, k) ∈ S <-> is_Some (state_of led a n k);
  ok_count : HookStateCount r = Z.of_nat (size S);
  ok_owner : HookStateCount r <= OwnerCount r < 2 ^ 32;
  ok_ns_nodup : NoDup (namespaces r);
  ok_ns n : n ∈ namespaces r <-> exists k, (n, k) ∈ S
}.

Record dir_ok (led : ledger) (a n : Z) (m : gmap Z Z) : Prop := {
  ok_repr : dir_repr (dir_at led (keylet_hookStateDir a n)) m;
  ok_page x p : m !! x = Some p <->
    exists k st, x = keylet_hookState a k n /\ states led !! x = Some st /\ OwnerNode st = p
}.

Record ledger_wf (led : ledger) : Prop := {
  wf_account a r : accounts led !! a = Some r -> exists S, account_ok led a r S;
  wf_dir a n : exists m, dir_ok led a n m;
  wf_orphan a n k : is_Some (state_of led a n k) -> is_Some (accounts led !! a);
  wf_nonempty a n k : state_of led a n k <> Some []
}.

Definition pages_small (led : ledger) (B : Z) : Prop := forall k, pages_upto (dir_at led k) B.

Lemma state_of_other led led' a n k a' n' k' :
  (forall x, x <> keylet_hookState a k n -> states led' !! x = states led !! x) ->
  (a', n', k') <> (a, n, k) -> state_of led' a' n' k' = state_of led a' n' k'.
Proof.
  intros Hs Hne. unfold state_of. rewrite Hs; [done|]. intros Heq. apply hookState_inj in Heq. naive_solver.
Qed.

Lemma dir_at_set_dir led k d k' : dir_at (set_dir k d led) k' = if decide (k' = k) then d else dir_at led k'.
Proof.
  unfold dir_at, set_dir. simpl. case_decide; subst; [by rewrite lookup_insert_eq|by rewrite lookup_insert_ne].
Qed.

(** What a change of the entry [(a, n, k)] has to establish. *)
Lemma wf_step led led' a n k r r' :
  ledger_wf led -> accounts led !! a = Some r -> accounts led' = <[a := r']> (accounts led) ->
  (forall x, x <> keylet_hookState a k n -> states led' !! x = states led !! x) ->
  (forall x, x <> keylet_hookStateDir a n -> dir_at led' x = dir_at led x) ->
  (exists S, account_ok led' a r' S) -> (exists m, dir_ok led' a n m) -> state_of led' a n k <> Some [] ->
  ledger_wf led'.
Proof.
  intros Hwf Ha Hacc Hst Hdir HS Hm Hne. split.
  - intros a' r1. rewrite Hacc. destruct (decide (a' = a)) as [->|Hna].
    { rewrite lookup_insert_eq. by intros [= <-]. }
    rewrite lookup_insert_ne by done. intros (S & HS')%(wf_account led Hwf). exists S.
    split; [|apply HS'..]. intros n' k'. rewrite (state_of_other led led' a n k); [apply HS'|done|naive_solver].
  - intros a' n'. destruct (decide ((a', n') = (a, n))) as [[= -> ->]|Hnd]; [done|].
    destruct (wf_dir led Hwf a' n') as (m & Hm1 & Hm2). exists m. split.
    + rewrite Hdir; [done|]. intros Heq. apply hookStateDir_inj in Heq. naive_solver.
    + intros x p. rewrite Hm2. split; intros (k' & st & -> & Hx & Hp); exists k', st; (split_and!; [done| |done]).
      * rewrite Hst; [done|]. intros Heq. apply hookState_inj in Heq. naive_solver.
      * rewrite Hst in Hx; [done|]. intros Heq. apply hookState_inj in Heq. naive_solver.
  - intros a' n' k'. rewrite Hacc, lookup_insert_is_Some'.
    destruct (decide ((a', n', k') = (a, n, k))) as [[= -> -> ->]|Hne']; [by left|].
    rewrite (state_of_other led led' a n k) by done. intros Hs. right. by apply (wf_orphan led Hwf a' n' k').
  - intros a' n' k'. destruct (decide ((a', n', k') = (a, n, k))) as [[= -> -> ->]|Hne']; [done|].
    rewrite (state_of_other led led' a n k) by done. apply Hwf.
Qed.

(** The namespace directory exists when the namespace has an entry. *)
Lemma dir_exists_spec led a n m :
  dir_ok led a n m -> dir_exists led (keylet_hookStateDir a n) = true <-> exists k, is_Some (state_of led a n k).
Proof.
  intros [Hr Hp]. unfold dir_exists. rewrite bool_decide_eq_true. rewrite (dir_repr_root _ _ Hr). split.
  - intros (x & p & Hx)%map_choose. apply Hp in Hx as (k & st & -> & Hs & _). exists k.
    unfold state_of. rewrite Hs. by eexists.
  - intros (k & data & Hd) ->. unfold state_of in Hd. apply fmap_Some in Hd as (st & Hst & _).
    assert (Hc : (∅ : gmap Z Z) !! keylet_hookState a k n = Some (OwnerNode st)) by (apply Hp; by exists k, st).
    by rewrite lookup_empty in Hc.
Qed.

(** ** The list of namespaces *)

Lemma std_set_perm l : NoDup l -> std_set l ≡ₚ l.
Proof.
  intros Hn. unfold std_set. rewrite merge_sort_Permutation.
  apply NoDup_Permutation; [apply NoDup_remove_dups|done|apply elem_of_remove_dups].
Qed.

Lemma std_set_length l : NoDup l -> lenZ (std_set l) = lenZ l.
Proof. intros Hn. unfold lenZ. by rewrite std_set_perm. Qed.

Lemma namespaces_remove r ns :
  NoDup (namespaces r) ->
  NoDup (namespaces (removeHookNamespaceEntry r ns)) /\
  (forall n, n ∈ namespaces (removeHookNamespaceEntry r ns) <-> n ∈ namespaces r /\ n <> ns).
Proof.
  unfold removeHookNamespaceEntry, namespaces at 1 2 3 4. intros Hn.
  destruct (HookNamespaces r) as [vec|] eqn:Er; simpl; [|rewrite Er; simpl; set_solver].
  destruct vec as [|v vec]; simpl is_nil; cbv iota; [simpl; set_solver|].
  set (l := v :: vec) in *. pose proof (NoDup_filter (fun u => u <> ns) l Hn) as Hf.
  rewrite (std_set_length _ Hf).
  assert (Hel : forall n, n ∈ std_set (filter (fun u => u <> ns) l) <-> n ∈ l /\ n <> ns).
  { intros n. rewrite (std_set_perm _ Hf), list_elem_of_filter. tauto. }
  destruct (Z.eqb_spec (lenZ (filter (fun u => u <> ns) l)) (lenZ l)) as [Hlen|Hlen].
  - rewrite Er. simpl. split; [done|]. intros n. split; [|tauto]. intros Hin. split; [done|].
    intros ->. unfold lenZ in Hlen. apply Nat2Z.inj in Hlen. 
    pose proof (length_filter_lt (fun u => u <> ns) l ns Hin ltac:(tauto)). lia.
  - destruct (is_nil _) eqn:Enil.
    + apply is_nil_spec in Enil. simpl. split; [constructor|]. intros n. rewrite <- Hel, Enil. set_solver.
    + simpl. split; [by rewrite (std_set_perm _ Hf)|done].
Qed.

Lemma namespaces_add r ns :
  NoDup (namespaces r) ->
  NoDup (namespaces (addHookNamespaceEntry r ns)) /\
  (forall n, n ∈ namespaces (addHookNamespaceEntry r ns) <-> n ∈ namespaces r \/ n = ns).
Proof.
  intros Hn. unfold addHookNamespaceEntry. case_bool_decide; [naive_solver|]. unfold namespaces at 1 2. simpl.
  split; [|set_solver]. apply NoDup_app. split_and!; [done|set_solver|apply NoDup_singleton].
Qed.

Lemma removeHookNamespaceEntry_frame r ns :
  let r' := removeHookNamespaceEntry r ns in
  Balance r' = Balance r /\ OwnerCount r' = OwnerCount r /\ HookStateCount r' = HookStateCount r.
Proof. unfold removeHookNamespaceEntry. destruct (HookNamespaces r); simpl; [|done]. repeat case_match; done. Qed.

Lemma addHookNamespaceEntry_frame r ns :
  let r' := addHookNamespaceEntry r ns in
  Balance r' = Balance r /\ OwnerCount r' = OwnerCount r /\ HookStateCount r' = HookStateCount r.
Proof. unfold addHookNamespaceEntry. by case_bool_decide. Qed.

(** ** One update *)

(** What an entry holds after [data] was set: no data is a deletion. *)
Definition stored (data : list Z) : option (list Z) := if is_nil data then None else Some data.

(** The change of the number of entries. *)
Definition delta (old : option (list Z)) (data : list Z) : Z :=
  match old, is_nil data with None, false => 1 | Some _, true => -1 | _, _ => 0 end.

Definition same_env (led led' : ledger) : Prop :=
  fees led' = fees led /\ fixXahauV1 led' = fixXahauV1 led /\ fixPageCap led' = fixPageCap led /\
  hooks led' = hooks led /\ definitions led' = definitions led.

Record state_update (B : Z) (led led' : ledger) (a n k : Z) (data : list Z) (r r' : account_root) : Prop := {
  up_wf : ledger_wf led';
  up_state a' n' k' : state_of led' a' n' k' =
    if decide ((a', n', k') = (a, n, k)) then stored data else state_of led a' n' k';
  up_accounts : accounts led' = <[a := r']> (accounts led);
  up_balance : Balance r' = Balance r;
  up_owner : OwnerCount r' = OwnerCount r + delta (state_of led a n k) data;
  up_env : same_env led led';
  up_pages : pages_small led' (B + 1)
}.

Lemma state_of_update led led' a n k data st :
  (forall x, x <> keylet_hookState a k n -> states led' !! x = states led !! x) ->
  states led' !! keylet_hookState a k n = st -> HookStateData <$> st = stored data ->
  forall a' n' k', state_of led' a' n' k' =
    if decide ((a', n', k') = (a, n, k)) then stored data else state_of led a' n' k'.
Proof.
  intros Hs Hst Hd a' n' k'. case_decide as Heq; [|by apply (state_of_other led led' a n k)].
  simplify_eq. unfold state_of. by rewrite Hd.
Qed.

Lemma pages_small_mono led B : pages_small led B -> pages_small led (B + 1).
Proof. intros Hp k p Hk. apply Hp in Hk. lia. Qed.

Lemma stored_nonempty data : stored data <> Some [].
Proof. by destruct data. Qed.

(** An existing entry gets other data. *)
Lemma update_existing B led a n k data r st :
  ledger_wf led -> pages_small led B -> accounts led !! a = Some r -> states led !! keylet_hookState a k n = Some st ->
  data <> [] ->
  state_update B led (set_states (<[keylet_hookState a k n := mkState data k (OwnerNode st)]> (states led)) led)
    a n k data r r.
Proof.
  intros Hwf HP Ha Hst Hd.
  set (led' := set_states (<[keylet_hookState a k n := mkState data k (OwnerNode st)]> (states led)) led).
  assert (Hother : forall x, x <> keylet_hookState a k n -> states led' !! x = states led !! x).
  { intros x Hx. unfold led'. simpl. by rewrite lookup_insert_ne. }
  assert (Hdata : stored data = Some data) by (by destruct data).
  assert (Hup := state_of_update led led' a n k data (Some (mkState data k (OwnerNode st))) Hother
           ltac:(by unfold led'; simpl; rewrite lookup_insert_eq) ltac:(by rewrite Hdata)).
  assert (Hold : state_of led a n k = Some (HookStateData st)) by (unfold state_of; by rewrite Hst).
  split; try done.
  - apply (wf_step led led' a n k r r); try done.
    + unfold led'. simpl. by rewrite insert_id.
    + destruct (wf_account led Hwf a r Ha) as (S & HS). exists S. split; try apply HS.
      intros n' k'. rewrite (ok_set _ _ _ _ HS), Hup. case_decide as Heq; [|done]. simplify_eq.
      rewrite Hold, Hdata. split; intros; by eexists.
    + destruct (wf_dir led Hwf a n) as (m & Hm1 & Hm2). exists m. split; [done|].
      intros x p. rewrite Hm2. destruct (decide (x = keylet_hookState a k n)) as [->|Hx].
      * unfold led'. simpl. rewrite lookup_insert_eq.
        split; intros (k' & st' & Hk' & Hs & Hp); exists k'; (eexists; split_and!; [done|done|]); simplify_eq/=; done.
      * rewrite Hother by done. done.
    + rewrite Hup, decide_True by done. apply stored_nonempty.
  - unfold led'. simpl. by rewrite insert_id.
  - unfold delta. rewrite Hold. destruct data; [done|]. simpl. lia.
  - by apply pages_small_mono.
Qed.

(** ** Creation *)

Lemma confineOwnerCount_inc c : 0 <= c -> c + 1 < 2 ^ 32 -> confineOwnerCount c 1 = c + 1.
Proof. intros ? ?. unfold confineOwnerCount. rewrite u32_small by lia. simpl. by destruct (Z.ltb_spec (c + 1) c); [lia|]. Qed.

Lemma confineOwnerCount_dec c : 0 < c < 2 ^ 32 -> confineOwnerCount c (-1) = c - 1.
Proof.
  intros Hc. unfold confineOwnerCount. rewrite u32_small by lia. simpl.
  destruct (Z.ltb_spec c (c + -1)); lia.
Qed.

(** The new object is not in the directory of its namespace; once stored there it
    is in the page its [OwnerNode] says. *)
Lemma dir_ok_fresh led a n k m : dir_ok led a n m -> state_of led a n k = None -> m !! keylet_hookState a k n = None.
Proof.
  intros [_ Hp] Hs. destruct (m !! keylet_hookState a k n) as [p|] eqn:Em; [|done].
  apply Hp in Em as (k' & st & Heq & Hst & _). apply hookState_inj in Heq as (_ & <- & _).
  unfold state_of in Hs. by rewrite Hst in Hs.
Qed.

Lemma dir_ok_create led led' a n k m data page d :
  dir_ok led a n m -> dir_repr d (<[keylet_hookState a k n := page]> m) ->
  dir_at led' (keylet_hookStateDir a n) = d ->
  states led' = <[keylet_hookState a k n := mkState data k page]> (states led) ->
  dir_ok led' a n (<[keylet_hookState a k n := page]> m).
Proof.
  intros [_ Hp] Hr Hd Hs. split; [by rewrite Hd|]. intros x p. rewrite Hs.
  destruct (decide (x = keylet_hookState a k n)) as [->|Hx].
  - rewrite !lookup_insert_eq. split.
    + intros [= ->]. by exists k, (mkState data k p).
    + intros (k' & st & _ & Hst & Hp'). by simplify_eq/=.
  - rewrite !lookup_insert_ne by done. apply Hp.
Qed.

Lemma account_ok_create led led' a n k r r' S :
  account_ok led a r S -> state_of led a n k = None ->
  (forall n' k', is_Some (state_of led' a n' k') <-> (n', k') = (n, k) \/ is_Some (state_of led a n' k')) ->
  HookStateCount r' = HookStateCount r + 1 -> OwnerCount r' = OwnerCount r + 1 -> OwnerCount r + 1 < 2 ^ 32 ->
  NoDup (namespaces r') -> (forall n', n' ∈ namespaces r' <-> n' ∈ namespaces r \/ n' = n) ->
  account_ok led' a r' ({[(n, k)]} ∪ S).
Proof.
  intros HS Hnone Hst Hc Ho Hb Hnd Hns.
  assert (Hfresh : (n, k) ∉ S) by (rewrite (ok_set _ _ _ _ HS), Hnone; by intros []).
  pose proof (ok_owner _ _ _ _ HS). split.
  - intros n' k'. rewrite Hst, <- (ok_set _ _ _ _ HS). set_solver.
  - rewrite Hc, (ok_count _ _ _ _ HS), size_union by set_solver. rewrite size_singleton. lia.
  - lia.
  - done.
  - intros n'. rewrite Hns, (ok_ns _ _ _ _ HS). split.
    + intros [(k' & Hk')| ->]; [exists k'|exists k]; set_solver.
    + intros (k' & Hk'). rewrite elem_of_union, elem_of_singleton in Hk'. naive_solver.
Qed.

Lemma create_state_spec {E} led a n k data r B :
  ledger_wf led -> accounts led !! a = Some r -> state_of led a n k = None -> data <> [] ->
  OwnerCount r + 1 < 2 ^ 32 -> accountReserve (fees led) (OwnerCount r + 1) <= Balance r ->
  pages_small led B -> 0 <= B < page_limit (fixPageCap led) ->
  exists led' r', @create_state _ E led a n k data r = Ret (tesSUCCESS, led') /\ state_update B led led' a n k data r r'.
Proof.
  intros Hwf Ha Hnone Hd Hoc Hres HP HB. destruct (wf_account led Hwf a r Ha) as (S & HS).
  destruct (wf_dir led Hwf a n) as (m & Hm). pose proof (dir_ok_fresh led a n k m Hm Hnone) as Hfresh.
  pose proof (ok_owner _ _ _ _ HS) as Hown. pose proof (ok_count _ _ _ _ HS) as Hcnt.
  pose proof (dir_exists_spec led a n m Hm) as Hex.
  unfold create_state, computeHookStateOwnerCount. cbv zeta.
  rewrite (u32_small (HookStateCount r + 1)), (u32_small (OwnerCount r + 1)) by lia.
  replace (HookStateCount r <? HookStateCount r + 1) with true by lia.
  replace (Balance r <? accountReserve (fees led) (OwnerCount r + 1)) with false by lia. cbn [andb].
  unfold adjustOwnerCount. rewrite confineOwnerCount_inc by lia.
  set (r1 := set_HookStateCount (HookStateCount r + 1) (set_OwnerCount (OwnerCount r + 1) r)).
  change (fixPageCap (set_account a r1 led)) with (fixPageCap led).
  change (dir_at (set_account a r1 led)) with (dir_at led).
  change (dir_exists (set_account a r1 led)) with (dir_exists led).
  destruct (dir_repr_insert (E := E) (fixPageCap led) (dir_at led (keylet_hookStateDir a n)) m
              (keylet_hookState a k n) B) as [(page & d' & -> & Hr' & Hup)|(_ & Hcap & Hl)];
    [apply Hm|done|apply HP|unfold page_limit, dirNodeMaxPages in HB; destruct (fixPageCap led); lia|
    |exfalso; rewrite Hcap in HB; unfold page_limit in HB; lia].
  cbn [obind].
  set (ex := dir_exists led (keylet_hookStateDir a n)) in *.
  set (r' := if negb ex then addHookNamespaceEntry r1 n else r1).
  assert (Hfr : Balance r' = Balance r /\ OwnerCount r' = OwnerCount r + 1 /\ HookStateCount r' = HookStateCount r + 1).
  { unfold r'. destruct ex; [done|]. exact (addHookNamespaceEntry_frame r1 n). }
  assert (Hns : NoDup (namespaces r') /\ (forall n', n' ∈ namespaces r' <-> n' ∈ namespaces r \/ n' = n)).
  { unfold r'. destruct ex; cbn [negb]; [|exact (namespaces_add r1 n (ok_ns_nodup _ _ _ _ HS))]. change (namespaces r1) with (namespaces r).
    split; [apply HS|]. intros n'. split; [tauto|]. intros [?| ->]; [done|].
    apply (ok_ns _ _ _ _ HS). destruct Hex as [Hex _]. destruct (Hex eq_refl) as (k' & Hk'). exists k'.
    by apply (ok_set _ _ _ _ HS). }
  eexists _, r'. split; [done|]. set (led' := set_account a r' _).
  assert (Hother : forall x, x <> keylet_hookState a k n -> states led' !! x = states led !! x).
  { intros x Hx. unfold led'. simpl. by rewrite lookup_insert_ne. }
  assert (Hdata : stored data = Some data) by (by destruct data).
  assert (Hst := state_of_update led led' a n k data (Some (mkState data k page)) Hother
           ltac:(by unfold led'; simpl; rewrite lookup_insert_eq) ltac:(by rewrite Hdata)).
  assert (Hdir : forall x, dir_at led' x = if decide (x = keylet_hookStateDir a n) then d' else dir_at led x).
  { intros x. apply (dir_at_set_dir (set_account a r1 led)). }
  assert (Hacc : accounts led' = <[a:=r']> (accounts led)) by (unfold led'; simpl; by rewrite insert_insert_eq).
  split; try done; try apply Hfr.
  - apply (wf_step led led' a n k r r'); try done.
    + intros x Hx. by rewrite Hdir, decide_False.
    + exists ({[(n, k)]} ∪ S). apply (account_ok_create led led' a n k r r' S); try done; try apply Hfr; try apply Hns.
      intros n' k'. rewrite Hst, Hdata. case_decide; [naive_solver|]. split; [by right|]. naive_solver.
    + exists (<[keylet_hookState a k n := page]> m).
      apply (dir_ok_create led led' a n k m data page d'); [done|done|by rewrite Hdir, decide_True|done].
    + rewrite Hst, decide_True by done. apply stored_nonempty.
  - destruct Hfr as (_ & -> & _). rewrite Hnone. unfold delta. by destruct data.
  - intros x. rewrite Hdir. case_decide; [done|by apply pages_small_mono].
Qed.

(** ** Deletion *)

Lemma dir_ok_delete led led' a n k m d :
  dir_ok led a n m -> dir_repr d (delete (keylet_hookState a k n) m) ->
  dir_at led' (keylet_hookStateDir a n) = d ->
  states led' = delete (keylet_hookState a k n) (states led) ->
  dir_ok led' a n (delete (keylet_hookState a k n) m).
Proof.
  intros [_ Hp] Hr Hd Hs. split; [by rewrite Hd|]. intros x p. rewrite Hs.
  destruct (decide (x = keylet_hookState a k n)) as [->|Hx].
  - rewrite !lookup_delete_eq. naive_solver.
  - rewrite !lookup_delete_ne by done. apply Hp.
Qed.

Lemma elem_size (S : gset (Z * Z)) x : x ∈ S -> (0 < size S)%nat.
Proof.
  intros Hx. pose proof (subseteq_size {[x]} S ltac:(set_solver)) as Hs. rewrite size_singleton in Hs. lia.
Qed.

Lemma account_ok_delete led led' a n k r r' S :
  account_ok led a r S -> (n, k) ∈ S ->
  (forall n' k', is_Some (state_of led' a n' k') <-> (n', k') <> (n, k) /\ is_Some (state_of led a n' k')) ->
  HookStateCount r' = HookStateCount r - 1 -> OwnerCount r' = OwnerCount r - 1 ->
  NoDup (namespaces r') ->
  (forall n', n' ∈ namespaces r' <-> n' ∈ namespaces r /\ (n' = n -> exists k', is_Some (state_of led' a n k'))) ->
  account_ok led' a r' (S ∖ {[(n, k)]}).
Proof.
  intros HS Hin Hst Hc Ho Hnd Hns.
  assert (Hset : forall n' k', (n', k') ∈ S ∖ {[(n, k)]} <-> is_Some (state_of led' a n' k')).
  { intros n' k'. rewrite Hst, <- (ok_set _ _ _ _ HS). set_solver. }
  pose proof (ok_owner _ _ _ _ HS). split.
  - done.
  - rewrite Hc, (ok_count _ _ _ _ HS), size_difference by set_solver. rewrite size_singleton.
    pose proof (elem_size _ _ Hin). lia.
  - lia.
  - done.
  - intros n'. rewrite Hns, (ok_ns _ _ _ _ HS). split.
    + intros [(k' & Hk') Himp]. destruct (decide (n' = n)) as [->|Hne].
      * destruct (Himp eq_refl) as (k2 & Hk2). exists k2. by apply Hset.
      * exists k'. set_solver.
    + intros (k' & Hk'). split; [exists k'; set_solver|]. intros ->. exists k'. by apply Hset.
Qed.

Lemma delete_state_spec {E} led a n k r st B :
  ledger_wf led -> accounts led !! a = Some r -> states led !! keylet_hookState a k n = Some st ->
  pages_small led B ->
  exists led' r', @delete_state _ E led a n k r st = Ret (tesSUCCESS, led') /\ state_update B led led' a n k [] r r'.
Proof.
  intros Hwf Ha Hst HP. destruct (wf_account led Hwf a r Ha) as (S & HS).
  destruct (wf_dir led Hwf a n) as (m & Hm).
  assert (Hold : state_of led a n k = Some (HookStateData st)) by (unfold state_of; by rewrite Hst).
  assert (Hin : (n, k) ∈ S) by (apply (ok_set _ _ _ _ HS); rewrite Hold; by eexists).
  pose proof (elem_size _ _ Hin) as Hpos.
  pose proof (ok_owner _ _ _ _ HS) as Hown. pose proof (ok_count _ _ _ _ HS) as Hcnt.
  unfold delete_state, computeHookStateOwnerCount. cbv zeta.
  assert (dir_exists led (keylet_hookStateDir a n) = true) as ->.
  { apply (dir_exists_spec led a n m Hm). exists k. rewrite Hold. by eexists. }
  cbn [negb].
  destruct (dir_repr_remove (E := E) (dir_at led (keylet_hookStateDir a n)) m (keylet_hookState a k n) (OwnerNode st) B)
    as (d & -> & Hr & Hup); [apply Hm|apply (ok_page _ _ _ _ Hm); by exists k, st|apply HP|].
  cbn [obind negb]. replace (0 <? HookStateCount r) with true by lia.
  replace (HookStateCount r - 1 <? HookStateCount r) with true by lia.
  unfold adjustOwnerCount. rewrite confineOwnerCount_dec by lia.
  set (ex := dir_exists (set_dir (keylet_hookStateDir a n) d led) (keylet_hookStateDir a n)).
  set (r1 := set_HookStateCount (HookStateCount r - 1) (set_OwnerCount (OwnerCount r - 1) r)).
  set (r' := if negb ex then removeHookNamespaceEntry r1 n else r1).
  eexists _, r'. split; [done|]. set (led' := set_account a r' _).
  assert (Hdir : forall x, dir_at led' x = if decide (x = keylet_hookStateDir a n) then d else dir_at led x).
  { intros x. apply (dir_at_set_dir led). }
  assert (Hm' : dir_ok led' a n (delete (keylet_hookState a k n) m)).
  { apply (dir_ok_delete led led' a n k m d); [done|done|by rewrite Hdir, decide_True|done]. }
  assert (Hex : ex = true <-> exists k', is_Some (state_of led' a n k')).
  { rewrite <- (dir_exists_spec led' a n _ Hm'). done. }
  assert (Hfr : Balance r' = Balance r /\ OwnerCount r' = OwnerCount r - 1 /\ HookStateCount r' = HookStateCount r - 1).
  { unfold r'. destruct ex; [done|]. exact (removeHookNamespaceEntry_frame r1 n). }
  assert (Hns : NoDup (namespaces r') /\
    (forall n', n' ∈ namespaces r' <-> n' ∈ namespaces r /\ (n' = n -> exists k', is_Some (state_of led' a n k')))).
  { unfold r'. destruct ex; cbn [negb].
    - change (namespaces r1) with (namespaces r). split; [apply HS|]. naive_solver.
    - destruct (namespaces_remove r1 n (ok_ns_nodup _ _ _ _ HS)) as [Hnd Hel]. split; [done|].
      intros n'. rewrite Hel. change (namespaces r1) with (namespaces r). split; [naive_solver|].
      intros [? Himp]. split; [done|]. intros ->. by apply Hex in Himp. }
  assert (Hother : forall x, x <> keylet_hookState a k n -> states led' !! x = states led !! x).
  { intros x Hx. unfold led'. simpl. by rewrite lookup_delete_ne. }
  assert (Hst' := state_of_update led led' a n k [] None Hother
           ltac:(by unfold led'; simpl; rewrite lookup_delete_eq) eq_refl).
  split; try done; try apply Hfr.
  - apply (wf_step led led' a n k r r'); try done.
    + intros x Hx. by rewrite Hdir, decide_False.
    + exists (S ∖ {[(n, k)]}). apply (account_ok_delete led led' a n k r r' S); try done; try apply Hfr; try apply Hns.
      intros n' k'. rewrite Hst'. case_decide as Heq.
      * simplify_eq. split; [by intros []|by intros [? _]].
      * split; [intros ?; split; [congruence|done]|by intros [_ ?]].
    + by eexists.
    + by rewrite Hst', decide_True.
  - destruct Hfr as (_ & -> & _). by rewrite Hold.
  - intros x. rewrite Hdir. case_decide; [|by apply pages_small_mono]. intros p Hp. apply Hup in Hp. lia.
Qed.

(** ** All calls *)

(** The cases of a call that does not succeed. *)
Definition refused (led : ledger) (a n k : Z) (data : list Z) (t : ter) : Prop :=
  match t with
  | tefINTERNAL => accounts led !! a = None
  | temHOOK_DATA_TOO_LARGE => is_Some (accounts led !! a) /\ maxHookStateDataSize < lenZ data
  | tecINSUFFICIENT_RESERVE => exists r, accounts led !! a = Some r /\ state_of led a n k = None /\ data <> [] /\
      Balance r < accountReserve (fees led) (OwnerCount r + 1)
  | _ => False
  end.

Lemma setHookState_spec {E} led a n k data B :
  ledger_wf led -> pages_small led B -> 0 <= B < page_limit (fixPageCap led) ->
  (forall r, accounts led !! a = Some r -> OwnerCount r + 1 < 2 ^ 32) ->
  (exists led' r r', @setHookState _ E led a n k data = Ret (tesSUCCESS, led') /\ accounts led !! a = Some r /\
     lenZ data <= maxHookStateDataSize /\ state_update B led led' a n k data r r') \/
  (exists t, @setHookState _ E led a n k data = Ret (t, led) /\ refused led a n k data t).
Proof.
  intros Hwf HP HB Hoc. unfold setHookState.
  destruct (accounts led !! a) as [r|] eqn:Ha; [|right; exists tefINTERNAL; by split].
  specialize (Hoc r eq_refl).
  destruct (maxHookStateDataSize <? lenZ data) eqn:Hsz.
  { right. exists temHOOK_DATA_TOO_LARGE. split; [done|]. split; [by rewrite Ha|lia]. }
  cbv zeta. destruct (states led !! keylet_hookState a k n) as [st|] eqn:Hst.
  - destruct data as [|x data]; simpl is_nil; cbv iota.
    + destruct (delete_state_spec (E := E) led a n k r st B) as (led' & r' & -> & Hup); [done..|].
      left. exists led', r, r'. split_and!; [done|done|lia|done].
    + left. eexists _, r, r. split_and!; [done|done|lia|]. by apply update_existing.
  - assert (Hnone : state_of led a n k = None) by (unfold state_of; by rewrite Hst).
    destruct data as [|x data]; simpl is_nil; cbv iota.
    + left. exists led, r, r. split_and!; [done|done|lia|]. split; try done.
      * intros a' n' k'. case_decide as Heq; [|done]. by simplify_eq.
      * by rewrite insert_id.
      * rewrite Hnone. simpl. lia.
      * by apply pages_small_mono.
    + destruct (Z.lt_ge_cases (Balance r) (accountReserve (fees led) (OwnerCount r + 1))) as [Hlt|Hge].
      * right. exists tecINSUFFICIENT_RESERVE. split; [|by exists r].
        destruct (wf_account led Hwf a r Ha) as (S & HS). pose proof (ok_owner _ _ _ _ HS).
        pose proof (ok_count _ _ _ _ HS). unfold create_state, computeHookStateOwnerCount. cbv zeta.
        rewrite (u32_small (HookStateCount r + 1)), (u32_small (OwnerCount r + 1)) by lia.
        replace (HookStateCount r <? HookStateCount r + 1) with true by lia.
        by replace (Balance r <? accountReserve (fees led) (OwnerCount r + 1)) with true by lia.
      * destruct (create_state_spec (E := E) led a n k (x :: data) r B) as (led' & r' & -> & Hup); [done..|].
        left. exists led', r, r'. split_and!; [done|done|lia|done].
Qed.

End Facts.
