(* ===== verification/StateCache.v ===== *)
(** * The state cache and the state functions (src/src/ripple/app/hook/impl/applyHook.cpp)

    A hook reads and writes state through a cache that the hooks of a transaction
    share ([HookStateMap]); [finalizeHookState] writes the modified entries to the
    ledger once the hooks have accepted. The maps of the source are ordered
    ([std::map]): the order only matters to [finalizeHookState]. *)

From S2P Require Import Prelude HookEnum HookMemory LedgerDir HookState.

(** ** The cache *)

(** The tuple of an account: the owner count that is still available, the number
    of namespaces, and the entries by namespace and key with the flag that says
    that the entry is modified. *)
Record acc_cache := mkAccCache {
  availableForReserves : Z;
  namespaceCount : Z;
  stateMapAcc : gmap Z (gmap Z (bool * list Z))
}.

Record HookStateMap := mkStateMap {
  stateMap : gmap Z acc_cache;
  modified_entry_count : Z
}.

Definition empty_state_map : HookStateMap := mkStateMap ∅ 0.

(** The part of [HookResult] the state functions use. *)
Record HookResult := mkResult {
  account : Z;
  hookHash : Z;
  hookNamespace : Z;
  result_stateMap : HookStateMap;
  changedStateCount : Z;
  foreignStateSetDisabled : bool
}.

Definition max_state_modifications : Z := 256.
Definition maxNamespaces : Z := 256.

Definition with_map (m : HookStateMap) (r : HookResult) : HookResult :=
  mkResult (account r) (hookHash r) (hookNamespace r) m (changedStateCount r) (foreignStateSetDisabled r).
Definition count_change (r : HookResult) : HookResult :=
  mkResult (account r) (hookHash r) (hookNamespace r) (result_stateMap r) (u16 (changedStateCount r + 1))
    (foreignStateSetDisabled r).
Definition disable_foreign_set (r : HookResult) : HookResult :=
  mkResult (account r) (hookHash r) (hookNamespace r) (result_stateMap r) (changedStateCount r) true.

(** [make_state_key]: zero padded on the left to 32 bytes. *)
Definition make_state_key (source : list Z) : option Z :=
  if (32 <? lenZ source) || (lenZ source <? 1) then None
  else Some (fromVoid (replicate (32 - length source) 0 ++ source)).

Definition lookup_state_cache (r : HookResult) (acc ns key : Z) : option (bool * list Z) :=
  match stateMap (result_stateMap r) !! acc with
  | None => None
  | Some c => match stateMapAcc c !! ns with None => None | Some m => m !! key end
  end.

(** The owner count an account can still grow by. *)
Definition available_reserves (f : Fees) (sle : account_root) : Z :=
  Z.quot (Balance sle - accountReserve f (OwnerCount sle)) (if increment f <=? 0 then 1 else increment f).

Section Cache.
Context `{Keylets}.

Definition set_state_cache (led : ledger) (r : HookResult) (acc ns key : Z) (data : list Z) (modified : bool)
    : Z * HookResult :=
  let m := result_stateMap r in
  if modified && (max_state_modifications <=? modified_entry_count m) then (TOO_MANY_STATE_MODIFICATIONS, r)
  else
    let createNamespace := fixXahauV1 led && negb (dir_exists led (keylet_hookStateDir acc ns)) in
    match stateMap m !! acc with
    | None =>
      match accounts led !! acc with
      | None => (DOESNT_EXIST, r)
      | Some accSLE =>
        let availableForReserves := available_reserves (fees led) accSLE in
        if (availableForReserves <? 1) && modified then (RESERVE_INSUFFICIENT, r)
        else
          let namespaceCount := lenZ (namespaces accSLE) in
          if createNamespace && (maxNamespaces <? namespaceCount + 1) then (TOO_MANY_NAMESPACES, r)
          else
            let namespaceCount := if createNamespace then namespaceCount + 1 else namespaceCount in
            (1, with_map (mkStateMap
                   (<[acc := mkAccCache (availableForReserves - 1) namespaceCount
                               {[ ns := {[ key := (modified, data) ]} ]}]> (stateMap m))
                   (u32 (modified_entry_count m + 1))) r)
      end
    | Some c =>
      let canReserveNew := 0 <? availableForReserves c in
      let modified_count := if modified then u32 (modified_entry_count m + 1) else modified_entry_count m in
      match stateMapAcc c !! ns with
      | None =>
        if modified && negb canReserveNew then (RESERVE_INSUFFICIENT, r)
        else if modified && createNamespace && (maxNamespaces <? namespaceCount c + 1) then (TOO_MANY_NAMESPACES, r)
        else
          let c := mkAccCache
                     (if modified then availableForReserves c - 1 else availableForReserves c)
                     (if modified && createNamespace then namespaceCount c + 1 else namespaceCount c)
                     (<[ns := {[ key := (modified, data) ]}]> (stateMapAcc c)) in
          (1, with_map (mkStateMap (<[acc := c]> (stateMap m)) modified_count) r)
      | Some stateMapNs =>
        match stateMapNs !! key with
        | None =>
          if modified && negb canReserveNew then (RESERVE_INSUFFICIENT, r)
          else
            let c := mkAccCache
                       (if modified then availableForReserves c - 1 else availableForReserves c)
                       (namespaceCount c)
                       (<[ns := <[key := (modified, data)]> stateMapNs]> (stateMapAcc c)) in
            (1, count_change (with_map (mkStateMap (<[acc := c]> (stateMap m)) modified_count) r))
        | Some (was_modified, _) =>
          let r := if modified && negb was_modified then count_change r else r in
          let c := mkAccCache (availableForReserves c) (namespaceCount c)
                     (<[ns := <[key := (modified || was_modified, data)]> stateMapNs]> (stateMapAcc c)) in
          (1, with_map (mkStateMap (<[acc := c]> (stateMap m)) modified_count) r)
        end
      end
    end.

(** ** Setting state *)

(** The search of [state_foreign_set] through the hooks of the account that owns
    the state. *)
Definition grant_allows (r : HookResult) (g : hook_grant) : bool :=
  (grant_HookHash g =? hookHash r) &&
  match Authorize g with None => true | Some a => a =? account r end.

Definition hook_grants (led : ledger) (r : HookResult) (ns : Z) (h : hook_obj) : bool :=
  match hook_HookHash h, HookGrants h with
  | Some hash, Some grants =>
    let namespace_matches :=
      match hook_HookNamespace h with
      | Some n => n =? ns
      | None => match definitions led !! hash with None => false | Some d => def_HookNamespace d =? ns end
      end in
    namespace_matches && existsb (grant_allows r) grants
  | _, _ => false
  end.

Definition found_auth (led : ledger) (r : HookResult) (ns : Z) (hs : list hook_obj) : bool :=
  existsb (hook_grants led r ns) hs.

(** [tefINTERNAL] as the code a hook sees. *)
Definition tefINTERNAL_code : Z := -192.

(** The write of [state_foreign_set] to the cache; [read_len] is the length of the
    data. *)
Definition set_and_return (led : ledger) (r : HookResult) (acc ns key : Z) (data : list Z) : Z * HookResult :=
  let '(ret, r) := set_state_cache led r acc ns key data true in
  (if ret <? 0 then ret else lenZ data, r).

(** [state_foreign_set] after its arguments are checked. *)
Definition set_entry (led : ledger) (r : HookResult) (foreign : bool) (acc ns key : Z) (data : list Z)
    : Z * HookResult :=
  if negb foreign || (acc =? account r) then set_and_return led r acc ns key data
  else if foreignStateSetDisabled r then (PREVIOUS_FAILURE_PREVENTS_RETRY, r)
  else
    match lookup_state_cache r acc ns key with
    | Some (true, _) => set_and_return led r acc ns key data
    | _ =>
      match hooks led !! acc with
      | None => (INTERNAL_ERROR, r)
      | Some hs =>
        if found_auth led r ns hs then set_and_return led r acc ns key data
        else (NOT_AUTHORIZED, disable_foreign_set r)
      end
    end.

Definition state_foreign_set (led : ledger) (mem : list Z) (r : HookResult)
    (read_ptr read_len kread_ptr kread_len nread_ptr nread_len aread_ptr aread_len : Z) : Z * HookResult :=
  let memory_length := lenZ mem in
  if negb ((read_ptr =? 0) && (read_len =? 0)) && NOT_IN_BOUNDS read_ptr read_len memory_length
  then (OUT_OF_BOUNDS, r)
  else if 32 <? kread_len then (TOO_BIG, r)
  else if kread_len <? 1 then (TOO_SMALL, r)
  else if negb (nread_len =? 0) && negb (nread_len =? 32) then (INVALID_ARGUMENT, r)
  else if negb (aread_len =? 0) && negb (aread_len =? 20) then (INVALID_ARGUMENT, r)
  else if NOT_IN_BOUNDS kread_ptr kread_len memory_length then (OUT_OF_BOUNDS, r)
  else if (nread_ptr =? 0) && (nread_len =? 0) && negb ((aread_ptr =? 0) && (aread_len =? 0))
  then (INVALID_ARGUMENT, r)
  else if (negb (nread_len =? 0) && NOT_IN_BOUNDS nread_ptr nread_len memory_length) ||
          (negb (kread_len =? 0) && NOT_IN_BOUNDS kread_ptr kread_len memory_length) ||
          (negb (aread_len =? 0) && NOT_IN_BOUNDS aread_ptr aread_len memory_length)
  then (OUT_OF_BOUNDS, r)
  else if maxHookStateDataSize <? read_len then (TOO_BIG, r)
  else
    let ns := if nread_len =? 0 then hookNamespace r else fromVoid (mem_slice mem nread_ptr 32) in
    let acc := if aread_len =? 20 then fromVoid (mem_slice mem aread_ptr 20) else account r in
    if fixXahauV1 led && bool_decide (accounts led !! account r = None) then (tefINTERNAL_code, r)
    else
      match make_state_key (mem_slice mem kread_ptr kread_len) with
      | None => (INTERNAL_ERROR, r)
      | Some key => set_entry led r (negb (aread_len =? 0)) acc ns key (mem_slice mem read_ptr read_len)
      end.

Definition state_set (led : ledger) (mem : list Z) (r : HookResult)
    (read_ptr read_len kread_ptr kread_len : Z) : Z * HookResult :=
  state_foreign_set led mem r read_ptr read_len kread_ptr kread_len 0 0 0 0.

(** ** Reading state: the code, the memory and the context *)

(** [state_foreign] after its arguments are checked. *)
Definition get_entry (led : ledger) (mem : list Z) (r : HookResult) (write_ptr write_len acc ns key : Z)
    : Z * list Z * HookResult :=
  match lookup_state_cache r acc ns key with
  | Some (_, b) =>
    let '(code, mem) := WRITE_WASM_MEMORY_OR_RETURN_AS_INT64 mem write_ptr write_len b false in (code, mem, r)
  | None =>
    match states led !! keylet_hookState acc key ns with
    | None => (DOESNT_EXIST, mem, r)
    | Some hsSLE =>
      let b := HookStateData hsSLE in
      let '(ret, r) := set_state_cache led r acc ns key b false in
      if ret <? 0 then (INTERNAL_ERROR, mem, r)
      else
        let '(code, mem) := WRITE_WASM_MEMORY_OR_RETURN_AS_INT64 mem write_ptr write_len b false in (code, mem, r)
    end
  end.

Definition state_foreign (led : ledger) (mem : list Z) (r : HookResult)
    (write_ptr write_len kread_ptr kread_len nread_ptr nread_len aread_ptr aread_len : Z)
    : Z * list Z * HookResult :=
  let memory_length := lenZ mem in
  let is_foreign := negb (aread_ptr =? 0) in
  if negb is_foreign && negb (aread_len =? 0) then (INVALID_ARGUMENT, mem, r)
  else if is_foreign && negb (aread_len =? 20) then (INVALID_ARGUMENT, mem, r)
  else if 32 <? kread_len then (TOO_BIG, mem, r)
  else if kread_len <? 1 then (TOO_SMALL, mem, r)
  else if (write_len <? 1) && negb (write_ptr =? 0) then (TOO_SMALL, mem, r)
  else if negb (negb is_foreign && (nread_len =? 0)) && negb (nread_len =? 32) then (INVALID_ARGUMENT, mem, r)
  else if NOT_IN_BOUNDS kread_ptr kread_len memory_length || NOT_IN_BOUNDS nread_ptr nread_len memory_length ||
          NOT_IN_BOUNDS aread_ptr aread_len memory_length || NOT_IN_BOUNDS write_ptr write_len memory_length
  then (OUT_OF_BOUNDS, mem, r)
  else
    let ns := if nread_len =? 0 then hookNamespace r else fromVoid (mem_slice mem nread_ptr 32) in
    let acc := if is_foreign then fromVoid (mem_slice mem aread_ptr 20) else account r in
    match make_state_key (mem_slice mem kread_ptr kread_len) with
    | None => (INVALID_ARGUMENT, mem, r)
    | Some key => get_entry led mem r write_ptr write_len acc ns key
    end.

Definition state (led : ledger) (mem : list Z) (r : HookResult)
    (write_ptr write_len kread_ptr kread_len : Z) : Z * list Z * HookResult :=
  state_foreign led mem r write_ptr write_len kread_ptr kread_len 0 0 0 0.

(** ** Writing the cache to the ledger *)

(** The elements of a [std::map], in the order of the keys. *)
Definition key_le {A} (x y : Z * A) : Prop := x.1 <= y.1.
#[global] Instance key_le_dec {A} (x y : Z * A) : Decision (key_le x y).
Proof. unfold key_le. apply _. Defined.
Definition std_map {A} (m : gmap Z A) : list (Z * A) := merge_sort key_le (map_to_list m).

(** The entries in the order of the three nested loops. *)
Definition state_entries (m : HookStateMap) : list (Z * Z * Z * (bool * list Z)) :=
  accEntry ← std_map (stateMap m);
  nsEntry ← std_map (stateMapAcc accEntry.2);
  cacheEntry ← std_map nsEntry.2;
  [(accEntry.1, nsEntry.1, cacheEntry.1, cacheEntry.2)].

Fixpoint finalize_loop {E} (led : ledger) (changeCount : Z) (l : list (Z * Z * Z * (bool * list Z)))
    : outcome E (ter * ledger) :=
  match l with
  | [] => Ret (tesSUCCESS, led)
  | (acc, ns, key, (is_modified, blob)) :: l =>
    if is_modified then
      let changeCount := u16 (changeCount + 1) in
      if max_state_modifications + 1 <? changeCount then Ret (tecHOOK_REJECTED, led)
      else
        let* '(result, led) := setHookState led acc ns key blob in
        if negb (isTesSuccess result) then Ret (result, led) else finalize_loop led changeCount l
    else finalize_loop led changeCount l
  end.

Definition finalizeHookState {E} (m : HookStateMap) (led : ledger) : outcome E (ter * ledger) :=
  finalize_loop led 0 (state_entries m).

End Cache.
