(* ===== verification/StateCacheFacts.v ===== *)
(** * The state cache: the invariant and the commit

    [cache_ok]: the unmodified entries are those of the ledger, and the modified
    ones are within the limits on data, number and reserve. Every state function
    keeps it, so that [finalizeHookState] writes all the modified entries. *)

From S2P Require Import Prelude HookEnum HookMemory LedgerDir LedgerDirFacts HookState HookStateFacts StateCache.

Section Facts.
Context `{KeyletsInj}.

(** ** One write to the cache *)

Definition was_modified (r : HookResult) (a n k : Z) : bool :=
  match lookup_state_cache r a n k with Some (b, _) => b | None => false end.

(** What a successful [set_state_cache] does to the reserve of the account. *)
Definition reserve_step (led : ledger) (r : HookResult) (a n k : Z) (modified : bool) (c' : acc_cache) : Prop :=
  match stateMap (result_stateMap r) !! a with
  | None => exists sle, accounts led !! a = Some sle /\
      availableForReserves c' = available_reserves (fees led) sle - 1 /\
      (modified = true -> 1 <= available_reserves (fees led) sle)
  | Some c =>
      if modified && bool_decide (lookup_state_cache r a n k = None)
      then 0 < availableForReserves c /\ availableForReserves c' = availableForReserves c - 1
      else availableForReserves c' = availableForReserves c
  end.

(** What it does to the number of modifications, [m] before and [m'] after. *)
Definition count_step (r : HookResult) (a : Z) (modified : bool) (m' : Z) : Prop :=
  let m := modified_entry_count (result_stateMap r) in
  if modified then m < max_state_modifications /\ m' = u32 (m + 1)
  else m' = m \/ (stateMap (result_stateMap r) !! a = None /\ m' = u32 (m + 1)).

Definition same_hook (r r' : HookResult) : Prop :=
  account r' = account r /\ hookHash r' = hookHash r /\ hookNamespace r' = hookNamespace r /\
  foreignStateSetDisabled r' = foreignStateSetDisabled r.

Record cache_set (led : ledger) (r r' : HookResult) (a n k : Z) (data : list Z) (modified : bool) : Prop := {
  cs_lookup a' n' k' : lookup_state_cache r' a' n' k' =
    if decide ((a', n', k') = (a, n, k)) then Some (modified || was_modified r a n k, data)
    else lookup_state_cache r a' n' k';
  cs_map : exists c', stateMap (result_stateMap r') = <[a := c']> (stateMap (result_stateMap r)) /\
    reserve_step led r a n k modified c';
  cs_count : count_step r a modified (modified_entry_count (result_stateMap r'));
  cs_hook : same_hook r r'
}.

Lemma cache_set_intro led r r' a n k data modified c' cnt :
  result_stateMap r' = mkStateMap (<[a := c']> (stateMap (result_stateMap r))) cnt ->
  (forall n' k', (m ← stateMapAcc c' !! n'; m !! k') =
     if decide ((n', k') = (n, k)) then Some (modified || was_modified r a n k, data) else lookup_state_cache r a n' k') ->
  reserve_step led r a n k modified c' -> count_step r a modified cnt -> same_hook r r' ->
  cache_set led r r' a n k data modified.
Proof.
  intros Hm Hc Hres Hcnt Hh. split; [|exists c'; by rewrite Hm|by rewrite Hm|done].
  intros a' n' k'. unfold lookup_state_cache at 1. rewrite Hm. simpl.
  destruct (decide (a' = a)) as [->|Ha].
  - rewrite lookup_insert_eq. specialize (Hc n' k'). unfold mbind, option_bind in Hc.
    destruct (stateMapAcc c' !! n'); rewrite Hc; repeat case_decide; naive_solver.
  - rewrite lookup_insert_ne by done. rewrite decide_False by naive_solver. done.
Qed.

(** The entries of an account after an insertion. *)
Lemma nested_insert (mm : gmap Z (gmap Z (bool * list Z))) m n k e n' k' :
  default ∅ (mm !! n) = m ->
  (m' ← <[n := <[k := e]> m]> mm !! n'; m' !! k') =
  if decide ((n', k') = (n, k)) then Some e else (m' ← mm !! n'; m' !! k').
Proof.
  intros Hm. destruct (decide (n' = n)) as [->|Hn].
  - rewrite lookup_insert_eq. simpl. destruct (decide (k' = k)) as [->|Hk].
    + by rewrite lookup_insert_eq, decide_True.
    + rewrite lookup_insert_ne, decide_False by naive_solver.
      destruct (mm !! n); simpl in *; subst; [done|]. by rewrite lookup_empty.
  - by rewrite lookup_insert_ne, decide_False by naive_solver.
Qed.

Lemma lookup_acc_some r a c n k :
  stateMap (result_stateMap r) !! a = Some c -> lookup_state_cache r a n k = (m ← stateMapAcc c !! n; m !! k).
Proof. intros Hc. unfold lookup_state_cache. by rewrite Hc. Qed.

Lemma lookup_acc_none r a n k :
  stateMap (result_stateMap r) !! a = None -> lookup_state_cache r a n k = None.
Proof. intros Hc. unfold lookup_state_cache. by rewrite Hc. Qed.

(** The account is cached: the part of [set_state_cache] for it. *)
Lemma set_known_account led r a n k data modified c cn :
  stateMap (result_stateMap r) !! a = Some c ->
  (modified = true -> modified_entry_count (result_stateMap r) < max_state_modifications) ->
  let m := result_stateMap r in
  let modified_count := if modified then u32 (modified_entry_count m + 1) else modified_entry_count m in
  let new_available := if modified then availableForReserves c - 1 else availableForReserves c in
  (lookup_state_cache r a n k = None -> modified && negb (0 <? availableForReserves c) = false ->
   forall r1, result_stateMap r1 = mkStateMap (<[a := mkAccCache new_available cn
       (<[n := <[k := (modified, data)]> (default ∅ (stateMapAcc c !! n))]> (stateMapAcc c))]> (stateMap m)) modified_count ->
     same_hook r r1 -> cache_set led r r1 a n k data modified) /\
  (forall was old, lookup_state_cache r a n k = Some (was, old) ->
   forall r1, result_stateMap r1 = mkStateMap (<[a := mkAccCache (availableForReserves c) cn
       (<[n := <[k := (modified || was, data)]> (default ∅ (stateMapAcc c !! n))]> (stateMapAcc c))]> (stateMap m)) modified_count ->
     same_hook r r1 -> cache_set led r r1 a n k data modified).
Proof.
  intros Hc Hcnt m modified_count new_available.
  assert (Hcs : count_step r a modified modified_count).
  { unfold count_step, modified_count. destruct modified; [by auto|by left]. }
  split.
  - intros Hlk Hres r1 Hr1 Hh.
    assert (Hw : was_modified r a n k = false) by (unfold was_modified; by rewrite Hlk).
    eapply cache_set_intro; [exact Hr1| |unfold reserve_step|done|done].
    + intros n' k'. rewrite Hw, orb_false_r. cbn [stateMapAcc]. rewrite nested_insert by done. by rewrite (lookup_acc_some r a c).
    + rewrite Hc, bool_decide_eq_true_2 by done. unfold new_available. simpl. destruct modified; simpl in *; [|done].
      split; [lia|done].
  - intros was old Hlk r1 Hr1 Hh.
    assert (Hw : was_modified r a n k = was) by (unfold was_modified; by rewrite Hlk).
    eapply cache_set_intro; [exact Hr1| |unfold reserve_step|done|done].
    + intros n' k'. rewrite Hw. cbn [stateMapAcc]. rewrite nested_insert by done. by rewrite (lookup_acc_some r a c).
    + rewrite Hc, bool_decide_eq_false_2 by congruence. by rewrite andb_false_r.
Qed.

Lemma set_state_cache_spec led r a n k data modified :
  let '(code, r') := set_state_cache led r a n k data modified in
  (code = 1 /\ cache_set led r r' a n k data modified) \/ (code < 0 /\ r' = r).
Proof.
  unfold set_state_cache. cbv zeta.
  destruct (modified && (max_state_modifications <=? modified_entry_count (result_stateMap r))) eqn:Hlim; [by right|].
  set (cn := fixXahauV1 led && _).
  assert (Hcount : modified = true -> modified_entry_count (result_stateMap r) < max_state_modifications).
  { intros ->. simpl in Hlim. lia. }
  destruct (stateMap (result_stateMap r) !! a) as [c|] eqn:Hc.
  - destruct (stateMapAcc c !! n) as [ns|] eqn:Hn; [destruct (ns !! k) as [[was old]|] eqn:Hk|].
    + left. split; [done|].
      destruct (set_known_account led r a n k data modified c (namespaceCount c) Hc Hcount) as [_ Hset].
      apply (Hset was old); [by rewrite (lookup_acc_some r a c), Hn|..]; destruct (modified && negb was);
        rewrite ?Hn; done.
    + destruct (modified && negb (0 <? availableForReserves c)) eqn:Hres; [by right|]. left. split; [done|].
      destruct (set_known_account led r a n k data modified c (namespaceCount c) Hc Hcount) as [Hset _].
      apply Hset; [by rewrite (lookup_acc_some r a c), Hn|done|by rewrite Hn|done].
    + destruct (modified && negb (0 <? availableForReserves c)) eqn:Hres; [by right|].
      destruct (modified && cn && (maxNamespaces <? namespaceCount c + 1)); [by right|]. left. split; [done|].
      edestruct (set_known_account led r a n k data modified c) as [Hset _]; [done|done|].
      apply Hset; [by rewrite (lookup_acc_some r a c), Hn|done|by rewrite Hn|done].
  - destruct (accounts led !! a) as [sle|] eqn:Ha; [|by right].
    destruct ((available_reserves (fees led) sle <? 1) && modified) eqn:Hav; [by right|].
    destruct (cn && (maxNamespaces <? lenZ (namespaces sle) + 1)); [by right|]. left. split; [done|].
    assert (Hw : was_modified r a n k = false) by (unfold was_modified; by rewrite lookup_acc_none).
    eapply cache_set_intro; [done| | | |done].
    + intros n' k'. rewrite Hw, orb_false_r, lookup_acc_none by done.
      cbn [stateMapAcc]. rewrite <- (insert_empty k), <- (insert_empty n). rewrite nested_insert by done. by rewrite lookup_empty.
    + unfold reserve_step. rewrite Hc. exists sle. split_and!; [done|done|]. intros ->. simpl in Hav. lia.
    + unfold count_step. destruct modified; [by auto|by right].
Qed.

(** ** The invariant of the cache *)

(** The modified entries of an account that the ledger does not have. *)
Definition new_entries (led : ledger) (M : gset (Z * Z * Z)) (a : Z) : gset (Z * Z * Z) :=
  filter (fun x => x.1.1 = a /\ state_of led x.1.1 x.1.2 x.2 = None) M.

(** [M] are the modified entries. *)
Record cache_ok (led : ledger) (r : HookResult) (M : gset (Z * Z * Z)) : Prop := {
  co_modified a n k : (a, n, k) ∈ M <-> exists b, lookup_state_cache r a n k = Some (true, b);
  co_clean a n k b : lookup_state_cache r a n k = Some (false, b) -> state_of led a n k = Some b;
  co_data a n k b : lookup_state_cache r a n k = Some (true, b) -> lenZ b <= maxHookStateDataSize;
  co_number : Z.of_nat (size M) <= modified_entry_count (result_stateMap r) /\
    Z.of_nat (size M) <= max_state_modifications;
  co_bound : modified_entry_count (result_stateMap r) <=
    max_state_modifications + Z.of_nat (size (stateMap (result_stateMap r)));
  co_reserve a c : stateMap (result_stateMap r) !! a = Some c ->
    exists sle, accounts led !! a = Some sle /\
      availableForReserves c + Z.of_nat (size (new_entries led M a)) <= available_reserves (fees led) sle /\
      (new_entries led M a <> ∅ -> 0 <= availableForReserves c)
}.

Lemma cache_ok_empty led r : result_stateMap r = empty_state_map -> cache_ok led r ∅.
Proof.
  intros Hr. assert (Hl : forall a n k, lookup_state_cache r a n k = None).
  { intros. apply lookup_acc_none. rewrite Hr. apply lookup_empty. }
  split; try (intros *; rewrite Hl; done).
  - intros a n k. rewrite Hl. set_solver.
  - rewrite Hr, size_empty. done.
  - rewrite Hr. simpl. rewrite map_size_empty. done.
  - intros a c. rewrite Hr. simpl. by rewrite lookup_empty.
Qed.

Lemma elem_of_new_entries led M a x :
  x ∈ new_entries led M a <-> x ∈ M /\ x.1.1 = a /\ state_of led x.1.1 x.1.2 x.2 = None.
Proof. unfold new_entries. rewrite elem_of_filter. tauto. Qed.

Lemma new_entries_other led M a n k a' : a' <> a -> new_entries led ({[(a, n, k)]} ∪ M) a' = new_entries led M a'.
Proof.
  intros Hne. apply set_eq. intros x. rewrite !elem_of_new_entries, elem_of_union, elem_of_singleton.
  split; [|tauto]. intros ([->|?] & Hx & ?); [by simpl in Hx|tauto].
Qed.

Lemma new_entries_same led M a n k :
  (a, n, k) ∈ M \/ state_of led a n k <> None -> new_entries led ({[(a, n, k)]} ∪ M) a = new_entries led M a.
Proof.
  intros Hor. apply set_eq. intros x. rewrite !elem_of_new_entries, elem_of_union, elem_of_singleton.
  split; [|tauto]. intros ([->|?] & Hx & Hs); [simpl in *; tauto|tauto].
Qed.

Lemma new_entries_fresh led M a n k :
  (a, n, k) ∉ M -> state_of led a n k = None ->
  size (new_entries led ({[(a, n, k)]} ∪ M) a) = S (size (new_entries led M a)).
Proof.
  intros Hf Hs. replace (new_entries led ({[(a, n, k)]} ∪ M) a) with ({[(a, n, k)]} ∪ new_entries led M a).
  - rewrite size_union, size_singleton; [done|]. rewrite disjoint_singleton_l, elem_of_new_entries. tauto.
  - apply set_eq. intros x. rewrite elem_of_union, !elem_of_new_entries, elem_of_union, elem_of_singleton.
    split; [intros [->|?]; [simpl; tauto|tauto]|tauto].
Qed.

(** An account that is not cached has no modified entries. *)
Lemma new_entries_uncached led r M a :
  cache_ok led r M -> stateMap (result_stateMap r) !! a = None -> new_entries led M a = ∅.
Proof.
  intros Hok Ha. apply set_eq. intros [[a' n] k]. rewrite elem_of_new_entries. split; [|set_solver].
  intros (Hin & Heq & _). simpl in Heq. subst a'. apply (co_modified _ _ _ Hok) in Hin as (b & Hb).
  by rewrite lookup_acc_none in Hb.
Qed.

Lemma size_insert_le {A} (m : gmap Z A) i x : (size m <= size (<[i := x]> m))%nat.
Proof. rewrite map_size_insert. destruct (m !! i); cbn; lia. Qed.

(** The reserve of the account a successful write leaves. *)
Lemma reserve_write led r r' M a n k data c' :
  cache_ok led r M -> cache_set led r r' a n k data true -> reserve_step led r a n k true c' ->
  exists sle, accounts led !! a = Some sle /\
    availableForReserves c' + Z.of_nat (size (new_entries led ({[(a, n, k)]} ∪ M) a)) <=
      available_reserves (fees led) sle /\ 0 <= availableForReserves c'
    \/ (new_entries led ({[(a, n, k)]} ∪ M) a = new_entries led M a /\ exists c,
         stateMap (result_stateMap r) !! a = Some c /\ availableForReserves c' = availableForReserves c).
Proof.
  intros Hok Hset Hstep. unfold reserve_step in Hstep.
  destruct (stateMap (result_stateMap r) !! a) as [c|] eqn:Hc.
  - destruct (co_reserve _ _ _ Hok a c Hc) as (sle & Hsle & Hav & Hnn). exists sle. simpl in Hstep.
    case_bool_decide as Hlk.
    + left. split; [done|]. destruct Hstep as [Hpos Hc']. split; [|lia].
      assert (Hnotin : (a, n, k) ∉ M).
      { intros Hin. apply (co_modified _ _ _ Hok) in Hin as (b & Hb). congruence. }
      destruct (state_of led a n k) eqn:Hs.
      * rewrite new_entries_same; [lia|]. right. by rewrite Hs.
      * rewrite new_entries_fresh by done. lia.
    + right. split; [|by exists c]. apply new_entries_same.
      destruct (lookup_state_cache r a n k) as [[[] b]|] eqn:E; [| |done].
      * left. apply (co_modified _ _ _ Hok). by exists b.
      * right. rewrite (co_clean _ _ _ Hok a n k b E). done.
  - destruct Hstep as (sle & Hsle & Hc' & Hmod). exists sle. left. split; [done|]. specialize (Hmod eq_refl).
    pose proof (new_entries_uncached led r M a Hok Hc) as He. split; [|lia].
    assert (size (new_entries led ({[(a, n, k)]} ∪ M) a) <= 1)%nat; [|lia].
    replace 1%nat with (size ({[(a, n, k)]} : gset (Z * Z * Z))) by apply size_singleton.
    apply subseteq_size. intros x. rewrite elem_of_new_entries, elem_of_union. intros ([?|Hx] & Hr); [done|].
    exfalso. assert (x ∈ new_entries led M a) by (by apply elem_of_new_entries). rewrite He in *. set_solver.
Qed.

Lemma cache_ok_write led r r' M a n k data :
  cache_ok led r M -> cache_set led r r' a n k data true -> lenZ data <= maxHookStateDataSize ->
  cache_ok led r' ({[(a, n, k)]} ∪ M).
Proof.
  intros Hok Hset Hlen. destruct (cs_map _ _ _ _ _ _ _ _ Hset) as (c' & Hmap & Hstep).
  pose proof (cs_lookup _ _ _ _ _ _ _ _ Hset) as Hlk. simpl in Hlk.
  destruct (cs_count _ _ _ _ _ _ _ _ Hset) as [Hlt Hcnt].
  destruct (co_number _ _ _ Hok) as [Hn1 Hn2].
  rewrite u32_small in Hcnt by (unfold max_state_modifications in Hlt; lia).
  assert (Hsz : (size ({[(a, n, k)]} ∪ M) <= S (size M))%nat).
  { rewrite size_union_alt, size_singleton. pose proof (subseteq_size (M ∖ {[(a, n, k)]}) M ltac:(set_solver)). lia. }
  split.
  - intros a' n' k'. rewrite Hlk, elem_of_union, elem_of_singleton, (co_modified _ _ _ Hok).
    case_decide; [|naive_solver]. split; [by eexists|by left].
  - intros a' n' k' b. rewrite Hlk. case_decide; [done|]. apply Hok.
  - intros a' n' k' b. rewrite Hlk. case_decide; [by intros [= <-]|]. apply Hok.
  - rewrite Hcnt. lia.
  - rewrite Hcnt. unfold max_state_modifications in *. lia.
  - intros a' c. rewrite Hmap. destruct (decide (a' = a)) as [->|Hne].
    + rewrite lookup_insert_eq. intros [= <-].
      destruct (reserve_write led r r' M a n k data c' Hok Hset Hstep) as (sle & [(Hs & Hr & Hp)|(He & c & Hc & Hav)]).
      * exists sle. split_and!; [done|done|by intros _].
      * destruct (co_reserve _ _ _ Hok a c Hc) as (sle' & Hsle & Hr & Hp). exists sle'. rewrite He, Hav. by auto.
    + rewrite lookup_insert_ne, new_entries_other by done. apply Hok.
Qed.

Lemma cache_ok_read led r r' M a n k b :
  cache_ok led r M -> cache_set led r r' a n k b false -> lookup_state_cache r a n k = None ->
  state_of led a n k = Some b -> Z.of_nat (size (stateMap (result_stateMap r))) < 2 ^ 31 ->
  cache_ok led r' M.
Proof.
  intros Hok Hset Hnone Hst Hsz. destruct (cs_map _ _ _ _ _ _ _ _ Hset) as (c' & Hmap & Hstep).
  pose proof (cs_lookup _ _ _ _ _ _ _ _ Hset) as Hlk. unfold was_modified in Hlk. rewrite Hnone in Hlk. simpl in Hlk.
  pose proof (cs_count _ _ _ _ _ _ _ _ Hset) as Hcnt. simpl in Hcnt.
  destruct (co_number _ _ _ Hok) as [Hn1 Hn2]. pose proof (co_bound _ _ _ Hok) as Hb.
  assert (Hmax : max_state_modifications = 256) by done.
  pose proof (size_insert_le (stateMap (result_stateMap r)) a c') as Hsize.
  split.
  - intros a' n' k'. rewrite Hlk, (co_modified _ _ _ Hok). case_decide as Heq; [|done]. simplify_eq. rewrite Hnone. naive_solver.
  - intros a' n' k' b'. rewrite Hlk. case_decide as Heq; [|apply Hok]. simplify_eq. by intros [= <-].
  - intros a' n' k' b'. rewrite Hlk. case_decide; [done|]. apply Hok.
  - destruct Hcnt as [->|[_ ->]]; [lia|]. rewrite u32_small by lia. lia.
  - rewrite Hmap. destruct Hcnt as [->|[Ha ->]]; [lia|]. rewrite u32_small by lia. rewrite map_size_insert_None by done. lia.
  - intros a' c. rewrite Hmap. destruct (decide (a' = a)) as [->|Hne]; [|rewrite lookup_insert_ne by done; apply Hok].
    rewrite lookup_insert_eq. intros [= <-]. unfold reserve_step in Hstep. simpl in Hstep.
    destruct (stateMap (result_stateMap r) !! a) as [c|] eqn:Hc.
    + destruct (co_reserve _ _ _ Hok a c Hc) as (sle & Hsle & Hr & Hp). exists sle. by rewrite Hstep.
    + destruct Hstep as (sle & Hsle & Hav & _). exists sle.
      rewrite (new_entries_uncached led r M a Hok Hc), size_empty. split_and!; [done|lia|done].
Qed.

End Facts.
