(* ===== verification/StateApiFacts.v ===== *)
(** * The state functions and their commit

    What the hooks of a transaction see through the cache is the ledger with their
    own writes ([view_of]), and when they have accepted, [finalizeHookState] makes
    the ledger hold exactly that. *)

From S2P Require Import Prelude HookEnum HookMemory LedgerDir LedgerDirFacts HookState HookStateFacts.
From S2P Require Import StateCache StateCacheFacts.

Section Facts.
Context `{KeyletsInj}.

(** ** The state a hook sees *)

Definition view_of (led : ledger) (r : HookResult) (a n k : Z) : option (list Z) :=
  match lookup_state_cache r a n k with
  | Some (_, b) => stored b
  | None => state_of led a n k
  end.

(** A write to one entry, as a function of the state seen. *)
Definition updated (v : Z -> Z -> Z -> option (list Z)) (a n k : Z) (data : list Z) (a' n' k' : Z) : option (list Z) :=
  if decide ((a', n', k') = (a, n, k)) then stored data else v a' n' k'.

Lemma view_of_write led r r' a n k data a' n' k' :
  cache_set led r r' a n k data true ->
  view_of led r' a' n' k' = updated (view_of led r) a n k data a' n' k'.
Proof.
  intros Hset. unfold view_of, updated. rewrite (cs_lookup _ _ _ _ _ _ _ _ Hset). by case_decide.
Qed.

Lemma view_of_read led r r' a n k b a' n' k' :
  cache_set led r r' a n k b false -> ledger_wf led -> lookup_state_cache r a n k = None ->
  state_of led a n k = Some b -> view_of led r' a' n' k' = view_of led r a' n' k'.
Proof.
  intros Hset Hwf Hn Hs. unfold view_of. rewrite (cs_lookup _ _ _ _ _ _ _ _ Hset).
  case_decide as Heq; [|done]. simplify_eq. rewrite Hn, Hs. destruct b; [|done].
  by destruct (wf_nonempty led Hwf a n k).
Qed.

(** ** Setting state *)

(** Who may write the entry: its account, or a hook the account grants it to, or
    anyone once it is modified. *)
Definition may_write (led : ledger) (r : HookResult) (foreign : bool) (a n k : Z) : Prop :=
  foreign = false \/ a = account r \/
  (foreignStateSetDisabled r = false /\
   ((exists b, lookup_state_cache r a n k = Some (true, b)) \/
    exists hs, hooks led !! a = Some hs /\ found_auth led r n hs = true)).

Definition write_done (led : ledger) (r : HookResult) (M : gset (Z * Z * Z)) (a n k : Z) (data : list Z)
    (code : Z) (r' : HookResult) : Prop :=
  code = lenZ data /\ cache_ok led r' ({[(a, n, k)]} ∪ M) /\ same_hook r r' /\
  (size (stateMap (result_stateMap r')) <= S (size (stateMap (result_stateMap r))))%nat /\
  forall a' n' k', view_of led r' a' n' k' = updated (view_of led r) a n k data a' n' k'.

(** A call that fails changes neither the cache nor the entries seen; it may
    disable the writes to other accounts. *)
Definition write_refused (led : ledger) (r : HookResult) (code : Z) (r' : HookResult) : Prop :=
  code < 0 /\ (r' = r \/ r' = disable_foreign_set r).

Lemma size_insert_upper {A} (m : gmap Z A) i x : (size (<[i := x]> m) <= S (size m))%nat.
Proof. rewrite map_size_insert. destruct (m !! i); cbn; lia. Qed.

Lemma set_and_return_spec led r M a n k data :
  cache_ok led r M -> lenZ data <= maxHookStateDataSize ->
  let '(code, r') := set_and_return led r a n k data in
  write_done led r M a n k data code r' \/ write_refused led r code r'.
Proof.
  intros Hok Hl. unfold set_and_return. pose proof (set_state_cache_spec led r a n k data true) as Hs.
  destruct (set_state_cache led r a n k data true) as [code r']. destruct Hs as [[-> Hset]|[Hc ->]].
  - left. simpl. split_and!; [done|by eapply cache_ok_write|apply Hset| |].
    + destruct (cs_map _ _ _ _ _ _ _ _ Hset) as (c' & -> & _). apply size_insert_upper.
    + intros. by apply view_of_write.
  - right. replace (code <? 0) with true by lia. split; [done|by left].
Qed.

Lemma set_entry_spec led r M foreign a n k data :
  cache_ok led r M -> lenZ data <= maxHookStateDataSize ->
  let '(code, r') := set_entry led r foreign a n k data in
  (may_write led r foreign a n k /\ write_done led r M a n k data code r') \/ write_refused led r code r'.
Proof.
  intros Hok Hl. unfold set_entry. pose proof (set_and_return_spec led r M a n k data Hok Hl) as Hset.
  destruct (set_and_return led r a n k data) as [code r'].
  destruct (negb foreign || (a =? account r)) eqn:Hloc.
  { destruct Hset as [?|?]; [left|by right]. split; [|done].
    destruct foreign; [right; left; simpl in Hloc; lia|by left]. }
  destruct (foreignStateSetDisabled r) eqn:Hdis; [right; split; [done|by left]|].
  assert (Hrest : forall x : Z * HookResult, x =
      match hooks led !! a with
      | None => (INTERNAL_ERROR, r)
      | Some hs => if found_auth led r n hs then (code, r') else (NOT_AUTHORIZED, disable_foreign_set r)
      end ->
      let '(code, r') := x in
      (may_write led r foreign a n k /\ write_done led r M a n k data code r') \/ write_refused led r code r').
  { intros x ->. destruct (hooks led !! a) as [hs|] eqn:Eh; [|right; split; [done|by left]].
    destruct (found_auth led r n hs) eqn:Ef; [|right; split; [done|by right]].
    destruct Hset as [?|?]; [left|by right]. split; [|done]. right; right. split; [done|]. right. by exists hs. }
  destruct (lookup_state_cache r a n k) as [[[] b]|] eqn:El; [|by apply (Hrest _ eq_refl)..].
  destruct Hset as [?|?]; [left|by right]. split; [|done]. right; right. split; [done|]. left. by exists b.
Qed.

Lemma lenZ_mem_slice mem p n : lenZ (mem_slice mem p n) <= Z.max 0 n.
Proof. unfold mem_slice, lenZ. rewrite length_take. lia. Qed.

(** The entry a call names. *)
Definition call_ns (mem : list Z) (r : HookResult) (nread_ptr nread_len : Z) : Z :=
  if nread_len =? 0 then hookNamespace r else fromVoid (mem_slice mem nread_ptr 32).

Lemma state_foreign_set_spec led mem r M rp rl kp kl np nl ap al :
  cache_ok led r M ->
  let '(code, r') := state_foreign_set led mem r rp rl kp kl np nl ap al in
  (exists k, make_state_key (mem_slice mem kp kl) = Some k /\
     let n := call_ns mem r np nl in
     let a := if al =? 20 then fromVoid (mem_slice mem ap 20) else account r in
     let data := mem_slice mem rp rl in
     may_write led r (negb (al =? 0)) a n k /\ write_done led r M a n k data code r') \/
  write_refused led r code r'.
Proof.
  intros Hok. unfold state_foreign_set. cbv zeta.
  assert (Href : forall c, c < 0 -> write_refused led r c r) by (intros c Hc; split; [done|by left]).
  repeat (match goal with |- context [if ?b then (_, r) else _] => destruct b eqn:? end; [right; by apply Href|]).
  fold (call_ns mem r np nl).
  destruct (make_state_key (mem_slice mem kp kl)) as [k|] eqn:Ek; [|right; by apply Href].
  assert (Hl : lenZ (mem_slice mem rp rl) <= maxHookStateDataSize).
  { pose proof (lenZ_mem_slice mem rp rl). unfold maxHookStateDataSize in *. lia. }
  pose proof (set_entry_spec led r M (negb (al =? 0)) (if al =? 20 then fromVoid (mem_slice mem ap 20) else account r)
    (call_ns mem r np nl) k (mem_slice mem rp rl) Hok Hl) as Hs.
  destruct (set_entry _ _ _ _ _ _ _) as [code r']. destruct Hs as [[Hm Hd]|?]; [left|by right].
  exists k. by split_and!.
Qed.

(** ** Reading state *)

(** The bytes a read finds: those of the cache, empty for a deleted entry, or those
    of the ledger. *)
Definition found (led : ledger) (r : HookResult) (a n k : Z) : option (list Z) :=
  match lookup_state_cache r a n k with Some (_, b) => Some b | None => state_of led a n k end.

(** An entry of the ledger can always be cached. *)
Lemma set_state_cache_read_ok led r a n k b :
  is_Some (accounts led !! a) -> dir_exists led (keylet_hookStateDir a n) = true ->
  lookup_state_cache r a n k = None -> (set_state_cache led r a n k b false).1 = 1.
Proof.
  intros [sle Hsle] Hd Hl. unfold set_state_cache. rewrite Hd, Hsle, andb_false_r. cbn [andb negb].
  destruct (stateMap (result_stateMap r) !! a) as [c|] eqn:Hc.
  - destruct (stateMapAcc c !! n) as [m|] eqn:Hn; [|done]. by destruct (m !! k) as [[]|].
  - by rewrite andb_false_r.
Qed.

Definition read_done (led : ledger) (mem : list Z) (r : HookResult) (M : gset (Z * Z * Z)) (wp wl a n k : Z)
    (res : Z * list Z * HookResult) : Prop :=
  res.1 = match found led r a n k with
          | None => (DOESNT_EXIST, mem)
          | Some b => WRITE_WASM_MEMORY_OR_RETURN_AS_INT64 mem wp wl b false
          end /\
  cache_ok led res.2 M /\ same_hook r res.2 /\
  (size (stateMap (result_stateMap res.2)) <= S (size (stateMap (result_stateMap r))))%nat /\
  forall a' n' k', view_of led res.2 a' n' k' = view_of led r a' n' k'.

Lemma get_entry_spec led mem r M wp wl a n k :
  ledger_wf led -> cache_ok led r M -> Z.of_nat (size (stateMap (result_stateMap r))) < 2 ^ 31 ->
  read_done led mem r M wp wl a n k (get_entry led mem r wp wl a n k).
Proof.
  intros Hwf Hok Hsz. unfold get_entry, read_done, found.
  destruct (lookup_state_cache r a n k) as [[flag b]|] eqn:El.
  { destruct (WRITE_WASM_MEMORY_OR_RETURN_AS_INT64 mem wp wl b false). simpl. split_and!; (done || lia). }
  destruct (states led !! keylet_hookState a k n) as [hs|] eqn:Es.
  2: { unfold state_of. rewrite Es. simpl. split_and!; (done || lia). }
  assert (Hst : state_of led a n k = Some (HookStateData hs)) by (unfold state_of; by rewrite Es).
  assert (Hsome : is_Some (state_of led a n k)) by (rewrite Hst; by eexists).
  destruct (wf_dir led Hwf a n) as (m & Hm).
  assert (Hd : dir_exists led (keylet_hookStateDir a n) = true) by (apply (dir_exists_spec led a n m Hm); by exists k).
  pose proof (set_state_cache_read_ok led r a n k (HookStateData hs) (wf_orphan led Hwf a n k Hsome) Hd El) as Hone.
  rewrite Hst.
  pose proof (set_state_cache_spec led r a n k (HookStateData hs) false) as Hspec.
  destruct (set_state_cache led r a n k (HookStateData hs) false) as [code r']. simpl in Hone. subst code.
  destruct Hspec as [[_ Hset]|[? _]]; [|lia]. simpl.
  destruct (WRITE_WASM_MEMORY_OR_RETURN_AS_INT64 mem wp wl (HookStateData hs) false). simpl. split_and!.
  - done.
  - by eapply cache_ok_read.
  - apply Hset.
  - destruct (cs_map _ _ _ _ _ _ _ _ Hset) as (c' & -> & _). apply size_insert_upper.
  - intros. by eapply view_of_read.
Qed.

(** A call refused for its arguments. *)
Definition read_refused (mem : list Z) (r : HookResult) (res : Z * list Z * HookResult) : Prop :=
  res.1.1 < 0 /\ res = (res.1.1, mem, r).

Lemma state_foreign_spec led mem r M wp wl kp kl np nl ap al :
  ledger_wf led -> cache_ok led r M -> Z.of_nat (size (stateMap (result_stateMap r))) < 2 ^ 31 ->
  let res := state_foreign led mem r wp wl kp kl np nl ap al in
  (exists k, make_state_key (mem_slice mem kp kl) = Some k /\
     read_done led mem r M wp wl (if negb (ap =? 0) then fromVoid (mem_slice mem ap 20) else account r)
       (call_ns mem r np nl) k res) \/
  read_refused mem r res.
Proof.
  intros Hwf Hok Hsz res. unfold res, state_foreign. cbv zeta.
  repeat (match goal with |- context [if ?b then (_, mem, r) else _] => destruct b eqn:? end; [by right|]).
  fold (call_ns mem r np nl).
  destruct (make_state_key (mem_slice mem kp kl)) as [k|] eqn:Ek; [|by right].
  left. exists k. split; [done|]. by apply get_entry_spec.
Qed.

(** ** A transaction: the state calls of its hooks *)

(** The hooks of a transaction run one after the other on the same cache; a call
    comes with the memory of the hook at that moment. *)
Inductive state_call :=
| Hook (acc hash ns : Z)
| StateSet (mem : list Z) (read_ptr read_len kread_ptr kread_len nread_ptr nread_len aread_ptr aread_len : Z)
| StateGet (mem : list Z) (write_ptr write_len kread_ptr kread_len nread_ptr nread_len aread_ptr aread_len : Z).

Definition state_step (led : ledger) (r : HookResult) (c : state_call) : Z * HookResult :=
  match c with
  | Hook acc hash ns => (0, mkResult acc hash ns (result_stateMap r) 0 false)
  | StateSet mem rp rl kp kl np nl ap al => state_foreign_set led mem r rp rl kp kl np nl ap al
  | StateGet mem wp wl kp kl np nl ap al =>
    let '(code, _, r) := state_foreign led mem r wp wl kp kl np nl ap al in (code, r)
  end.

Fixpoint state_run (led : ledger) (r : HookResult) (cs : list state_call) : HookResult :=
  match cs with [] => r | c :: cs => state_run led (state_step led r c).2 cs end.

Lemma state_run_app led r cs cs' : state_run led r (cs ++ cs') = state_run led (state_run led r cs) cs'.
Proof. revert r. induction cs as [|c cs IH]; intros r; [done|apply IH]. Qed.

Lemma cache_ok_ext led r r' M : result_stateMap r' = result_stateMap r -> cache_ok led r M -> cache_ok led r' M.
Proof.
  intros He Hok. assert (Hl : forall a n k, lookup_state_cache r' a n k = lookup_state_cache r a n k).
  { intros. unfold lookup_state_cache. by rewrite He. }
  split; rewrite ?He; try apply Hok; intros *; rewrite Hl; apply Hok.
Qed.

Lemma state_step_ok led r M c :
  ledger_wf led -> cache_ok led r M -> Z.of_nat (size (stateMap (result_stateMap r))) < 2 ^ 31 ->
  let r' := (state_step led r c).2 in
  (exists M', cache_ok led r' M') /\
  (size (stateMap (result_stateMap r')) <= S (size (stateMap (result_stateMap r))))%nat.
Proof.
  intros Hwf Hok Hsz. destruct c as [acc hash ns|mem rp rl kp kl np nl ap al|mem wp wl kp kl np nl ap al]; simpl.
  - split; [exists M; by apply (cache_ok_ext led r)|lia].
  - pose proof (state_foreign_set_spec led mem r M rp rl kp kl np nl ap al Hok) as Hs.
    destruct (state_foreign_set led mem r rp rl kp kl np nl ap al) as [code r'].
    destruct Hs as [(k & _ & _ & _ & Hok' & _ & Hsz' & _)|[_ [->| ->]]]; simpl.
    + split; [by eexists|done].
    + split; [by eexists|lia].
    + split; [exists M; by apply (cache_ok_ext led r)|lia].
  - pose proof (state_foreign_spec led mem r M wp wl kp kl np nl ap al Hwf Hok Hsz) as Hs. cbv zeta in Hs.
    destruct (state_foreign led mem r wp wl kp kl np nl ap al) as [[code mem'] r'].
    destruct Hs as [(k & _ & _ & Hok' & _ & Hsz' & _)|[_ [= -> ->]]]; simpl in *.
    + split; [by eexists|done].
    + split; [by eexists|lia].
Qed.

Lemma state_run_ok led cs : forall r M,
  ledger_wf led -> cache_ok led r M ->
  Z.of_nat (size (stateMap (result_stateMap r))) + lenZ cs < 2 ^ 31 ->
  (exists M', cache_ok led (state_run led r cs) M') /\
  Z.of_nat (size (stateMap (result_stateMap (state_run led r cs)))) <=
    Z.of_nat (size (stateMap (result_stateMap r))) + lenZ cs.
Proof.
  induction cs as [|c cs IH]; intros r M Hwf Hok Hsz; simpl; [split; [by eexists|unfold lenZ; lia]|].
  autorewrite with mach in *. pose proof (lenZ_nonneg cs).
  destruct (state_step_ok led r M c Hwf Hok) as [(M' & Hok') Hs]; [lia|].
  destruct (IH (state_step led r c).2 M' Hwf Hok') as [Hex Hle]; [lia|]. split; [done|lia].
Qed.

(** The run of a transaction starts with the empty cache. *)
Lemma state_run_start led r0 cs :
  ledger_wf led -> result_stateMap r0 = empty_state_map -> lenZ cs < 2 ^ 31 ->
  (exists M, cache_ok led (state_run led r0 cs) M) /\
  Z.of_nat (size (stateMap (result_stateMap (state_run led r0 cs)))) <= lenZ cs.
Proof.
  intros Hwf H0' Hl. assert (Hz : size (stateMap (result_stateMap r0)) = 0%nat) by (rewrite H0'; apply map_size_empty).
  destruct (state_run_ok led cs r0 ∅ Hwf (cache_ok_empty led r0 H0')) as [Hex Hle]; [lia|]. split; [done|lia].
Qed.

End Facts.
