(* ===== verification/StateCommit.v ===== *)
(** * The commit of hook state

    [finalizeHookState] on a cache that the state functions built writes every
    modified entry and cannot fail: the callers of the source ignore its result,
    so a failure would leave a part of the writes in the ledger. *)

From S2P Require Import Prelude HookEnum HookMemory LedgerDir LedgerDirFacts HookState HookStateFacts.
From S2P Require Import StateCache StateCacheFacts StateApiFacts.

Abbreviation entry := (Z * Z * Z * (bool * list Z))%type.

(** ** The entries of the cache as a list *)

Lemma elem_of_std_map {A} (m : gmap Z A) k x : (k, x) ∈ std_map m <-> m !! k = Some x.
Proof. unfold std_map. rewrite merge_sort_Permutation. apply elem_of_map_to_list. Qed.

Lemma NoDup_std_map {A} (m : gmap Z A) : NoDup (std_map m).
Proof. unfold std_map. rewrite merge_sort_Permutation. apply NoDup_map_to_list. Qed.

Lemma elem_of_state_entries r a n k e :
  (a, n, k, e) ∈ state_entries (result_stateMap r) <-> lookup_state_cache r a n k = Some e.
Proof.
  unfold state_entries, lookup_state_cache. rewrite list_elem_of_bind. split.
  - intros ([a' c] & ([n' m] & ([k' e'] & Hin & Hk)%list_elem_of_bind & Hn)%list_elem_of_bind & Ha).
    apply list_elem_of_singleton in Hin. apply elem_of_std_map in Hk, Hn, Ha. simplify_eq/=. by rewrite Ha, Hn.
  - intros Hl. destruct (stateMap (result_stateMap r) !! a) as [c|] eqn:Ha; [|done].
    destruct (stateMapAcc c !! n) as [m|] eqn:Hn; [|done].
    exists (a, c). split; [|by apply elem_of_std_map]. apply list_elem_of_bind. exists (n, m).
    split; [|by apply elem_of_std_map]. apply list_elem_of_bind. exists (k, e).
    split; [by apply list_elem_of_singleton|by apply elem_of_std_map].
Qed.

Lemma NoDup_state_entries m : NoDup (state_entries m).*1.
Proof.
  apply NoDup_fmap_fst.
  - intros [[a n] k] e1 e2 H1 H2.
    pose proof (elem_of_state_entries (mkResult 0 0 0 m 0 false) a n k) as Hl. simpl in Hl.
    apply Hl in H1, H2. congruence.
  - unfold state_entries. apply NoDup_bind; [| |apply NoDup_std_map].
    + intros [a1 c1] [a2 c2] [[[a n] k] e] H1 H2 ([n1 m1] & ([k1 e1] & I1 & _)%list_elem_of_bind & _)%list_elem_of_bind
        ([n2 m2] & ([k2 e2] & I2 & _)%list_elem_of_bind & _)%list_elem_of_bind.
      apply list_elem_of_singleton in I1, I2. simplify_eq/=. apply elem_of_std_map in H1, H2. congruence.
    + intros [a c] _. apply NoDup_bind; [| |apply NoDup_std_map].
      * intros [n1 m1] [n2 m2] [[[a' n] k] e] H1 H2 ([k1 e1] & I1 & _)%list_elem_of_bind ([k2 e2] & I2 & _)%list_elem_of_bind.
        apply list_elem_of_singleton in I1, I2. simplify_eq/=. apply elem_of_std_map in H1, H2. congruence.
      * intros [n mn] _. apply NoDup_bind; [|intros; apply NoDup_singleton|apply NoDup_std_map].
        intros [k1 e1] [k2 e2] [[[a' n'] k'] e'] H1 H2 I1%list_elem_of_singleton I2%list_elem_of_singleton. by simplify_eq/=.
Qed.

Section Commit.
Context `{KeyletsInj}.

(** ** The loop *)

Definition modified_entry (x : entry) : Prop := x.2.1 = true.

(** The modified entries of [a] in [l] that the ledger does not have. *)
Definition fresh_entry (led : ledger) (a : Z) (x : entry) : Prop :=
  x.2.1 = true /\ x.1.1.1 = a /\ state_of led x.1.1.1 x.1.1.2 x.1.2 = None.

Definition todo (l : list entry) : Z := lenZ (filter modified_entry l).
Definition fresh (led : ledger) (a : Z) (l : list entry) : Z := lenZ (filter (fresh_entry led a) l).

Record loop_pre (led : ledger) (l : list entry) (B cnt : Z) : Prop := {
  lp_wf : ledger_wf led;
  lp_nodup : NoDup l.*1;
  lp_data a n k b : (a, n, k, (true, b)) ∈ l -> lenZ b <= maxHookStateDataSize /\ is_Some (accounts led !! a);
  lp_reserve a r : accounts led !! a = Some r -> fresh led a l <> 0 ->
    accountReserve (fees led) (OwnerCount r + fresh led a l) <= Balance r;
  lp_owner a r : accounts led !! a = Some r -> OwnerCount r + todo l < 2 ^ 32;
  lp_pages : pages_small led B /\ 0 <= B /\ B + todo l <= page_limit (fixPageCap led);
  lp_count : 0 <= cnt /\ cnt + todo l <= max_state_modifications + 1
}.

(** The entries [l] written over the state of [led]. *)
Definition written (led led' : ledger) (l : list entry) : Prop :=
  forall a n k,
    (forall b, (a, n, k, (true, b)) ∈ l -> state_of led' a n k = stored b) /\
    ((forall b, (a, n, k, (true, b)) ∉ l) -> state_of led' a n k = state_of led a n k).

Lemma fresh_cons led a x l : fresh led a (x :: l) = (if decide (fresh_entry led a x) then 1 else 0) + fresh led a l.
Proof. unfold fresh. rewrite filter_cons. case_decide; [by rewrite lenZ_cons|lia]. Qed.

Lemma todo_cons a n k e l : todo ((a, n, k, e) :: l) = (if e.1 then 1 else 0) + todo l.
Proof.
  unfold todo. rewrite filter_cons. destruct e as [[] b]; cbn [fst].
  - rewrite decide_True by done. by rewrite lenZ_cons.
  - rewrite decide_False by (by unfold modified_entry). lia.
Qed.

Lemma fresh_ext led led' a l :
  (forall x, x ∈ l -> state_of led' x.1.1.1 x.1.1.2 x.1.2 = state_of led x.1.1.1 x.1.1.2 x.1.2) ->
  fresh led' a l = fresh led a l.
Proof.
  induction l as [|x l IH]; intros Hl; [done|]. rewrite !fresh_cons, IH by (intros; apply Hl; by right). f_equal.
  unfold fresh_entry. rewrite (Hl x) by (by left). done.
Qed.

Lemma fresh_nonneg led a l : 0 <= fresh led a l.
Proof. apply lenZ_nonneg. Qed.
Lemma todo_nonneg l : 0 <= todo l.
Proof. apply lenZ_nonneg. Qed.

(** An unmodified entry is skipped. *)
Lemma loop_pre_skip led a n k b l B cnt : loop_pre led ((a, n, k, (false, b)) :: l) B cnt -> loop_pre led l B cnt.
Proof.
  intros [H1 H2 H3 H4 H5 H6 H7]. simpl in H2. apply NoDup_cons in H2 as [_ H2].
  rewrite todo_cons in *. simpl in *. split; try done.
  intros a' n' k' b' Hin. apply (H3 a' n' k'). by right.
Qed.

Lemma accountReserve_mono f x y : 0 <= increment f -> x <= y -> accountReserve f x <= accountReserve f y.
Proof. unfold accountReserve. nia. Qed.

Lemma delta_le led a n k b l :
  delta (state_of led a n k) b + fresh led a l <= fresh led a ((a, n, k, (true, b)) :: l).
Proof.
  rewrite fresh_cons. unfold delta. destruct (state_of led a n k) eqn:Es.
  - rewrite decide_False; [destruct b; simpl; lia|]. intros (_ & _ & Hs). simpl in Hs. congruence.
  - rewrite decide_True by done. destruct b; simpl; lia.
Qed.

(** A modified entry is written. *)
Lemma loop_pre_write led a n k b l B cnt :
  0 <= increment (fees led) -> loop_pre led ((a, n, k, (true, b)) :: l) B cnt ->
  forall E, exists led' r r', @setHookState _ E led a n k b = Ret (tesSUCCESS, led') /\
    state_update B led led' a n k b r r' /\ loop_pre led' l (B + 1) (cnt + 1).
Proof.
  intros Hinc [H1 H2 H3 H4 H5 (H6 & HB & Hlim) H7] E. simpl in H2. apply NoDup_cons in H2 as [Hnotin H2].
  rewrite todo_cons in *. cbn [fst] in *. pose proof (todo_nonneg l).
  destruct (H3 a n k b ltac:(by left)) as [Hlen [r0 Hr0]].
  destruct (setHookState_spec (E := E) led a n k b B H1 H6) as [(led' & r & r' & Hrun & Hr & _ & Hup)|(t & _ & Href)].
  { lia. }
  { intros r Hr. specialize (H5 a r Hr). lia. }
  - exists led', r, r'. split_and!; [done|done|].
    assert (Hother : forall x : entry, x ∈ l -> state_of led' x.1.1.1 x.1.1.2 x.1.2 = state_of led x.1.1.1 x.1.1.2 x.1.2).
    { intros [[[a' n'] k'] e] Hin. simpl. rewrite (up_state _ _ _ _ _ _ _ _ _ Hup). rewrite decide_False; [done|].
      intros [= -> -> ->]. apply Hnotin. apply list_elem_of_fmap. by exists (a, n, k, e). }
    destruct (up_env _ _ _ _ _ _ _ _ _ Hup) as (Hfees & _ & Hcap & _).
    pose proof (up_accounts _ _ _ _ _ _ _ _ _ Hup) as Hacc.
    pose proof (up_owner _ _ _ _ _ _ _ _ _ Hup) as Hown. pose proof (up_balance _ _ _ _ _ _ _ _ _ Hup) as Hbal.
    assert (Hd : delta (state_of led a n k) b <= 1) by (unfold delta; destruct (state_of led a n k), (is_nil b); lia).
    split.
    + apply Hup.
    + done.
    + intros a' n' k' b' Hin. destruct (H3 a' n' k' b' ltac:(by right)) as [? ?]. split; [done|].
      rewrite Hacc. rewrite lookup_insert_is_Some'. by right.
    + intros a' r1 Ha'. rewrite (fresh_ext led led' a' l Hother), Hfees. intros Hf.
      rewrite Hacc in Ha'. destruct (decide (a' = a)) as [->|Hne].
      * rewrite lookup_insert_eq in Ha'. injection Ha' as <-. rewrite Hbal, Hown.
        pose proof (delta_le led a n k b l) as Hdl. pose proof (fresh_nonneg led a l).
        assert (Hge : fresh led a l <= fresh led a ((a, n, k, (true, b)) :: l)) by (rewrite fresh_cons; case_decide; lia).
        transitivity (accountReserve (fees led) (OwnerCount r + fresh led a ((a, n, k, (true, b)) :: l))).
        { apply accountReserve_mono; [done|lia]. }
        apply H4; [done|lia].
      * rewrite lookup_insert_ne in Ha' by done. specialize (H4 a' r1 Ha'). rewrite fresh_cons in H4.
        rewrite decide_False in H4; [by apply H4|]. intros (_ & Hx & _). simpl in Hx. congruence.
    + intros a' r1. rewrite Hacc. destruct (decide (a' = a)) as [->|Hne].
      * rewrite lookup_insert_eq. intros [= <-]. specialize (H5 a r Hr). lia.
      * rewrite lookup_insert_ne by done. intros Ha'. specialize (H5 a' r1 Ha'). lia.
    + split_and!; [apply Hup|lia|rewrite Hcap; lia].
    + lia.
  - exfalso. destruct t; simpl in Href; try done.
    + congruence.
    + lia.
    + destruct Href as (r & Hr & Hs & Hb & Hlt).
      assert (Hf : 1 <= fresh led a ((a, n, k, (true, b)) :: l)).
      { rewrite fresh_cons, decide_True by done. pose proof (fresh_nonneg led a l). lia. }
      specialize (H4 a r Hr ltac:(lia)).
      pose proof (accountReserve_mono (fees led) (OwnerCount r + 1) _ Hinc (Zplus_le_compat_l _ _ (OwnerCount r) Hf)). lia.
Qed.

Lemma written_cons led led' led'' a n k b l r r' B :
  state_update B led led' a n k b r r' -> (a, n, k) ∉ l.*1 -> written led' led'' l ->
  written led led'' ((a, n, k, (true, b)) :: l).
Proof.
  intros Hup Hn Hw a' n' k'. destruct (Hw a' n' k') as [W1 W2]. split.
  - intros b'. rewrite elem_of_cons. intros [Heq|Hin]; [|by apply W1]. simplify_eq. rewrite W2.
    + rewrite (up_state _ _ _ _ _ _ _ _ _ Hup). by rewrite decide_True.
    + intros b2 Hin. apply Hn. apply list_elem_of_fmap. by exists (a, n, k, (true, b2)).
  - intros Hall. rewrite W2.
    + rewrite (up_state _ _ _ _ _ _ _ _ _ Hup). rewrite decide_False; [done|]. intros [= -> -> ->].
      apply (Hall b). by left.
    + intros b2 Hin. apply (Hall b2). by right.
Qed.

Lemma finalize_loop_spec {E} l : forall led B cnt,
  0 <= increment (fees led) -> loop_pre led l B cnt ->
  exists led', @finalize_loop _ E led cnt l = Ret (tesSUCCESS, led') /\ ledger_wf led' /\ written led led' l /\
    same_env led led'.
Proof.
  induction l as [|[[[a n] k] [[] b]] l IH]; intros led B cnt Hinc Hpre; simpl.
  - exists led. split_and!; [done|apply Hpre| |done]. intros a n k. split; [set_solver|done].
  - destruct (loop_pre_write led a n k b l B cnt Hinc Hpre E) as (led1 & r & r' & Hrun & Hup & Hpre1).
    destruct (up_env _ _ _ _ _ _ _ _ _ Hup) as (Hf & Hx & Hc & Hh & Hdf).
    destruct (lp_count _ _ _ _ Hpre) as [Hc0 Hcnt]. rewrite todo_cons in Hcnt. cbn [fst] in Hcnt.
    pose proof (todo_nonneg l). unfold max_state_modifications in *.
    assert (Hu : u16 (cnt + 1) = cnt + 1) by (apply Z.mod_small; lia). rewrite Hu.
    replace (256 + 1 <? cnt + 1) with false by lia. rewrite Hrun. cbn [obind]. simpl.
    destruct (IH led1 (B + 1) (cnt + 1)) as (led2 & -> & Hwf & Hw & Hf2 & Hx2 & Hc2 & Hh2 & Hd2); [by rewrite Hf|done|].
    exists led2. split_and!; [done|done| |].
    + eapply written_cons; [done| |done]. pose proof (lp_nodup _ _ _ _ Hpre) as Hn. by apply NoDup_cons in Hn as [? _].
    + split_and!; congruence.
  - destruct (IH led B cnt Hinc (loop_pre_skip _ _ _ _ _ _ _ _ Hpre)) as (led' & -> & Hwf & Hw & He).
    exists led'. split_and!; [done|done| |done]. intros a' n' k'. destruct (Hw a' n' k') as [W1 W2]. split.
    + intros b'. rewrite elem_of_cons. intros [Heq|Hin]; [done|by apply W1].
    + intros Hall. apply W2. intros b' Hin. apply (Hall b'). by right.
Qed.

(** ** From the cache to the loop *)

Lemma NoDup_filter_keys (P : entry -> Prop) `{!forall x, Decision (P x)} l : NoDup l.*1 -> NoDup (filter P l).*1.
Proof.
  intros Hn. induction l as [|x l IH]; [done|]. simpl in Hn. apply NoDup_cons in Hn as [Hx Hl].
  rewrite filter_cons. case_decide; [|by apply IH]. simpl. constructor; [|by apply IH].
  intros Hin. apply Hx. apply list_elem_of_fmap in Hin as (y & -> & Hy). apply list_elem_of_filter in Hy as [_ Hy].
  apply list_elem_of_fmap. by exists y.
Qed.

(** A list of entries with different keys, all in a set, is no longer than the set. *)
Lemma keys_le_size (l : list entry) (S : gset (Z * Z * Z)) :
  NoDup l.*1 -> (forall x, x ∈ l -> x.1 ∈ S) -> lenZ l <= Z.of_nat (size S).
Proof.
  intros Hn Hin. unfold lenZ. apply inj_le. replace (length l) with (length l.*1) by apply length_fmap.
  rewrite <- (size_list_to_set (C := gset (Z * Z * Z)) l.*1) by done. apply subseteq_size.
  intros x Hx. apply elem_of_list_to_set, list_elem_of_fmap in Hx as (y & -> & Hy). by apply Hin.
Qed.

Lemma available_reserves_le f sle N :
  0 <= increment f -> 1 <= N <= available_reserves f sle ->
  accountReserve f (OwnerCount sle + N) <= Balance sle.
Proof.
  unfold available_reserves, accountReserve. intros Hi HN.
  set (x := Balance sle - (reserve f + OwnerCount sle * increment f)) in *.
  set (y := if increment f <=? 0 then 1 else increment f) in *.
  assert (Hy : 0 < y /\ increment f <= y) by (unfold y; destruct (Z.leb_spec (increment f) 0); lia).
  assert (Hx : N * y <= x).
  { destruct (Z.lt_ge_cases x 0) as [Hneg|Hpos].
    - assert (Z.quot x y <= 0); [|lia]. rewrite <- (Z.opp_involutive x), Z.quot_opp_l by lia.
      pose proof (Z.quot_pos (- x) y). lia.
    - rewrite Z.quot_div_nonneg in HN by lia. pose proof (Z.mul_div_le x y). nia. }
  unfold x in Hx. nia.
Qed.

Definition room (led : ledger) (B : Z) : Prop :=
  (forall a r, accounts led !! a = Some r -> OwnerCount r + max_state_modifications < 2 ^ 32) /\
  pages_small led B /\ 0 <= B /\ B + max_state_modifications <= page_limit (fixPageCap led).

Lemma loop_pre_start led r M B :
  ledger_wf led -> cache_ok led r M -> 0 <= increment (fees led) -> room led B ->
  loop_pre led (state_entries (result_stateMap r)) B 0.
Proof.
  intros Hwf Hok Hinc (Hown & Hpg & HB & Hlim). set (l := state_entries (result_stateMap r)).
  pose proof (NoDup_state_entries (result_stateMap r)) as Hnd. fold l in Hnd.
  assert (Hin : forall x, x ∈ l -> modified_entry x -> x.1 ∈ M).
  { intros [[[a n] k] [flag b]] Hx Hm. unfold modified_entry in Hm. simpl in *. subst flag.
    apply (co_modified _ _ _ Hok). exists b. by apply elem_of_state_entries. }
  assert (Htodo : todo l <= Z.of_nat (size M)).
  { apply keys_le_size; [by apply NoDup_filter_keys|]. intros x [Hm Hx]%list_elem_of_filter. by apply Hin. }
  destruct (co_number _ _ _ Hok) as [_ Hnum].
  assert (Hcached : forall a n k b, (a, n, k, (true, b)) ∈ l -> is_Some (stateMap (result_stateMap r) !! a)).
  { intros a n k b Hx. apply elem_of_state_entries in Hx. destruct (stateMap (result_stateMap r) !! a) eqn:Ea; [by eexists|].
    by rewrite lookup_acc_none in Hx. }
  split; try done.
  - intros a n k b Hx. split; [eapply (co_data _ _ _ Hok); by apply elem_of_state_entries|].
    destruct (Hcached a n k b Hx) as [c Hc]. destruct (co_reserve _ _ _ Hok a c Hc) as (sle & Hs & _). by eexists.
  - intros a r0 Ha Hf.
    assert (Hfr : fresh led a l <= Z.of_nat (size (new_entries led M a))).
    { apply keys_le_size; [by apply NoDup_filter_keys|]. intros x [(Hm & Hxa & Hs) Hx]%list_elem_of_filter.
      apply elem_of_new_entries. split_and!; [by apply Hin|done|done]. }
    pose proof (fresh_nonneg led a l).
    destruct (filter (fresh_entry led a) l) as [|x rest] eqn:Ef; [by unfold fresh in Hf; rewrite Ef in Hf|].
    assert (Hx : x ∈ filter (fresh_entry led a) l) by (rewrite Ef; by left).
    apply list_elem_of_filter in Hx as [(Hm & Hxa & _) Hx]. destruct x as [[[a' n] k] [flag b]]. simpl in Hm, Hxa. subst flag a'.
    destruct (Hcached a n k b Hx) as [c Hc].
    destruct (co_reserve _ _ _ Hok a c Hc) as (sle & Hs & Hav & Hnn). rewrite Ha in Hs. injection Hs as <-.
    assert (0 <= availableForReserves c).
    { apply Hnn. intros Hempty. rewrite Hempty, size_empty in Hfr. lia. }
    apply available_reserves_le; [done|lia].
  - intros a r0 Ha. specialize (Hown a r0 Ha). lia.
  - split_and!; [done|done|lia].
  - unfold max_state_modifications in *. lia.
Qed.

Lemma finalize_spec {E} led r M B :
  ledger_wf led -> cache_ok led r M -> 0 <= increment (fees led) -> room led B ->
  exists led', @finalizeHookState _ E (result_stateMap r) led = Ret (tesSUCCESS, led') /\
    ledger_wf led' /\ (forall a n k, state_of led' a n k = view_of led r a n k) /\ same_env led led'.
Proof.
  intros Hwf Hok Hinc Hroom. unfold finalizeHookState.
  destruct (finalize_loop_spec (E := E) (state_entries (result_stateMap r)) led B 0 Hinc) as (led' & -> & Hwf' & Hw & He).
  { by eapply loop_pre_start. }
  exists led'. split_and!; [done|done| |done]. intros a n k. destruct (Hw a n k) as [W1 W2]. unfold view_of.
  destruct (lookup_state_cache r a n k) as [[[] b]|] eqn:El.
  - apply W1. by apply elem_of_state_entries.
  - rewrite W2; [|intros b' Hin; apply elem_of_state_entries in Hin; congruence].
    pose proof (co_clean _ _ _ Hok a n k b El) as Hs. rewrite Hs. destruct b; [|done].
    by destruct (wf_nonempty led Hwf a n k).
  - apply W2. intros b' Hin. apply elem_of_state_entries in Hin. congruence.
Qed.

End Commit.
