(* ===== verification/StateClaims.v ===== *)
(** * Hook state: the properties

    The results of the files on hook state, with their instances: the invariant of
    the ledger, the refinement of a finite map by the cached state functions, the
    commit, and where the code departs from what it means to do. *)

From S2P Require Import Prelude HookEnum HookMemory LedgerDir LedgerDirFacts HookState HookStateFacts.
From S2P Require Import StateCache StateCacheFacts StateApiFacts StateCommit.

Section Claims.
Context `{KeyletsInj}.

(** ** The invariant of the ledger *)

(** C15: [setHookState] keeps the invariant of the ledger and is an update of a
    finite map. On a ledger in which for every account the state count is the
    number of its entries, the owner count covers them, the list of namespaces has
    exactly those with entries and each directory exactly the entries of its
    namespace, a call either succeeds, stores the data (or deletes the entry, for
    no data), changes no other entry, moves the owner count by the change in the
    number of entries and keeps the invariant, or it changes nothing and fails
    for a missing account, too much data or a reserve the account does not have.
    It never reports a bad ledger or a full directory and never reaches a
    [LogicError] while page numbers and owner counts are in range. *)
Theorem setHookState_invariant {E} led a n k data B :
  ledger_wf led -> pages_small led B -> 0 <= B < page_limit (fixPageCap led) ->
  (forall r, accounts led !! a = Some r -> OwnerCount r + 1 < 2 ^ 32) ->
  (exists led' r r', @setHookState _ E led a n k data = Ret (tesSUCCESS, led') /\ accounts led !! a = Some r /\
     lenZ data <= maxHookStateDataSize /\ state_update B led led' a n k data r r') \/
  (exists t, @setHookState _ E led a n k data = Ret (t, led) /\ refused led a n k data t).
Proof. apply setHookState_spec. Qed.

(** ** The cache refines a finite map *)

Lemma view_of_refused led r code r' a n k : write_refused led r code r' -> view_of led r' a n k = view_of led r a n k.
Proof. by intros [_ [->| ->]]. Qed.

(** C16: the state functions refine reads and writes of a finite map. After any
    sequence of state calls of the hooks of a transaction, a [state_foreign_set]
    either answers the length of the data, and then the caller may write the entry
    and the state the hooks see changes at that entry only, to the data (or to
    nothing, for no data), or it answers an error and the state seen is unchanged.
    A [state_foreign] changes nothing of the state seen; unless its arguments are
    refused it answers [DOESNT_EXIST] when neither the cache nor the ledger has
    the entry and otherwise gives the bytes found. *)
Theorem state_api_refines led r0 cs :
  ledger_wf led -> result_stateMap r0 = empty_state_map -> lenZ cs < 2 ^ 31 - 1 ->
  let r := state_run led r0 cs in
  (forall mem rp rl kp kl np nl ap al,
     let '(code, r') := state_foreign_set led mem r rp rl kp kl np nl ap al in
     (exists k, make_state_key (mem_slice mem kp kl) = Some k /\
        let n := call_ns mem r np nl in
        let a := if al =? 20 then fromVoid (mem_slice mem ap 20) else account r in
        let data := mem_slice mem rp rl in
        may_write led r (negb (al =? 0)) a n k /\ code = lenZ data /\
        forall a' n' k', view_of led r' a' n' k' = updated (view_of led r) a n k data a' n' k') \/
     (code < 0 /\ forall a n k, view_of led r' a n k = view_of led r a n k)) /\
  (forall mem wp wl kp kl np nl ap al,
     let '(code, mem', r') := state_foreign led mem r wp wl kp kl np nl ap al in
     (forall a n k, view_of led r' a n k = view_of led r a n k) /\
     ((exists k, make_state_key (mem_slice mem kp kl) = Some k /\
        (code, mem') =
        match found led r (if negb (ap =? 0) then fromVoid (mem_slice mem ap 20) else account r) (call_ns mem r np nl) k with
        | None => (DOESNT_EXIST, mem)
        | Some b => WRITE_WASM_MEMORY_OR_RETURN_AS_INT64 mem wp wl b false
        end) \/
      (code < 0 /\ mem' = mem))).
Proof.
  intros Hwf H0' Hl r. destruct (state_run_start led r0 cs Hwf H0') as [(M & Hok) Hsz]; [lia|].
  fold r in Hok, Hsz. split.
  - intros mem rp rl kp kl np nl ap al. pose proof (state_foreign_set_spec led mem r M rp rl kp kl np nl ap al Hok) as Hs.
    destruct (state_foreign_set led mem r rp rl kp kl np nl ap al) as [code r'].
    destruct Hs as [(k & Hk & Hm & Hc & _ & _ & _ & Hv)|Href]; [left; by exists k|right].
    split; [apply Href|]. intros. by eapply view_of_refused.
  - intros mem wp wl kp kl np nl ap al.
    pose proof (state_foreign_spec led mem r M wp wl kp kl np nl ap al Hwf Hok) as Hs. cbv zeta in Hs.
    destruct (state_foreign led mem r wp wl kp kl np nl ap al) as [[code mem'] r'].
    destruct Hs as [(k & Hk & Hr & _ & _ & _ & Hv)|[Hneg Heq]]; [lia|..]; simpl in *.
    + split; [done|]. left. exists k. by split.
    + injection Heq as -> ->. split; [done|by right].
Qed.

(** ** The commit *)

(** C17: the state writes of a transaction are committed as a whole. After any
    sequence of state calls of its hooks, [finalizeHookState] on the ledger they ran
    on succeeds: the limits on data, number of modifications and reserve that the
    calls enforce are enough. The ledger it leaves satisfies the invariant and
    holds exactly the state the hooks saw last; an entry they deleted is gone. *)
Theorem state_commit {E} led r0 cs B :
  ledger_wf led -> result_stateMap r0 = empty_state_map -> lenZ cs < 2 ^ 31 ->
  0 <= increment (fees led) -> room led B ->
  let r := state_run led r0 cs in
  exists led', @finalizeHookState _ E (result_stateMap r) led = Ret (tesSUCCESS, led') /\
    ledger_wf led' /\ (forall a n k, state_of led' a n k = view_of led r a n k) /\ same_env led led'.
Proof.
  intros Hwf H0' Hl Hinc Hroom r. destruct (state_run_start led r0 cs Hwf H0' Hl) as [(M & Hok) _].
  by apply (finalize_spec led r M B).
Qed.

End Claims.

(** ** Examples of the keylets and of a ledger *)

Section Demo.

#[local] Instance demo_keylets : Keylets := {|
  keylet_hookState a k n := Z.pos (encode (a, k, n));
  keylet_hookStateDir a n := Z.pos (encode (a, n))
|}.

#[local] Instance demo_keylets_inj : KeyletsInj.
Proof.
  split; simpl.
  - intros a k n a' k' n' [= Heq%(inj encode)]. by simplify_eq.
  - intros a n a' n' [= Heq%(inj encode)]. by simplify_eq.
Qed.

(** A ledger without state. *)
Lemma ledger_wf_fresh `{KeyletsInj} v1 cap f accs hs defs :
  (forall a r, accs !! a = Some r -> HookStateCount r = 0 /\ 0 <= OwnerCount r < 2 ^ 32 /\ HookNamespaces r = None) ->
  ledger_wf (mkLedger v1 cap f accs ∅ ∅ hs defs).
Proof.
  intros Hacc. assert (Hno : forall a n k, state_of (mkLedger v1 cap f accs ∅ ∅ hs defs) a n k = None).
  { intros. unfold state_of. simpl. by rewrite lookup_empty. }
  split; [| |intros a n k; by rewrite Hno; intros []|intros a n k; by rewrite Hno].
  - intros a r Ha. destruct (Hacc a r Ha) as (Hc & Ho & Hn). exists ∅. split; unfold namespaces; rewrite ?Hn; simpl.
    + intros n k. rewrite Hno. split; [set_solver|by intros []].
    + by rewrite Hc.
    + lia.
    + constructor.
    + set_solver.
  - intros a n. exists ∅. split.
    + unfold dir_at. simpl. rewrite lookup_empty. apply dir_repr_empty.
    + intros x p. simpl. rewrite !lookup_empty. naive_solver.
Qed.

Lemma pages_small_fresh v1 cap f accs hs defs : pages_small (mkLedger v1 cap f accs ∅ ∅ hs defs) 0.
Proof. intros k p. unfold dir_at. simpl. rewrite lookup_empty. simpl. rewrite lookup_empty. by intros []. Qed.

(** Two accounts; the first has a hook that grants nothing. *)
Definition demo_ledger (balance : Z) : ledger :=
  mkLedger true false (mkFees 10 5) {[ 1 := mkAccount balance 0 0 None 0 None; 2 := mkAccount balance 0 0 None 0 None ]} ∅ ∅
    {[ 1 := [mkHook (Some 111) (Some 5) None None None None None] ]} ∅.

Lemma demo_accounts balance a r :
  accounts (demo_ledger balance) !! a = Some r -> r = mkAccount balance 0 0 None 0 None.
Proof.
  simpl. rewrite lookup_insert_Some, lookup_singleton_Some. naive_solver.
Qed.

Lemma demo_wf balance : ledger_wf (demo_ledger balance).
Proof. apply ledger_wf_fresh. intros a r Ha%(demo_accounts balance). subst r. done. Qed.

Lemma demo_room balance : room (demo_ledger balance) 0.
Proof.
  split_and!; [|apply pages_small_fresh|lia|done]. intros a r Ha%(demo_accounts balance). by subst r.
Qed.

Definition start : HookResult := mkResult 1 111 5 empty_state_map 0 false.

(** A memory with the byte [d], the key 75, the namespace 5 and the account 1. *)
Definition demo_mem (d : Z) : list Z := [d; 75] ++ (replicate 31 0 ++ [5]) ++ (replicate 19 0 ++ [1]).
Definition local_set (d : Z) : state_call := StateSet (demo_mem d) 0 1 1 1 0 0 0 0.
Definition local_delete : state_call := StateSet (demo_mem 0) 0 0 1 1 0 0 0 0.
Definition local_get : state_call := StateGet (demo_mem 0) 0 0 1 1 0 0 0 0.
Definition foreign_set (d : Z) : state_call := StateSet (demo_mem d) 0 1 1 1 2 32 34 20.
Definition foreign_get : state_call := StateGet (demo_mem 0) 0 0 1 1 2 32 34 20.

Lemma setHookState_invariant_witness :
  exists led' r r', @setHookState _ unit (demo_ledger 100) 1 5 75 [9] = Ret (tesSUCCESS, led') /\
    accounts (demo_ledger 100) !! 1 = Some r /\ state_update 0 (demo_ledger 100) led' 1 5 75 [9] r r'.
Proof.
  destruct (setHookState_invariant (E := unit) (demo_ledger 100) 1 5 75 [9] 0) as [(led' & r & r' & Hr & Ha & _ & Hu)|(t & Ht & Href)].
  - apply demo_wf.
  - apply pages_small_fresh.
  - done.
  - intros r Ha%(demo_accounts 100). by subst r.
  - by exists led', r, r'.
  - exfalso. vm_compute in Ht. injection Ht as <- _. by vm_compute in Href.
Defined.
Lemma state_api_refines_witness :
  let r := state_run (demo_ledger 100) start [local_set 9; local_get] in
  let '(code, r') := state_foreign_set (demo_ledger 100) (demo_mem 8) r 0 1 1 1 0 0 0 0 in
  code = 1 /\ view_of (demo_ledger 100) r' 1 5 75 = Some [8].
Proof.
  destruct (state_api_refines (demo_ledger 100) start [local_set 9; local_get] (demo_wf 100) eq_refl ltac:(done))
    as [Hset _].
  specialize (Hset (demo_mem 8) 0 1 1 1 0 0 0 0).
  set (r := state_run (demo_ledger 100) start [local_set 9; local_get]) in *. cbv zeta.
  assert (Hcode : (state_foreign_set (demo_ledger 100) (demo_mem 8) r 0 1 1 1 0 0 0 0).1 = 1) by (vm_compute; done).
  destruct (state_foreign_set (demo_ledger 100) (demo_mem 8) r 0 1 1 1 0 0 0 0) as [code r']. simpl in Hcode. subst code.
  split; [done|]. destruct Hset as [(k & Hk & _ & _ & Hv)|[? _]]; [|lia].
  assert (k = 75) as -> by (vm_compute in Hk; congruence). rewrite Hv. vm_compute. done.
Defined.

Lemma state_commit_witness :
  let r := state_run (demo_ledger 100) start [local_set 9; Hook 2 222 6; local_set 7] in
  exists led', @finalizeHookState _ unit (result_stateMap r) (demo_ledger 100) = Ret (tesSUCCESS, led') /\
    state_of led' 1 5 75 = Some [9] /\ state_of led' 2 6 75 = Some [7].
Proof.
  destruct (state_commit (E := unit) (demo_ledger 100) start [local_set 9; Hook 2 222 6; local_set 7] 0
    (demo_wf 100) eq_refl ltac:(done) ltac:(done) (demo_room 100)) as (led' & Hrun & _ & Hst & _).
  exists led'. split; [done|]. rewrite !Hst. by vm_compute.
Defined.

(** ** Where the code departs *)

(** The answers of the calls of a run. *)
Fixpoint codes (led : ledger) (r : HookResult) (cs : list state_call) : list Z :=
  match cs with [] => [] | c :: cs => (state_step led r c).1 :: codes led (state_step led r c).2 cs end.

(** A hook writes the state of another account without a grant. The cache is
    shared by the hooks of a transaction, and an entry that is modified is not
    checked again: once a hook of account 1 has set an entry of its own, the hook
    of account 2 overwrites it, and the write is committed, although account 1
    grants nothing; without the first write the same call is [NOT_AUTHORIZED]. *)
Theorem foreign_set_without_grant :
  codes (demo_ledger 100) start [Hook 2 222 6; foreign_set 8] = [0; NOT_AUTHORIZED] /\
  codes (demo_ledger 100) start [local_set 9; Hook 2 222 6; foreign_set 8] = [1; 0; 1] /\
  match @finalizeHookState _ unit
          (result_stateMap (state_run (demo_ledger 100) start [local_set 9; Hook 2 222 6; foreign_set 8]))
          (demo_ledger 100) with
  | Ret (t, led') => t = tesSUCCESS /\ state_of led' 1 5 75 = Some [8]
  | _ => False
  end.
Proof. vm_compute. repeat split. Qed.

(** The ledger after account 1 has set the entry 75. *)
Definition demo_ledger_set (balance : Z) : ledger :=
  match @setHookState _ unit (demo_ledger balance) 1 5 75 [9] with Ret (_, led) => led | _ => demo_ledger balance end.

(** A write to another key of account 1. *)
Definition other_set : state_call := StateSet ([4; 76] ++ replicate 8 0) 0 1 1 1 0 0 0 0.

(** The cache makes reads visible. An entry the hook deleted answers 0 and not
    [DOESNT_EXIST], as it does before it exists and after the commit. A read of an
    entry by another account's hook uses up a place of the owner's reserve: with
    reserve for one more entry the owner can set a new entry, but not after the
    entry was only read. The update of an existing entry needs a free place too,
    which the ledger does not ask for; and [changedStateCount] does not count the
    changes: it is 0 after the first entry was modified and 1 after a second one
    was. *)
Theorem state_cache_gaps :
  codes (demo_ledger 100) start [local_get; local_set 9; local_delete; local_get] = [DOESNT_EXIST; 1; 0; 0] /\
  codes (demo_ledger_set 20) start [other_set] = [1] /\
  codes (demo_ledger_set 20) start [Hook 2 222 6; foreign_get; Hook 1 111 5; other_set]
    = [0; 9; 0; RESERVE_INSUFFICIENT] /\
  codes (demo_ledger_set 15) start [local_set 8] = [RESERVE_INSUFFICIENT] /\
  match @setHookState _ unit (demo_ledger_set 15) 1 5 75 [8] with Ret (t, _) => t = tesSUCCESS | _ => False end /\
  changedStateCount (state_run (demo_ledger 100) start [local_set 9]) = 0 /\
  changedStateCount (state_run (demo_ledger 100) start [local_set 9; other_set]) = 1.
Proof. vm_compute. repeat split. Qed.

End Demo.
