(* ===== verification/Slots.v ===== *)
(** * Slots (src/src/ripple/app/hook/impl/applyHook.cpp)

    A hook keeps serialized objects in numbered slots. A slot holds a shared
    pointer to an object ([storage]) and a raw pointer into it ([entry]); here the
    pointer is the path from the root of the storage, so that a pointer that does
    not point into its storage is one whose path leads nowhere: following it is
    [UB_null]. The objects are data: the ledger, the originating transaction and
    its metadata are arguments of the functions. *)

From S2P Require Import Prelude HookEnum HookMemory Xfl.

(** ** Serialized types

    An object of the class [STBase] with the code of its field and the bytes its
    [add(Serializer&)] appends. *)

Inductive STBase :=
| STObject (fieldCode : Z) (bytes : list Z) (fields : list (Z * STBase))
| STArray (fieldCode : Z) (bytes : list Z) (elements : list STBase)
| STAmount (fieldCode : Z) (bytes : list Z) (native : bool) (mantissa exponent : Z)
| STAccount (fieldCode : Z) (bytes : list Z)
| STOther (fieldCode : Z) (bytes : list Z).

Definition getFName (o : STBase) : Z :=
  match o with STObject c _ _ | STArray c _ _ | STAmount c _ _ _ _ | STAccount c _ | STOther c _ => c end.

Definition serialized (o : STBase) : list Z :=
  match o with STObject _ b _ | STArray _ b _ | STAmount _ b _ _ _ | STAccount _ b | STOther _ b => b end.

(** [getField] of an object that has the field. *)
Fixpoint getField (fields : list (Z * STBase)) (code : Z) : option STBase :=
  match fields with
  | [] => None
  | (c, o) :: fields => if c =? code then Some o else getField fields code
  end.

(** ** Pointers into an object *)

Inductive path_step := Field (code : Z) | Element (index : Z).

Definition follow (o : STBase) (s : path_step) : option STBase :=
  match o, s with
  | STObject _ _ fields, Field code => getField fields code
  | STArray _ _ elements, Element i => if (0 <=? i) && (i <? lenZ elements) then elements !! Z.to_nat i else None
  | _, _ => None
  end.

Fixpoint resolve_path (o : STBase) (p : list path_step) : option STBase :=
  match p with
  | [] => Some o
  | s :: p => match follow o s with None => None | Some o => resolve_path o p end
  end.

Record SlotEntry := mkSlot { storage : STBase; entry : option (list path_step) }.

(** The part of [HookContext] for slots; [slot_free] is a queue. *)
Record slot_context := mkSlots {
  slots : gmap Z SlotEntry;
  slot_free : list Z;
  slot_counter : Z
}.

Definition new_slots : slot_context := mkSlots ∅ [] 0.

Definition max_slots : Z := 255.

Definition set_slot (n : Z) (e : SlotEntry) (c : slot_context) : slot_context :=
  mkSlots (<[n := e]> (slots c)) (slot_free c) (slot_counter c).

(** [hook_api::max_slots - hookCtx.slot.size() <= 0] in [size_t]. *)
Definition no_free_slots (c : slot_context) : bool := u64 (max_slots - Z.of_nat (size (slots c))) <=? 0.

(** The loop of [get_free_slot]: it ends at a slot that is not used or past the
    last one, after at most 256 rounds. *)
Fixpoint next_counter {E} (fuel : nat) (m : gmap Z SlotEntry) (counter : Z) : outcome E Z :=
  match fuel with
  | O => Timeout
  | S fuel =>
    let counter := u32 (counter + 1) in
    if bool_decide (is_Some (m !! counter)) && (counter <=? max_slots) then next_counter fuel m counter
    else Ret counter
  end.

Definition get_free_slot {E} (c : slot_context) : outcome E (option Z * slot_context) :=
  match slot_free c with
  | slot_into :: rest => Ret (Some slot_into, mkSlots (slots c) rest (slot_counter c))
  | [] =>
    let* counter := next_counter 257 (slots c) (slot_counter c) in
    let c := mkSlots (slots c) [] counter in
    Ret (if max_slots <? counter then None else Some counter, c)
  end.

(** A slot to put an object into: the one asked for, or a free one for 0. *)
Definition allocate {E} (c : slot_context) (slot_into : Z) : outcome E (option Z * slot_context) :=
  if slot_into =? 0 then get_free_slot c else Ret (Some slot_into, c).

(** [hookCtx.slot[slot_into] = SlotEntry{o, 0}; .entry = &*storage] *)
Definition emplace (c : slot_context) (slot_into : Z) (o : STBase) : slot_context :=
  set_slot slot_into (mkSlot o (Some [])) c.

(** The object an entry points to; [None] is the null pointer. *)
Definition deref {E} (e : SlotEntry) : outcome E (option STBase) :=
  match entry e with
  | None => Ret None
  | Some p => match resolve_path (storage e) p with Some o => Ret (Some o) | None => Undef UB_null end
  end.

(** ** The functions *)

(** [otxn_slot] with the originating transaction, and [meta_slot] with the
    metadata: the same steps after the check for the metadata. *)
Definition slot_object {E} (c : slot_context) (o : STBase) (slot_into : Z) : outcome E (Z * slot_context) :=
  if max_slots <? slot_into then Ret (INVALID_ARGUMENT, c)
  else if (slot_into =? 0) && no_free_slots c then Ret (NO_FREE_SLOTS, c)
  else
    let* '(found, c) := allocate c slot_into in
    match found with
    | None => Ret (NO_FREE_SLOTS, c)
    | Some n => Ret (n, emplace c n o)
    end.

Definition otxn_slot {E} (c : slot_context) (otxn : STBase) (slot_into : Z) : outcome E (Z * slot_context) :=
  slot_object c otxn slot_into.

Definition meta_slot {E} (c : slot_context) (provisionalMeta : option STBase) (slot_into : Z)
    : outcome E (Z * slot_context) :=
  match provisionalMeta with
  | None => Ret (PREREQUISITE_NOT_MET, c)
  | Some meta => slot_object c meta slot_into
  end.

(** [slot_set]: [read] is the object with a keylet and [fetch] the transaction
    with a hash. *)
Definition slot_set {E} (read fetch : list Z -> option STBase) (mem : list Z) (c : slot_context)
    (read_ptr read_len slot_into : Z) : outcome E (Z * slot_context) :=
  if NOT_IN_BOUNDS read_ptr read_len (lenZ mem) then Ret (OUT_OF_BOUNDS, c)
  else if (negb (read_len =? 32) && negb (read_len =? 34)) || (max_slots <? slot_into) then Ret (INVALID_ARGUMENT, c)
  else if (slot_into =? 0) && no_free_slots c then Ret (NO_FREE_SLOTS, c)
  else
    let slot_key := mem_slice mem read_ptr read_len in
    let slot_value :=
      if read_len =? 34 then
        if fromVoid (drop 2 slot_key) =? 0 then None else read slot_key
      else fetch slot_key in
    match slot_value with
    | None => Ret (DOESNT_EXIST, c)
    | Some o =>
      let* '(found, c) := allocate c slot_into in
      match found with
      | None => Ret (NO_FREE_SLOTS, c)
      | Some n => Ret (n, emplace c n o)
      end
    end.

Definition slot_clear (c : slot_context) (slot_no : Z) : Z * slot_context :=
  match slots c !! slot_no with
  | None => (DOESNT_EXIST, c)
  | Some _ => (1, mkSlots (delete slot_no (slots c)) (slot_free c ++ [slot_no]) (slot_counter c))
  end.

(** The object in a slot, or the code to return. *)
Definition slot_value {E} (c : slot_context) (slot_no : Z) : outcome E (STBase + Z) :=
  match slots c !! slot_no with
  | None => Ret (inr DOESNT_EXIST)
  | Some e =>
    let* o := deref e in
    Ret (match o with None => inr INTERNAL_ERROR | Some o => inl o end)
  end.

Definition slot {E} (mem : list Z) (c : slot_context) (write_ptr write_len slot_no : Z)
    : outcome E (Z * list Z) :=
  if (write_ptr =? 0) && negb (write_len =? 0) then Ret (INVALID_ARGUMENT, mem)
  else if negb (write_ptr =? 0) && NOT_IN_BOUNDS write_ptr write_len (lenZ mem) then Ret (OUT_OF_BOUNDS, mem)
  else if negb (write_ptr =? 0) && (write_len <? 1) then Ret (TOO_SMALL, mem)
  else
    let* v := slot_value c slot_no in
    match v with
    | inr code => Ret (code, mem)
    | inl o =>
      let is_account := match o with STAccount _ _ => true | _ => false end in
      Ret (WRITE_WASM_MEMORY_OR_RETURN_AS_INT64 mem write_ptr write_len (serialized o) is_account)
    end.

Definition slot_size {E} (c : slot_context) (slot_no : Z) : outcome E Z :=
  let* v := slot_value c slot_no in
  Ret (match v with inr code => code | inl o => lenZ (serialized o) end).

Definition slot_count {E} (c : slot_context) (slot_no : Z) : outcome E Z :=
  let* v := slot_value c slot_no in
  Ret (match v with
       | inr code => code
       | inl (STArray _ _ elements) => lenZ elements
       | inl _ => NOT_AN_ARRAY
       end).

Definition slot_type {E} (c : slot_context) (slot_no flags : Z) : outcome E Z :=
  let* v := slot_value c slot_no in
  Ret (match v with
       | inr code => code
       | inl o =>
         if flags =? 0 then getFName o
         else if flags =? 1 then
           match o with STAmount _ _ native _ _ => if native then 1 else 0 | _ => NOT_AN_AMOUNT end
         else INVALID_ARGUMENT
       end).

(** The drops of a native amount are counted in units of 10^-6. *)
Definition slot_float {E} (log10 : Z -> Z) (c : slot_context) (slot_no : Z) : outcome E Z :=
  let* v := slot_value c slot_no in
  Ret (match v with
       | inr code => code
       | inl (STAmount _ _ native mantissa exponent) =>
         let normalized :=
           if native then (normalize_xfl log10 true mantissa (-6) false).1.1
           else make_float_amount mantissa exponent in
         if normalized =? EXPONENT_UNDERSIZED then 0 else normalized
       | inl _ => NOT_AN_AMOUNT
       end).

(** The end of [slot_subarray] and [slot_subfield]: the slot of the parent is
    copied to the new slot, whose pointer is moved to the part. *)
Definition slot_sub {E} (c : slot_context) (parent : SlotEntry) (s : path_step) (new_slot : Z)
    : outcome E (Z * slot_context) :=
  let* '(found, c) := allocate c new_slot in
  match found with
  | None => Ret (NO_FREE_SLOTS, c)
  | Some n =>
    Ret (n, set_slot n (mkSlot (storage parent) (option_map (fun p => p ++ [s]) (entry parent))) c)
  end.

Definition slot_subarray {E} (c : slot_context) (parent_slot array_id new_slot : Z) : outcome E (Z * slot_context) :=
  match slots c !! parent_slot with
  | None => Ret (DOESNT_EXIST, c)
  | Some parent =>
    let* o := deref parent in
    match o with
    | None => Ret (INTERNAL_ERROR, c)
    | Some (STArray _ _ elements) =>
      if (new_slot =? 0) && no_free_slots c then Ret (NO_FREE_SLOTS, c)
      else if max_slots <? new_slot then Ret (INVALID_ARGUMENT, c)
      else if lenZ elements <=? array_id then Ret (DOESNT_EXIST, c)
      else slot_sub c parent (Element array_id) new_slot
    | Some _ => Ret (NOT_AN_ARRAY, c)
    end
  end.

(** [known] are the field codes of [SField::getField]. *)
Definition slot_subfield {E} (known : Z -> bool) (c : slot_context) (parent_slot field_id new_slot : Z)
    : outcome E (Z * slot_context) :=
  match slots c !! parent_slot with
  | None => Ret (DOESNT_EXIST, c)
  | Some parent =>
    if (new_slot =? 0) && no_free_slots c then Ret (NO_FREE_SLOTS, c)
    else if max_slots <? new_slot then Ret (INVALID_ARGUMENT, c)
    else if negb (known field_id) then Ret (INVALID_FIELD, c)
    else
      let* o := deref parent in
      match o with
      | None => Ret (INTERNAL_ERROR, c)
      | Some (STObject _ _ fields) =>
        match getField fields field_id with
        | None => Ret (DOESNT_EXIST, c)
        | Some _ => slot_sub c parent (Field field_id) new_slot
        end
      | Some _ => Ret (NOT_AN_OBJECT, c)
      end
  end.

(** [xpop_slot]: [is_import] says that the transaction is an import and [inner] is
    the result of [Import::getInnerTxn]. *)
Definition xpop_slot {E} (is_import : bool) (inner : option STBase * option STBase) (c : slot_context)
    (slot_into_tx slot_into_meta : Z) : outcome E (Z * slot_context) :=
  if negb is_import then Ret (PREREQUISITE_NOT_MET, c)
  else if (max_slots <? slot_into_tx) || (max_slots <? slot_into_meta) then Ret (INVALID_ARGUMENT, c)
  else
    let free_count := u64 (max_slots - Z.of_nat (size (slots c))) in
    let needed_count :=
      if (slot_into_tx =? 0) && (slot_into_meta =? 0) then 2
      else if negb (slot_into_tx =? 0) && negb (slot_into_meta =? 0) then 0 else 1 in
    if free_count <? needed_count then Ret (NO_FREE_SLOTS, c)
    else if (needed_count =? 0) && (slot_into_tx =? slot_into_meta) then Ret (INVALID_ARGUMENT, c)
    else if (slot_into_tx =? 0) && no_free_slots c then Ret (NO_FREE_SLOTS, c)
    else
      let* '(tx_slot, c) := allocate c slot_into_tx in
      match tx_slot with
      | None => Ret (NO_FREE_SLOTS, c)
      | Some tx_slot =>
        if (slot_into_meta =? 0) && no_free_slots c then Ret (NO_FREE_SLOTS, c)
        else
          let* '(meta_slot, c) := allocate c slot_into_meta in
          match meta_slot with
          | None => Ret (NO_FREE_SLOTS, c)
          | Some meta_slot =>
            match inner with
            | (Some tx, Some meta) =>
              let c := emplace c tx_slot tx in
              let c := emplace c meta_slot meta in
              Ret (u32 (Z.shiftl tx_slot 16) + meta_slot, c)
            | _ => Ret (INVALID_TXN, c)
            end
          end
      end.
