(* ===== verification/SlotsFacts.v ===== *)
(** * Slots: pointers, numbers and allocation

    In every context a hook can reach, the slots in use are numbered 1 to 255 and
    every entry points into the storage of its slot, so no function follows a null
    or dangling pointer. A hook that lets the functions choose the slots never
    loses one; explicit slot numbers break this. *)

From S2P Require Import Prelude HookEnum HookMemory Xfl Slots.

Definition slot_number (n : Z) : Prop := 1 <= n <= max_slots.

(** [entry] points into [storage]. *)
Definition points_into (e : SlotEntry) : Prop :=
  exists p o, entry e = Some p /\ resolve_path (storage e) p = Some o.

(** [K]: how many more times the counter was raised than there are slots. *)
Record slots_ok (K : Z) (c : slot_context) : Prop := {
  so_slot n e : slots c !! n = Some e -> slot_number n /\ points_into e;
  so_free : Forall slot_number (slot_free c);
  so_counter : 0 <= slot_counter c <= max_slots + 1 + K
}.

Lemma slots_ok_new : slots_ok 0 new_slots.
Proof. split; simpl; [intros n e; by rewrite lookup_empty|constructor|unfold max_slots; lia]. Qed.

Lemma slots_ok_mono K K' c : slots_ok K c -> K <= K' -> slots_ok K' c.
Proof. intros [H1 H2 H3] HK. split; [done|done|lia]. Qed.

(** ** Allocation *)

Lemma next_counter_spec {E} fuel m : forall counter,
  0 <= counter < 2 ^ 32 - 1 -> (Z.to_nat (max_slots + 1 - counter) < fuel)%nat ->
  exists n, @next_counter E fuel m counter = Ret n /\ counter < n <= Z.max (counter + 1) (max_slots + 1) /\
    (n <= max_slots -> m !! n = None).
Proof.
  induction fuel as [|fuel IH]; intros counter Hc Hf; [lia|]. simpl. rewrite u32_small by lia.
  destruct (bool_decide (is_Some (m !! (counter + 1))) && (counter + 1 <=? max_slots)) eqn:Hb.
  - apply andb_true_iff in Hb as [_ Hb]. unfold max_slots in *.
    destruct (IH (counter + 1)) as (n & -> & Hn & Hfree); [lia|lia|]. exists n. split_and!; [done|lia|lia|done].
  - exists (counter + 1). split_and!; [done|lia|lia|]. intros Hle. apply andb_false_iff in Hb as [Hb|Hb]; [|lia].
    apply bool_decide_eq_false in Hb. by apply eq_None_not_Some.
Qed.

Lemma get_free_slot_ok {E} K c :
  slots_ok K c -> 0 <= K < 2 ^ 31 ->
  exists found c', @get_free_slot E c = Ret (found, c') /\ slots_ok (K + 1) c' /\ slots c' = slots c /\
    (forall n, found = Some n -> slot_number n).
Proof.
  intros [Hs Hf Hc] HK. unfold get_free_slot. destruct (slot_free c) as [|n rest] eqn:Ef.
  - unfold max_slots in *. destruct (next_counter_spec (E := E) 257 (slots c) (slot_counter c)) as (n & -> & Hn & _).
    { lia. } { unfold max_slots. lia. }
    simpl. do 2 eexists. split; [done|]. split_and!; [split; simpl; [done|constructor|unfold max_slots in *; lia]|done|].
    intros x. unfold max_slots in *. destruct (Z.ltb_spec 255 n); [done|]. intros [= <-]. unfold slot_number, max_slots. lia.
  - inversion Hf; subst. do 2 eexists. split; [done|]. split_and!; [split; simpl; [done|done|lia]|done|].
    intros x [= <-]. done.
Qed.

Lemma allocate_ok {E} K c n :
  slots_ok K c -> 0 <= K < 2 ^ 31 -> 0 <= n <= max_slots ->
  exists found c', @allocate E c n = Ret (found, c') /\ slots_ok (K + 1) c' /\ slots c' = slots c /\
    (forall m, found = Some m -> slot_number m).
Proof.
  intros Hok HK Hn. unfold allocate. destruct (Z.eqb_spec n 0) as [->|Hne]; [by apply get_free_slot_ok|].
  do 2 eexists. split; [done|]. split_and!; [apply (slots_ok_mono K); [done|lia]|done|].
  intros m [= <-]. unfold slot_number. lia.
Qed.

Lemma set_slot_ok K c n e : slots_ok K c -> slot_number n -> points_into e -> slots_ok K (set_slot n e c).
Proof.
  intros [H1 H2 H3] Hn He. split; simpl; [|done|done]. intros m e'.
  destruct (decide (m = n)) as [->|Hne]; [rewrite lookup_insert_eq; intros [= <-]; done|].
  rewrite lookup_insert_ne by done. apply H1.
Qed.

Lemma emplace_ok K c n o : slots_ok K c -> slot_number n -> slots_ok K (emplace c n o).
Proof. intros Hok Hn. apply set_slot_ok; [done|done|]. by exists [], o. Qed.

(** ** Each function *)

Lemma resolve_app o p q : resolve_path o (p ++ q) = match resolve_path o p with Some o => resolve_path o q | None => None end.
Proof. revert o. induction p as [|s p IH]; intros o; simpl; [done|]. by destruct (follow o s). Qed.

Lemma deref_ok {E} K c n e :
  slots_ok K c -> slots c !! n = Some e ->
  exists p o, entry e = Some p /\ resolve_path (storage e) p = Some o /\ @deref E e = Ret (Some o).
Proof.
  intros Hok He. destruct (so_slot K c Hok n e He) as [_ (p & o & Hp & Ho)]. exists p, o.
  unfold deref. by rewrite Hp, Ho.
Qed.

(** [good K m]: [m] returns a well-formed context. *)
Definition good {E} (K : Z) (m : outcome E (Z * slot_context)) : Prop :=
  exists code c, m = Ret (code, c) /\ slots_ok K c.

Lemma good_ret {E} K K' code c : slots_ok K c -> K <= K' -> @good E K' (Ret (code, c)).
Proof. intros Hok HK. exists code, c. split; [done|by apply (slots_ok_mono K)]. Qed.

(** The object is put into the slot the allocation gives. *)
Lemma alloc_emplace_good {E} K c n o :
  slots_ok K c -> 0 <= K < 2 ^ 31 -> 0 <= n <= max_slots ->
  @good E (K + 1) (let* '(found, c) := allocate c n in
                   match found with None => Ret (NO_FREE_SLOTS, c) | Some n => Ret (n, emplace c n o) end).
Proof.
  intros Hok HK Hn. destruct (allocate_ok (E := E) K c n Hok HK Hn) as (found & c' & -> & Hok' & _ & Hf). simpl.
  destruct found as [m|]; [|by apply (good_ret (K + 1))]. eexists _, _. split; [done|]. apply emplace_ok; [done|by apply Hf].
Qed.

Lemma slot_sub_good {E} K c n parent o s o' p :
  slots_ok K c -> 0 <= K < 2 ^ 31 -> 0 <= n <= max_slots ->
  entry parent = Some p -> resolve_path (storage parent) p = Some o -> follow o s = Some o' ->
  @good E (K + 1) (slot_sub c parent s n).
Proof.
  intros Hok HK Hn Hp Ho Hs. unfold slot_sub.
  destruct (allocate_ok (E := E) K c n Hok HK Hn) as (found & c' & -> & Hok' & _ & Hf). simpl.
  destruct found as [m|]; [|by apply (good_ret (K + 1))]. eexists _, _. split; [done|].
  apply set_slot_ok; [done|by apply Hf|]. exists (p ++ [s]), o'. simpl. rewrite Hp. split; [done|].
  rewrite resolve_app, Ho. simpl. by rewrite Hs.
Qed.

(** ** Sequences of calls *)

Inductive slot_call :=
| Otxn_slot (otxn : STBase) (slot_into : Z)
| Meta_slot (meta : option STBase) (slot_into : Z)
| Slot_set (read fetch : list Z -> option STBase) (mem : list Z) (read_ptr read_len slot_into : Z)
| Slot_clear (slot_no : Z)
| Slot_subarray (parent_slot array_id new_slot : Z)
| Slot_subfield (known : Z -> bool) (parent_slot field_id new_slot : Z)
| Xpop_slot (is_import : bool) (inner : option STBase * option STBase) (slot_into_tx slot_into_meta : Z).

Definition slot_step {E} (c : slot_context) (call : slot_call) : outcome E (Z * slot_context) :=
  match call with
  | Otxn_slot o n => otxn_slot c o n
  | Meta_slot o n => meta_slot c o n
  | Slot_set read fetch mem rp rl n => slot_set read fetch mem c rp rl n
  | Slot_clear n => Ret (slot_clear c n)
  | Slot_subarray p i n => slot_subarray c p i n
  | Slot_subfield known p f n => slot_subfield known c p f n
  | Xpop_slot b inner t m => xpop_slot b inner c t m
  end.

(** The numbers of a call are [uint32_t]. *)
Definition call_ok (call : slot_call) : Prop :=
  match call with
  | Otxn_slot _ n | Meta_slot _ n | Slot_set _ _ _ _ _ n | Slot_subfield _ _ _ n => 0 <= n
  | Slot_clear n => 0 <= n
  | Slot_subarray _ i n => 0 <= i /\ 0 <= n
  | Xpop_slot _ _ t m => 0 <= t /\ 0 <= m
  end.

Lemma slot_object_good {E} K c o n :
  slots_ok K c -> 0 <= K < 2 ^ 31 -> 0 <= n -> @good E (K + 1) (slot_object c o n).
Proof.
  intros Hok HK Hn. unfold slot_object.
  destruct (Z.ltb_spec max_slots n) as [?|Hle]; [apply (good_ret K); [done|lia]|].
  destruct (_ && _); [apply (good_ret K); [done|lia]|]. apply alloc_emplace_good; [done|done|lia].
Qed.

Lemma xpop_slot_good {E} K c b inner t m :
  slots_ok K c -> 0 <= K < 2 ^ 30 -> 0 <= t -> 0 <= m -> @good E (K + 2) (xpop_slot b inner c t m).
Proof.
  intros Hok HK Ht Hm. unfold xpop_slot. cbv zeta.
  assert (Hstop : forall code, @good E (K + 2) (Ret (code, c))) by (intros; apply (good_ret K); [done|lia]).
  destruct (negb b); [done|]. destruct ((max_slots <? t) || (max_slots <? m)) eqn:Hr; [done|].
  apply orb_false_iff in Hr as [Hr1 Hr2].
  repeat (match goal with |- context [if ?b then Ret (_, c) else _] => destruct b end; [done|]).
  destruct (allocate_ok (E := E) K c t) as (f1 & c1 & -> & Hok1 & _ & Hf1); [done|lia|lia|]. simpl.
  assert (Hstop1 : forall code, @good E (K + 2) (Ret (code, c1))) by (intros; apply (good_ret (K + 1)); [done|lia]).
  destruct f1 as [n1|]; [|done]. destruct (_ && no_free_slots c1); [done|].
  destruct (allocate_ok (E := E) (K + 1) c1 m) as (f2 & c2 & -> & Hok2 & _ & Hf2); [done|lia|lia|]. simpl.
  assert (Hstop2 : forall code, @good E (K + 2) (Ret (code, c2))) by (intros; apply (good_ret (K + 1 + 1)); [done|lia]).
  destruct f2 as [n2|]; [|done]. destruct inner as [[tx|] [meta|]]; [|done..].
  eexists _, _. split; [done|]. replace (K + 2) with (K + 1 + 1) by lia.
  apply emplace_ok; [|by apply Hf2]. apply emplace_ok; [done|by apply Hf1].
Qed.

Lemma slot_step_good {E} K c call :
  slots_ok K c -> 0 <= K < 2 ^ 30 -> call_ok call -> @good E (K + 2) (slot_step c call).
Proof.
  intros Hok HK Hcall.
  assert (Hstop : forall code, @good E (K + 2) (Ret (code, c))) by (intros; apply (good_ret K); [done|lia]).
  assert (Hup : forall x, @good E (K + 1) x -> good (K + 2) x).
  { intros x (code & c' & -> & Hc'). apply (good_ret (K + 1)); [done|lia]. }
  destruct call as [o n|[o|] n|read fetch mem rp rl n|n|p i n|known p f n|b inner t m]; simpl in *.
  - apply Hup, slot_object_good; [done|lia|done].
  - apply Hup, slot_object_good; [done|lia|done].
  - done.
  - unfold slot_set. destruct (NOT_IN_BOUNDS _ _ _); [done|].
    destruct ((_ && _) || (max_slots <? n)) eqn:Hr; [done|]. apply orb_false_iff in Hr as [_ Hr].
    destruct (_ && no_free_slots c); [done|]. destruct (if rl =? 34 then _ else _); [|done].
    apply Hup, alloc_emplace_good; [done|lia|lia].
  - unfold slot_clear. destruct (slots c !! n) as [e|] eqn:En; [|done].
    exists 1, (mkSlots (delete n (slots c)) (slot_free c ++ [n]) (slot_counter c)). split; [done|].
    destruct Hok as [H1 H2 H3]. split; simpl; [|apply Forall_app; split; [done|]|lia].
    + intros m e'. rewrite lookup_delete_Some. intros [_ He]. by apply H1.
    + constructor; [by apply (H1 n e)|constructor].
  - unfold slot_subarray. destruct (slots c !! p) as [e|] eqn:Ep; [|done].
    destruct (deref_ok (E := E) K c p e Hok Ep) as (q & o & Hq & Ho & ->). simpl.
    destruct o; try done. destruct (_ && no_free_slots c); [done|]. destruct (Z.ltb_spec max_slots n); [done|].
    destruct (Z.leb_spec (lenZ elements) i); [done|].
    destruct (lookup_lt_is_Some_2 elements (Z.to_nat i)) as [o' Ho']; [unfold lenZ in *; lia|].
    apply Hup. eapply (slot_sub_good K c n e); [done|lia|lia|done|done|]. simpl.
    replace ((0 <=? i) && (i <? lenZ elements)) with true by lia. exact Ho'.
  - unfold slot_subfield. destruct (slots c !! p) as [e|] eqn:Ep; [|done].
    destruct (_ && no_free_slots c); [done|]. destruct (Z.ltb_spec max_slots n); [done|].
    destruct (negb (known f)); [done|].
    destruct (deref_ok (E := E) K c p e Hok Ep) as (q & o & Hq & Ho & ->). simpl.
    destruct o; try done. destruct (getField fields f) as [o'|] eqn:Ef; [|done].
    apply Hup. by eapply (slot_sub_good K c n e); [done|lia|lia|done|done|].
  - destruct Hcall. by apply xpop_slot_good.
Qed.

Fixpoint slot_run {E} (c : slot_context) (calls : list slot_call) : outcome E slot_context :=
  match calls with
  | [] => Ret c
  | call :: calls => let* '(_, c) := slot_step c call in slot_run c calls
  end.

Lemma slot_run_ok {E} calls : forall K c,
  slots_ok K c -> 0 <= K -> K + 2 * lenZ calls < 2 ^ 30 -> Forall call_ok calls ->
  exists c', @slot_run E c calls = Ret c' /\ slots_ok (K + 2 * lenZ calls) c'.
Proof.
  induction calls as [|call calls IH]; intros K c Hok HK Hl Hcs; simpl.
  - exists c. split; [done|]. apply (slots_ok_mono K); [done|pose proof (@lenZ_nonneg slot_call []); lia].
  - autorewrite with mach in *. pose proof (lenZ_nonneg calls). inversion Hcs; subst.
    destruct (slot_step_good (E := E) K c call Hok) as (code & c1 & -> & Hok1); [lia|done|]. simpl.
    destruct (IH (K + 2) c1) as (c' & -> & Hok'); [done|lia|lia|done|]. exists c'. split; [done|].
    apply (slots_ok_mono (K + 2 + 2 * lenZ calls)); [done|lia].
Qed.

(** The reading functions return. *)
Lemma slot_reads_ok {E} K c n :
  slots_ok K c ->
  (forall mem wp wl, exists r, @slot E mem c wp wl n = Ret r) /\ (exists r, @slot_size E c n = Ret r) /\
  (exists r, @slot_count E c n = Ret r) /\ (forall flags, exists r, @slot_type E c n flags = Ret r) /\
  (forall log10, exists r, @slot_float E log10 c n = Ret r).
Proof.
  intros Hok. assert (Hv : exists v, @slot_value E c n = Ret v).
  { unfold slot_value. destruct (slots c !! n) as [e|] eqn:En; [|by eexists].
    destruct (deref_ok (E := E) K c n e Hok En) as (p & o & _ & _ & ->). by eexists. }
  destruct Hv as [v Hv]. unfold slot, slot_size, slot_count, slot_type, slot_float. rewrite Hv. simpl.
  split_and!; intros; try by eexists.
  repeat (match goal with |- context [if ?b then Ret _ else _] => destruct b end; [by eexists|]). destruct v; by eexists.
Qed.

(** C32: slots are typed. After any sequence of calls to the functions that fill and
    clear slots, every slot in use has a number from 1 to 255 and its entry points
    to an object inside the storage of the slot, also for parts of parts and when
    the slot of the parent was cleared or overwritten; so the functions that read a
    slot always return, never following a null or dangling pointer, and the search
    for a free slot ends. *)
Theorem slots_type_safe {E} calls :
  Forall call_ok calls -> lenZ calls < 2 ^ 29 ->
  exists c, @slot_run E new_slots calls = Ret c /\
    (forall n e, slots c !! n = Some e -> slot_number n /\ points_into e) /\
    (forall call, call_ok call -> exists code c', @slot_step E c call = Ret (code, c')) /\
    (forall n, (forall mem wp wl, exists r, @slot E mem c wp wl n = Ret r) /\ (exists r, @slot_size E c n = Ret r) /\
       (exists r, @slot_count E c n = Ret r) /\ (forall flags, exists r, @slot_type E c n flags = Ret r) /\
       (forall log10, exists r, @slot_float E log10 c n = Ret r)).
Proof.
  intros Hcs Hl. destruct (slot_run_ok (E := E) calls 0 new_slots slots_ok_new) as (c & Hrun & Hok); [lia|lia|done|].
  pose proof (lenZ_nonneg calls). exists c. split_and!; [done|apply Hok| |].
  - intros call Hcall. destruct (slot_step_good (E := E) _ c call Hok) as (code & c' & -> & _); [lia|done|]. by eexists _, _.
  - intros n. by eapply slot_reads_ok.
Qed.

(** An object with an array of one element. *)
Definition demo_object : STBase :=
  STObject 1 [1] [(7, STArray 7 [2] [STObject 8 [3] [(9, STAmount 9 [4] true 5 0)]])].

Lemma slots_type_safe_witness :
  exists c, @slot_run unit new_slots
      [Otxn_slot demo_object 0; Slot_subfield (fun _ => true) 1 7 0; Slot_subarray 2 0 0; Slot_clear 1; Slot_clear 2;
       Slot_subfield (fun _ => true) 3 9 0] = Ret c /\
    (exists r, @slot_count unit c 1 = Ret r).
Proof.
  destruct (slots_type_safe (E := unit)
      [Otxn_slot demo_object 0; Slot_subfield (fun _ => true) 1 7 0; Slot_subarray 2 0 0; Slot_clear 1; Slot_clear 2;
       Slot_subfield (fun _ => true) 3 9 0]) as (c & Hrun & _ & _ & Hread).
  - repeat first [apply Forall_nil_2 | apply Forall_cons_2; [simpl; lia|]].
  - done.
  - exists c. split; [exact Hrun|]. apply (Hread 1).
Defined.

(** ** Automatic allocation *)

(** The numbers up to the counter are those of the slots in use and of the queue. *)
Record slots_auto (c : slot_context) : Prop := {
  sa_free : NoDup (slot_free c);
  sa_used n : is_Some (slots c !! n) -> n ∉ slot_free c;
  sa_all n : (is_Some (slots c !! n) \/ n ∈ slot_free c) <-> 1 <= n <= slot_counter c;
  sa_counter : 0 <= slot_counter c <= max_slots
}.

Lemma slots_auto_new : slots_auto new_slots.
Proof.
  split; simpl; [constructor|intros n; by rewrite lookup_empty; intros []| |unfold max_slots; lia].
  intros n. rewrite lookup_empty. split; [intros [[]|]; [done|set_solver]|lia].
Qed.

(** The number of slots in use and of those in the queue is the counter. *)
Lemma slots_auto_size c :
  slots_auto c -> Z.of_nat (size (slots c)) + lenZ (slot_free c) = slot_counter c.
Proof.
  intros [Hf Hu Ha Hc].
  assert (Heq : dom (slots c) ∪ list_to_set (slot_free c) = list_to_set (C := gset Z) (seqZ 1 (slot_counter c))).
  { apply set_eq. intros n. rewrite elem_of_union, elem_of_dom, !elem_of_list_to_set, elem_of_seqZ, Ha. lia. }
  apply (f_equal size) in Heq. rewrite size_union in Heq.
  - rewrite size_dom, !size_list_to_set, length_seqZ in Heq by (done || apply NoDup_seqZ). unfold lenZ. lia.
  - intros n Hn Hl. apply elem_of_dom in Hn. apply elem_of_list_to_set in Hl. by apply (Hu n).
Qed.

Lemma no_free_slots_auto c :
  slots_auto c -> no_free_slots c = (Z.of_nat (size (slots c)) =? max_slots).
Proof.
  intros Ha. pose proof (slots_auto_size c Ha). pose proof (lenZ_nonneg (slot_free c)). pose proof (sa_counter c Ha).
  unfold no_free_slots, max_slots in *. rewrite u64_small by lia. lia.
Qed.

(** A free slot is found, it is not in use, and filling it keeps the invariant. *)
Lemma get_free_slot_auto {E} c :
  slots_auto c -> no_free_slots c = false ->
  exists n c', @get_free_slot E c = Ret (Some n, c') /\ slots c !! n = None /\
    slots c' = slots c /\ forall e, slots_auto (set_slot n e c').
Proof.
  intros Ha Hfree. rewrite no_free_slots_auto in Hfree by done. pose proof (slots_auto_size c Ha) as Hsz.
  destruct Ha as [Hnd Hu Hall Hc]. unfold get_free_slot. destruct (slot_free c) as [|n rest] eqn:Ef.
  - rewrite lenZ_nil in Hsz. unfold max_slots in *.
    assert (Hnext : slots c !! (slot_counter c + 1) = None).
    { destruct (slots c !! (slot_counter c + 1)) eqn:E1; [|done].
      assert (1 <= slot_counter c + 1 <= slot_counter c) by (apply Hall; left; by eexists). lia. }
    change (next_counter 257 (slots c) (slot_counter c)) with
      (let counter := u32 (slot_counter c + 1) in
       if bool_decide (is_Some (slots c !! counter)) && (counter <=? max_slots)
       then @next_counter E 256 (slots c) counter else Ret counter).
    cbv zeta. rewrite u32_small by lia. rewrite bool_decide_eq_false_2 by (rewrite Hnext; by intros []). cbn [andb obind].
    unfold max_slots. replace (255 <? slot_counter c + 1) with false by lia.
    eexists _, _. split; [done|]. split_and!; [done|done|]. intros e. split; simpl; [constructor|set_solver| |unfold max_slots; lia].
    intros m. rewrite lookup_insert_is_Some'. specialize (Hall m). rewrite elem_of_nil in Hall |- *. split.
    + intros [[<-|Hm]|[]]; [lia|]. assert (1 <= m <= slot_counter c) by (apply Hall; by left). lia.
    + intros Hm. destruct (decide (m = slot_counter c + 1)) as [->|Hne]; [by left; left|].
      destruct (proj2 Hall) as [?|[]]; [lia|by left; right].
  - apply NoDup_cons in Hnd as [Hn Hnd]. eexists n, _. split; [done|]. split_and!.
    + destruct (slots c !! n) eqn:En; [|done]. destruct (Hu n ltac:(by eexists)). by left.
    + done.
    + intros e. split; simpl; [done| | |done].
      * intros m. rewrite lookup_insert_is_Some'. intros [<-|Hm]; [done|]. specialize (Hu m Hm). set_solver.
      * intros m. rewrite lookup_insert_is_Some', <- Hall, elem_of_cons. split; [|naive_solver].
        intros [[<-|?]|?]; [right; by left|by left|right; by right].
Qed.

(** The calls that leave the choice of the slot to the function. *)
Definition auto_call (call : slot_call) : Prop :=
  match call with
  | Otxn_slot _ n | Meta_slot _ n | Slot_set _ _ _ _ _ n | Slot_subarray _ _ n | Slot_subfield _ _ _ n => n = 0
  | Slot_clear _ => True
  | Xpop_slot _ _ _ _ => False
  end.

(** A call that fills a slot: it fails and changes nothing, or fills one that was
    not in use. *)
Definition fills (c : slot_context) (code : Z) (c' : slot_context) : Prop :=
  (code < 0 /\ c' = c /\ (code = NO_FREE_SLOTS -> Z.of_nat (size (slots c)) = max_slots)) \/
  (slot_number code /\ slots c !! code = None /\ (exists e, slots c' = <[code := e]> (slots c)) /\ slots_auto c').

Lemma fills_error c code : code < 0 -> code <> NO_FREE_SLOTS -> fills c code c.
Proof. intros H1 H2. left. by split_and!. Qed.

Lemma fills_full c : slots_auto c -> no_free_slots c = true -> fills c NO_FREE_SLOTS c.
Proof. intros Ha Hn. left. rewrite no_free_slots_auto in Hn by done. split_and!; [done|done|]. intros _. lia. Qed.

Lemma alloc_fills {E} c (f : SlotEntry) :
  slots_auto c -> no_free_slots c = false ->
  exists code c', (let* '(found, c) := @allocate E c 0 in
     match found with None => Ret (NO_FREE_SLOTS, c) | Some n => Ret (n, set_slot n f c) end) = Ret (code, c') /\
    fills c code c'.
Proof.
  intros Ha Hf. unfold allocate. destruct (get_free_slot_auto (E := E) c Ha Hf) as (n & c' & Hg & Hn & Hs & Hset).
  simpl. rewrite Hg. simpl. eexists _, _. split; [done|]. right. specialize (Hset f). split_and!; [|done| |done].
  - pose proof (sa_counter _ Hset) as Hc. pose proof (proj1 (sa_all _ Hset n)) as Hr. simpl in *.
    rewrite lookup_insert_eq in Hr. unfold slot_number. specialize (Hr ltac:(left; by eexists)). lia.
  - exists f. simpl. by rewrite Hs.
Qed.

Lemma slot_clear_auto c n : slots_auto c -> is_Some (slots c !! n) ->
  slots_auto (mkSlots (delete n (slots c)) (slot_free c ++ [n]) (slot_counter c)).
Proof.
  intros [Hf Hu Ha Hc] Hn. split; simpl; [|intros m|intros m|done].
  - apply NoDup_app. split_and!; [done| |apply NoDup_singleton]. intros m Hm Hx%list_elem_of_singleton. subst m. by apply (Hu n).
  - rewrite lookup_delete_is_Some. intros [Hne Hm]. specialize (Hu m Hm). set_solver.
  - rewrite <- Ha, lookup_delete_is_Some, elem_of_app, list_elem_of_singleton.
    destruct (decide (m = n)) as [->|Hne]; [tauto|]. assert (n <> m) by done. tauto.
Qed.

Lemma slot_step_auto {E} K c call code c' :
  slots_ok K c -> slots_auto c -> auto_call call -> call_ok call -> @slot_step E c call = Ret (code, c') ->
  match call with
  | Slot_clear n => slots c' = delete n (slots c) /\ slots_auto c'
  | _ => fills c code c'
  end.
Proof.
  intros Hok Ha Hcall Hargs Hrun.
  assert (Halloc : forall f : SlotEntry, no_free_slots c = false ->
    (let* '(found, c) := @allocate E c 0 in
     match found with None => Ret (NO_FREE_SLOTS, c) | Some n => Ret (n, set_slot n f c) end) = Ret (code, c') -> fills c code c').
  { intros f Hf Hr. destruct (alloc_fills (E := E) c f Ha Hf) as (code2 & c2 & Hr2 & Hfill). congruence. }
  destruct call as [o n|[o|] n|read fetch mem rp rl n|n|p i n|known p f n|b inner t m]; simpl in *; [subst n..| | | |].
  - unfold otxn_slot, slot_object in Hrun. simpl in Hrun. destruct (no_free_slots c) eqn:Hn; simplify_eq/=; [by apply fills_full|].
    by apply (Halloc (mkSlot o (Some []))).
  - unfold slot_object in Hrun. simpl in Hrun. destruct (no_free_slots c) eqn:Hn; simplify_eq/=; [by apply fills_full|].
    by apply (Halloc (mkSlot o (Some []))).
  - simplify_eq. by apply fills_error.
  - unfold slot_set in Hrun. destruct (NOT_IN_BOUNDS _ _ _); [simplify_eq; by apply fills_error|].
    destruct ((_ && _) || _); [simplify_eq; by apply fills_error|]. cbn [Z.eqb andb] in Hrun.
    destruct (no_free_slots c) eqn:Hn; [simplify_eq; by apply fills_full|].
    destruct (if rl =? 34 then _ else _) as [o|]; [|simplify_eq; by apply fills_error].
    by apply (Halloc (mkSlot o (Some []))).
  - unfold slot_clear in Hrun. destruct (slots c !! n) as [e|] eqn:En; simplify_eq/=.
    + split; [done|]. apply slot_clear_auto; [done|by eexists].
    + split; [|done]. by rewrite delete_id.
  - subst n. unfold slot_subarray in Hrun. destruct (slots c !! p) as [e|] eqn:Ep; [|simplify_eq; by apply fills_error].
    destruct (deref_ok (E := E) K c p e Hok Ep) as (q & o & _ & _ & Hd). rewrite Hd in Hrun. simpl in Hrun.
    destruct o; try (simplify_eq; by apply fills_error).
    destruct (no_free_slots c) eqn:Hn; [simplify_eq/=; by apply fills_full|]. cbn [andb Z.ltb] in Hrun.
    destruct (lenZ elements <=? i); [simplify_eq/=; by apply fills_error|].
    by apply (Halloc (mkSlot (storage e) (option_map (fun p => p ++ [Element i]) (entry e)))).
  - subst n. unfold slot_subfield in Hrun. destruct (slots c !! p) as [e|] eqn:Ep; [|simplify_eq; by apply fills_error].
    destruct (no_free_slots c) eqn:Hn; [simplify_eq/=; by apply fills_full|]. cbn [andb Z.ltb] in Hrun.
    destruct (negb (known f)); [simplify_eq/=; by apply fills_error|].
    destruct (deref_ok (E := E) K c p e Hok Ep) as (q & o & _ & _ & Hd). rewrite Hd in Hrun. simpl in Hrun.
    destruct o; try (simplify_eq; by apply fills_error).
    destruct (getField fields f); [|simplify_eq; by apply fills_error].
    by apply (Halloc (mkSlot (storage e) (option_map (fun p => p ++ [Field f]) (entry e)))).
  - done.
Qed.

Lemma slot_run_auto {E} calls : forall K c,
  slots_ok K c -> slots_auto c -> 0 <= K -> K + 2 * lenZ calls < 2 ^ 30 ->
  Forall auto_call calls -> Forall call_ok calls ->
  exists c', @slot_run E c calls = Ret c' /\ slots_auto c' /\ slots_ok (K + 2 * lenZ calls) c'.
Proof.
  induction calls as [|call calls IH]; intros K c Hok Ha HK Hl Hcs Hargs; simpl.
  - exists c. split_and!; [done|done|]. apply (slots_ok_mono K); [done|pose proof (@lenZ_nonneg slot_call []); lia].
  - autorewrite with mach in *. pose proof (lenZ_nonneg calls). inversion Hcs; inversion Hargs; subst.
    destruct (slot_step_good (E := E) K c call Hok) as (code & c1 & Hrun & Hok1); [lia|done|].
    assert (Ha1 : slots_auto c1).
    { pose proof (slot_step_auto (E := E) K c call code c1 Hok Ha ltac:(done) ltac:(done) Hrun) as Hs.
      assert (Hf : fills c code c1 -> slots_auto c1) by (intros [(_ & -> & _)|(_ & _ & _ & ?)]; done).
      destruct call; first [by apply Hf|by destruct Hs]. }
    rewrite Hrun. simpl. destruct (IH (K + 2) c1) as (c' & -> & Ha' & Hok'); [done|done|lia|lia|done|done|].
    exists c'. split_and!; [done|done|]. apply (slots_ok_mono (K + 2 + 2 * lenZ calls)); [done|lia].
Qed.

(** A hook that lets the functions choose the slots loses none and can use
    them all. After any sequence of such calls, with slots cleared in any order,
    the next call that is not a clear either fails and changes nothing, with
    [NO_FREE_SLOTS] only when all 255 slots are in use, or answers a slot that was
    not in use and fills just that one. *)
Theorem slots_auto_fresh {E} calls call :
  Forall auto_call calls -> Forall call_ok calls -> lenZ calls < 2 ^ 29 ->
  auto_call call -> call_ok call -> (forall n, call <> Slot_clear n) ->
  exists c code c', @slot_run E new_slots calls = Ret c /\ @slot_step E c call = Ret (code, c') /\
    ((code < 0 /\ c' = c /\ (code = NO_FREE_SLOTS -> Z.of_nat (size (slots c)) = max_slots)) \/
     (slot_number code /\ slots c !! code = None /\ exists e, slots c' = <[code := e]> (slots c))).
Proof.
  intros Hcs Hargs Hl Hcall Harg Hnc. pose proof (lenZ_nonneg calls).
  destruct (slot_run_auto (E := E) calls 0 new_slots slots_ok_new slots_auto_new) as (c & Hrun & Ha & Hok); [lia|lia|done|done|].
  destruct (slot_step_good (E := E) _ c call Hok) as (code & c' & Hstep & _); [lia|done|].
  exists c, code, c'. split_and!; [done|done|].
  pose proof (slot_step_auto (E := E) _ c call code c' Hok Ha Hcall Harg Hstep) as Hs.
  assert (Hf : fills c code c') by (destruct call; first [done|by destruct (Hnc slot_no)]).
  destruct Hf as [?|(? & ? & ? & _)]; [by left|right; by split_and!].
Qed.

Lemma slots_auto_fresh_witness :
  exists c code c',
    @slot_run unit new_slots [Otxn_slot demo_object 0; Otxn_slot demo_object 0; Slot_clear 1] = Ret c /\
    @slot_step unit c (Otxn_slot demo_object 0) = Ret (code, c') /\ slots c !! code = None.
Proof.
  destruct (slots_auto_fresh (E := unit) [Otxn_slot demo_object 0; Otxn_slot demo_object 0; Slot_clear 1]
    (Otxn_slot demo_object 0)) as (c & code & c' & Hrun & Hstep & Hor).
  - repeat first [apply Forall_nil_2 | apply Forall_cons_2; [done|]].
  - repeat first [apply Forall_nil_2 | apply Forall_cons_2; [simpl; lia|]].
  - done.
  - done.
  - simpl. lia.
  - done.
  - exists c, code, c'. split_and!; [done|done|].
    destruct Hor as [(Hneg & _)|(_ & Hn & _)]; [|done].
    vm_compute in Hrun. injection Hrun as <-. vm_compute in Hstep. injection Hstep as <- _. lia.
Defined.

(** ** Slots that are lost *)

Definition run_codes (calls : list slot_call) : option (Z * slot_context) :=
  match calls with
  | [] => None
  | _ =>
    match @slot_run unit new_slots (removelast calls) with
    | Ret c => match @slot_step unit c (List.last calls (Slot_clear 0)) with Ret r => Some r | _ => None end
    | _ => None
    end
  end.

Definition obj (n : Z) : STBase := STOther n [n].

(** Slot numbers that the hook gives break the allocation. A slot that was
    cleared and filled again by its number is still in the queue of free slots: the
    next object overwrites it while 254 slots are free. [xpop_slot] with the
    transaction in a free slot and the metadata in slot 1 puts both into slot 1 of
    an empty context. A failing [xpop_slot] keeps the slots it took: after 128 of
    them no object can be stored although no slot is in use. *)
Theorem slot_gaps :
  match run_codes [Otxn_slot (obj 1) 0; Slot_clear 1; Otxn_slot (obj 2) 1; Otxn_slot (obj 3) 0] with
  | Some (code, c) => code = 1 /\ slots c !! 1 = Some (mkSlot (obj 3) (Some [])) /\ size (slots c) = 1%nat
  | None => False
  end /\
  match run_codes [Xpop_slot true (Some (obj 1), Some (obj 2)) 0 1] with
  | Some (code, c) => code = 2 ^ 16 + 1 /\ slots c !! 1 = Some (mkSlot (obj 2) (Some [])) /\ size (slots c) = 1%nat
  | None => False
  end /\
  match run_codes (replicate 128 (Xpop_slot true (None, None) 0 0) ++ [Otxn_slot (obj 1) 0]) with
  | Some (code, c) => code = NO_FREE_SLOTS /\ size (slots c) = 0%nat
  | None => False
  end.
Proof. vm_compute. repeat split. Qed.
