(* ===== verification/Emission.v ===== *)
(** * Emitted transactions (src/src/ripple/app/hook/impl/applyHook.cpp)

    A hook reserves a number of emissions, gets nonces, and hands transactions to
    [emit], which checks them and queues them. Hashes and account ids are their
    bytes. The digests are the class [Digest]. What [emit] takes from the rest of
    the server (the deserialized transaction, its base fee, the preflight check)
    is the record [emit_server]. *)

From S2P Require Import Prelude HookEnum HookMemory.

(** ** The transactions *)

(** [sfEmitDetails] *)
Record emit_details := mkDetails {
  EmitGeneration : option Z;
  EmitBurden : option Z;
  EmitParentTxnID : option (list Z);
  EmitNonce : option (list Z);
  EmitHookHash : option (list Z);
  EmitCallback : option (list Z)
}.

(** The fields of a transaction that [emit] reads; the flags say that a field is
    present. *)
Record etx := mkTx {
  tx_id : list Z;
  tx_pseudo : bool;
  TransactionType : Z;
  Account : option (list Z);
  Sequence : option Z;
  SigningPubKey : option (list Z);
  has_Signers : bool;
  has_TicketSequence : bool;
  has_AccountTxnID : bool;
  has_TxnSignature : bool;
  EmitDetails : option emit_details;
  LastLedgerSequence : option Z;
  FirstLedgerSequence : option Z;
  Fee : option Z
}.

(** The originating transaction and the ledger: its id, the hash of the failed
    transaction in a callback for one, its emit details. *)
Record tx_env := mkEnv {
  otxn_txid : list Z;
  emitFailure : option (list Z);
  otxn_details : option emit_details;
  ledgerSeq : Z;
  parentCloseTime : Z;
  parentHash : list Z
}.

(** The part of [HookContext] and [HookResult] for emission. *)
Record emit_context := mkEmit {
  result_account : list Z;
  result_hookHash : list Z;
  hookCanEmit : Z;
  hasCallback : bool;
  isCallback : bool;
  isStrong : bool;
  hookChainPosition : Z;
  expected_etxn_count : Z;
  emit_nonce_counter : Z;
  ledger_nonce_counter : Z;
  nonce_used : gset (list Z);
  generation : Z;
  burden : Z;
  emittedTxn : list etx
}.

Definition max_nonce : Z := 255.
Definition max_emit : Z := 255.

Class Digest := {
  emit_nonce_digest : list Z -> Z -> list Z -> list Z -> Z -> list Z;
  ledger_nonce_digest : Z -> Z -> list Z -> list Z -> Z -> list Z -> list Z
}.

(** The digests are 32 bytes and differ for different counters of 16 bits. *)
Class DigestLaws `{Digest} := {
  emit_nonce_bytes txid n acc hash flags :
    lenZ (emit_nonce_digest txid n acc hash flags) = 32 /\ bytesOk (emit_nonce_digest txid n acc hash flags);
  emit_nonce_inj txid acc hash flags n n' :
    0 <= n < 2 ^ 16 -> 0 <= n' < 2 ^ 16 ->
    emit_nonce_digest txid n acc hash flags = emit_nonce_digest txid n' acc hash flags -> n = n'
}.

(** ** Transaction types ([canHook], [canEmit]) *)

Definition ttHOOK_SET : Z := 22.

(** [UINT256_BIT] *)
Definition UINT256_BIT (n : Z) : Z := Z.shiftl 1 n.

Definition canHook (txType hookOn : Z) : bool :=
  let hookOn := Z.lxor hookOn (UINT256_BIT ttHOOK_SET) in
  let hookOn := Z.lnot hookOn mod 2 ^ 256 in
  negb (Z.land hookOn (UINT256_BIT txType) =? 0).

Definition canEmit (txType hookCanEmit : Z) : bool := canHook txType hookCanEmit.

(** The mask of the hook, or of its definition, or the default. *)
Definition getHookCanEmit (hookObj hookDef : option Z) : Z :=
  match hookObj with Some m => m | None => match hookDef with Some m => m | None => UINT256_BIT ttHOOK_SET end end.

(** ** Fees *)

Definition computeExecutionFee (instructionCount : Z) : Z :=
  let fee := s64 instructionCount in
  if u64 fee <? instructionCount then 0x7FFFFFFFFFFFFFFF else fee.

Definition computeCreationFee (byteCount : Z) : Z :=
  let fee := s64 (u64 (s64 byteCount * 500)) in
  if u64 fee <? byteCount then 0x7FFFFFFFFFFFFFFF else fee.

(** ** The originating transaction *)

Definition set_burden (b : Z) (c : emit_context) : emit_context :=
  mkEmit (result_account c) (result_hookHash c) (hookCanEmit c) (hasCallback c) (isCallback c) (isStrong c)
    (hookChainPosition c) (expected_etxn_count c) (emit_nonce_counter c) (ledger_nonce_counter c) (nonce_used c)
    (generation c) b (emittedTxn c).
Definition set_generation (g : Z) (c : emit_context) : emit_context :=
  mkEmit (result_account c) (result_hookHash c) (hookCanEmit c) (hasCallback c) (isCallback c) (isStrong c)
    (hookChainPosition c) (expected_etxn_count c) (emit_nonce_counter c) (ledger_nonce_counter c) (nonce_used c)
    g (burden c) (emittedTxn c).
Definition set_expected (n : Z) (c : emit_context) : emit_context :=
  mkEmit (result_account c) (result_hookHash c) (hookCanEmit c) (hasCallback c) (isCallback c) (isStrong c)
    (hookChainPosition c) n (emit_nonce_counter c) (ledger_nonce_counter c) (nonce_used c)
    (generation c) (burden c) (emittedTxn c).
Definition add_nonce (h : list Z) (c : emit_context) : emit_context :=
  mkEmit (result_account c) (result_hookHash c) (hookCanEmit c) (hasCallback c) (isCallback c) (isStrong c)
    (hookChainPosition c) (expected_etxn_count c) (u16 (emit_nonce_counter c + 1)) (ledger_nonce_counter c)
    ({[h]} ∪ nonce_used c) (generation c) (burden c) (emittedTxn c).
Definition count_ledger_nonce (c : emit_context) : emit_context :=
  mkEmit (result_account c) (result_hookHash c) (hookCanEmit c) (hasCallback c) (isCallback c) (isStrong c)
    (hookChainPosition c) (expected_etxn_count c) (emit_nonce_counter c) (u16 (ledger_nonce_counter c + 1))
    (nonce_used c) (generation c) (burden c) (emittedTxn c).
Definition push_emitted (tx : etx) (c : emit_context) : emit_context :=
  mkEmit (result_account c) (result_hookHash c) (hookCanEmit c) (hasCallback c) (isCallback c) (isStrong c)
    (hookChainPosition c) (expected_etxn_count c) (emit_nonce_counter c) (ledger_nonce_counter c) (nonce_used c)
    (generation c) (burden c) (emittedTxn c ++ [tx]).

Definition otxn_id (env : tx_env) (mem : list Z) (write_ptr write_len flags : Z) : Z * list Z :=
  let txID := match emitFailure env with
              | Some failed => if flags =? 0 then failed else otxn_txid env
              | None => otxn_txid env
              end in
  if write_len <? lenZ txID then (TOO_SMALL, mem)
  else if NOT_IN_BOUNDS write_ptr (lenZ txID) (lenZ mem) || NOT_IN_BOUNDS write_ptr write_len (lenZ mem)
  then (OUT_OF_BOUNDS, mem)
  else WRITE_WASM_MEMORY_AND_RETURN mem write_ptr (lenZ txID) txID.

Definition otxn_burden (env : tx_env) (c : emit_context) : Z * emit_context :=
  if negb (burden c =? 0) then (s64 (burden c), c)
  else
    match otxn_details env with
    | None => (1, c)
    | Some pd =>
      match EmitBurden pd with
      | None => (1, c)
      | Some b => let b := Z.land b (2 ^ 63 - 1) in (s64 b, set_burden b c)
      end
    end.

Definition otxn_generation (env : tx_env) (c : emit_context) : Z * emit_context :=
  if negb (generation c =? 0) then (generation c, c)
  else
    match otxn_details env with
    | None => (0, c)
    | Some pd =>
      match EmitGeneration pd with
      | None => (0, c)
      | Some g => (g, set_generation g c)
      end
    end.

Definition etxn_generation (env : tx_env) (c : emit_context) : Z * emit_context :=
  let '(g, c) := otxn_generation env c in (g + 1, c).

(** ** Preparing an emission *)

Definition etxn_reserve (c : emit_context) (count : Z) : Z * emit_context :=
  if -1 <? expected_etxn_count c then (ALREADY_SET, c)
  else if count <? 1 then (TOO_SMALL, c)
  else if max_emit <? count then (TOO_BIG, c)
  else (count, set_expected count c).

Definition etxn_burden (env : tx_env) (c : emit_context) : Z * emit_context :=
  if expected_etxn_count c <=? -1 then (PREREQUISITE_NOT_MET, c)
  else
    let '(last_burden, c) := otxn_burden env c in
    let last_burden := u64 last_burden in
    let burden := u64 (last_burden * expected_etxn_count c) in
    if burden <? last_burden then (FEE_TOO_LARGE, c) else (s64 burden, c).

Definition hook_account (c : emit_context) (mem : list Z) (write_ptr ptr_len : Z) : Z * list Z :=
  if NOT_IN_BOUNDS write_ptr ptr_len (lenZ mem) then (OUT_OF_BOUNDS, mem)
  else if ptr_len <? 20 then (TOO_SMALL, mem)
  else WRITE_WASM_MEMORY_AND_RETURN mem write_ptr 20 (result_account c).

(** The flags that tell apart the executions of a hook on one transaction. *)
Definition nonce_flags (c : emit_context) : Z :=
  Z.lor (Z.lor (if isStrong c then 2 else 0) (if isCallback c then 1 else 0)) (Z.shiftl (hookChainPosition c) 2).

Section Emit.
Context `{Digest}.

Definition next_nonce (env : tx_env) (c : emit_context) : list Z :=
  emit_nonce_digest (otxn_txid env) (emit_nonce_counter c) (result_account c) (result_hookHash c) (nonce_flags c).

Definition etxn_nonce (env : tx_env) (mem : list Z) (c : emit_context) (write_ptr write_len : Z)
    : Z * list Z * emit_context :=
  if NOT_IN_BOUNDS write_ptr write_len (lenZ mem) then (OUT_OF_BOUNDS, mem, c)
  else if max_nonce <? emit_nonce_counter c then (TOO_MANY_NONCES, mem, c)
  else if write_len <? 32 then (TOO_SMALL, mem, c)
  else
    let hash := next_nonce env c in
    (WRITE_WASM_MEMORY_AND_RETURN mem write_ptr 32 hash, add_nonce hash c).

Definition ledger_nonce (env : tx_env) (mem : list Z) (c : emit_context) (write_ptr write_len : Z)
    : Z * list Z * emit_context :=
  if write_len <? 32 then (TOO_SMALL, mem, c)
  else if NOT_IN_BOUNDS write_ptr write_len (lenZ mem) then (OUT_OF_BOUNDS, mem, c)
  else if max_nonce <? ledger_nonce_counter c then (TOO_MANY_NONCES, mem, c)
  else
    let hash := ledger_nonce_digest (ledgerSeq env) (parentCloseTime env) (parentHash env) (otxn_txid env)
                  (ledger_nonce_counter c) (result_account c) in
    (WRITE_WASM_MEMORY_AND_RETURN mem write_ptr 32 hash, count_ledger_nonce c).

(** The [n] bytes of [x] in big-endian order, [(x >> 8 * i) & 0xFF]. *)
Fixpoint be_bytes (n : nat) (x : Z) : list Z :=
  match n with O => [] | S n => Z.land (Z.shiftr x (8 * Z.of_nat n)) 0xFF :: be_bytes n x end.

(** [etxn_details] writes the object piece by piece, calling the functions above for
    the pieces they write. *)
Definition etxn_details (env : tx_env) (mem : list Z) (c : emit_context) (write_ptr write_len : Z)
    : Z * list Z * emit_context :=
  if NOT_IN_BOUNDS write_ptr write_len (lenZ mem) then (OUT_OF_BOUNDS, mem, c)
  else
    let expected_size := if hasCallback c then 138 else 138 - 22 in
    if write_len <? expected_size then (TOO_SMALL, mem, c)
    else if expected_etxn_count c <=? -1 then (PREREQUISITE_NOT_MET, mem, c)
    else
      let '(gen, c) := etxn_generation env c in
      let '(burden, c) := etxn_burden env c in
      if burden <? 1 then (FEE_TOO_LARGE, mem, c)
      else
        let out := write_ptr in
        let mem := mem_set mem out ([0xED; 0x20; 0x2E] ++ be_bytes 4 (u32 gen) ++ [0x3D] ++ be_bytes 8 burden ++ [0x5B]) in
        let out := out + 17 in
        let '(r, mem) := otxn_id env mem out 32 1 in
        if negb (r =? 32) then (INTERNAL_ERROR, mem, c)
        else
          let out := out + 32 in
          let mem := mem_set mem out [0x5C] in
          let out := out + 1 in
          let '(r, mem, c) := etxn_nonce env mem c out 32 in
          if negb (r =? 32) then (INTERNAL_ERROR, mem, c)
          else
            let out := out + 32 in
            let mem := mem_set mem out (0x5D :: result_hookHash c) in
            let out := out + 33 in
            if hasCallback c then
              let mem := mem_set mem out [0x8A; 0x14] in
              let out := out + 2 in
              let '(r, mem) := hook_account c mem out 20 in
              if negb (r =? 20) then (INTERNAL_ERROR, mem, c)
              else
                let out := out + 20 in
                (out + 1 - write_ptr, mem_set mem out [0xE1], c)
            else (out + 1 - write_ptr, mem_set mem out [0xE1], c).

(** ** [emit] *)

(** What the server says of a transaction: its deserialization, the fee of
    [etxn_fee_base], whether it is new to the server and its preflight check. *)
Record emit_server := mkServer {
  deserialize : list Z -> option etx;
  etxn_fee_base : list Z -> Z;
  status_new : etx -> bool;
  preflight : etx -> bool
}.

(** Rules 0 to 2: the account, the sequence and the absent signatures. *)
Definition signing_rules (c : emit_context) (tx : etx) : bool :=
  bool_decide (Account tx = Some (result_account c)) &&
  bool_decide (Sequence tx = Some 0) &&
  match SigningPubKey tx with
  | None => false
  | Some pk => ((lenZ pk =? 33) || (lenZ pk =? 0)) && forallb (fun b => b =? 0) pk
  end &&
  negb (has_Signers tx) && negb (has_TicketSequence tx) && negb (has_AccountTxnID tx).

(** Rules 3 and 8: the emit details. *)
Definition details_rules (env : tx_env) (c : emit_context) (tx : etx) : bool * emit_context :=
  match EmitDetails tx with
  | Some (mkDetails (Some gen) (Some bur) (Some pTxnID) (Some nonce) (Some hash) callback) =>
    if 10 <=? gen then (false, c)
    else
      let '(gen_proper, c) := etxn_generation env c in
      if negb (gen =? u32 gen_proper) then (false, c)
      else
        let '(bur_proper, c) := etxn_burden env c in
        if negb (bur =? u64 bur_proper) then (false, c)
        else
          (bool_decide (pTxnID = otxn_txid env) && bool_decide (nonce ∈ nonce_used c) &&
           match callback with None => true | Some a => bool_decide (a = result_account c) end &&
           bool_decide (hash = result_hookHash c), c)
  | _ => (false, c)
  end.

(** Rules 4 to 6: no signature, and the window of ledgers. *)
Definition window_rules (env : tx_env) (tx : etx) : bool :=
  negb (has_TxnSignature tx) &&
  match LastLedgerSequence tx with
  | None => false
  | Some tx_lls =>
    negb (tx_lls <? u32 (ledgerSeq env + 1)) && negb (u32 (ledgerSeq env + 5) <? tx_lls) &&
    match FirstLedgerSequence tx with None => false | Some first => first <=? tx_lls end
  end.

(** Rule 7: the fee. *)
Definition fee_rule (srv : emit_server) (blob : list Z) (tx : etx) : bool :=
  let minfee := etxn_fee_base srv blob in
  negb (minfee <? 0) && match Fee tx with None => false | Some fee => negb (fee <? minfee) end.

Definition emit (srv : emit_server) (env : tx_env) (mem : list Z) (c : emit_context)
    (write_ptr write_len read_ptr read_len : Z) : Z * list Z * emit_context :=
  if NOT_IN_BOUNDS read_ptr read_len (lenZ mem) then (OUT_OF_BOUNDS, mem, c)
  else if NOT_IN_BOUNDS write_ptr write_len (lenZ mem) then (OUT_OF_BOUNDS, mem, c)
  else if write_len <? 32 then (TOO_SMALL, mem, c)
  else if expected_etxn_count c <? 0 then (PREREQUISITE_NOT_MET, mem, c)
  else if expected_etxn_count c <=? lenZ (emittedTxn c) then (TOO_MANY_EMITTED_TXN, mem, c)
  else
    let blob := mem_slice mem read_ptr read_len in
    match deserialize srv blob with
    | None => (EMISSION_FAILURE, mem, c)
    | Some tx =>
      if tx_pseudo tx then (EMISSION_FAILURE, mem, c)
      else if negb (canEmit (TransactionType tx) (hookCanEmit c)) then (EMISSION_FAILURE, mem, c)
      else if negb (signing_rules c tx) then (EMISSION_FAILURE, mem, c)
      else
        let '(ok, c) := details_rules env c tx in
        if negb ok then (EMISSION_FAILURE, mem, c)
        else if negb (window_rules env tx) then (EMISSION_FAILURE, mem, c)
        else if negb (fee_rule srv blob tx) then (EMISSION_FAILURE, mem, c)
        else if negb (status_new srv tx) then (EMISSION_FAILURE, mem, c)
        else if negb (preflight srv tx) then (EMISSION_FAILURE, mem, c)
        else if write_len <? lenZ (tx_id tx) then (TOO_SMALL, mem, c)
        else if NOT_IN_BOUNDS write_ptr (lenZ (tx_id tx)) (lenZ mem) then (OUT_OF_BOUNDS, mem, c)
        else
          let '(result, mem) := WRITE_WASM_MEMORY_AND_RETURN mem write_ptr (lenZ (tx_id tx)) (tx_id tx) in
          (result, mem, if result =? 32 then push_emitted tx c else c)
    end.

End Emit.

(** ** The exit code in the metadata ([finalizeHookResult]) *)

(** [(exitCode >= 0 ? exitCode : 0x8000000000000000ULL + (-1 * exitCode))] *)
Definition unsigned_exit_code {E} (exitCode : Z) : outcome E Z :=
  if 0 <=? exitCode then Ret exitCode
  else if exitCode =? - 2 ^ 63 then Undef UB_signed
  else Ret (u64 (2 ^ 63 + u64 (-1 * exitCode))).
