(* ===== verification/EmissionFacts.v ===== *)
(** * Emitted transactions: what a hook can emit

    Every transaction in the queue of emitted transactions passed the rules of
    [emit] for the hook that runs; their number, generation and nonces are bounded.
    The details that [etxn_details] writes are those [emit] asks for. *)

From S2P Require Import Prelude HookEnum HookMemory Emission.

(** ** Transaction types *)

Lemma testbit_BIT n m : 0 <= n -> Z.testbit (UINT256_BIT n) m = (n =? m).
Proof.
  intros Hn. unfold UINT256_BIT. destruct (Z.lt_ge_cases m 0) as [Hm|Hm].
  - rewrite Z.testbit_neg_r by done. lia.
  - rewrite Z.shiftl_1_l. rewrite Z.pow2_bits_eqb by done. done.
Qed.

Lemma land_BIT x n : 0 <= n -> (Z.land x (UINT256_BIT n) =? 0) = negb (Z.testbit x n).
Proof.
  intros Hn. destruct (Z.testbit x n) eqn:Hx; simpl.
  - apply Z.eqb_neq. intros Hz. apply (f_equal (fun y => Z.testbit y n)) in Hz.
    rewrite Z.land_spec, Hx, testbit_BIT, Z.eqb_refl, Z.testbit_0_l in Hz by done. done.
  - apply Z.eqb_eq. apply Z.bits_inj'. intros m Hm. rewrite Z.land_spec, testbit_BIT, Z.testbit_0_l by done.
    destruct (Z.eqb_spec n m) as [<-|]; [by rewrite Hx|by rewrite andb_false_r].
Qed.

Lemma canHook_bits t hookOn :
  0 <= t < 256 -> canHook t hookOn = if t =? ttHOOK_SET then Z.testbit hookOn t else negb (Z.testbit hookOn t).
Proof.
  intros Ht. unfold canHook. rewrite land_BIT, negb_involutive by lia.
  rewrite Z.mod_pow2_bits_low, Z.lnot_spec, Z.lxor_spec by lia. rewrite testbit_BIT by (unfold ttHOOK_SET; lia).
  rewrite (Z.eqb_sym ttHOOK_SET). destruct (t =? ttHOOK_SET), (Z.testbit hookOn t); done.
Qed.

(** The mask of a hook is active low for every transaction type but
    [ttHOOK_SET], for which it is active high: a hook fires on a type when its bit
    is clear, on SetHook when its bit is set; the same mask decides what it may
    emit, and without a mask it may emit everything. *)
Theorem canHook_correct t mask :
  0 <= t < 256 ->
  (canHook t mask = true <-> Z.testbit mask t = (t =? ttHOOK_SET)) /\
  canEmit t mask = canHook t mask /\ canEmit t (getHookCanEmit None None) = true /\ canHook ttHOOK_SET 0 = false.
Proof.
  intros Ht. unfold canEmit. rewrite !canHook_bits by (done || unfold ttHOOK_SET; lia). split_and!; [|done| |done].
  - destruct (t =? ttHOOK_SET), (Z.testbit mask t); done.
  - unfold getHookCanEmit. rewrite testbit_BIT by (unfold ttHOOK_SET; lia). rewrite (Z.eqb_sym ttHOOK_SET).
    by destruct (t =? ttHOOK_SET).
Qed.

Lemma canHook_correct_witness : canHook 0 (2 ^ 22) = true.
Proof. apply (proj1 (canHook_correct 0 (2 ^ 22) ltac:(lia))). by vm_compute. Defined.

(** ** The context of a hook *)

Definition otxn_gen (env : tx_env) : Z :=
  match otxn_details env with Some d => default 0 (EmitGeneration d) | None => 0 end.
Definition otxn_bur (env : tx_env) : Z :=
  match otxn_details env with
  | Some d => match EmitBurden d with Some b => Z.land b (2 ^ 63 - 1) | None => 1 end
  | None => 1
  end.

(** The fields of the environment are of their width; the generation of a
    transaction that was emitted is below 10. *)
Definition env_ok (env : tx_env) : Prop :=
  lenZ (otxn_txid env) = 32 /\ (0 <= ledgerSeq env /\ ledgerSeq env + 5 < 2 ^ 32) /\
  forall d g, otxn_details env = Some d -> EmitGeneration d = Some g -> 0 <= g < 2 ^ 32 - 1.

Lemma otxn_gen_range env : env_ok env -> 0 <= otxn_gen env < 2 ^ 32 - 1.
Proof.
  intros (_ & _ & He). unfold otxn_gen. destruct (otxn_details env) as [d|] eqn:Ed; [|lia].
  destruct (EmitGeneration d) as [g|] eqn:Eg; simpl; [|lia]. by apply (He d g).
Qed.

Lemma otxn_bur_range env : 0 <= otxn_bur env < 2 ^ 63.
Proof.
  unfold otxn_bur. destruct (otxn_details env) as [d|]; [|lia]. destruct (EmitBurden d); [|lia].
  change (2 ^ 63 - 1) with (Z.ones 63). rewrite Z.land_ones by lia. apply Z.mod_pos_bound. lia.
Qed.

(** What does not change while a hook runs. *)
Definition same_identity (c c' : emit_context) : Prop :=
  result_account c' = result_account c /\ result_hookHash c' = result_hookHash c /\ hookCanEmit c' = hookCanEmit c /\
  hasCallback c' = hasCallback c /\ nonce_flags c' = nonce_flags c.

(** The context but for the cached generation and burden. *)
Definition same_but_cache (c c' : emit_context) : Prop :=
  same_identity c c' /\ expected_etxn_count c' = expected_etxn_count c /\
  emit_nonce_counter c' = emit_nonce_counter c /\ ledger_nonce_counter c' = ledger_nonce_counter c /\
  nonce_used c' = nonce_used c /\ emittedTxn c' = emittedTxn c.

Record cached (env : tx_env) (c : emit_context) : Prop := {
  ca_gen : generation c = 0 \/ generation c = otxn_gen env;
  ca_bur : burden c = 0 \/ burden c = otxn_bur env
}.

Lemma same_but_cache_refl c : same_but_cache c c.
Proof. by repeat split. Qed.

Lemma same_but_cache_trans c1 c2 c3 : same_but_cache c1 c2 -> same_but_cache c2 c3 -> same_but_cache c1 c3.
Proof. unfold same_but_cache, same_identity. intuition congruence. Qed.

Lemma etxn_generation_spec env c :
  cached env c ->
  let '(g, c') := etxn_generation env c in g = otxn_gen env + 1 /\ cached env c' /\ same_but_cache c c'.
Proof.
  intros Hc. pose proof (ca_gen env c Hc) as Hg. unfold etxn_generation, otxn_generation.
  destruct (Z.eqb_spec (generation c) 0) as [Hz|Hz]; simpl.
  - destruct (otxn_details env) as [d|] eqn:Ed; [destruct (EmitGeneration d) as [g|] eqn:Eg|].
    + assert (Hv : otxn_gen env = g) by (unfold otxn_gen; by rewrite Ed, Eg).
      split_and!; [by rewrite Hv| |done]. split; [right; by rewrite Hv|apply Hc].
    + split_and!; [|done|done]. unfold otxn_gen. by rewrite Ed, Eg.
    + split_and!; [|done|done]. unfold otxn_gen. by rewrite Ed.
  - destruct Hg as [Hg|Hg]; [done|]. rewrite Hg. by split_and!.
Qed.

Lemma otxn_burden_spec env c :
  cached env c ->
  let '(b, c') := otxn_burden env c in b = otxn_bur env /\ cached env c' /\ same_but_cache c c'.
Proof.
  intros Hc. pose proof (ca_bur env c Hc) as Hb. pose proof (otxn_bur_range env) as Hr. unfold otxn_burden.
  destruct (Z.eqb_spec (burden c) 0) as [Hz|Hz]; simpl.
  - destruct (otxn_details env) as [d|] eqn:Ed; [destruct (EmitBurden d) as [b|] eqn:Eb|].
    + assert (Hv : otxn_bur env = Z.land b (2 ^ 63 - 1)) by (unfold otxn_bur; by rewrite Ed, Eb).
      split_and!; [rewrite Hv in *; apply s64_small; lia| |done]. split; [apply Hc|right; by rewrite Hv].
    + split_and!; [|done|done]. unfold otxn_bur. by rewrite Ed, Eb.
    + split_and!; [|done|done]. unfold otxn_bur. by rewrite Ed.
  - destruct Hb as [Hb|Hb]; [done|]. split_and!; [rewrite Hb; apply s64_small; lia|done|done].
Qed.

(** The burden of an emission: the product, or what its wrap-around leaves when
    that is not below the burden of the originating transaction. *)
Definition burden_value (env : tx_env) (n : Z) : Z :=
  let b := u64 (otxn_bur env * n) in if b <? otxn_bur env then FEE_TOO_LARGE else s64 b.

Lemma etxn_burden_spec env c :
  cached env c -> -1 < expected_etxn_count c ->
  let '(b, c') := etxn_burden env c in
  b = burden_value env (expected_etxn_count c) /\ cached env c' /\ same_but_cache c c'.
Proof.
  intros Hc He. unfold etxn_burden. replace (expected_etxn_count c <=? -1) with false by lia.
  pose proof (otxn_burden_spec env c Hc) as Hb. destruct (otxn_burden env c) as [b c']. destruct Hb as (-> & Hc' & Hs).
  pose proof (otxn_bur_range env). rewrite (u64_small (otxn_bur env)) by lia. destruct Hs as (Hid & Hexp & Hs). unfold burden_value.
  rewrite Hexp. by destruct (u64 (otxn_bur env * expected_etxn_count c) <? otxn_bur env).
Qed.

Lemma burden_value_exact env n :
  1 <= n -> otxn_bur env * n < 2 ^ 63 -> burden_value env n = otxn_bur env * n.
Proof.
  intros Hn Hlt. pose proof (otxn_bur_range env) as Hr. unfold burden_value.
  assert (Hge : otxn_bur env * 1 <= otxn_bur env * n) by (apply Z.mul_le_mono_nonneg_l; lia).
  rewrite u64_small by lia. replace (otxn_bur env * n <? otxn_bur env) with false by lia. apply s64_small. lia.
Qed.

(** ** What a hook can emit *)

Section Facts.
Context `{DigestLaws} (srv : emit_server) (env : tx_env).

Definition nonce_no (c : emit_context) (i : Z) : list Z :=
  emit_nonce_digest (otxn_txid env) i (result_account c) (result_hookHash c) (nonce_flags c).

(** The emit details [emit] asks for. *)
Definition details_for (c : emit_context) (d : option emit_details) : Prop :=
  exists i callback,
    d = Some (mkDetails (Some (otxn_gen env + 1)) (Some (u64 (burden_value env (expected_etxn_count c))))
               (Some (otxn_txid env)) (Some (nonce_no c i)) (Some (result_hookHash c)) callback) /\
    0 <= i < emit_nonce_counter c /\ otxn_gen env + 1 < 10 /\
    (callback = None \/ callback = Some (result_account c)).

(** The rules for a transaction that a hook with context [c] emits. *)
Record emittable (c : emit_context) (tx : etx) : Prop := {
  em_type : tx_pseudo tx = false /\ canEmit (TransactionType tx) (hookCanEmit c) = true;
  em_account : Account tx = Some (result_account c);
  em_sequence : Sequence tx = Some 0 /\ has_TicketSequence tx = false /\ has_AccountTxnID tx = false;
  em_unsigned : (exists pk, SigningPubKey tx = Some pk /\ (lenZ pk = 33 \/ lenZ pk = 0) /\ Forall (eq 0) pk) /\
    has_Signers tx = false /\ has_TxnSignature tx = false;
  em_details : details_for c (EmitDetails tx);
  em_window : exists first last, FirstLedgerSequence tx = Some first /\ LastLedgerSequence tx = Some last /\
    first <= last /\ ledgerSeq env < last <= ledgerSeq env + 5;
  em_fee : exists blob fee, deserialize srv blob = Some tx /\ Fee tx = Some fee /\ 0 <= etxn_fee_base srv blob <= fee;
  em_server : status_new srv tx = true /\ preflight srv tx = true
}.

Record emit_ok (c : emit_context) : Prop := {
  eo_cached : cached env c;
  eo_expected : expected_etxn_count c = -1 \/ 1 <= expected_etxn_count c <= max_emit;
  eo_count : lenZ (emittedTxn c) <= Z.max 0 (expected_etxn_count c);
  eo_counter : 0 <= emit_nonce_counter c <= max_nonce + 1;
  eo_nonces h : h ∈ nonce_used c <-> exists i, 0 <= i < emit_nonce_counter c /\ h = nonce_no c i;
  eo_emitted : Forall (emittable c) (emittedTxn c)
}.

Lemma nonce_no_same c c' i : same_identity c c' -> nonce_no c' i = nonce_no c i.
Proof. intros (Ha & Hh & _ & _ & Hf). unfold nonce_no. by rewrite Ha, Hh, Hf. Qed.

(** The rules depend on the identity of the hook, the reservation and the nonces
    given out. *)
Lemma emittable_mono c c' tx :
  same_identity c c' -> expected_etxn_count c' = expected_etxn_count c ->
  emit_nonce_counter c <= emit_nonce_counter c' -> emittable c tx -> emittable c' tx.
Proof.
  intros Hid He Hn [H1 H2 H3 H4 H5 H6 H7 H8]. pose proof Hid as (Ha & Hh & Hm & _). split; try done.
  - by rewrite Hm.
  - by rewrite Ha.
  - destruct H5 as (i & cb & Hd & Hi & Hg & Hcb). exists i, cb. rewrite He, Hh, Ha, (nonce_no_same c c' i Hid).
    split_and!; try done; lia.
Qed.

Lemma emit_ok_same c c' : emit_ok c -> same_but_cache c c' -> cached env c' -> emit_ok c'.
Proof.
  intros [H1 H2 H3 H4 H5 H6] (Hid & He & Hn & _ & Hu & Hq) Hc. split; rewrite ?He, ?Hn, ?Hq; try done.
  - intros h. rewrite Hu, H5. by setoid_rewrite (nonce_no_same c c' _ Hid).
  - eapply Forall_impl; [done|]. intros tx. apply emittable_mono; [done|done|lia].
Qed.

Lemma etxn_generation_ok c :
  emit_ok c -> let '(g, c') := etxn_generation env c in g = otxn_gen env + 1 /\ emit_ok c' /\ same_but_cache c c'.
Proof.
  intros Hok. pose proof (etxn_generation_spec env c (eo_cached c Hok)) as Hs.
  destruct (etxn_generation env c) as [g c']. destruct Hs as (-> & Hc & Hs). split_and!; [done| |done].
  by eapply emit_ok_same.
Qed.

Lemma etxn_burden_ok c :
  emit_ok c -> -1 < expected_etxn_count c ->
  let '(b, c') := etxn_burden env c in
  b = burden_value env (expected_etxn_count c) /\ emit_ok c' /\ same_but_cache c c'.
Proof.
  intros Hok He. pose proof (etxn_burden_spec env c (eo_cached c Hok) He) as Hs.
  destruct (etxn_burden env c) as [b c']. destruct Hs as (-> & Hc & Hs). split_and!; [done| |done].
  by eapply emit_ok_same.
Qed.

(** A nonce is given out. *)
Lemma add_nonce_ok c :
  emit_ok c -> emit_nonce_counter c <= max_nonce -> emit_ok (add_nonce (next_nonce env c) c).
Proof.
  intros [H1 H2 H3 H4 H5 H6] Hn. unfold max_nonce in *.
  assert (Hc : u16 (emit_nonce_counter c + 1) = emit_nonce_counter c + 1) by (apply Z.mod_small; lia).
  split; simpl; rewrite ?Hc; try done.
  - destruct H1. by split.
  - unfold max_nonce. lia.
  - intros h. rewrite elem_of_union, elem_of_singleton, H5. change (nonce_no (add_nonce _ c)) with (nonce_no c). split.
    + intros [->|(i & Hi & ->)]; [exists (emit_nonce_counter c)|exists i]; (split; [lia|done]).
    + intros (i & Hi & ->). destruct (decide (i = emit_nonce_counter c)) as [->|Hne]; [by left|].
      right. exists i. split; [lia|done].
  - eapply Forall_impl; [done|]. intros tx. apply emittable_mono; [done|done|simpl; rewrite Hc; lia].
Qed.

Lemma details_rules_ok c tx :
  emit_ok c -> -1 < expected_etxn_count c -> env_ok env ->
  let '(ok, c') := details_rules env c tx in
  emit_ok c' /\ same_but_cache c c' /\ (ok = true -> details_for c (EmitDetails tx)).
Proof.
  intros Hok He Henv. unfold details_rules.
  assert (Hstop : emit_ok c /\ same_but_cache c c /\ (false = true -> details_for c (EmitDetails tx)))
    by (split_and!; [done|apply same_but_cache_refl|done]).
  destruct (EmitDetails tx) as [[[gen|] [bur|] [pid|] [nonce|] [hash|] callback]|]; try done.
  destruct (Z.leb_spec 10 gen) as [|Hgen]; [done|].
  pose proof (etxn_generation_ok c Hok) as Hg. destruct (etxn_generation env c) as [g c1]. destruct Hg as (-> & Hok1 & Hs1).
  pose proof (otxn_gen_range env Henv) as Hr. rewrite (u32_small (otxn_gen env + 1)) by lia.
  destruct (Z.eqb_spec gen (otxn_gen env + 1)) as [->|]; [|by split_and!]. cbn [negb].
  assert (He1 : expected_etxn_count c1 = expected_etxn_count c) by apply Hs1.
  pose proof (etxn_burden_ok c1 Hok1) as Hb. destruct (etxn_burden env c1) as [b c2].
  destruct Hb as (-> & Hok2 & Hs2); [lia|].
  assert (Hs : same_but_cache c c2) by (by eapply same_but_cache_trans).
  rewrite He1. destruct (Z.eqb_spec bur (u64 (burden_value env (expected_etxn_count c)))) as [->|]; [|by split_and!].
  cbn [negb]. split_and!; [done|done|]. intros Hall.
  apply andb_true_iff in Hall as [Hall Hhash%bool_decide_eq_true]. apply andb_true_iff in Hall as [Hall Hcb].
  apply andb_true_iff in Hall as [Hpid%bool_decide_eq_true Hnonce%bool_decide_eq_true].
  destruct Hs as ((Ha & Hh & _) & _ & _ & _ & Hused & _). rewrite Hused in Hnonce.
  apply (eo_nonces c Hok) in Hnonce as (i & Hi & ->). exists i, callback. rewrite Hpid, Hhash, Hh. split_and!; [done|lia|lia|lia|].
  destruct callback; [right|by left]. apply bool_decide_eq_true in Hcb. by rewrite Hcb, Ha.
Qed.

Lemma signing_rules_ok c tx :
  signing_rules c tx = true ->
  Account tx = Some (result_account c) /\ Sequence tx = Some 0 /\ has_TicketSequence tx = false /\
  has_AccountTxnID tx = false /\ has_Signers tx = false /\
  exists pk, SigningPubKey tx = Some pk /\ (lenZ pk = 33 \/ lenZ pk = 0) /\ Forall (eq 0) pk.
Proof.
  unfold signing_rules. intros Hr. repeat (apply andb_true_iff in Hr as [Hr ?]).
  destruct (SigningPubKey tx) as [pk|]; [|by rewrite ?andb_false_r in *].
  repeat match goal with
  | H : bool_decide _ = true |- _ => apply bool_decide_eq_true in H
  | H : negb _ = true |- _ => apply negb_true_iff in H
  | H : _ && _ = true |- _ => apply andb_true_iff in H as [? ?]
  end.
  split_and!; try done. exists pk. split_and!; [done|lia|].
  apply Forall_forall. intros b Hb. match goal with H : forallb _ _ = true |- _ => rewrite forallb_forall in H; specialize (H b (proj1 (list_elem_of_In _ _) Hb)) end.
  lia.
Qed.

Lemma window_rules_ok tx :
  env_ok env -> window_rules env tx = true ->
  has_TxnSignature tx = false /\
  exists first last, FirstLedgerSequence tx = Some first /\ LastLedgerSequence tx = Some last /\
    first <= last /\ ledgerSeq env < last <= ledgerSeq env + 5.
Proof.
  intros (_ & Hseq & _). unfold window_rules. rewrite !u32_small by lia. intros [Hs Hw]%andb_true_iff.
  apply negb_true_iff in Hs. split; [done|].
  destruct (LastLedgerSequence tx) as [last|]; [|done]. destruct (FirstLedgerSequence tx) as [first|]; [|by rewrite andb_false_r in Hw].
  exists first, last. split_and!; try done; lia.
Qed.

(** [emit] appends a transaction that satisfies the rules, or nothing. *)
Lemma emit_spec mem c wp wl rp rl :
  emit_ok c -> env_ok env ->
  let '(code, mem', c') := emit srv env mem c wp wl rp rl in
  emit_ok c' /\ same_identity c c' /\ expected_etxn_count c' = expected_etxn_count c /\
  ((code = 32 /\ exists tx, deserialize srv (mem_slice mem rp rl) = Some tx /\ emittedTxn c' = emittedTxn c ++ [tx]) \/
   emittedTxn c' = emittedTxn c).
Proof.
  intros Hok Henv. unfold emit.
  assert (Hstop : forall c1, same_but_cache c c1 -> emit_ok c1 -> forall (code : Z) (m' : list Z),
    emit_ok c1 /\ same_identity c c1 /\ expected_etxn_count c1 = expected_etxn_count c /\
    ((code = 32 /\ exists tx, deserialize srv (mem_slice mem rp rl) = Some tx /\ emittedTxn c1 = emittedTxn c ++ [tx]) \/
     emittedTxn c1 = emittedTxn c)).
  { intros c1 (Hid & He & _ & _ & _ & Hq) Hok1 code m'. split_and!; [done|done|done|by right]. }
  pose proof (same_but_cache_refl c) as Hrefl.
  repeat (match goal with |- context [if ?b then (_, mem, c) else _] => destruct b eqn:? end; [by apply Hstop|]).
  cbv zeta. destruct (deserialize srv (mem_slice mem rp rl)) as [tx|] eqn:Edes; [|by apply Hstop].
  repeat (match goal with |- context [if ?b then (_, mem, c) else _] => destruct b eqn:? end; [by apply Hstop|]).
  pose proof (details_rules_ok c tx Hok ltac:(lia) Henv) as Hd. destruct (details_rules env c tx) as [ok c1].
  destruct Hd as (Hok1 & Hs & Hd).
  repeat (match goal with |- context [if ?b then (_, mem, c1) else _] => destruct b eqn:? end; [by apply Hstop|]).
  destruct (WRITE_WASM_MEMORY_AND_RETURN mem wp (lenZ (tx_id tx)) (tx_id tx)) as [result mem'].
  destruct (Z.eqb_spec result 32) as [->|Hne]; [|by apply Hstop].
  repeat match goal with H : negb _ = false |- _ => apply negb_false_iff in H end.
  pose proof Hs as (Hid & He & Hn & _ & _ & Hq).
  match goal with H : signing_rules _ _ = true |- _ => destruct (signing_rules_ok c tx H) as (S1 & S2 & S3 & S4 & S5 & S6) end.
  match goal with H : window_rules _ _ = true |- _ => destruct (window_rules_ok tx Henv H) as [W1 W2] end.
  match goal with H : fee_rule _ _ _ = true |- _ => unfold fee_rule in H; apply andb_true_iff in H as [F1 F2] end.
  split_and!; [|done|done|left; split; [done|]; exists tx; split; [done|]; simpl; by rewrite Hq].
  assert (Hem : emittable c tx).
  { split; try done.
    - by apply Hd.
    - destruct (Fee tx) as [fee|]; [|done]. exists (mem_slice mem rp rl), fee. split_and!; [done|done|lia|lia]. }
  destruct Hok1 as [O1 O2 O3 O4 O5 O6]. split; simpl; try done.
  - destruct O1. by split.
  - rewrite lenZ_app, Hq, He. change (lenZ [tx]) with 1. lia.
  - apply Forall_app. split.
    { eapply Forall_impl; [exact O6|]. intros t. apply emittable_mono; [by repeat split|done|done]. }
    constructor; [|constructor].
    apply (emittable_mono c); [done|done|simpl; lia|done].
Qed.

(** ** The details [etxn_details] writes *)

(** The serialization of [sfEmitDetails] for the next emission. *)
Definition details_bytes (c : emit_context) : list Z :=
  ([0xED; 0x20; 0x2E] ++ be_bytes 4 (u32 (otxn_gen env + 1)) ++ [0x3D] ++
   be_bytes 8 (burden_value env (expected_etxn_count c)) ++ [0x5B]) ++
  otxn_txid env ++ [0x5C] ++ next_nonce env c ++ (0x5D :: result_hookHash c) ++
  (if hasCallback c then [0x8A; 0x14] ++ result_account c else []) ++ [0xE1].

Definition details_size (c : emit_context) : Z := if hasCallback c then 138 else 116.

Lemma lenZ_be_bytes n x : lenZ (be_bytes n x) = Z.of_nat n.
Proof. induction n as [|n IH]; simpl; [done|]. rewrite lenZ_cons, IH. lia. Qed.

(** The widths of the ids of the hook. *)
Definition ids_ok (c : emit_context) : Prop := lenZ (result_hookHash c) = 32 /\ lenZ (result_account c) = 20.

Lemma details_bytes_length c : ids_ok c -> env_ok env -> lenZ (details_bytes c) = details_size c.
Proof.
  intros [Hh Ha] (Ht & _). unfold details_bytes, details_size. destruct (emit_nonce_bytes (otxn_txid env) (emit_nonce_counter c) (result_account c) (result_hookHash c) (nonce_flags c)) as [Hn _].
  fold (next_nonce env c) in Hn. destruct (hasCallback c); repeat rewrite ?lenZ_app, ?lenZ_cons, ?lenZ_be_bytes, ?(@lenZ_nil Z); lia.
Qed.

Lemma otxn_id_writes mem p :
  env_ok env -> 0 <= p -> p + 32 <= lenZ mem -> otxn_id env mem p 32 1 = (32, mem_set mem p (otxn_txid env)).
Proof.
  intros (Ht & _) Hp Hl. unfold otxn_id.
  replace (match emitFailure env with Some failed => if 1 =? 0 then failed else otxn_txid env | None => otxn_txid env end)
    with (otxn_txid env) by (by destruct (emitFailure env)).
  rewrite Ht. replace (32 <? 32) with false by lia. unfold NOT_IN_BOUNDS.
  replace (lenZ mem <=? p) with false by lia. replace (lenZ mem <? p + 32) with false by lia. simpl.
  rewrite write_and_return by lia. by rewrite Ht.
Qed.

Lemma etxn_nonce_writes mem c p :
  0 <= p -> p + 32 <= lenZ mem -> emit_nonce_counter c <= max_nonce ->
  etxn_nonce env mem c p 32 = (32, mem_set mem p (next_nonce env c), add_nonce (next_nonce env c) c).
Proof.
  intros Hp Hl Hn. unfold etxn_nonce, NOT_IN_BOUNDS.
  destruct (emit_nonce_bytes (otxn_txid env) (emit_nonce_counter c) (result_account c) (result_hookHash c) (nonce_flags c)) as [Hlen _].
  fold (next_nonce env c) in Hlen.
  replace (lenZ mem <=? p) with false by lia. replace (lenZ mem <? p + 32) with false by lia.
  replace (max_nonce <? emit_nonce_counter c) with false by lia. simpl.
  rewrite write_and_return by lia. by rewrite Hlen.
Qed.

Lemma hook_account_writes mem c p :
  0 <= p -> p + 20 <= lenZ mem -> lenZ (result_account c) = 20 ->
  hook_account c mem p 20 = (20, mem_set mem p (result_account c)).
Proof.
  intros Hp Hl Ha. unfold hook_account, NOT_IN_BOUNDS.
  replace (lenZ mem <=? p) with false by lia. replace (lenZ mem <? p + 20) with false by lia. simpl.
  rewrite write_and_return by lia. by rewrite Ha.
Qed.

Lemma next_nonce_same c c' : same_but_cache c c' -> next_nonce env c' = next_nonce env c.
Proof. intros ((Ha & Hh & _ & _ & Hf) & _ & Hn & _). unfold next_nonce. by rewrite Ha, Hh, Hf, Hn. Qed.

Lemma etxn_details_spec mem c wp wl :
  emit_ok c -> env_ok env -> ids_ok c -> 0 <= wp -> wp + wl <= lenZ mem -> details_size c <= wl ->
  -1 < expected_etxn_count c -> 1 <= burden_value env (expected_etxn_count c) -> emit_nonce_counter c <= max_nonce ->
  exists c', etxn_details env mem c wp wl = (details_size c, mem_set mem wp (details_bytes c), c') /\
    emit_ok c' /\ same_identity c c' /\ expected_etxn_count c' = expected_etxn_count c /\
    emit_nonce_counter c' = emit_nonce_counter c + 1 /\ emittedTxn c' = emittedTxn c /\ next_nonce env c ∈ nonce_used c'.
Proof.
  intros Hok Henv [Hh Ha] Hwp Hl Hsz He Hb Hn. unfold etxn_details, NOT_IN_BOUNDS.
  assert (Hds : 116 <= details_size c) by (unfold details_size; destruct (hasCallback c); lia).
  replace (lenZ mem <=? wp) with false by lia. replace (lenZ mem <? wp + wl) with false by lia. cbn [orb].
  replace (if hasCallback c then 138 else 138 - 22) with (details_size c) by (unfold details_size; by destruct (hasCallback c)).
  replace (wl <? details_size c) with false by lia. replace (expected_etxn_count c <=? -1) with false by lia.
  pose proof (etxn_generation_ok c Hok) as Hg. destruct (etxn_generation env c) as [g c1]. destruct Hg as (-> & Hok1 & Hs1).
  assert (He1 : expected_etxn_count c1 = expected_etxn_count c) by apply Hs1.
  pose proof (etxn_burden_ok c1 Hok1) as Hbur. destruct (etxn_burden env c1) as [b c2]. destruct Hbur as (-> & Hok2 & Hs2); [lia|].
  assert (Hs : same_but_cache c c2) by (by eapply same_but_cache_trans).
  rewrite He1. replace (burden_value env (expected_etxn_count c) <? 1) with false by lia. cbv zeta.
  pose proof Hs as ((Hida & Hidh & _ & Hcb & _) & _ & Hcnt & _).
  set (h0 := [0xED; 0x20; 0x2E] ++ be_bytes 4 (u32 (otxn_gen env + 1)) ++ [0x3D] ++
             be_bytes 8 (burden_value env (expected_etxn_count c)) ++ [0x5B]).
  assert (H0l : lenZ h0 = 17) by (unfold h0; repeat rewrite ?lenZ_app, ?lenZ_cons, ?lenZ_be_bytes, ?(@lenZ_nil Z); lia).
  destruct Henv as (Ht & Henv'). pose proof (conj Ht Henv' : env_ok env) as Henv.
  assert (Hnl : lenZ (next_nonce env c) = 32) by apply emit_nonce_bytes.
  pose proof (details_bytes_length c (conj Hh Ha) Henv) as Hdl.
  rewrite otxn_id_writes by mem_fits. cbn [negb Z.eqb Pos.eqb]. repeat mem_chain.
  rewrite etxn_nonce_writes by mem_fits. cbn [negb Z.eqb Pos.eqb]. rewrite (next_nonce_same c c2 Hs).
  set (c' := add_nonce (next_nonce env c) c2).
  assert (Hfin : emit_ok c' /\ same_identity c c' /\ expected_etxn_count c' = expected_etxn_count c /\
                 emit_nonce_counter c' = emit_nonce_counter c + 1 /\ emittedTxn c' = emittedTxn c /\
                 next_nonce env c ∈ nonce_used c').
  { unfold c'. rewrite <- (next_nonce_same c c2 Hs) at 1. unfold max_nonce in *.
    split_and!; [apply add_nonce_ok; [done|unfold max_nonce; lia]|by apply Hs..| |by apply Hs|set_solver].
    simpl. rewrite Hcnt. apply Z.mod_small. pose proof (eo_counter c Hok). lia. }
  change (hasCallback c') with (hasCallback c2). change (result_hookHash c') with (result_hookHash c2).
  rewrite Hcb, Hidh. repeat mem_chain. exists c'. split; [|done]. unfold details_bytes in *. fold h0 in Hdl |- *.
  unfold details_size in *. destruct (hasCallback c); repeat mem_chain.
  - assert (Hac : result_account c' = result_account c) by exact Hida.
    rewrite hook_account_writes by mem_fits. rewrite Hac. cbn [negb Z.eqb Pos.eqb]. repeat mem_chain. rewrite <- !app_assoc. repeat f_equal. lia.
  - rewrite <- !app_assoc. repeat f_equal. lia.
Qed.

End Facts.
