(* ===== verification/EmissionClaims.v ===== *)
(** * Emitted transactions: runs of a hook

    A hook's calls as a sequence of steps from a new context: the invariant of
    [EmissionFacts] holds in every context it reaches, the details that
    [etxn_details] writes are accepted by [emit], and a chain of emissions ends
    after nine of them. *)

From S2P Require Import Prelude HookEnum HookMemory Emission EmissionFacts.

(** ** Bytes *)

Lemma be_bytes_value n x : fromVoid (be_bytes n x) = x mod 2 ^ (8 * Z.of_nat n).
Proof.
  induction n as [|n IH]; [by rewrite Z.mod_1_r|].
  cbn [be_bytes]. rewrite fromVoid_cons, lenZ_be_bytes, IH. change 0xFF with (Z.ones 8).
  rewrite Z.land_ones, Z.shiftr_div_pow2 by lia.
  replace (8 * Z.of_nat (S n)) with (8 * Z.of_nat n + 8) by lia. rewrite Z.pow_add_r by lia.
  rewrite Z.rem_mul_r by lia. change 256 with (2 ^ 8). rewrite <- Z.pow_mul_r by lia. lia.
Qed.

Lemma be_bytes_ok n x : bytesOk (be_bytes n x).
Proof.
  induction n as [|n IH]; [by constructor|]. constructor; [|done]. change 0xFF with (Z.ones 8).
  rewrite Z.land_ones by lia. pose proof (Z.mod_pos_bound (Z.shiftr x (8 * Z.of_nat n)) (2 ^ 8)). unfold is_u8. lia.
Qed.

(** ** Runs *)

(** The calls of a hook; between them it stores what it likes in its memory. *)
Inductive emit_call :=
  | CallReserve (count : Z)
  | CallGeneration
  | CallBurden
  | CallNonce (write_ptr write_len : Z)
  | CallLedgerNonce (write_ptr write_len : Z)
  | CallDetails (write_ptr write_len : Z)
  | CallEmit (write_ptr write_len read_ptr read_len : Z)
  | Store (mem : list Z).

Section Runs.
Context `{DigestLaws} (srv : emit_server) (env : tx_env).

Definition emit_step (call : emit_call) (s : list Z * emit_context) : list Z * emit_context :=
  let '(mem, c) := s in
  match call with
  | CallReserve count => (mem, (etxn_reserve c count).2)
  | CallGeneration => (mem, (etxn_generation env c).2)
  | CallBurden => (mem, (etxn_burden env c).2)
  | CallNonce wp wl => let '(_, mem, c) := etxn_nonce env mem c wp wl in (mem, c)
  | CallLedgerNonce wp wl => let '(_, mem, c) := ledger_nonce env mem c wp wl in (mem, c)
  | CallDetails wp wl => let '(_, mem, c) := etxn_details env mem c wp wl in (mem, c)
  | CallEmit wp wl rp rl => let '(_, mem, c) := emit srv env mem c wp wl rp rl in (mem, c)
  | Store mem => (mem, c)
  end.

Definition emit_run (calls : list emit_call) (s : list Z * emit_context) : list Z * emit_context :=
  foldl (fun s call => emit_step call s) s calls.

(** The context of a hook that has not called anything. *)
Definition fresh (c : emit_context) : Prop :=
  expected_etxn_count c = -1 /\ emit_nonce_counter c = 0 /\ nonce_used c = ∅ /\
  generation c = 0 /\ burden c = 0 /\ emittedTxn c = [].

Lemma fresh_ok c : fresh c -> emit_ok srv env c.
Proof.
  intros (He & Hn & Hu & Hg & Hb & Hq). split; rewrite ?He, ?Hn, ?Hu, ?Hq; try done.
  - split; by left.
  - by left.
  - intros h. split; [set_solver|]. intros (i & Hi & _). lia.
Qed.

(** A step keeps the invariant and extends the queue; the reservation is made once. *)
Definition steps_to (c c' : emit_context) : Prop :=
  emit_ok srv env c' /\ same_identity c c' /\
  (expected_etxn_count c = -1 \/ expected_etxn_count c' = expected_etxn_count c) /\
  emittedTxn c `prefix_of` emittedTxn c'.

Lemma steps_to_refl c : emit_ok srv env c -> steps_to c c.
Proof. intros Hok. split_and!; [done|by repeat split|by right|done]. Qed.

Lemma steps_to_cache c c' : emit_ok srv env c' -> same_but_cache c c' -> steps_to c c'.
Proof. intros Hok (Hid & He & _ & _ & _ & Hq). split_and!; [done|done|by right|by rewrite Hq]. Qed.

Lemma steps_to_trans c1 c2 c3 : steps_to c1 c2 -> steps_to c2 c3 -> steps_to c1 c3.
Proof.
  intros (_ & Hi1 & He1 & Hq1) (Hok & Hi2 & He2 & Hq2). split_and!; [done| | |by trans (emittedTxn c2)].
  - unfold same_identity in *. intuition congruence.
  - destruct He1, He2; [by left..|by left; congruence|right; congruence].
Qed.

Lemma etxn_reserve_steps c n : emit_ok srv env c -> steps_to c (etxn_reserve c n).2.
Proof.
  intros Hok. pose proof (steps_to_refl c Hok) as Hrefl. unfold etxn_reserve.
  destruct (Z.ltb_spec (-1) (expected_etxn_count c)); [done|].
  destruct (Z.ltb_spec n 1); [done|]. destruct (Z.ltb_spec max_emit n); [done|]. simpl.
  destruct Hok as [Hca [He|He] Hcount Hn Hu Hq']; [|lia].
  assert (Hq : emittedTxn c = []).
  { rewrite He in Hcount. destruct (emittedTxn c) as [|t q]; [done|]. rewrite lenZ_cons in Hcount. pose proof (lenZ_nonneg q). lia. }
  split_and!; [|by repeat split|by left|done].
  split; simpl; rewrite ?Hq; try done; [by destruct Hca|by right|pose proof (@lenZ_nil etx); lia].
Qed.

Lemma etxn_nonce_steps mem c wp wl : emit_ok srv env c -> steps_to c (etxn_nonce env mem c wp wl).2.
Proof.
  intros Hok. pose proof (steps_to_refl c Hok) as Hrefl. unfold etxn_nonce.
  destruct (NOT_IN_BOUNDS wp wl (lenZ mem)); [done|]. destruct (Z.ltb_spec max_nonce (emit_nonce_counter c)); [done|].
  destruct (wl <? 32); [done|]. simpl. split_and!; [by apply add_nonce_ok|by repeat split|by right|done].
Qed.

Lemma ledger_nonce_steps mem c wp wl : emit_ok srv env c -> steps_to c (ledger_nonce env mem c wp wl).2.
Proof.
  intros Hok. pose proof (steps_to_refl c Hok) as Hrefl. unfold ledger_nonce.
  destruct (wl <? 32); [done|]. destruct (NOT_IN_BOUNDS wp wl (lenZ mem)); [done|].
  destruct (max_nonce <? ledger_nonce_counter c); [done|]. simpl. destruct Hok as [Hca He Hcount Hn Hu Hq].
  split_and!; [|by repeat split|by right|done]. split; try done; [by destruct Hca|].
  eapply Forall_impl; [done|]. intros tx. by apply emittable_mono.
Qed.

Lemma etxn_details_steps mem c wp wl : emit_ok srv env c -> steps_to c (etxn_details env mem c wp wl).2.
Proof.
  intros Hok. pose proof (steps_to_refl c Hok) as Hrefl. unfold etxn_details.
  destruct (NOT_IN_BOUNDS wp wl (lenZ mem)); [done|]. cbv zeta.
  destruct (wl <? (if hasCallback c then 138 else 138 - 22)); [done|].
  destruct (Z.leb_spec (expected_etxn_count c) (-1)); [done|].
  pose proof (etxn_generation_ok srv env c Hok) as Hg. destruct (etxn_generation env c) as [g c1]. destruct Hg as (_ & Hok1 & Hs1).
  assert (He1 : expected_etxn_count c1 = expected_etxn_count c) by apply Hs1.
  pose proof (etxn_burden_ok srv env c1 Hok1) as Hb. destruct (etxn_burden env c1) as [b c2]. destruct Hb as (_ & Hok2 & Hs2); [lia|].
  assert (Hs : steps_to c c2) by (apply (steps_to_trans c c1 c2); by apply steps_to_cache).
  destruct (b <? 1); [done|]. destruct (otxn_id _ _ _ _ _) as [r m]. destruct (negb (r =? 32)); [done|].
  pose proof (etxn_nonce_steps (mem_set m (wp + 17 + 32) [92]) c2 (wp + 17 + 32 + 1) 32 Hok2) as Hn.
  destruct (etxn_nonce _ _ _ _ _) as [[r2 m2] c3]. pose proof (steps_to_trans _ _ _ Hs Hn) as Hs3. simpl in Hs3.
  destruct (negb (r2 =? 32)); [done|]. destruct (hasCallback c3); [|done].
  destruct (hook_account _ _ _ _) as [r3 m3]. by destruct (negb (r3 =? 20)).
Qed.

Lemma emit_step_ok call mem c :
  env_ok env -> emit_ok srv env c -> steps_to c (emit_step call (mem, c)).2.
Proof.
  intros Henv Hok. destruct call as [n| | |wp wl|wp wl|wp wl|wp wl rp rl|m]; simpl.
  - by apply etxn_reserve_steps.
  - pose proof (etxn_generation_ok srv env c Hok) as Hs. destruct (etxn_generation env c) as [g c']. by apply steps_to_cache; apply Hs.
  - destruct (Z.le_gt_cases (expected_etxn_count c) (-1)) as [Hle|Hgt].
    + unfold etxn_burden. replace (expected_etxn_count c <=? -1) with true by lia. by apply steps_to_refl.
    + pose proof (etxn_burden_ok srv env c Hok ltac:(lia)) as Hs. destruct (etxn_burden env c) as [b c'].
      by apply steps_to_cache; apply Hs.
  - pose proof (etxn_nonce_steps mem c wp wl Hok). by destruct (etxn_nonce _ _ _ _ _) as [[??]?].
  - pose proof (ledger_nonce_steps mem c wp wl Hok). by destruct (ledger_nonce _ _ _ _ _) as [[??]?].
  - pose proof (etxn_details_steps mem c wp wl Hok). by destruct (etxn_details _ _ _ _ _) as [[??]?].
  - pose proof (emit_spec srv env mem c wp wl rp rl Hok Henv) as Hs. destruct (emit _ _ _ _ _ _ _ _) as [[r m'] c'].
    destruct Hs as (Hok' & Hid & He & Hq). simpl. split_and!; [done|done|by right|].
    destruct Hq as [(_ & tx & _ & ->)| ->]; [by exists [tx]|done].
  - by apply steps_to_refl.
Qed.

Lemma emit_run_ok calls mem c :
  env_ok env -> emit_ok srv env c -> steps_to c (emit_run calls (mem, c)).2.
Proof.
  intros Henv. revert mem c. induction calls as [|call calls IH]; intros mem c Hok; [by apply steps_to_refl|].
  cbn [emit_run foldl]. pose proof (emit_step_ok call mem c Henv Hok) as Hs.
  destruct (emit_step call (mem, c)) as [mem' c']. simpl in Hs. eapply steps_to_trans; [done|].
  apply (IH mem' c'). apply Hs.
Qed.

(** As many nonces as the counter says. *)
Lemma nonces_distinct c : emit_ok srv env c -> Z.of_nat (size (nonce_used c)) = emit_nonce_counter c.
Proof.
  intros Hok. destruct (eo_counter srv env c Hok) as [Hlo Hhi]. unfold max_nonce in Hhi.
  set (ns := list_to_set (C := gset (list Z)) ((fun i => nonce_no env c (Z.of_nat i)) <$> seq 0 (Z.to_nat (emit_nonce_counter c)))).
  assert (Heq : nonce_used c = ns).
  { apply set_eq. intros h. rewrite (eo_nonces srv env c Hok). unfold ns. rewrite elem_of_list_to_set, list_elem_of_fmap. split.
    - intros (i & Hi & ->). exists (Z.to_nat i). rewrite elem_of_seq. split; [f_equal; lia|lia].
    - intros (i & -> & Hi%elem_of_seq). exists (Z.of_nat i). split; [lia|done]. }
  rewrite Heq. unfold ns. rewrite size_list_to_set; [rewrite length_fmap, length_seq; lia|].
  apply NoDup_fmap_2_strong; [|apply NoDup_seq]. intros i j Hi%elem_of_seq Hj%elem_of_seq Hij.
  apply Nat2Z.inj. eapply emit_nonce_inj; [| |exact Hij]; lia.
Qed.

(** ** The details written and the rules that read them *)




(** C27: whatever a hook calls and stores, from a new context: it emits at most the
    number it reserved, at most 255, and the queue only grows; every transaction in
    it passed the rules of [emit] for this hook (account, sequence 0, no signature,
    the emit details of this execution with a nonce given out in it and a generation
    below 10, the window of ledgers, the fee, the preflight); the nonces given out
    are pairwise different and at most 256. *)
Theorem emit_run_invariant (calls calls' : list emit_call) mem c :
  env_ok env -> fresh c ->
  let s := emit_run calls (mem, c) in
  lenZ (emittedTxn s.2) <= Z.max 0 (expected_etxn_count s.2) <= max_emit /\
  Forall (emittable srv env s.2) (emittedTxn s.2) /\
  Z.of_nat (size (nonce_used s.2)) = emit_nonce_counter s.2 /\ emit_nonce_counter s.2 <= max_nonce + 1 /\
  same_identity c s.2 /\ emittedTxn s.2 `prefix_of` emittedTxn (emit_run calls' s).2.
Proof.
  intros Henv Hf s. destruct (emit_run_ok calls mem c Henv (fresh_ok c Hf)) as (Hok & Hid & _ & _). fold s in Hok, Hid.
  pose proof (eo_expected srv env s.2 Hok) as He. pose proof (eo_count srv env s.2 Hok). unfold max_emit in *.
  split_and!; [lia|lia|by apply eo_emitted|by apply nonces_distinct|by apply (eo_counter srv env)|done|].
  pose proof (emit_run_ok calls' s.1 s.2 Henv Hok) as Hs. rewrite <- surjective_pairing in Hs. apply Hs.
Qed.


End Runs.

(** ** Chains of emissions *)

(** [emitted_after srv n env]: the originating transaction of [env] is the last of a
    chain of [n] emissions; each was emitted in a run of a hook on the one before. *)
Inductive emitted_after `{Digest} (srv : emit_server) : Z -> tx_env -> Prop :=
  | chain_start env : otxn_details env = None -> env_ok env -> emitted_after srv 0 env
  | chain_emit n env c mem calls tx env' :
      emitted_after srv n env -> fresh c -> tx ∈ emittedTxn (emit_run srv env calls (mem, c)).2 ->
      otxn_details env' = EmitDetails tx -> env_ok env' -> emitted_after srv (n + 1) env'.

Lemma emitted_after_generation `{DigestLaws} srv n env :
  emitted_after srv n env -> env_ok env /\ otxn_gen env = n /\ (n = 0 \/ n < 10).
Proof.
  induction 1 as [env Hd Henv|n env c mem calls tx env' _ IH Hf Htx Hd Henv'].
  - split_and!; [done|unfold otxn_gen; by rewrite Hd|by left].
  - destruct IH as (Henv & Hg & _). split; [done|].
    destruct (emit_run_ok srv env calls mem c Henv (fresh_ok srv env c Hf)) as (Hok & _).
    pose proof (proj1 (Forall_forall _ _) (eo_emitted srv env _ Hok) tx Htx) as Hem.
    destruct (em_details srv env _ tx Hem) as (i & cb & Hed & _ & Hlt & _).
    rewrite Hed in Hd. unfold otxn_gen at 1. rewrite Hd. simpl. lia.
Qed.

(** C29: a chain of emissions, each made by a hook that runs on the transaction
    emitted before, has at most nine of them, and the generation that a hook sees is
    the number of emissions before it. *)
Theorem emission_chain_bounded `{DigestLaws} srv n env c :
  emitted_after srv n env -> fresh c -> (otxn_generation env c).1 = n /\ n <= 9.
Proof.
  intros Hch (_ & _ & _ & Hg & _). destruct (emitted_after_generation srv n env Hch) as (_ & Hgen & Hn).
  split; [|lia]. rewrite <- Hgen. unfold otxn_generation, otxn_gen. rewrite Hg. simpl.
  destruct (otxn_details env) as [d|]; [|done]. by destruct (EmitGeneration d).
Qed.

(** ** Witnesses *)

Definition demo_digest : Digest := {|
  emit_nonce_digest _ n _ _ _ := be_bytes 32 n;
  ledger_nonce_digest _ _ _ _ n _ := be_bytes 32 n
|}.
#[local] Existing Instance demo_digest.

#[local] Instance demo_digest_laws : DigestLaws.
Proof.
  split.
  - intros txid n acc hash flags. split; [apply lenZ_be_bytes|apply be_bytes_ok].
  - intros txid acc hash flags n n' Hn Hn' Heq. apply (f_equal fromVoid) in Heq. revert Heq.
    unfold emit_nonce_digest. simpl emit_nonce_digest. cbv beta iota delta [demo_digest].
    rewrite !be_bytes_value, !Z.mod_small by lia. done.
Qed.

Definition demo_env : tx_env := mkEnv (replicate 32 7) None None 100 0 (replicate 32 9).
Definition demo_context : emit_context :=
  mkEmit (replicate 20 1) (replicate 32 2) (2 ^ 22) true false true 0 (-1) 0 0 ∅ 0 0 [].

(** A transaction with the details of the first emission of [demo_context]. *)
Definition demo_tx : etx :=
  mkTx (replicate 32 3) false 0 (Some (replicate 20 1)) (Some 0) (Some (replicate 33 0)) false false false false
    (Some (mkDetails (Some 1) (Some 2) (Some (replicate 32 7)) (Some (be_bytes 32 0)) (Some (replicate 32 2))
       (Some (replicate 20 1)))) (Some 104) (Some 101) (Some 10).
Definition demo_server : emit_server :=
  mkServer (fun _ => Some demo_tx) (fun _ => 10) (fun _ => true) (fun _ => true).

Definition demo_calls : list emit_call := [CallReserve 2; CallDetails 0 138; CallEmit 0 32 0 32].

Lemma demo_env_ok env : lenZ (otxn_txid env) = 32 -> ledgerSeq env = 100 ->
  (forall d g, otxn_details env = Some d -> EmitGeneration d = Some g -> 0 <= g < 2 ^ 32 - 1) -> env_ok env.
Proof. intros Ht Hs Hd. split_and!; [done|lia|lia|done]. Qed.

Lemma emit_run_invariant_witness :
  let s := emit_run demo_server demo_env demo_calls (replicate 200 0, demo_context) in
  emittedTxn s.2 = [demo_tx] /\ Forall (emittable demo_server demo_env s.2) (emittedTxn s.2).
Proof.
  split; [by vm_compute|].
  apply (emit_run_invariant demo_server demo_env demo_calls [] (replicate 200 0) demo_context).
  - by apply demo_env_ok.
  - by repeat split.
Defined.


Definition demo_env' : tx_env := mkEnv (replicate 32 3) None (EmitDetails demo_tx) 100 0 (replicate 32 9).

Lemma emission_chain_bounded_witness : (otxn_generation demo_env' demo_context).1 = 1.
Proof.
  apply (emission_chain_bounded demo_server 1 demo_env' demo_context); [|by repeat split].
  apply (chain_emit demo_server 0 demo_env demo_context (replicate 200 0) demo_calls demo_tx demo_env').
  - apply chain_start; [done|]. by apply demo_env_ok.
  - by repeat split.
  - by vm_compute; left.
  - done.
  - apply demo_env_ok; [done|done|]. intros d g [= <-] [= <-]. lia.
Defined.

(** ** Arithmetic that does not do what it says *)

Definition burden_env (b : Z) : tx_env :=
  mkEnv (replicate 32 7) None (Some (mkDetails (Some 1) (Some b) None None None None)) 100 0 (replicate 32 9).
Definition reserved_context (n : Z) : emit_context := (etxn_reserve demo_context n).2.
Definition burden_tx (b : Z) : etx :=
  mkTx (replicate 32 3) false 0 (Some (replicate 20 1)) (Some 0) (Some (replicate 33 0)) false false false false
    (Some (mkDetails (Some 2) (Some b) (Some (replicate 32 7)) (Some (be_bytes 32 0)) (Some (replicate 32 2)) None))
    (Some 104) (Some 101) (Some 10).

(** The checks for overflow miss cases. The burden of five emissions after a
    burden of 5 * 10^18 is a wrapped product that is smaller than it should be and is
    not refused, and that of four after 7 * 10^18 reads as a negative code. Where
    [etxn_burden] does refuse, [emit] compares the burden of the transaction with the
    error code, so a transaction that carries the code as its burden is accepted. A
    fee above the range of its type is negative instead of the maximum. The exit code
    with no negation has no unsigned form. *)
Theorem emission_gaps :
  (etxn_burden (burden_env 5000000000000000000) (reserved_context 5)).1 = 5000000000000000000 * 5 - 2 ^ 64 /\
  (etxn_burden (burden_env 7000000000000000000) (reserved_context 4)).1 = 7000000000000000000 * 4 - 2 ^ 65 /\
  ((etxn_burden (burden_env (2 ^ 62)) (reserved_context 4)).1 = FEE_TOO_LARGE /\
   let c := (etxn_nonce (burden_env (2 ^ 62)) (replicate 32 0) (reserved_context 4) 0 32).2 in
   (details_rules (burden_env (2 ^ 62)) c (burden_tx (u64 FEE_TOO_LARGE))).1 = true) /\
  computeExecutionFee (2 ^ 63) = - 2 ^ 63 /\ computeCreationFee 18446744073709552 < 0 /\
  @unsigned_exit_code unit (- 2 ^ 63) = Undef UB_signed.
Proof. vm_compute. repeat split. Qed.
