(* ===== verification/HookContext.v ===== *)
(** * The execution of one hook (src/src/ripple/app/hook/impl/applyHook.cpp)

    The context of a hook in a chain and the API functions that act on the rest of
    the chain: parameters and their overrides, skips, and the second execution after
    the transaction. [hook_apply] is [hook::apply]. What the code of the hook does
    is decided by WasmEdge: it is the parameter [wasm], which gives the calls the
    hook makes and how its instance ends. Hashes, accounts and namespaces are
    numbers; parameter names and values are bytes. *)

From S2P Require Import Prelude HookEnum HookMemory GuardRuntime LedgerDir HookState StateCache.

(** ** The context *)

Abbreviation params := (gmap (list Z) (list Z)).

(** The arguments of [hook::apply]; of the provisional metadata only whether they
    are given. *)
Record hook_args := mkArgs {
  arg_hookSetTxnID : Z;
  arg_hookHash : Z;
  arg_hookCanEmit : Z;
  arg_hookNamespace : Z;
  arg_wasm : list Z;
  arg_hookParams : params;
  arg_hookParamOverrides : gmap Z params;
  arg_account : Z;
  arg_hasCallback : bool;
  arg_isCallback : bool;
  arg_isStrong : bool;
  arg_wasmParam : Z;
  arg_hookChainPosition : Z;
  arg_provisionalMeta : bool
}.

(** The context: the arguments, the state cache, the guards with the exit of the
    hook, the overrides and their number, the skips, the wish to run again, the
    queue of emitted transactions (id and nonce), the reason given at the exit and
    the number of instructions. *)
Record hook_context := mkCtx {
  ctx_args : hook_args;
  ctx_state : HookResult;
  ctx_guard : HookContext;
  ctx_overrides : gmap Z params;
  ctx_overrideCount : Z;
  ctx_skips : gset Z;
  ctx_again : bool;
  ctx_emitted : list (Z * Z);
  ctx_reason : list Z;
  ctx_instructions : Z
}.

Definition new_hook_context (fixXahauV3 : bool) (a : hook_args) (m : HookStateMap) : hook_context :=
  mkCtx a (mkResult (arg_account a) (arg_hookHash a) (arg_hookNamespace a) m 0 false) (new_context fixXahauV3)
    (arg_hookParamOverrides a) 0 ∅ false [] [] 0.

Definition ctx_exit (c : hook_context) : ExitType := exitType (ctx_guard c).
Definition ctx_map (c : hook_context) : HookStateMap := result_stateMap (ctx_state c).

Definition set_state (r : HookResult) (c : hook_context) : hook_context :=
  mkCtx (ctx_args c) r (ctx_guard c) (ctx_overrides c) (ctx_overrideCount c) (ctx_skips c) (ctx_again c)
    (ctx_emitted c) (ctx_reason c) (ctx_instructions c).
Definition set_guard (g : HookContext) (c : hook_context) : hook_context :=
  mkCtx (ctx_args c) (ctx_state c) g (ctx_overrides c) (ctx_overrideCount c) (ctx_skips c) (ctx_again c)
    (ctx_emitted c) (ctx_reason c) (ctx_instructions c).
Definition set_overrides (o : gmap Z params) (n : Z) (c : hook_context) : hook_context :=
  mkCtx (ctx_args c) (ctx_state c) (ctx_guard c) o n (ctx_skips c) (ctx_again c)
    (ctx_emitted c) (ctx_reason c) (ctx_instructions c).
Definition set_skips (s : gset Z) (c : hook_context) : hook_context :=
  mkCtx (ctx_args c) (ctx_state c) (ctx_guard c) (ctx_overrides c) (ctx_overrideCount c) s (ctx_again c)
    (ctx_emitted c) (ctx_reason c) (ctx_instructions c).
Definition set_again (c : hook_context) : hook_context :=
  mkCtx (ctx_args c) (ctx_state c) (ctx_guard c) (ctx_overrides c) (ctx_overrideCount c) (ctx_skips c) true
    (ctx_emitted c) (ctx_reason c) (ctx_instructions c).
Definition push_emission (e : Z * Z) (c : hook_context) : hook_context :=
  mkCtx (ctx_args c) (ctx_state c) (ctx_guard c) (ctx_overrides c) (ctx_overrideCount c) (ctx_skips c) (ctx_again c)
    (ctx_emitted c ++ [e]) (ctx_reason c) (ctx_instructions c).
Definition set_reason (s : list Z) (c : hook_context) : hook_context :=
  mkCtx (ctx_args c) (ctx_state c) (ctx_guard c) (ctx_overrides c) (ctx_overrideCount c) (ctx_skips c) (ctx_again c)
    (ctx_emitted c) s (ctx_instructions c).
Definition set_instructions (n : Z) (c : hook_context) : hook_context :=
  mkCtx (ctx_args c) (ctx_state c) (ctx_guard c) (ctx_overrides c) (ctx_overrideCount c) (ctx_skips c) (ctx_again c)
    (ctx_emitted c) (ctx_reason c) n.

(** ** Parameters *)

Definition maxHookParameterKeySize : Z := 32.
Definition maxHookParameterValueSize : Z := 256.
Definition max_params : Z := 16.

(** The first parameter of the transaction with the name. *)
Fixpoint find_param (name : list Z) (ps : list (option (list Z) * option (list Z)))
    : option (option (list Z)) :=
  match ps with
  | [] => None
  | (n, v) :: ps => if bool_decide (n = Some name) then Some v else find_param name ps
  end.

Definition otxn_param (tx_params : option (list (option (list Z) * option (list Z)))) (mem : list Z)
    (write_ptr write_len read_ptr read_len : Z) : Z * list Z :=
  if NOT_IN_BOUNDS read_ptr read_len (lenZ mem) then (OUT_OF_BOUNDS, mem)
  else if NOT_IN_BOUNDS write_ptr write_len (lenZ mem) then (OUT_OF_BOUNDS, mem)
  else if read_len <? 1 then (TOO_SMALL, mem)
  else if 32 <? read_len then (TOO_BIG, mem)
  else
    match tx_params with
    | None => (DOESNT_EXIST, mem)
    | Some ps =>
      match find_param (mem_slice mem read_ptr read_len) ps with
      | None | Some None => (DOESNT_EXIST, mem)
      | Some (Some val) =>
        if lenZ val =? 0 then (DOESNT_EXIST, mem)
        else if write_len <? lenZ val then (TOO_SMALL, mem)
        else WRITE_WASM_MEMORY_AND_RETURN mem write_ptr write_len val
      end
    end.

(** The parameter [hook_param] finds: an override for the hash of the hook, or a
    parameter of the hook. *)
Definition lookup_param (c : hook_context) (name : list Z) : option (list Z) :=
  match ctx_overrides c !! arg_hookHash (ctx_args c) with
  | Some ps => match ps !! name with Some v => Some v | None => arg_hookParams (ctx_args c) !! name end
  | None => arg_hookParams (ctx_args c) !! name
  end.

Definition hook_param (c : hook_context) (mem : list Z) (write_ptr write_len read_ptr read_len : Z) : Z * list Z :=
  if NOT_IN_BOUNDS read_ptr read_len (lenZ mem) then (OUT_OF_BOUNDS, mem)
  else if NOT_IN_BOUNDS write_ptr write_len (lenZ mem) then (OUT_OF_BOUNDS, mem)
  else if read_len <? 1 then (TOO_SMALL, mem)
  else if 32 <? read_len then (TOO_BIG, mem)
  else
    match lookup_param c (mem_slice mem read_ptr read_len) with
    | None => (DOESNT_EXIST, mem)
    | Some v =>
      if lenZ v =? 0 then (DOESNT_EXIST, mem)
      else WRITE_WASM_MEMORY_AND_RETURN mem write_ptr write_len v
    end.

(** [overrides[hash][name] = value] *)
Definition set_override (hash : Z) (name value : list Z) (o : gmap Z params) : gmap Z params :=
  match o !! hash with
  | None => <[hash := {[name := value]}]> o
  | Some ps => <[hash := <[name := value]> ps]> o
  end.

Definition hook_param_set (c : hook_context) (mem : list Z)
    (read_ptr read_len kread_ptr kread_len hread_ptr hread_len : Z) : Z * hook_context :=
  let out ptr len := NOT_IN_BOUNDS ptr len (lenZ mem) in
  if out read_ptr read_len || out kread_ptr kread_len || out hread_ptr hread_len then (OUT_OF_BOUNDS, c)
  else if kread_len <? 1 then (TOO_SMALL, c)
  else if maxHookParameterKeySize <? kread_len then (TOO_BIG, c)
  else if negb (hread_len =? 32) then (INVALID_ARGUMENT, c)
  else if maxHookParameterValueSize <? read_len then (TOO_BIG, c)
  else
    let paramName := mem_slice mem kread_ptr kread_len in
    let paramValue := mem_slice mem read_ptr read_len in
    let hash := fromVoid (mem_slice mem hread_ptr 32) in
    if max_params <=? ctx_overrideCount c then (TOO_MANY_PARAMS, c)
    else (read_len, set_overrides (set_override hash paramName paramValue (ctx_overrides c))
                      (u32 (ctx_overrideCount c + 1)) c).

(** ** The other hooks of the chain *)

Definition has_hash (hash : Z) (h : hook_obj) : bool := bool_decide (hook_HookHash h = Some hash).

Definition hook_skip (led : ledger) (c : hook_context) (mem : list Z) (read_ptr read_len flags : Z)
    : Z * hook_context :=
  if NOT_IN_BOUNDS read_ptr read_len (lenZ mem) then (OUT_OF_BOUNDS, c)
  else if negb (read_len =? 32) then (INVALID_ARGUMENT, c)
  else if negb (flags =? 0) && negb (flags =? 1) then (INVALID_ARGUMENT, c)
  else
    let hash := fromVoid (mem_slice mem read_ptr 32) in
    let present := bool_decide (hash ∈ ctx_skips c) in
    if flags =? 1 then
      if negb present then (DOESNT_EXIST, c) else (1, set_skips (ctx_skips c ∖ {[hash]}) c)
    else if present then (1, c)
    else
      match hooks led !! arg_account (ctx_args c) with
      | None => (INTERNAL_ERROR, c)
      | Some hs => if existsb (has_hash hash) hs then (1, set_skips ({[hash]} ∪ ctx_skips c) c) else (DOESNT_EXIST, c)
      end.

Definition hook_pos (c : hook_context) : Z := arg_hookChainPosition (ctx_args c).

Definition hook_again (memory_length : Z) (c : hook_context) : Z * hook_context :=
  HOOK_SETUP memory_length c
    (if ctx_again c then (ALREADY_SET, c)
     else if arg_isStrong (ctx_args c) then (1, set_again c)
     else (PREREQUISITE_NOT_MET, c)).

(** The 32 bytes of a hash. *)
Fixpoint hash_bytes (n : nat) (x : Z) : list Z :=
  match n with O => [] | S n => (x / 256 ^ Z.of_nat n) mod 256 :: hash_bytes n x end.

(** [hook_no] is an [int32_t]; the comparison with the size is unsigned. *)
Definition hook_hash (led : ledger) (c : hook_context) (mem : list Z) (write_ptr write_len hook_no : Z)
    : Z * list Z :=
  if write_len <? 32 then (TOO_SMALL, mem)
  else if NOT_IN_BOUNDS write_ptr write_len (lenZ mem) then (OUT_OF_BOUNDS, mem)
  else if hook_no =? -1 then
    WRITE_WASM_MEMORY_AND_RETURN mem write_ptr write_len (hash_bytes 32 (arg_hookHash (ctx_args c)))
  else
    match hooks led !! arg_account (ctx_args c) with
    | None => (INTERNAL_ERROR, mem)
    | Some hs =>
      if lenZ hs <=? u64 hook_no then (DOESNT_EXIST, mem)
      else
        match hs !! Z.to_nat hook_no with
        | Some (mkHook (Some hash) _ _ _ _ _ _) =>
          WRITE_WASM_MEMORY_AND_RETURN mem write_ptr write_len (hash_bytes 32 hash)
        | _ => (DOESNT_EXIST, mem)
        end
    end.

(** ** Leaving the hook *)

(** Every second byte is zero and no other is. *)
Fixpoint utf16_pairs (buffer : list Z) : bool :=
  match buffer with
  | a :: b :: buffer => if (a =? 0) || negb (b =? 0) then false else utf16_pairs buffer
  | _ => true
  end.
Definition is_UTF16LE (buffer : list Z) : bool :=
  if negb (lenZ buffer mod 2 =? 0) || (lenZ buffer =? 0) then false else utf16_pairs buffer.

(** The first byte of every pair. *)
Fixpoint low_bytes (buffer : list Z) : list Z :=
  match buffer with a :: _ :: buffer => a :: low_bytes buffer | _ => [] end.

(** [HOOK_EXIT]: [accept] and [rollback] *)
Definition hook_exit (c : hook_context) (mem : list Z) (read_ptr read_len error_code : Z) (exit_type : ExitType)
    : Z * hook_context :=
  let read_len := if 256 <? read_len then 256 else read_len in
  let return_code := if decide (exit_type = ACCEPT) then RC_ACCEPT else RC_ROLLBACK in
  let leave c := (return_code, set_guard (mkContext (guard_map (ctx_guard c)) exit_type error_code) c) in
  HOOK_SETUP (lenZ mem) c
  (if negb (read_ptr =? 0) then
    if NOT_IN_BOUNDS read_ptr read_len (lenZ mem) then (OUT_OF_BOUNDS, c)
    else
      let reason := mem_slice mem read_ptr read_len in
      leave (set_reason (if is_UTF16LE reason then low_bytes reason else reason) c)
  else leave c).

(** ** The run of a hook *)

(** The calls that change the context, with the memory or its length. [ApiEmit] is an
    [emit] that queued a transaction with that id and nonce. *)
Inductive api_call :=
| ApiGuard (memory_length id maxitr : Z)
| ApiStateSet (mem : list Z) (read_ptr read_len kread_ptr kread_len nread_ptr nread_len aread_ptr aread_len : Z)
| ApiStateGet (mem : list Z) (write_ptr write_len kread_ptr kread_len nread_ptr nread_len aread_ptr aread_len : Z)
| ApiParamSet (mem : list Z) (read_ptr read_len kread_ptr kread_len hread_ptr hread_len : Z)
| ApiSkip (mem : list Z) (read_ptr read_len flags : Z)
| ApiAgain (memory_length : Z)
| ApiEmit (id nonce : Z)
| ApiAccept (mem : list Z) (read_ptr read_len error_code : Z)
| ApiRollback (mem : list Z) (read_ptr read_len error_code : Z).

(** How the instance ends: it returns after a number of instructions, WasmEdge
    reports an error, or an API function throws. *)
Inductive wasm_end := Finished (instructionCount : Z) | VmError | Thrown.

Section Run.
Context `{Keylets}.

Definition api_step (led : ledger) (c : hook_context) (call : api_call) : Z * hook_context :=
  match call with
  | ApiGuard ml id maxitr => let '(code, g) := _g ml (ctx_guard c) id maxitr in (code, set_guard g c)
  | ApiStateSet mem rp rl kp kl np nl ap al =>
    HOOK_SETUP (lenZ mem) c
      (let '(code, r) := state_foreign_set led mem (ctx_state c) rp rl kp kl np nl ap al in (code, set_state r c))
  | ApiStateGet mem wp wl kp kl np nl ap al =>
    HOOK_SETUP (lenZ mem) c
      (let '(code, _, r) := state_foreign led mem (ctx_state c) wp wl kp kl np nl ap al in (code, set_state r c))
  | ApiParamSet mem rp rl kp kl hp hl => HOOK_SETUP (lenZ mem) c (hook_param_set c mem rp rl kp kl hp hl)
  | ApiSkip mem rp rl flags => HOOK_SETUP (lenZ mem) c (hook_skip led c mem rp rl flags)
  | ApiAgain ml => hook_again ml c
  | ApiEmit id nonce => (32, push_emission (id, nonce) c)
  | ApiAccept mem rp rl code => hook_exit c mem rp rl code ACCEPT
  | ApiRollback mem rp rl code => hook_exit c mem rp rl code ROLLBACK
  end.

(** A call whose wrapper ends the instance is the last. *)
Fixpoint api_run (led : ledger) (c : hook_context) (calls : list api_call) : hook_context :=
  match calls with
  | [] => c
  | call :: calls =>
    let '(code, c) := api_step led c call in
    match api_return code with None => c | Some _ => api_run led c calls end
  end.

(** [hook::apply] with [executeWasm]: the state map, which the hooks share, and the
    context unless an exception left it. *)
Definition hook_apply (wasm : ledger -> hook_args -> HookStateMap -> list api_call * wasm_end) (fixXahauV3 : bool)
    (led : ledger) (a : hook_args) (m : HookStateMap) : HookStateMap * option hook_context :=
  let '(calls, ending) := wasm led a m in
  let c := api_run led (new_hook_context fixXahauV3 a m) calls in
  match ending with
  | Finished n => (ctx_map c, Some (set_instructions n c))
  | VmError => (ctx_map c, Some (set_guard (mkContext (guard_map (ctx_guard c)) WASM_ERROR (exitCode (ctx_guard c))) c))
  | Thrown => (ctx_map c, None)
  end.

End Run.
