(* ===== verification/HookChain.v ===== *)
(** * The hooks of a transaction (src/src/ripple/app/tx/impl/Transactor.cpp)

    The chain of hooks of an account, the chains of the transactional stakeholders,
    the callback of an emitted transaction and the second executions, with the
    phases of [Transactor::operator()] that run them before and after the
    transaction is applied. What the hooks do is [wasm]; the stakeholders are the
    result of [getTransactionalStakeHolders]. An emitted transaction is listed in the
    emitted directory by its id, in place of the keylet of its entry. *)

From S2P Require Import Prelude HookEnum GuardRuntime LedgerDir HookState StateCache Emission HookContext.

(** ** The view of a transaction *)

(** [sfHookExecution] and [sfHookEmission] of the metadata *)
Record hook_execution := mkExecution {
  ex_HookResult : ExitType;
  ex_HookAccount : Z;
  ex_HookReturnCode : Z;
  ex_HookReturnString : list Z;
  ex_HookInstructionCount : Z;
  ex_HookEmitCount : Z;
  ex_HookExecutionIndex : Z;
  ex_HookStateChangeCount : Z;
  ex_HookHash : Z;
  ex_Flags : option Z
}.
Record hook_emission := mkEmission {
  em_HookHash : Z;
  em_HookAccount : Z;
  em_EmittedTxnID : Z;
  em_EmitNonce : option Z
}.

(** The amendments that the phases look at. *)
Record rules := mkRules {
  featureTouch : bool;
  featureHooksUpdate1 : bool;
  fixXahauV2 : bool;
  fixXahauV3 : bool
}.

(** The view: the ledger, whether it is open, the emitted transactions with the page
    of the emitted directory that lists each, that directory, the metadata of hooks
    and the XRP destroyed. *)
Record apply_view := mkView {
  v_ledger : ledger;
  v_open : bool;
  v_rules : rules;
  v_emitted : gmap Z Z;
  v_emittedDir : directory;
  v_executions : list hook_execution;
  v_emissions : list hook_emission;
  v_destroyed : Z
}.

Definition set_ledger (led : ledger) (v : apply_view) : apply_view :=
  mkView led (v_open v) (v_rules v) (v_emitted v) (v_emittedDir v) (v_executions v) (v_emissions v) (v_destroyed v).
Definition set_emitted (e : gmap Z Z) (d : directory) (v : apply_view) : apply_view :=
  mkView (v_ledger v) (v_open v) (v_rules v) e d (v_executions v) (v_emissions v) (v_destroyed v).
Definition add_metadata (x : hook_execution) (es : list hook_emission) (v : apply_view) : apply_view :=
  mkView (v_ledger v) (v_open v) (v_rules v) (v_emitted v) (v_emittedDir v) (v_executions v ++ [x])
    (v_emissions v ++ es) (v_destroyed v).
Definition destroyXRP (drops : Z) (v : apply_view) : apply_view :=
  mkView (v_ledger v) (v_open v) (v_rules v) (v_emitted v) (v_emittedDir v) (v_executions v) (v_emissions v)
    (v_destroyed v + drops).

(** The transaction: its account, type and id, and the callback account (optional)
    and hook hash of its emit details. *)
Record otxn := mkOtxn {
  tx_account : Z;
  tx_type : Z;
  tx_hash : Z;
  tx_emit : option (option Z * Z)
}.

Definition ttEMIT_FAILURE : Z := 103.
Definition lsfTshCollect : Z := 0x02000000.
Definition INITIAL_XRP : Z := 100000000000 * 1000000.

(** ** Parameters of a hook *)

(** [parameters[name] = value] for each of the list *)
Definition add_params (ps : list (list Z * list Z)) (m : params) : params :=
  foldl (fun m p => <[p.1 := p.2]> m) m ps.

(** [None] is the error. *)
Definition gatherHookParameters (hookDef : hook_def) (hookObj : hook_obj) : option params :=
  match def_HookParameters hookDef with
  | None => None
  | Some defaults =>
    let parameters := add_params defaults ∅ in
    Some (match hook_HookParameters hookObj with None => parameters | Some custom => add_params custom parameters end)
  end.

(** ** Whether a hook fires, and what it costs *)

Definition hook_flags (hookObj : hook_obj) (hookDef : hook_def) : Z := default (def_Flags hookDef) (hook_Flags hookObj).
Definition hook_on (hookObj : hook_obj) (hookDef : hook_def) : Z := default (def_HookOn hookDef) (hook_HookOn hookObj).
Definition hook_ns (hookObj : hook_obj) (hookDef : hook_def) : Z :=
  default (def_HookNamespace hookDef) (hook_HookNamespace hookObj).

(** The fee of one hook of the chain, [None] when it does not count. *)
Definition hook_fee (led : ledger) (txType : Z) (collectCallsOnly : bool) (hookObj : hook_obj) : option Z :=
  match hook_HookHash hookObj with
  | None => None
  | Some hash =>
    match definitions led !! hash with
    | None => None
    | Some hookDef =>
      if canHook txType (hook_on hookObj hookDef) &&
         (negb collectCallsOnly || negb (Z.land (hook_flags hookObj hookDef) hsfCOLLECT =? 0))
      then Some (def_Fee hookDef) else None
    end
  end.

(** Fees are amounts of XRP, at most [INITIAL_XRP] each: the sums are far from the
    bounds of [int64_t]. *)
Fixpoint chain_fee (led : ledger) (txType : Z) (collectCallsOnly : bool) (fee : Z) (hs : list hook_obj) : Z :=
  match hs with
  | [] => fee
  | hookObj :: hs =>
    match hook_fee led txType collectCallsOnly hookObj with
    | None => chain_fee led txType collectCallsOnly fee hs
    | Some toAdd =>
      chain_fee led txType collectCallsOnly (if fee + toAdd <? fee then INITIAL_XRP else fee + toAdd) hs
    end
  end.

Definition calculateHookChainFee (led : ledger) (txType acc : Z) (collectCallsOnly : bool) : Z :=
  match hooks led !! acc with None => 0 | Some hs => chain_fee led txType collectCallsOnly 0 hs end.

(** ** Chains *)

(** The overrides of a result on top of those gathered before. *)
Definition gather_overrides (result o : gmap Z params) : gmap Z params :=
  union_with (fun new old => Some (new ∪ old)) result o.

Definition hook_call (hookHash : Z) (hookDef : hook_def) (hookObj : hook_obj) (ps : params) (o : gmap Z params)
    (acc : Z) (hasCallback isCallback strong : bool) (wasmParam position : Z) (meta : bool) : hook_args :=
  mkArgs (def_HookSetTxnID hookDef) hookHash (getHookCanEmit (hook_HookCanEmit hookObj) (def_HookCanEmit hookDef))
    (hook_ns hookObj hookDef) (def_CreateCode hookDef) ps o acc hasCallback isCallback strong wasmParam position meta.

Section Chain.
Context `{!Keylets} (wasm : ledger -> hook_args -> HookStateMap -> list api_call * wasm_end).

(** The loop of [executeHookChain]. *)
Fixpoint chain_loop (v3 : bool) (led : ledger) (txType acc : Z) (strong meta : bool) (hook_no : Z)
    (hookSkips : gset Z) (overrides : gmap Z params) (m : HookStateMap) (results : list hook_context)
    (hs : list hook_obj) : ter * HookStateMap * list hook_context :=
  match hs with
  | [] => (tesSUCCESS, m, results)
  | hookObj :: hs =>
    let hook_no := u8 (hook_no + 1) in
    let continue := chain_loop v3 led txType acc strong meta hook_no in
    match hook_HookHash hookObj with
    | None => continue hookSkips overrides m results hs
    | Some hookHash =>
      if bool_decide (hookHash ∈ hookSkips) then continue hookSkips overrides m results hs
      else
        match definitions led !! hookHash with
        | None => continue hookSkips overrides m results hs
        | Some hookDef =>
          if negb (canHook txType (hook_on hookObj hookDef)) then continue hookSkips overrides m results hs
          else if negb strong && (Z.land (hook_flags hookObj hookDef) hsfCOLLECT =? 0)
          then continue hookSkips overrides m results hs
          else
            match gatherHookParameters hookDef hookObj with
            | None => (tecINTERNAL, m, results)
            | Some parameters =>
              let call := hook_call hookHash hookDef hookObj parameters overrides acc
                (bool_decide (is_Some (def_HookCallbackFee hookDef))) false strong (if strong then 0 else 1)
                (u8 (hook_no - 1)) meta in
              match hook_apply wasm v3 led call m with
              | (m, None) => (tecHOOK_REJECTED, m, results)
              | (m, Some result) =>
                if decide (ctx_exit result = ACCEPT)
                then continue (hookSkips ∪ ctx_skips result) (gather_overrides (ctx_overrides result) overrides) m
                       (results ++ [result]) hs
                else (tecHOOK_REJECTED, m, results ++ [result])
              end
            end
        end
    end
  end.

Definition executeHookChain (v3 : bool) (led : ledger) (txType : Z) (hs : list hook_obj) (m : HookStateMap)
    (results : list hook_context) (acc : Z) (strong meta : bool) : ter * HookStateMap * list hook_context :=
  chain_loop v3 led txType acc strong meta 0 ∅ ∅ m results hs.

(** ** Transactional stakeholders *)

Definition touchAccount (v : apply_view) (acc : Z) : apply_view :=
  if negb (featureTouch (v_rules v)) then v
  else
    match accounts (v_ledger v) !! acc with
    | None => v
    | Some r =>
      set_ledger (set_account acc (mkAccount (Balance r) (OwnerCount r) (HookStateCount r) (HookNamespaces r)
        (AccountFlags r) (Some (u64 (default 0 (TouchCount r) + 1)))) (v_ledger v)) v
    end.

Definition set_Balance (b : Z) (r : account_root) : account_root :=
  mkAccount b (OwnerCount r) (HookStateCount r) (HookNamespaces r) (AccountFlags r) (TouchCount r).

(** The fee of a stakeholder: the view after it is paid, [None] when the chain is
    not executed. *)
Definition tsh_fee (v : apply_view) (acc : Z) (tshAcc : account_root) (canRollback : bool) (tshFeeDrops : Z)
    : option apply_view :=
  if tshFeeDrops =? 0 then None
  else if canRollback then Some v
  else if Z.land (AccountFlags tshAcc) lsfTshCollect =? 0 then None
  else if Balance tshAcc <? tshFeeDrops + accountReserve (fees (v_ledger v)) (OwnerCount tshAcc) then None
  else if 0 <? tshFeeDrops then
    Some (destroyXRP tshFeeDrops
            (set_ledger (set_account acc (set_Balance (Balance tshAcc - tshFeeDrops) tshAcc) (v_ledger v)) v))
  else Some v.

Fixpoint tsh_loop (tx : otxn) (strong meta : bool) (v : apply_view) (alreadyProcessed : gset Z) (m : HookStateMap)
    (results : list hook_context) (tsh : list (Z * bool))
    : ter * apply_view * HookStateMap * list hook_context :=
  match tsh with
  | [] => (tesSUCCESS, v, m, results)
  | (acc, canRollback) :: tsh =>
    if acc =? tx_account tx then tsh_loop tx strong meta v alreadyProcessed m results tsh
    else if bool_decide (acc ∈ alreadyProcessed) then tsh_loop tx strong meta v alreadyProcessed m results tsh
    else
      let alreadyProcessed := {[acc]} ∪ alreadyProcessed in
      if (negb canRollback && strong) || (canRollback && negb strong)
      then tsh_loop tx strong meta v alreadyProcessed m results tsh
      else
        let v := touchAccount v acc in
        match hooks (v_ledger v) !! acc, accounts (v_ledger v) !! acc with
        | Some hs, Some tshAcc =>
          let tshFeeDrops := calculateHookChainFee (v_ledger v) (tx_type tx) acc (negb canRollback) in
          match tsh_fee v acc tshAcc canRollback tshFeeDrops with
          | None => tsh_loop tx strong meta v alreadyProcessed m results tsh
          | Some v =>
            let '(tshResult, m, results) :=
              executeHookChain (fixXahauV3 (v_rules v)) (v_ledger v) (tx_type tx) hs m results acc strong meta in
            if canRollback && negb (isTesSuccess tshResult) then (tshResult, v, m, results)
            else tsh_loop tx strong meta v alreadyProcessed m results tsh
          end
        | _, _ => tsh_loop tx strong meta v alreadyProcessed m results tsh
        end
  end.

(** [additionalWeakTSH] is the set of accounts that the transactor adds. *)
Definition doTSH (stakeholders : ledger -> list (Z * bool)) (additionalWeakTSH : gset Z) (tx : otxn)
    (strong meta : bool) (v : apply_view) (m : HookStateMap) (results : list hook_context)
    : ter * apply_view * HookStateMap * list hook_context :=
  let tsh := stakeholders (v_ledger v) in
  let tsh := if strong then tsh else tsh ++ map (fun a => (a, false)) (std_set (elements additionalWeakTSH)) in
  tsh_loop tx strong meta v ∅ m results tsh.

(** ** Second executions *)

(** The loop of [doAgainAsWeak]. *)
Fixpoint again_loop (v3 : bool) (led : ledger) (acc : Z) (hookHashes : gset Z) (meta : bool) (hook_no : Z)
    (m : HookStateMap) (results : list hook_context) (hs : list hook_obj) : HookStateMap * list hook_context :=
  match hs with
  | [] => (m, results)
  | hookObj :: hs =>
    let hook_no := u8 (hook_no + 1) in
    let continue := again_loop v3 led acc hookHashes meta hook_no in
    match hook_HookHash hookObj with
    | None => continue m results hs
    | Some hookHash =>
      if negb (bool_decide (hookHash ∈ hookHashes)) then continue m results hs
      else
        match definitions led !! hookHash with
        | None => continue m results hs
        | Some hookDef =>
          match gatherHookParameters hookDef hookObj with
          | None => (m, results)
          | Some parameters =>
            let call := hook_call hookHash hookDef hookObj parameters ∅ acc
              (bool_decide (is_Some (def_HookCallbackFee hookDef))) false false 2 (u8 (hook_no - 1)) meta in
            match hook_apply wasm v3 led call m with
            | (m, None) => continue m results hs
            | (m, Some result) => continue m (results ++ [result]) hs
            end
          end
        end
    end
  end.

Definition doAgainAsWeak (v3 : bool) (led : ledger) (acc : Z) (hookHashes : gset Z) (m : HookStateMap)
    (results : list hook_context) (meta : bool) : HookStateMap * list hook_context :=
  match hooks led !! acc with
  | None => (m, results)
  | Some hs => again_loop v3 led acc hookHashes meta 0 m results hs
  end.

(** ** Results *)

(** The loop over the emitted transactions: each new one gets an entry in the
    emitted directory. [None]: the directory is full. *)
Fixpoint emit_loop {E} (cap : bool) (v : apply_view) (emission_txnid emitted : list (Z * Z))
    : outcome E (option (list (Z * Z)) * apply_view) :=
  match emitted with
  | [] => Ret (Some emission_txnid, v)
  | (id, nonce) :: emitted =>
    match v_emitted v !! id with
    | Some _ => emit_loop cap v emission_txnid emitted
    | None =>
      let* '(page, d) := dirInsert cap (v_emittedDir v) id in
      match page with
      | Some p => emit_loop cap (set_emitted (<[id := p]> (v_emitted v)) d v) (emission_txnid ++ [(id, nonce)]) emitted
      | None => Ret (None, set_emitted (v_emitted v) d v)
      end
    end
  end.

Definition hefSTRONG : Z := 1.
Definition hefCALLBACK : Z := 2.
Definition hefDOAAW : Z := 4.

Definition execution_flags (r : hook_context) : Z :=
  Z.lor (Z.lor (if arg_isStrong (ctx_args r) then hefSTRONG else 0) (if arg_isCallback (ctx_args r) then hefCALLBACK else 0))
    (if ctx_again r then hefDOAAW else 0).

Definition finalizeHookResult {E} (r : hook_context) (v : apply_view) (doEmit : bool) : outcome E (ter * apply_view) :=
  if v_open v then Ret (tesSUCCESS, v)
  else
    let exec_index := u16 (lenZ (v_executions v)) in
    let* '(txnids, v) :=
      if doEmit then emit_loop (fixPageCap (v_ledger v)) v [] (ctx_emitted r) else Ret (Some [], v) in
    match txnids with
    | None => Ret (tecDIR_FULL, v)
    | Some emission_txnid =>
      let* code := unsigned_exit_code (exitCode (ctx_guard r)) in
      let fixV2 := fixXahauV2 (v_rules v) in
      let hash := arg_hookHash (ctx_args r) in
      let acc := arg_account (ctx_args r) in
      let execution :=
        mkExecution (ctx_exit r) acc code (ctx_reason r) (ctx_instructions r) (u16 (lenZ emission_txnid)) exec_index
          (changedStateCount (ctx_state r)) hash (if fixV2 then Some (execution_flags r) else None) in
      let emissions :=
        if featureHooksUpdate1 (v_rules v)
        then map (fun e => mkEmission hash acc e.1 (if fixV2 then Some e.2 else None)) emission_txnid else [] in
      Ret (tesSUCCESS, add_metadata execution emissions v)
    end.

Definition removeEmissionEntry {E} (tx : otxn) (v : apply_view) : outcome E (ter * apply_view) :=
  match tx_emit tx, v_emitted v !! tx_hash tx with
  | Some _, Some page =>
    let* '(ok, d) := dirRemove (v_emittedDir v) page (tx_hash tx) false in
    if negb ok then Ret (tefBAD_LEDGER, set_emitted (v_emitted v) d v)
    else Ret (tesSUCCESS, set_emitted (delete (tx_hash tx) (v_emitted v)) d v)
  | _, _ => Ret (tesSUCCESS, v)
  end.

(** ** The callback of an emitted transaction *)

(** The loop of [doHookCallback]; the results of the two finalizers are not used. *)
Fixpoint callback_loop {E} (tx : otxn) (acc callbackHookHash : Z) (hookDef : hook_def) (meta : bool) (hook_no : Z)
    (v : apply_view) (hs : list hook_obj) : outcome E apply_view :=
  match hs with
  | [] => Ret v
  | hookObj :: hs =>
    let hook_no := u8 (hook_no + 1) in
    if negb (has_hash callbackHookHash hookObj) then callback_loop tx acc callbackHookHash hookDef meta hook_no v hs
    else
      match gatherHookParameters hookDef hookObj with
      | None => Ret v
      | Some parameters =>
        let call := hook_call callbackHookHash hookDef hookObj parameters ∅ acc true true false
          (if tx_type tx =? ttEMIT_FAILURE then 1 else 0) (u8 (hook_no - 1)) meta in
        match hook_apply wasm (fixXahauV3 (v_rules v)) (v_ledger v) call empty_state_map with
        | (_, None) => callback_loop tx acc callbackHookHash hookDef meta hook_no v hs
        | (m, Some result) =>
          let success := bool_decide (ctx_exit result = ACCEPT) in
          let* led := if success then let* '(_, led) := finalizeHookState m (v_ledger v) in Ret led else Ret (v_ledger v) in
          let* '(_, v) := finalizeHookResult result (set_ledger led v) success in
          callback_loop tx acc callbackHookHash hookDef meta hook_no v hs
        end
      end
  end.

Definition doHookCallback {E} (tx : otxn) (meta : bool) (v : apply_view) : outcome E apply_view :=
  match tx_emit tx with
  | Some (Some acc, callbackHookHash) =>
    match definitions (v_ledger v) !! callbackHookHash with
    | None => Ret v
    | Some hookDef =>
      if negb (bool_decide (is_Some (def_HookCallbackFee hookDef))) then Ret v
      else
        match hooks (v_ledger v) !! acc with
        | None => Ret v
        | Some hs => callback_loop tx acc callbackHookHash hookDef meta 0 v hs
        end
    end
  | _ => Ret v
  end.

(** ** The phases of [Transactor::operator()] *)

Fixpoint finalize_results {E} (v : apply_view) (doEmit : bool) (results : list hook_context) : outcome E apply_view :=
  match results with
  | [] => Ret v
  | r :: results => let* '(_, v) := finalizeHookResult r v doEmit in finalize_results v doEmit results
  end.

(** [aawMap]: the hooks, by account, that asked to be executed again. *)
Definition again_map (results : list hook_context) : gmap Z (gset Z) :=
  foldl (fun aaw r =>
    if ctx_again r
    then <[arg_account (ctx_args r) := {[arg_hookHash (ctx_args r)]} ∪ default ∅ (aaw !! arg_account (ctx_args r))]> aaw
    else aaw) ∅ results.

(** Before the transaction is applied: the hooks of the sender, unless the
    transaction was emitted, and of the strong stakeholders. *)
Definition run_strong (stakeholders : ledger -> list (Z * bool)) (tx : otxn) (v : apply_view)
    : ter * apply_view * HookStateMap * list hook_context :=
  let '(result, m, results) :=
    match hooks (v_ledger v) !! tx_account tx, tx_emit tx with
    | Some hs, None =>
      executeHookChain (fixXahauV3 (v_rules v)) (v_ledger v) (tx_type tx) hs empty_state_map [] (tx_account tx) true false
    | _, _ => (tesSUCCESS, empty_state_map, [])
    end in
  if isTesSuccess result then doTSH stakeholders ∅ tx true false v m results else (result, v, m, results).

Definition strong_phase {E} (stakeholders : ledger -> list (Z * bool)) (tx : otxn) (v : apply_view)
    : outcome E (ter * apply_view * gmap Z (gset Z)) :=
  let '(result, v, m, results) := run_strong stakeholders tx v in
  let* led := if isTesSuccess result then let* '(_, led) := finalizeHookState m (v_ledger v) in Ret led
              else Ret (v_ledger v) in
  let* v := finalize_results (set_ledger led v) (isTesSuccess result) results in
  Ret (result, v, again_map results).

(** After the transaction is applied with [result]: the callback, the weak
    stakeholders and the second executions. *)
Definition weak_phase {E} (stakeholders : ledger -> list (Z * bool)) (additionalWeakTSH : gset Z) (tx : otxn)
    (aaw : gmap Z (gset Z)) (result : ter) (v : apply_view) : outcome E apply_view :=
  let* v := doHookCallback tx true v in
  let* '(_, v) := removeEmissionEntry tx v in
  let '(_, v, m, results) := doTSH stakeholders additionalWeakTSH tx false true v empty_state_map [] in
  let '(m, results) :=
    foldl (fun '(m, results) '(acc, hookHashes) =>
      doAgainAsWeak (fixXahauV3 (v_rules v)) (v_ledger v) acc hookHashes m results true) (m, results) (std_map aaw) in
  let* '(_, led) := finalizeHookState m (v_ledger v) in
  finalize_results (set_ledger led v) (isTesSuccess result) results.

End Chain.
