(* ===== verification/HookChainFacts.v ===== *)
(** * Chains of hooks: lemmas

    What a run of a hook does to its context; the parts of the state calls, the
    overrides and the skips in the chain. *)

From S2P Require Import Prelude HookEnum HookMemory GuardRuntime LedgerDir LedgerDirFacts HookState.
From S2P Require Import HookStateFacts StateCache StateCacheFacts StateApiFacts StateCommit Emission.
From S2P Require Import HookContext HookChain.

(** ** Overrides *)

(** Every override of [o] has one in [o']. *)
Definition covers (o' o : gmap Z params) : Prop :=
  forall h ps, o !! h = Some ps -> exists ps', o' !! h = Some ps' /\ dom ps ⊆ dom ps'.

Lemma covers_refl o : covers o o.
Proof. intros h ps Hh. by exists ps. Qed.

Lemma covers_trans o1 o2 o3 : covers o2 o1 -> covers o3 o2 -> covers o3 o1.
Proof.
  intros H12 H23 h ps Hh. destruct (H12 h ps Hh) as (ps2 & H2 & Hd2). destruct (H23 h ps2 H2) as (ps3 & H3 & Hd3).
  exists ps3. split; [done|]. by trans (dom ps2).
Qed.

Lemma set_override_covers h n x o : covers (set_override h n x o) o.
Proof.
  intros h' ps Hh'. unfold set_override. destruct (o !! h) as [ps0|] eqn:Eh; destruct (decide (h' = h)) as [->|Hne].
  - rewrite lookup_insert_eq. simplify_eq. eexists. split; [done|]. rewrite dom_insert_L. set_solver.
  - rewrite lookup_insert_ne by done. by exists ps.
  - congruence.
  - rewrite lookup_insert_ne by done. by exists ps.
Qed.

(** The lookup after a write. *)
Definition override (o : gmap Z params) (h : Z) (n : list Z) : option (list Z) := o !! h ≫= (fun ps => ps !! n).

Lemma override_set h n x o h' n' :
  override (set_override h n x o) h' n' = if decide (h' = h /\ n' = n) then Some x else override o h' n'.
Proof.
  unfold override, set_override. destruct (decide (h' = h)) as [->|Hh].
  - destruct (o !! h) as [ps|] eqn:Eh; rewrite lookup_insert_eq; simpl.
    + destruct (decide (n' = n)) as [->|Hn].
      * by rewrite lookup_insert_eq, decide_True.
      * by rewrite lookup_insert_ne, decide_False by naive_solver.
    + destruct (decide (n' = n)) as [->|Hn].
      * by rewrite lookup_singleton_eq, decide_True.
      * by rewrite lookup_singleton_ne, decide_False by naive_solver.
  - rewrite decide_False by naive_solver. destruct (o !! h) as [ps|]; by rewrite lookup_insert_ne.
Qed.

(** Overrides that were gathered before are those the hook started from. *)
Lemma gather_overrides_covers o' o : covers o' o -> gather_overrides o' o = o'.
Proof.
  intros Hc. apply map_eq. intros h. unfold gather_overrides. rewrite lookup_union_with.
  destruct (o !! h) as [ps|] eqn:Eh; [|by destruct (o' !! h)].
  destruct (Hc h ps Eh) as (ps' & -> & Hd). simpl. f_equal. apply map_eq. intros n. rewrite lookup_union.
  destruct (ps' !! n) as [x|] eqn:En; [by destruct (ps !! n)|]. apply not_elem_of_dom in En.
  assert (Hn : ps !! n = None) by (apply not_elem_of_dom; set_solver). by rewrite Hn.
Qed.

(** ** One call *)

Section Facts.
Context `{Keylets}.

(** The state call among the calls, if it is one and the instance has a memory. *)
Definition state_part (call : api_call) : option state_call :=
  match call with
  | ApiStateSet mem rp rl kp kl np nl ap al => if lenZ mem =? 0 then None else Some (StateSet mem rp rl kp kl np nl ap al)
  | ApiStateGet mem wp wl kp kl np nl ap al => if lenZ mem =? 0 then None else Some (StateGet mem wp wl kp kl np nl ap al)
  | _ => None
  end.

(** What a call changes: never the arguments; the state only by its state call; it
    adds overrides and emitted transactions and skips hooks of the account. *)
Record call_effect (led : ledger) (c c' : hook_context) (s : option state_call) : Prop := {
  ce_args : ctx_args c' = ctx_args c;
  ce_state : ctx_state c' = match s with None => ctx_state c | Some s => (state_step led (ctx_state c) s).2 end;
  ce_overrides : covers (ctx_overrides c') (ctx_overrides c);
  ce_emitted : ctx_emitted c `prefix_of` ctx_emitted c'
}.

Lemma call_effect_refl led c : call_effect led c c None.
Proof. split; [done|done|apply covers_refl|done]. Qed.

Lemma api_step_effect led c call : call_effect led c (api_step led c call).2 (state_part call).
Proof.
  pose proof (call_effect_refl led c) as Hr.
  destruct call as [ml id maxitr|mem rp rl kp kl np nl ap al|mem wp wl kp kl np nl ap al|mem rp rl kp kl hp hl|mem rp rl flags|ml|id nonce|mem rp rl code|mem rp rl code]; cbn [api_step state_part]; unfold HOOK_SETUP.
  - destruct (_g _ _ _ _). simpl. split; [done|done|apply covers_refl|done].
  - destruct (lenZ mem =? 0); [done|]. destruct (state_foreign_set _ _ _ _ _ _ _ _ _ _ _) as [code r] eqn:Es. simpl.
    split; [done|simpl; by rewrite Es|apply covers_refl|done].
  - destruct (lenZ mem =? 0); [done|]. destruct (state_foreign _ _ _ _ _ _ _ _ _ _ _) as [[code m] r] eqn:Es. simpl.
    split; [done|simpl; by rewrite Es|apply covers_refl|done].
  - unfold hook_param_set. cbv zeta. repeat (case_match; [done|]). simpl.
    split; [done|done|apply set_override_covers|done].
  - unfold hook_skip. cbv zeta. repeat (case_match; try done); simpl; (split; [done|done|apply covers_refl|done]).
  - unfold hook_again, HOOK_SETUP. repeat (case_match; try done); simpl; (split; [done|done|apply covers_refl|done]).
  - simpl. split; [done|done|apply covers_refl|by exists [(id, nonce)]].
  - unfold hook_exit, HOOK_SETUP. cbv zeta. repeat (case_match; try done); simpl; (split; [done|done|apply covers_refl|done]).
  - unfold hook_exit, HOOK_SETUP. cbv zeta. repeat (case_match; try done); simpl; (split; [done|done|apply covers_refl|done]).
Qed.

(** ** A run *)

Record run_effect (led : ledger) (c c' : hook_context) (n : Z) : Prop := {
  re_args : ctx_args c' = ctx_args c;
  re_state : exists cs, ctx_state c' = state_run led (ctx_state c) cs /\ lenZ cs <= n;
  re_overrides : covers (ctx_overrides c') (ctx_overrides c)
}.

Lemma api_run_effect led calls : forall c, run_effect led c (api_run led c calls) (lenZ calls).
Proof.
  induction calls as [|call calls IH]; intros c; simpl.
  - split; [done| |apply covers_refl]. exists []. done.
  - pose proof (api_step_effect led c call) as [Ha Hs Ho _]. destruct (api_step led c call) as [code c1]. simpl in *.
    pose proof (lenZ_nonneg calls) as Hn. rewrite lenZ_cons.
    assert (Hone : exists cs, ctx_state c1 = state_run led (ctx_state c) cs /\ lenZ cs <= 1).
    { rewrite Hs. destruct (state_part call) as [s|]; [by exists [s]|by exists []]. }
    destruct Hone as (cs1 & Hs1 & Hl1). destruct (api_return code) as [x|].
    + destruct (IH c1) as [Ha2 (cs2 & Hs2 & Hl2) Ho2]. split; [congruence| |by eapply covers_trans].
      exists (cs1 ++ cs2). rewrite state_run_app, <- Hs1, lenZ_app. split; [done|lia].
    + split; [done| |done]. exists cs1. split; [done|lia].
Qed.

(** ** One hook *)

Definition hook_start (a : hook_args) (m : HookStateMap) : HookResult :=
  mkResult (arg_account a) (arg_hookHash a) (arg_hookNamespace a) m 0 false.

Context (wasm : ledger -> hook_args -> HookStateMap -> list api_call * wasm_end).

(** The state map after [hook_apply] is that after state calls of the hook; the result
    is for its arguments, and its overrides add to those it was given. *)
Lemma hook_apply_effect v3 led a m :
  let '(m', result) := hook_apply wasm v3 led a m in
  (exists cs, m' = result_stateMap (state_run led (hook_start a m) cs) /\ lenZ cs <= lenZ (wasm led a m).1) /\
  forall r, result = Some r ->
    ctx_args r = a /\ covers (ctx_overrides r) (arg_hookParamOverrides a) /\ ctx_map r = m'.
Proof.
  unfold hook_apply. destruct (wasm led a m) as [calls ending].
  destruct (api_run_effect led calls (new_hook_context v3 a m)) as [Ha (cs & Hs & Hl) Ho].
  assert (Hm : ctx_map (api_run led (new_hook_context v3 a m) calls) = result_stateMap (state_run led (hook_start a m) cs)).
  { unfold ctx_map. by rewrite Hs. }
  destruct ending; (split; [exists cs; by rewrite <- Hm|intros r [= <-]; by split_and!]).
Qed.

(** ** The chain as a relation *)

Definition skipped (rs : list hook_context) (hash : Z) : Prop := exists r, r ∈ rs /\ hash ∈ ctx_skips r.

(** The overrides a hook is given: those the hook before it left. *)
Definition last_overrides (rs : list hook_context) : gmap Z params :=
  match last rs with Some r => ctx_overrides r | None => ∅ end.

(** The hook [obj] fires: it has a definition, its [HookOn] admits the type of the
    transaction, and in a weak execution it collects. *)
Definition fires (led : ledger) (txType : Z) (strong : bool) (obj : hook_obj) (hash : Z) (def : hook_def) : Prop :=
  hook_HookHash obj = Some hash /\ definitions led !! hash = Some def /\ canHook txType (hook_on obj def) = true /\
  (strong = true \/ Z.land (hook_flags obj def) hsfCOLLECT <> 0).

Definition chain_args (acc : Z) (strong meta : bool) (obj : hook_obj) (hash : Z) (def : hook_def) (ps : params)
    (n : Z) (pre : list hook_context) : hook_args :=
  hook_call hash def obj ps (last_overrides pre) acc (bool_decide (is_Some (def_HookCallbackFee def))) false strong
    (if strong then 0 else 1) n meta.

(** An exception leaves the execution of the hook, for some state. *)
Definition throws (v3 : bool) (led : ledger) (a : hook_args) : Prop := exists m, (hook_apply wasm v3 led a m).2 = None.

(** [chain_trace v3 led txType acc strong meta n pre hs t new]: the hooks [hs], the first
    at position [n], after the results [pre], give the results [new] and end with [t]. *)
Inductive chain_trace (v3 : bool) (led : ledger) (txType acc : Z) (strong meta : bool)
    : Z -> list hook_context -> list hook_obj -> ter -> list hook_context -> Prop :=
| trace_end n pre : chain_trace v3 led txType acc strong meta n pre [] tesSUCCESS []
| trace_pass n pre obj hs t new :
    (forall hash def, fires led txType strong obj hash def -> skipped pre hash) ->
    chain_trace v3 led txType acc strong meta (n + 1) pre hs t new ->
    chain_trace v3 led txType acc strong meta n pre (obj :: hs) t new
| trace_accept n pre obj hash def ps r hs t new :
    fires led txType strong obj hash def -> ~ skipped pre hash -> gatherHookParameters def obj = Some ps ->
    ctx_args r = chain_args acc strong meta obj hash def ps n pre -> ctx_exit r = ACCEPT ->
    chain_trace v3 led txType acc strong meta (n + 1) (pre ++ [r]) hs t new ->
    chain_trace v3 led txType acc strong meta n pre (obj :: hs) t (r :: new)
| trace_reject n pre obj hash def ps r hs :
    fires led txType strong obj hash def -> ~ skipped pre hash -> gatherHookParameters def obj = Some ps ->
    ctx_args r = chain_args acc strong meta obj hash def ps n pre -> ctx_exit r <> ACCEPT ->
    chain_trace v3 led txType acc strong meta n pre (obj :: hs) tecHOOK_REJECTED [r]
| trace_throw n pre obj hash def ps hs :
    fires led txType strong obj hash def -> ~ skipped pre hash -> gatherHookParameters def obj = Some ps ->
    throws v3 led (chain_args acc strong meta obj hash def ps n pre) ->
    chain_trace v3 led txType acc strong meta n pre (obj :: hs) tecHOOK_REJECTED []
| trace_internal n pre obj hash def hs :
    fires led txType strong obj hash def -> ~ skipped pre hash -> gatherHookParameters def obj = None ->
    chain_trace v3 led txType acc strong meta n pre (obj :: hs) tecINTERNAL [].

Lemma skipped_app pre r hash : skipped (pre ++ [r]) hash <-> skipped pre hash \/ hash ∈ ctx_skips r.
Proof. unfold skipped. set_solver. Qed.

Lemma last_overrides_app pre r : last_overrides (pre ++ [r]) = ctx_overrides r.
Proof. unfold last_overrides. by rewrite last_snoc. Qed.

Lemma chain_loop_trace v3 led txType acc strong meta hs : forall n skips m base pre,
  0 <= n -> n + lenZ hs <= 255 -> (forall h, h ∈ skips <-> skipped pre h) ->
  let '(t, m', results) := chain_loop wasm v3 led txType acc strong meta n skips (last_overrides pre) m (base ++ pre) hs in
  exists new, results = base ++ pre ++ new /\ chain_trace v3 led txType acc strong meta n pre hs t new.
Proof.
  induction hs as [|obj hs IH]; intros n skips m base pre Hn Hl Hsk.
  { simpl. exists []. rewrite app_nil_r. split; [done|constructor]. }
  rewrite lenZ_cons in Hl. pose proof (lenZ_nonneg hs) as Hhs. cbn [chain_loop]. cbv zeta.
  replace (u8 (n + 1)) with (n + 1) by (symmetry; apply Z.mod_small; lia).
  assert (Hpass : (forall hash def, fires led txType strong obj hash def -> skipped pre hash) ->
    let '(t, m', results) := chain_loop wasm v3 led txType acc strong meta (n + 1) skips (last_overrides pre) m (base ++ pre) hs in
    exists new, results = base ++ pre ++ new /\ chain_trace v3 led txType acc strong meta n pre (obj :: hs) t new).
  { intros Hp. specialize (IH (n + 1) skips m base pre ltac:(lia) ltac:(lia) Hsk).
    destruct (chain_loop _ _ _ _ _ _ _ _ _ _ _ _ _) as [[t m'] results]. destruct IH as (new & -> & Ht).
    exists new. split; [done|by constructor]. }
  destruct (hook_HookHash obj) as [hash|] eqn:Eh; [|apply Hpass; intros h d (? & _); congruence].
  case_bool_decide as Hin; [apply Hpass; intros h d (Hh & _); simplify_eq; by apply Hsk|].
  destruct (definitions led !! hash) as [def|] eqn:Ed; [|apply Hpass; intros h d (Hh & Hd & _); congruence].
  destruct (canHook txType (hook_on obj def)) eqn:Ec; cbn [negb]; [|apply Hpass; intros h d (Hh & Hd & Hc & _); simplify_eq; congruence].
  destruct (negb strong && (Z.land (hook_flags obj def) hsfCOLLECT =? 0)) eqn:Es.
  { apply Hpass. intros h d (Hh & Hd & _ & Hs). simplify_eq. destruct Hs as [->|Hs]; [done|lia]. }
  assert (Hf : fires led txType strong obj hash def) by (split_and!; try done; destruct strong; [by left|right; lia]).
  assert (Hns : ~ skipped pre hash) by (by rewrite <- Hsk).
  destruct (gatherHookParameters def obj) as [ps|] eqn:Eg.
  2: { exists []. rewrite app_nil_r. split; [done|by eapply trace_internal]. }
  replace (u8 (n + 1 - 1)) with n by (symmetry; replace (n + 1 - 1) with n by lia; apply Z.mod_small; lia).
  fold (chain_args acc strong meta obj hash def ps n pre).
  pose proof (hook_apply_effect v3 led (chain_args acc strong meta obj hash def ps n pre) m) as He.
  destruct (hook_apply _ _ _ _ _) as [m1 [r|]] eqn:Eap.
  2: { exists []. rewrite app_nil_r. split; [done|]. eapply trace_throw; try done. exists m. by rewrite Eap. }
  destruct He as (_ & Hr). destruct (Hr r eq_refl) as (Ha & Hcov & _).
  destruct (decide (ctx_exit r = ACCEPT)) as [Hacc|Hrej].
  2: { exists [r]. rewrite <- app_assoc. split; [done|by eapply trace_reject]. }
  rewrite gather_overrides_covers by exact Hcov. rewrite <- (last_overrides_app pre r), <- app_assoc.
  specialize (IH (n + 1) (skips ∪ ctx_skips r) m1 base (pre ++ [r]) ltac:(lia) ltac:(lia)).
  destruct (chain_loop _ _ _ _ _ _ _ _ _ _ _ _ _) as [[t m'] results].
  destruct IH as (new & -> & Ht); [intros h; rewrite skipped_app, elem_of_union, Hsk; done|].
  exists (r :: new). rewrite <- app_assoc. split; [done|by eapply trace_accept].
Qed.

(** ** Consequences *)

(** The result [r], with [before] the results before it, is that of the hook at its
    position, which fires and is not skipped by a hook before it. *)
Definition result_of (led : ledger) (txType acc : Z) (strong meta : bool) (n : Z) (hs : list hook_obj)
    (before : list hook_context) (r : hook_context) : Prop :=
  exists i obj hash def ps, hs !! i = Some obj /\ fires led txType strong obj hash def /\ ~ skipped before hash /\
    gatherHookParameters def obj = Some ps /\
    ctx_args r = chain_args acc strong meta obj hash def ps (n + Z.of_nat i) before.

Lemma result_of_cons led txType acc strong meta n obj hs before r :
  result_of led txType acc strong meta (n + 1) hs before r -> result_of led txType acc strong meta n (obj :: hs) before r.
Proof.
  intros (i & obj' & hash & def & ps & Hi & Hf & Hs & Hg & Ha). exists (S i), obj', hash, def, ps.
  split_and!; try done. rewrite Ha. f_equal. lia.
Qed.

Lemma result_of_pos led txType acc strong meta n hs before r :
  result_of led txType acc strong meta n hs before r -> n <= hook_pos r < n + lenZ hs.
Proof.
  intros (i & obj & hash & def & ps & Hi & _ & _ & _ & Ha). unfold hook_pos. rewrite Ha. simpl.
  apply lookup_lt_Some in Hi. unfold lenZ. lia.
Qed.

Lemma trace_results v3 led txType acc strong meta n pre hs t new :
  chain_trace v3 led txType acc strong meta n pre hs t new ->
  forall j r, new !! j = Some r -> result_of led txType acc strong meta n hs (pre ++ take j new) r.
Proof.
  induction 1 as [|n pre obj hs t new _ _ IH|n pre obj hash def ps r0 hs t new Hf Hs Hg Ha Hx _ IH|n pre obj hash def ps r0 hs Hf Hs Hg Ha Hx| |];
    intros j r Hj; try done.
  - apply result_of_cons. by apply IH.
  - destruct j as [|j]; simpl in *.
    + simplify_eq. rewrite app_nil_r. exists 0%nat, obj, hash, def, ps. split_and!; try done. rewrite Ha. f_equal. lia.
    + apply result_of_cons. specialize (IH j r Hj). by rewrite <- app_assoc in IH.
  - destruct j as [|j]; simpl in *; simplify_eq. rewrite app_nil_r. exists 0%nat, obj, hash, def, ps.
    split_and!; try done. rewrite Ha. f_equal. lia.
Qed.

Lemma trace_positions v3 led txType acc strong meta n pre hs t new :
  chain_trace v3 led txType acc strong meta n pre hs t new ->
  Forall (fun r => n <= hook_pos r) new /\ StronglySorted Z.lt (map hook_pos new).
Proof.
  induction 1 as [|n pre obj hs t new _ _ [IHf IHs]|n pre obj hash def ps r0 hs t new Hf Hs Hg Ha Hx _ [IHf IHs]|n pre obj hash def ps r0 hs Hf Hs Hg Ha Hx| |];
    try (by split; constructor).
  - split; [|done]. eapply Forall_impl; [done|]. simpl. lia.
  - assert (Hp : hook_pos r0 = n) by (unfold hook_pos; by rewrite Ha). split.
    + constructor; [lia|]. eapply Forall_impl; [done|]. simpl. lia.
    + simpl. constructor; [done|]. apply Forall_map. eapply Forall_impl; [done|]. simpl. lia.
  - assert (Hp : hook_pos r0 = n) by (unfold hook_pos; by rewrite Ha). split; [constructor; [lia|constructor]|].
    repeat constructor.
Qed.

Lemma trace_length v3 led txType acc strong meta n pre hs t new :
  chain_trace v3 led txType acc strong meta n pre hs t new -> lenZ new <= lenZ hs.
Proof. induction 1; unfold lenZ in *; simpl in *; lia. Qed.

(** All the results but the last, and it too when the chain succeeds, accepted. *)
Definition chain_exits (t : ter) (new : list hook_context) : Prop :=
  match t with
  | tesSUCCESS => Forall (fun r => ctx_exit r = ACCEPT) new
  | tecHOOK_REJECTED =>
    exists ok stop, new = ok ++ stop /\ Forall (fun r => ctx_exit r = ACCEPT) ok /\
      (stop = [] \/ exists r, stop = [r] /\ ctx_exit r <> ACCEPT)
  | tecINTERNAL => Forall (fun r => ctx_exit r = ACCEPT) new
  | _ => False
  end.

Lemma trace_exits v3 led txType acc strong meta n pre hs t new :
  chain_trace v3 led txType acc strong meta n pre hs t new -> chain_exits t new.
Proof.
  induction 1 as [|n pre obj hs t new _ _ IH|n pre obj hash def ps r0 hs t new Hf Hs Hg Ha Hx _ IH|n pre obj hash def ps r0 hs Hf Hs Hg Ha Hx|n pre obj hash def ps hs|];
    try done.
  - constructor.
  - destruct t; try done; simpl in *; try (by constructor). destruct IH as (ok & stop & -> & Hok & Hstop).
    exists (r0 :: ok), stop. split_and!; [done|by constructor|done].
  - exists [], [r0]. split_and!; [done|constructor|]. right. by exists r0.
  - exists [], []. split_and!; [done|constructor|by left].
  - constructor.
Qed.

(** The hook at which the chain stopped without a result: it fires, no hook before it
    skips it, and the results are those of hooks before it. *)
Definition stopped_at (led : ledger) (txType : Z) (strong : bool) (n : Z) (pre : list hook_context) (hs : list hook_obj)
    (new : list hook_context) (i : nat) (obj : hook_obj) (hash : Z) (def : hook_def) : Prop :=
  hs !! i = Some obj /\ fires led txType strong obj hash def /\ ~ skipped (pre ++ new) hash /\
  Forall (fun r => hook_pos r < n + Z.of_nat i) new.

(** How a chain ends: all hooks accepted; or the last one did not accept; or the next
    one threw an exception or its parameters could not be read. *)
Definition chain_stops (v3 : bool) (led : ledger) (txType acc : Z) (strong meta : bool) (n : Z) (pre : list hook_context)
    (hs : list hook_obj) (t : ter) (new : list hook_context) : Prop :=
  match t with
  | tesSUCCESS => Forall (fun r => ctx_exit r = ACCEPT) new
  | tecHOOK_REJECTED =>
    (exists ok r, new = ok ++ [r] /\ Forall (fun r => ctx_exit r = ACCEPT) ok /\ ctx_exit r <> ACCEPT) \/
    (Forall (fun r => ctx_exit r = ACCEPT) new /\
     exists i obj hash def ps, stopped_at led txType strong n pre hs new i obj hash def /\
       gatherHookParameters def obj = Some ps /\
       throws v3 led (chain_args acc strong meta obj hash def ps (n + Z.of_nat i) (pre ++ new)))
  | tecINTERNAL =>
    Forall (fun r => ctx_exit r = ACCEPT) new /\
    exists i obj hash def, stopped_at led txType strong n pre hs new i obj hash def /\ gatherHookParameters def obj = None
  | _ => False
  end.

Lemma stopped_at_pass led txType strong n pre o hs new i obj hash def :
  stopped_at led txType strong (n + 1) pre hs new i obj hash def ->
  stopped_at led txType strong n pre (o :: hs) new (S i) obj hash def.
Proof. intros (Hi & Hf & Hs & Hp). split_and!; try done. eapply Forall_impl; [done|]. simpl. lia. Qed.

Lemma stopped_at_accept led txType strong n pre o hs r new i obj hash def :
  hook_pos r = n -> stopped_at led txType strong (n + 1) (pre ++ [r]) hs new i obj hash def ->
  stopped_at led txType strong n pre (o :: hs) (r :: new) (S i) obj hash def.
Proof.
  intros Hr (Hi & Hf & Hs & Hp). rewrite <- app_assoc in Hs. split_and!; try done. constructor; [lia|].
  eapply Forall_impl; [done|]. simpl. lia.
Qed.

Lemma stopped_at_here led txType strong n pre obj hs hash def :
  fires led txType strong obj hash def -> ~ skipped pre hash -> stopped_at led txType strong n pre (obj :: hs) [] 0 obj hash def.
Proof. intros Hf Hs. split_and!; [done|done|by rewrite app_nil_r|constructor]. Qed.

Lemma trace_stops v3 led txType acc strong meta n pre hs t new :
  chain_trace v3 led txType acc strong meta n pre hs t new -> chain_stops v3 led txType acc strong meta n pre hs t new.
Proof.
  induction 1 as [|n pre o hs t new _ _ IH|n pre o hash def ps r0 hs t new Hf Hs Hg Ha Hx _ IH|n pre o hash def ps r0 hs Hf Hs Hg Ha Hx
    |n pre o hash def ps hs Hf Hs Hg Ht|n pre o hash def hs Hf Hs Hg].
  - constructor.
  - destruct t; try done; simpl in *.
    + destruct IH as [IH|(Hall & i & obj & h & d & ps & Hst & Hg & Hth)]; [by left|right]. split; [done|].
      exists (S i), obj, h, d, ps. split; [by apply stopped_at_pass|]. split; [done|]. by replace (n + Z.of_nat (S i)) with (n + 1 + Z.of_nat i) by lia.
    + destruct IH as (Hall & i & obj & h & d & Hst & Hg). split; [done|]. exists (S i), obj, h, d. split; [by apply stopped_at_pass|done].
  - assert (Hp : hook_pos r0 = n) by (unfold hook_pos; by rewrite Ha). destruct t; try done; simpl in *.
    + by constructor.
    + destruct IH as [(ok & r & -> & Hok & Hr)|(Hall & i & obj & h & d & ps' & Hst & Hg' & Hth)]; [left|right].
      * exists (r0 :: ok), r. split_and!; [done|by constructor|done].
      * split; [by constructor|]. exists (S i), obj, h, d, ps'. split; [by apply stopped_at_accept|]. split; [done|].
        rewrite <- app_assoc in Hth. by replace (n + Z.of_nat (S i)) with (n + 1 + Z.of_nat i) by lia.
    + destruct IH as (Hall & i & obj & h & d & Hst & Hg'). split; [by constructor|]. exists (S i), obj, h, d. split; [by apply stopped_at_accept|done].
  - left. by exists [], r0.
  - right. split; [constructor|]. exists 0%nat, o, hash, def, ps. split; [by apply stopped_at_here|]. split; [done|].
    by rewrite app_nil_r, Z.add_0_r.
  - split; [constructor|]. exists 0%nat, o, hash, def. split; [by apply stopped_at_here|done].
Qed.

(** A chain that succeeds executed every hook that fires, unless a hook before it
    skips it. *)
Lemma trace_complete v3 led txType acc strong meta n pre hs t new :
  chain_trace v3 led txType acc strong meta n pre hs t new -> t = tesSUCCESS ->
  forall i obj hash def, hs !! i = Some obj -> fires led txType strong obj hash def ->
  (exists r, r ∈ new /\ hook_pos r = n + Z.of_nat i) \/ skipped pre hash \/
  (exists r, r ∈ new /\ hook_pos r < n + Z.of_nat i /\ hash ∈ ctx_skips r).
Proof.
  induction 1 as [|n pre obj hs t new Hp _ IH|n pre obj hash def ps r0 hs t new Hf Hs Hg Ha Hx _ IH| | |]; intros Ht i obj' hash' def' Hi Hf';
    try done.
  - destruct i as [|i]; simpl in Hi; simplify_eq; [right; left; by eapply Hp|].
    destruct (IH eq_refl i obj' hash' def' Hi Hf') as [(r & Hr & Hpos)|[Hsk|(r & Hr & Hpos & Hsk)]].
    + left. exists r. split; [done|lia].
    + auto.
    + right. right. exists r. split_and!; [done|lia|done].
  - assert (Hp0 : hook_pos r0 = n) by (unfold hook_pos; by rewrite Ha). destruct i as [|i]; simpl in Hi; simplify_eq.
    { left. exists r0. split; [by left|lia]. }
    destruct (IH eq_refl i obj' hash' def' Hi Hf') as [(r & Hr & Hpos)|[[Hsk|Hsk]%skipped_app|(r & Hr & Hpos & Hsk)]].
    + left. exists r. split; [by right|lia].
    + auto.
    + right. right. exists r0. split_and!; [by left|lia|done].
    + right. right. exists r. split_and!; [by right|lia|done].
Qed.

Lemma executeHookChain_trace v3 led txType hs m base acc strong meta :
  lenZ hs <= 255 ->
  let '(t, m', results) := executeHookChain wasm v3 led txType hs m base acc strong meta in
  exists new, results = base ++ new /\ chain_trace v3 led txType acc strong meta 0 [] hs t new.
Proof.
  intros Hl. unfold executeHookChain.
  pose proof (chain_loop_trace v3 led txType acc strong meta hs 0 ∅ m base [] ltac:(lia) ltac:(lia)) as Ht.
  rewrite app_nil_r in Ht. apply Ht. intros h. unfold skipped. set_solver.
Qed.

End Facts.
