(* ===== verification/HookPhases.v ===== *)
(** * The phases of a transaction: lemmas

    The hooks that run before the transaction share one state map: over all their
    chains it is the map after one sequence of state calls. The ledger they run on
    changes only in touch counts, which state does not depend on. *)

From S2P Require Import Prelude HookEnum HookMemory GuardRuntime LedgerDir LedgerDirFacts HookState.
From S2P Require Import HookStateFacts StateCache StateCacheFacts StateApiFacts StateCommit Emission.
From S2P Require Import HookContext HookChain HookChainFacts.

(** ** Ledgers that differ in touch counts *)

Definition untouched (r : account_root) : account_root :=
  mkAccount (Balance r) (OwnerCount r) (HookStateCount r) (HookNamespaces r) (AccountFlags r) None.

Record touch_equiv (led led' : ledger) : Prop := {
  te_accounts a : untouched <$> accounts led !! a = untouched <$> accounts led' !! a;
  te_states : states led = states led';
  te_dirs : dirs led = dirs led';
  te_env : same_env led' led
}.

#[global] Instance touch_equiv_equivalence : Equivalence touch_equiv.
Proof.
  split.
  - intros led. by repeat split.
  - intros x y [Ha Hs Hd (H1 & H2 & H3 & H4 & H5)]. by repeat split.
  - intros x y z [Ha Hs Hd (H1 & H2 & H3 & H4 & H5)] [Ha' Hs' Hd' (H1' & H2' & H3' & H4' & H5')].
    split; [intros a; by rewrite Ha, Ha'|congruence..|]. repeat split; congruence.
Qed.

Lemma touchAccount_equiv v acc : touch_equiv (v_ledger (touchAccount v acc)) (v_ledger v).
Proof.
  unfold touchAccount. destruct (negb _); [done|]. destruct (accounts (v_ledger v) !! acc) as [r|] eqn:Ea; [|done].
  split; try done. intros a. simpl. destruct (decide (a = acc)) as [->|Hne].
  - by rewrite lookup_insert_eq, Ea.
  - by rewrite lookup_insert_ne.
Qed.

Lemma touchAccount_rest v acc :
  touchAccount v acc = set_ledger (v_ledger (touchAccount v acc)) v.
Proof. unfold touchAccount. destruct v. destruct (negb _); [done|]. by destruct (accounts _ !! acc). Qed.

Section Equiv.
Context `{Keylets}.

#[global] Instance set_state_cache_proper : Proper (touch_equiv ==> eq ==> eq ==> eq ==> eq ==> eq ==> eq ==> eq) set_state_cache.
Proof.
  intros led led' [Ha Hs Hd (Hf & Hv1 & _ & _ & _)] r ? <- acc ? <- ns ? <- key ? <- data ? <- modified ? <-.
  unfold set_state_cache, dir_exists, dir_at. rewrite Hd, Hv1, Hf. specialize (Ha acc).
  destruct (accounts led !! acc) as [x|], (accounts led' !! acc) as [y|]; simplify_eq/=; [|done].
  unfold available_reserves, namespaces. by repeat match goal with Heq : _ x = _ y |- _ => rewrite Heq; clear Heq end.
Qed.

#[global] Instance state_foreign_set_proper :
  Proper (touch_equiv ==> eq ==> eq ==> eq ==> eq ==> eq ==> eq ==> eq ==> eq ==> eq ==> eq ==> eq) state_foreign_set.
Proof.
  intros led led' Heq mem ? <- r ? <- rp ? <- rl ? <- kp ? <- kl ? <- np ? <- nl ? <- ap ? <- al ? <-.
  assert (Hset : forall acc ns key data, set_and_return led r acc ns key data = set_and_return led' r acc ns key data)
    by (intros; unfold set_and_return; by rewrite Heq).
  assert (Hent : forall fo acc ns key data, set_entry led r fo acc ns key data = set_entry led' r fo acc ns key data).
  { intros. unfold set_entry. destruct Heq as [_ _ _ (_ & _ & _ & Hh & Hdef)]. rewrite Hh, !Hset.
    unfold found_auth, hook_grants. by rewrite Hdef. }
  unfold state_foreign_set. destruct Heq as [Ha _ _ (_ & Hv1 & _)]. rewrite Hv1. cbv zeta.
  specialize (Ha (account r)).
  replace (bool_decide (accounts led !! account r = None)) with (bool_decide (accounts led' !! account r = None)).
  2: { apply bool_decide_ext. destruct (accounts led !! account r), (accounts led' !! account r); naive_solver. }
  destruct (make_state_key (mem_slice mem kp kl)); by rewrite ?Hent.
Qed.

#[global] Instance state_foreign_proper :
  Proper (touch_equiv ==> eq ==> eq ==> eq ==> eq ==> eq ==> eq ==> eq ==> eq ==> eq ==> eq ==> eq) state_foreign.
Proof.
  intros led led' Heq mem ? <- r ? <- wp ? <- wl ? <- kp ? <- kl ? <- np ? <- nl ? <- ap ? <- al ? <-.
  assert (Hget : forall acc ns key, get_entry led mem r wp wl acc ns key = get_entry led' mem r wp wl acc ns key).
  { intros. unfold get_entry. destruct (lookup_state_cache r acc ns key) as [[??]|]; [done|].
    rewrite (te_states _ _ Heq). destruct (states led' !! _); [|done]. by rewrite Heq. }
  unfold state_foreign. cbv zeta. destruct (make_state_key (mem_slice mem kp kl)); by rewrite ?Hget.
Qed.

#[global] Instance state_run_proper : Proper (touch_equiv ==> eq ==> eq ==> eq) state_run.
Proof.
  intros led led' Heq r ? <- cs ? <-. revert r. induction cs as [|c cs IH]; intros r; [done|]. simpl.
  replace (state_step led r c) with (state_step led' r c); [apply IH|].
  destruct c; simpl; [done| |]; by rewrite Heq.
Qed.

Lemma touch_equiv_state led led' a n k : touch_equiv led led' -> state_of led a n k = state_of led' a n k.
Proof. intros Heq. unfold state_of. by rewrite (te_states _ _ Heq). Qed.

Lemma touch_equiv_account led led' a r' :
  touch_equiv led led' -> accounts led' !! a = Some r' -> exists r, accounts led !! a = Some r /\ untouched r = untouched r'.
Proof.
  intros Heq Hr. pose proof (te_accounts _ _ Heq a) as Ha. rewrite Hr in Ha.
  destruct (accounts led !! a) as [r|]; simplify_eq/=. exists r. split; [done|]. unfold untouched. congruence.
Qed.

Lemma touch_equiv_wf led led' : touch_equiv led led' -> ledger_wf led -> ledger_wf led'.
Proof.
  intros Heq [Wa Wd Wo Wn]. pose proof (fun a n k => touch_equiv_state led led' a n k Heq) as Hs. split.
  - intros a r' Hr'. destruct (touch_equiv_account led led' a r' Heq Hr') as (r & Hr & Hu).
    destruct (Wa a r Hr) as (S & [S1 S2 S3 S4 S5]). injection Hu as Hb Ho Hc Hn Hfl.
    exists S. split; unfold namespaces in *; rewrite <- ?Hc, <- ?Ho, <- ?Hn; try done. intros n k. by rewrite <- Hs.
  - intros a n. destruct (Wd a n) as (m & [D1 D2]). exists m. split.
    + unfold dir_at in *. by rewrite <- (te_dirs _ _ Heq).
    + by rewrite <- (te_states _ _ Heq).
  - intros a n k. rewrite <- Hs. intros [r Hr]%Wo. pose proof (te_accounts _ _ Heq a) as Ha. rewrite Hr in Ha.
    destruct (accounts led' !! a); [by eexists|done].
  - intros a n k. rewrite <- Hs. apply Wn.
Qed.

Lemma touch_equiv_room led led' B : touch_equiv led led' -> room led B -> room led' B.
Proof.
  intros Heq (Ho & Hp & HB & Hl). split_and!; [| |done|].
  - intros a r' Hr'. destruct (touch_equiv_account led led' a r' Heq Hr') as (r & Hr & Hu).
    injection Hu as _ Hoc _ _ _. rewrite <- Hoc. by apply (Ho a).
  - intros k. unfold dir_at. rewrite <- (te_dirs _ _ Heq). apply Hp.
  - destruct (te_env _ _ Heq) as (_ & _ & Hc & _). by rewrite <- Hc.
Qed.

(** ** The state map over the chains *)

Context (wasm : ledger -> hook_args -> HookStateMap -> list api_call * wasm_end).

(** No hook makes more than [N] calls, its start included. *)
Definition calls_bounded (N : Z) : Prop := forall led a m, 1 + lenZ (wasm led a m).1 <= N.

(** [m'] is the state map after at most [n] state calls from [m]. *)
Definition reaches (led : ledger) (m m' : HookStateMap) (n : Z) : Prop :=
  forall r, result_stateMap r = m ->
  exists cs, result_stateMap (state_run led r cs) = m' /\ lenZ cs <= n.

Lemma reaches_refl led m n : 0 <= n -> reaches led m m n.
Proof. intros Hn r Hr. exists []. split; [done|]. done. Qed.

Lemma reaches_trans led m1 m2 m3 n1 n2 n :
  reaches led m1 m2 n1 -> reaches led m2 m3 n2 -> n1 + n2 <= n -> reaches led m1 m3 n.
Proof.
  intros H12 H23 Hn r Hr. destruct (H12 r Hr) as (cs1 & Hm1 & Hl1). destruct (H23 _ Hm1) as (cs2 & Hm2 & Hl2).
  exists (cs1 ++ cs2). rewrite state_run_app, lenZ_app. split; [done|lia].
Qed.

Lemma reaches_equiv led led' m m' n : touch_equiv led led' -> reaches led m m' n -> reaches led' m m' n.
Proof. intros Heq Hr r Hm. destruct (Hr r Hm) as (cs & Hc & Hl). exists cs. by rewrite <- Heq. Qed.

Lemma hook_apply_reaches N v3 led a m :
  calls_bounded N -> let '(m', _) := hook_apply wasm v3 led a m in reaches led m m' N.
Proof.
  intros HN. specialize (HN led a m). pose proof (hook_apply_effect wasm v3 led a m) as He.
  destruct (hook_apply wasm v3 led a m) as [m' res]. destruct He as ((cs & -> & Hl) & _).
  intros r Hr. exists (Hook (arg_account a) (arg_hookHash a) (arg_hookNamespace a) :: cs). simpl. rewrite Hr, lenZ_cons.
  split; [done|lia].
Qed.

Lemma chain_loop_reaches N v3 led txType acc strong meta hs : calls_bounded N -> forall n skips o m results,
  let '(_, m', _) := chain_loop wasm v3 led txType acc strong meta n skips o m results hs in
  reaches led m m' (N * lenZ hs).
Proof.
  intros HN. assert (HN1 : 1 <= N) by (specialize (HN led (mkArgs 0 0 0 0 [] ∅ ∅ 0 false false false 0 0 false) empty_state_map);
    match type of HN with 1 + lenZ ?l <= _ => pose proof (lenZ_nonneg l) end; lia).
  induction hs as [|obj hs IH]; intros n skips o m results; [apply reaches_refl; pose proof (@lenZ_nonneg hook_obj []); nia|].
  rewrite lenZ_cons. pose proof (lenZ_nonneg hs) as Hl. cbn [chain_loop]. cbv zeta.
  assert (Hpass : forall n skips o m m1 results, reaches led m m1 N ->
    let '(_, m', _) := chain_loop wasm v3 led txType acc strong meta n skips o m1 results hs in
    reaches led m m' (N * (1 + lenZ hs))).
  { intros n' skips' o' m0 m1 results' H1. specialize (IH n' skips' o' m1 results').
    destruct (chain_loop _ _ _ _ _ _ _ _ _ _ _ _ _) as [[t m'] rs]. eapply reaches_trans; [done..|lia]. }
  assert (Hr0 : reaches led m m N) by (apply reaches_refl; lia).
  assert (Hbig : forall m', reaches led m m' N -> reaches led m m' (N * (1 + lenZ hs))).
  { intros m' Hm. eapply (reaches_trans _ _ m'); [done|by apply (reaches_refl _ _ 0)|nia]. }
  destruct (hook_HookHash obj); [|by apply Hpass]. destruct (bool_decide _); [by apply Hpass|].
  destruct (definitions led !! _); [|by apply Hpass]. destruct (negb (canHook _ _)); [by apply Hpass|].
  destruct (negb strong && _); [by apply Hpass|]. destruct (gatherHookParameters _ _); [|by apply Hbig].
  match goal with |- context [hook_apply ?w ?v ?l ?a ?m] => pose proof (hook_apply_reaches N v l a m HN) as Ha; destruct (hook_apply w v l a m) as [m1 [r|]] end;
    [|by apply Hbig].
  destruct (decide (ctx_exit r = ACCEPT)); [by apply Hpass|by apply Hbig].
Qed.

(** ** The results of the chains *)

(** What identifies an execution: the account and the position. *)
Definition execution_id (r : hook_context) : Z * Z := (arg_account (ctx_args r), hook_pos r).

Definition accepted (r : hook_context) : Prop := ctx_exit r = ACCEPT.

(** The results [new] of chains that end with [t], of accounts that are not in [S]. *)
Record chain_results (S : gset Z) (t : ter) (new : list hook_context) : Prop := {
  cr_once : NoDup (map execution_id new);
  cr_accounts : Forall (fun r => arg_account (ctx_args r) ∉ S) new;
  cr_exits : t = tesSUCCESS -> Forall accepted new;
  cr_fail : t = tesSUCCESS \/ t = tecHOOK_REJECTED \/ t = tecINTERNAL
}.

Lemma chain_success S t new : chain_results S t new -> isTesSuccess t = true -> t = tesSUCCESS.
Proof. intros [_ _ _ Hf]. by destruct Hf as [->|[->| ->]]. Qed.

Lemma chain_results_nil S : chain_results S tesSUCCESS [].
Proof. split; [constructor|constructor|constructor|by left]. Qed.

Lemma chain_results_app S S' t new new' :
  chain_results S tesSUCCESS new -> chain_results S' t new' -> S ⊆ S' ->
  Forall (fun r => arg_account (ctx_args r) ∈ S') new -> chain_results S t (new ++ new').
Proof.
  intros [A1 A2 A3 A4] [B1 B2 B3 B4] HS Hin. split.
  - rewrite map_app. apply NoDup_app. split_and!; [done| |done]. intros id (r & -> & Hr)%list_elem_of_fmap (r' & Heq & Hr')%list_elem_of_fmap.
    rewrite Forall_forall in Hin, B2. specialize (Hin r Hr). specialize (B2 r' Hr'). injection Heq as Ha _. congruence.
  - apply Forall_app. split; [done|]. eapply Forall_impl; [done|]. simpl. set_solver.
  - intros Ht. apply Forall_app. split; [by apply A3|by apply B3].
  - done.
Qed.

Lemma StronglySorted_lt_NoDup (l : list Z) : StronglySorted Z.lt l -> NoDup l.
Proof.
  induction 1 as [|x l Hs IH Hx]; constructor; [|done]. intros Hin. rewrite Forall_forall in Hx. specialize (Hx x Hin). lia.
Qed.

Lemma executeHookChain_results v3 led txType hs m base acc strong meta S :
  lenZ hs <= 255 -> acc ∉ S ->
  let '(t, m', results) := executeHookChain wasm v3 led txType hs m base acc strong meta in
  exists new, results = base ++ new /\ chain_results S t new /\ lenZ new <= 255 /\
    Forall (fun r => arg_account (ctx_args r) = acc) new.
Proof.
  intros Hl Hacc. pose proof (executeHookChain_trace wasm v3 led txType hs m base acc strong meta Hl) as Ht.
  destruct (executeHookChain _ _ _ _ _ _ _ _ _ _) as [[t m'] results]. destruct Ht as (new & -> & Ht).
  exists new. split; [done|].
  assert (Ha : Forall (fun r => arg_account (ctx_args r) = acc) new).
  { apply Forall_lookup. intros j r Hj. destruct (trace_results _ _ _ _ _ _ _ _ _ _ _ _ Ht j r Hj) as (i & obj & hash & def & ps & _ & _ & _ & _ & ->). done. }
  pose proof (trace_length _ _ _ _ _ _ _ _ _ _ _ _ Ht) as Hlen. split_and!; [|lia|done]. split.
  - destruct (trace_positions _ _ _ _ _ _ _ _ _ _ _ _ Ht) as [_ Hs%StronglySorted_lt_NoDup].
    apply (NoDup_fmap_1 snd). by rewrite <- list_fmap_compose.
  - eapply Forall_impl; [done|]. simpl. by intros r ->.
  - pose proof (trace_exits _ _ _ _ _ _ _ _ _ _ _ _ Ht) as Hx. by intros ->.
  - pose proof (trace_exits _ _ _ _ _ _ _ _ _ _ _ _ Ht) as Hx. destruct t; try done; auto.
Qed.

(** ** Strong stakeholders *)

Definition chains_short (led : ledger) : Prop := forall a hs, hooks led !! a = Some hs -> lenZ hs <= 255.

(** The strong loop: what it leaves of the view, the state map and the results. *)
Definition strong_effect (v : apply_view) (S : gset Z) (m : HookStateMap) (results : list hook_context) (n : Z)
    (t : ter) (v' : apply_view) (m' : HookStateMap) (results' : list hook_context) : Prop :=
  touch_equiv (v_ledger v') (v_ledger v) /\ v' = set_ledger (v_ledger v') v /\ reaches (v_ledger v) m m' n /\
  exists new, results' = results ++ new /\ chain_results S t new /\ lenZ new <= n.

Lemma strong_effect_chain N (v v1 v' : apply_view) S acc m m1 m' results new1 results' n t :
  strong_effect v1 ({[acc]} ∪ S) m1 (results ++ new1) n t v' m' results' ->
  touch_equiv (v_ledger v1) (v_ledger v) -> v1 = set_ledger (v_ledger v1) v -> reaches (v_ledger v1) m m1 N ->
  chain_results S tesSUCCESS new1 -> lenZ new1 <= N -> Forall (fun r => arg_account (ctx_args r) = acc) new1 ->
  strong_effect v S m results (N + n) t v' m' results'.
Proof.
  intros (He & Hv & Hr & new & -> & Hc & Hn) He1 Hv1 Hr1 Hc1 Hn1 Ha. split_and!.
  - by rewrite He.
  - rewrite Hv at 1. by rewrite Hv1.
  - eapply (reaches_trans _ _ m1); [by eapply reaches_equiv|by eapply reaches_equiv|lia].
  - exists (new1 ++ new). rewrite app_assoc, lenZ_app. split_and!; [done| |lia]. eapply chain_results_app; [done|done|set_solver|].
    eapply Forall_impl; [done|]. simpl. set_solver.
Qed.

Lemma strong_effect_weaken v S S' m results n n' t v' m' results' :
  strong_effect v S' m results n t v' m' results' -> S ⊆ S' -> n <= n' -> strong_effect v S m results n' t v' m' results'.
Proof.
  intros (He & Hv & Hr & new & -> & [C1 C2 C3 C4] & Hl) HS Hn. split_and!; [done|done| |].
  - eapply (reaches_trans _ _ m'); [done|by apply (reaches_refl _ _ 0)|lia].
  - exists new. split_and!; [done| |lia]. split; try done. eapply Forall_impl; [done|]. simpl. set_solver.
Qed.

(** The loop after a chain is skipped, from the view [v1]. *)
Lemma strong_effect_skip v v1 S S' m results n n' t v' m' results' :
  strong_effect v1 S' m results n t v' m' results' -> S ⊆ S' -> n <= n' ->
  touch_equiv (v_ledger v1) (v_ledger v) -> v1 = set_ledger (v_ledger v1) v ->
  strong_effect v S m results n' t v' m' results'.
Proof.
  intros Hs HS Hn He Hv. destruct (strong_effect_weaken _ S _ _ _ _ n' _ _ _ _ Hs HS Hn) as (He' & Hv' & Hr & Hnew).
  split_and!; [by rewrite He'| |by eapply reaches_equiv|done]. rewrite Hv' at 1. by rewrite Hv.
Qed.

Lemma tsh_loop_strong N tx meta tsh : calls_bounded N -> 1 <= N -> forall v S m results,
  chains_short (v_ledger v) ->
  let '(t, v', m', results') := tsh_loop wasm tx true meta v S m results tsh in
  strong_effect v ({[tx_account tx]} ∪ S) m results (N * 255 * lenZ tsh) t v' m' results'.
Proof.
  intros HN HN1. induction tsh as [|[acc canRollback] tsh IH]; intros v S m results Hshort.
  { simpl. split_and!; [done|by destruct v|apply reaches_refl; pose proof (@lenZ_nonneg (Z * bool) []); lia|].
    exists []. rewrite app_nil_r. split_and!; [done|apply chain_results_nil|pose proof (@lenZ_nonneg (Z * bool) []); pose proof (@lenZ_nil hook_context); lia]. }
  rewrite lenZ_cons. pose proof (lenZ_nonneg tsh) as Hl. cbn [tsh_loop]. cbv zeta.
  assert (Hskip : forall v1 S', chains_short (v_ledger v1) -> touch_equiv (v_ledger v1) (v_ledger v) ->
    v1 = set_ledger (v_ledger v1) v -> S ⊆ S' ->
    let '(t, v', m', results') := tsh_loop wasm tx true meta v1 S' m results tsh in
    strong_effect v ({[tx_account tx]} ∪ S) m results (N * 255 * (1 + lenZ tsh)) t v' m' results').
  { intros v1 S' Hs1 He1 Hv1 HS. specialize (IH v1 S' m results Hs1).
    destruct (tsh_loop _ _ _ _ _ _ _ _ _) as [[[t v'] m'] results']. eapply strong_effect_skip; [done|set_solver|lia|done|done]. }
  destruct (Z.eqb_spec acc (tx_account tx)) as [|Hacc]; [apply Hskip; [done|done|by destruct v|done]|].
  case_bool_decide as Hin; [apply Hskip; [done|done|by destruct v|done]|].
  destruct canRollback; cbn [negb andb orb]; [|apply Hskip; [done|done|by destruct v|set_solver]].
  pose proof (touchAccount_equiv v acc) as He1. pose proof (touchAccount_rest v acc) as Hv1. set (v1 := touchAccount v acc) in *.
  assert (Hs1 : chains_short (v_ledger v1)).
  { destruct (te_env _ _ He1) as (_ & _ & _ & Hh & _). unfold chains_short. by rewrite Hh. }
  assert (Hpass : let '(t, v', m', results') := tsh_loop wasm tx true meta v1 ({[acc]} ∪ S) m results tsh in
    strong_effect v ({[tx_account tx]} ∪ S) m results (N * 255 * (1 + lenZ tsh)) t v' m' results')
    by (apply Hskip; [done|done|done|set_solver]).
  destruct (hooks (v_ledger v1) !! acc) as [hs|] eqn:Eh; [|done].
  destruct (accounts (v_ledger v1) !! acc) as [tshAcc|]; [|done].
  unfold tsh_fee. destruct (_ =? 0); [done|].
  pose proof (executeHookChain_results (fixXahauV3 (v_rules v1)) (v_ledger v1) (tx_type tx) hs m results acc true meta ({[tx_account tx]} ∪ S)
    (Hs1 acc hs Eh) ltac:(set_solver)) as Hc.
  pose proof (chain_loop_reaches N (fixXahauV3 (v_rules v1)) (v_ledger v1) (tx_type tx) acc true meta hs HN 0 ∅ ∅ m results) as Hr.
  fold (executeHookChain wasm (fixXahauV3 (v_rules v1)) (v_ledger v1) (tx_type tx) hs m results acc true meta) in Hr.
  destruct (executeHookChain _ _ _ _ _ _ _ _ _ _) as [[t1 m1] results1]. destruct Hc as (new1 & -> & Hc & Hln & Ha).
  assert (Hr1 : reaches (v_ledger v1) m m1 (N * 255)).
  { pose proof (Hs1 acc hs Eh). eapply (reaches_trans _ _ m1); [done|by apply (reaches_refl _ _ 0)|nia]. }
  destruct (isTesSuccess t1) eqn:Et; cbn [negb andb].
  - apply (chain_success _ _ _ Hc) in Et as ->. specialize (IH v1 ({[acc]} ∪ S) m1 (results ++ new1) Hs1).
    destruct (tsh_loop _ _ _ _ _ _ _ _ _) as [[[t v'] m'] results'].
    replace (N * 255 * (1 + lenZ tsh)) with (N * 255 + N * 255 * lenZ tsh) by lia.
    eapply strong_effect_chain; [|done|done|done|done|lia|done]. eapply strong_effect_weaken; [done|set_solver|lia].
  - split_and!; [done|done| |exists new1; split_and!; [done|done|nia]]. eapply reaches_equiv; [done|].
    eapply (reaches_trans _ _ m1); [done|by apply (reaches_refl _ _ 0)|nia].
Qed.

Lemma run_strong_effect N stakeholders tx v :
  calls_bounded N -> 1 <= N -> chains_short (v_ledger v) ->
  let '(t, v', m', results) := run_strong wasm stakeholders tx v in
  strong_effect v ∅ empty_state_map [] (N * 255 * (1 + lenZ (stakeholders (v_ledger v)))) t v' m' results.
Proof.
  intros HN HN1 Hshort. unfold run_strong. pose proof (lenZ_nonneg (stakeholders (v_ledger v))) as Hl.
  assert (Hfirst : let '(t, m, results) :=
    match hooks (v_ledger v) !! tx_account tx, tx_emit tx with
    | Some hs, None => executeHookChain wasm (fixXahauV3 (v_rules v)) (v_ledger v) (tx_type tx) hs empty_state_map []
        (tx_account tx) true false
    | _, _ => (tesSUCCESS, empty_state_map, [])
    end in
    reaches (v_ledger v) empty_state_map m (N * 255) /\ chain_results ∅ t results /\ lenZ results <= N * 255 /\
    Forall (fun r => arg_account (ctx_args r) = tx_account tx) results).
  { assert (Hnone : reaches (v_ledger v) empty_state_map empty_state_map (N * 255) /\ chain_results ∅ tesSUCCESS [] /\
      lenZ (@nil hook_context) <= N * 255 /\ Forall (fun r => arg_account (ctx_args r) = tx_account tx) [])
      by (split_and!; [apply reaches_refl; lia|apply chain_results_nil|pose proof (@lenZ_nil hook_context); lia|constructor]).
    destruct (hooks (v_ledger v) !! tx_account tx) as [hs|] eqn:Eh; [|done]. destruct (tx_emit tx); [done|].
    pose proof (executeHookChain_results (fixXahauV3 (v_rules v)) (v_ledger v) (tx_type tx) hs empty_state_map [] (tx_account tx) true false ∅
      (Hshort _ hs Eh) ltac:(set_solver)) as Hc.
    pose proof (chain_loop_reaches N (fixXahauV3 (v_rules v)) (v_ledger v) (tx_type tx) (tx_account tx) true false hs HN 0 ∅ ∅ empty_state_map []) as Hr.
    fold (executeHookChain wasm (fixXahauV3 (v_rules v)) (v_ledger v) (tx_type tx) hs empty_state_map [] (tx_account tx) true false) in Hr.
    destruct (executeHookChain _ _ _ _ _ _ _ _ _ _) as [[t1 m1] results1]. destruct Hc as (new1 & -> & Hc & Hln & Ha).
    split_and!; [|done|simpl; lia|done]. pose proof (Hshort _ hs Eh). eapply (reaches_trans _ _ m1); [done|by apply (reaches_refl _ _ 0)|nia]. }
  destruct (match hooks (v_ledger v) !! tx_account tx with Some _ => _ | None => _ end) as [[t m] results].
  destruct Hfirst as (Hr & Hc & Hln & Ha). destruct (isTesSuccess t) eqn:Et.
  - apply (chain_success _ _ _ Hc) in Et as ->. unfold doTSH.
    pose proof (tsh_loop_strong N tx false (stakeholders (v_ledger v)) HN HN1 v ∅ m results Hshort) as Ht.
    destruct (tsh_loop _ _ _ _ _ _ _ _ _) as [[[t v'] m'] results'].
    replace (N * 255 * (1 + lenZ (stakeholders (v_ledger v)))) with (N * 255 + N * 255 * lenZ (stakeholders (v_ledger v))) by lia.
    eapply (strong_effect_chain (N * 255) v v v' ∅ (tx_account tx) _ m m' [] results); [|done|by destruct v|done..].
    simpl. eapply strong_effect_weaken; [done|set_solver|lia].
  - split_and!; [done|by destruct v| |exists results; split_and!; [done|done|nia]]. eapply (reaches_trans _ _ m); [done|by apply (reaches_refl _ _ 0)|nia].
Qed.

(** ** A property of the result of every hook *)

Section All.
Context (Q : hook_context -> Prop).
Hypothesis HQ : forall v3 led a m r, (hook_apply wasm v3 led a m).2 = Some r -> Q r.

Lemma chain_loop_all v3 led txType acc strong meta hs : forall n skips o m results,
  Forall Q results -> Forall Q (chain_loop wasm v3 led txType acc strong meta n skips o m results hs).2.
Proof.
  induction hs as [|obj hs IH]; intros n skips o m results Hr; [done|]. cbn [chain_loop]. cbv zeta.
  destruct (hook_HookHash obj); [|by apply IH]. destruct (bool_decide _); [by apply IH|].
  destruct (definitions led !! _); [|by apply IH]. destruct (negb (canHook _ _)); [by apply IH|].
  destruct (negb strong && _); [by apply IH|]. destruct (gatherHookParameters _ _); [|done].
  match goal with |- context [hook_apply ?w ?v ?l ?a ?m] => pose proof (HQ v l a m) as Ha; destruct (hook_apply w v l a m) as [m1 [r|]] end; [|done].
  specialize (Ha r eq_refl). assert (Hr' : Forall Q (results ++ [r])) by (apply Forall_app; by repeat constructor).
  destruct (decide (ctx_exit r = ACCEPT)); [by apply IH|done].
Qed.

Lemma tsh_loop_all tx strong meta tsh : forall v S m results,
  Forall Q results -> Forall Q (tsh_loop wasm tx strong meta v S m results tsh).2.
Proof.
  induction tsh as [|[acc canRollback] tsh IH]; intros v S m results Hr; [done|]. cbn [tsh_loop]. cbv zeta.
  destruct (acc =? tx_account tx); [by apply IH|]. destruct (bool_decide _); [by apply IH|].
  destruct (_ || _); [by apply IH|]. destruct (hooks _ !! acc) as [hs|]; [|by apply IH].
  destruct (accounts _ !! acc); [|by apply IH]. destruct (tsh_fee _ _ _ _ _) as [v1|]; [|by apply IH].
  pose proof (chain_loop_all (fixXahauV3 (v_rules v1)) (v_ledger v1) (tx_type tx) acc strong meta hs 0 ∅ ∅ m results Hr) as Hc.
  unfold executeHookChain. destruct (chain_loop _ _ _ _ _ _ _ _ _ _ _ _ _) as [[t m1] results1]. simpl in Hc.
  destruct (_ && _); [done|by apply IH].
Qed.

Lemma run_strong_all stakeholders tx v : Forall Q (run_strong wasm stakeholders tx v).2.
Proof.
  unfold run_strong.
  assert (Hfirst : Forall Q (match hooks (v_ledger v) !! tx_account tx, tx_emit tx with
    | Some hs, None => executeHookChain wasm (fixXahauV3 (v_rules v)) (v_ledger v) (tx_type tx) hs empty_state_map []
        (tx_account tx) true false
    | _, _ => (tesSUCCESS, empty_state_map, [])
    end).2).
  { destruct (hooks (v_ledger v) !! tx_account tx); [|constructor]. destruct (tx_emit tx); [constructor|].
    apply chain_loop_all. constructor. }
  destruct (match hooks (v_ledger v) !! tx_account tx with Some _ => _ | None => _ end) as [[t m] results].
  destruct (isTesSuccess t); [by apply tsh_loop_all|done].
Qed.

End All.

(** ** The exit codes and the number of emissions *)

(** The hook gives no exit code without a negation. *)
Definition code_ok (call : api_call) : Prop :=
  match call with ApiAccept _ _ _ code | ApiRollback _ _ _ code => - 2 ^ 63 < code < 2 ^ 63 | _ => True end.

Lemma api_step_code led c call :
  code_ok call -> - 2 ^ 63 < exitCode (ctx_guard c) < 2 ^ 63 ->
  - 2 ^ 63 < exitCode (ctx_guard (api_step led c call).2) < 2 ^ 63 /\
  lenZ (ctx_emitted (api_step led c call).2) <= lenZ (ctx_emitted c) + 1.
Proof.
  intros Hcall Hc. destruct call; cbn [api_step]; simpl in Hcall; unfold HOOK_SETUP.
  - unfold _g, HOOK_SETUP. destruct (_ =? 0); [split; simpl; [done|lia]|]. destruct (_ <? _); simpl; (split; [|lia]); [unfold GUARD_VIOLATION; lia|done].
  - destruct (lenZ mem =? 0); [split; [done|simpl; lia]|]. destruct (state_foreign_set _ _ _ _ _ _ _ _ _ _ _). simpl. split; [done|lia].
  - destruct (lenZ mem =? 0); [split; [done|simpl; lia]|]. destruct (state_foreign _ _ _ _ _ _ _ _ _ _ _) as [[??]?]. simpl. split; [done|lia].
  - unfold hook_param_set. cbv zeta. repeat (case_match; try (split; [done|simpl; lia])).
  - unfold hook_skip. cbv zeta. repeat (case_match; try (split; [done|simpl; lia])).
  - unfold hook_again, HOOK_SETUP. repeat (case_match; try (split; [done|simpl; lia])).
  - simpl. split; [done|]. rewrite lenZ_app. pose proof (lenZ_cons (id, nonce) []). pose proof (@lenZ_nil (Z * Z)). lia.
  - unfold hook_exit, HOOK_SETUP. cbv zeta. repeat case_match; (split; simpl; [done|lia]).
  - unfold hook_exit, HOOK_SETUP. cbv zeta. repeat case_match; (split; simpl; [done|lia]).
Qed.

Definition result_fits (N : Z) (r : hook_context) : Prop :=
  - 2 ^ 63 < exitCode (ctx_guard r) < 2 ^ 63 /\ lenZ (ctx_emitted r) <= N.

Lemma api_run_code led calls : forall c,
  Forall code_ok calls -> - 2 ^ 63 < exitCode (ctx_guard c) < 2 ^ 63 ->
  result_fits (lenZ (ctx_emitted c) + lenZ calls) (api_run led c calls).
Proof.
  induction calls as [|call calls IH]; intros c Hall Hc; simpl.
  - split; [done|]. pose proof (@lenZ_nonneg api_call []). lia.
  - inversion_clear Hall as [|? ? Hcall Hrest]. rewrite lenZ_cons. pose proof (lenZ_nonneg calls).
    destruct (api_step_code led c call Hcall Hc) as [Hc' Hl]. destruct (api_step led c call) as [code c1]. simpl in *.
    destruct (api_return code).
    + destruct (IH c1 Hrest Hc') as [Hx Hy]. split; [done|lia].
    + split; [done|lia].
Qed.

Lemma hook_apply_fits N v3 led a m r :
  calls_bounded N -> (forall led a m, Forall code_ok (wasm led a m).1) ->
  (hook_apply wasm v3 led a m).2 = Some r -> result_fits N r.
Proof.
  intros HN Hcode. specialize (HN led a m). specialize (Hcode led a m). unfold hook_apply.
  destruct (wasm led a m) as [calls ending]. simpl in *.
  destruct (api_run_code led calls (new_hook_context v3 a m) Hcode ltac:(simpl; lia)) as [Hx Hy]. simpl in Hy.
  pose proof (@lenZ_nil (Z * Z)). destruct ending; intros [= <-]; (split; [done|simpl; lia]).
Qed.

End Equiv.
