(* ===== verification/HookFees.v ===== *)
(** * The fees of weak stakeholders: lemmas

    A stakeholder with weak hooks pays for their execution itself. What the loop of
    [doTSH] does to the balances, whatever the hooks do. *)

From S2P Require Import Prelude HookEnum GuardRuntime LedgerDir HookState HookStateFacts StateCache Emission.
From S2P Require Import HookContext HookChain HookPhases.

(** ** The XRP of all accounts *)

Definition total_xrp (accs : gmap Z account_root) : Z := map_fold (fun _ r s => Balance r + s) 0 accs.

Lemma total_xrp_insert accs a r :
  accs !! a = None -> total_xrp (<[a := r]> accs) = Balance r + total_xrp accs.
Proof. intros Ha. unfold total_xrp. rewrite map_fold_insert_L; [done| |done]. intros. lia. Qed.

Lemma total_xrp_update accs a r r' :
  accs !! a = Some r -> total_xrp (<[a := r']> accs) = total_xrp accs - Balance r + Balance r'.
Proof.
  intros Ha. rewrite <- (insert_delete_id accs a r Ha) at 2. rewrite <- insert_delete_eq.
  rewrite !total_xrp_insert by apply lookup_delete_eq. lia.
Qed.

(** ** One stakeholder *)

(** What an account paid from [r] to [r']: nothing, or the fee of its chain, which it
    collects and has above its reserve. *)
Definition account_paid (led : ledger) (txType a : Z) (r r' : account_root) : Prop :=
  let fee := calculateHookChainFee led txType a true in
  untouched r' = untouched r \/
  (0 < fee /\ Z.land (AccountFlags r) lsfTshCollect <> 0 /\ untouched r' = untouched (set_Balance (Balance r - fee) r) /\
   accountReserve (fees led) (OwnerCount r) <= Balance r').

(** The view after payments: the accounts in [S] did not pay. *)
Record paid (txType : Z) (S : Z -> Prop) (v v' : apply_view) : Prop := {
  pd_env : same_env (v_ledger v) (v_ledger v');
  pd_state : states (v_ledger v') = states (v_ledger v) /\ dirs (v_ledger v') = dirs (v_ledger v);
  pd_dom : dom (accounts (v_ledger v')) = dom (accounts (v_ledger v));
  pd_account a r r' : accounts (v_ledger v) !! a = Some r -> accounts (v_ledger v') !! a = Some r' ->
    (S a -> untouched r' = untouched r) /\ account_paid (v_ledger v) txType a r r';
  pd_total : total_xrp (accounts (v_ledger v')) + v_destroyed v' = total_xrp (accounts (v_ledger v)) + v_destroyed v
}.

Lemma paid_refl txType S v : paid txType S v v.
Proof. split; try done. intros a r r' H1 H2. simplify_eq. split; [done|by left]. Qed.

(** Payments one after the other, when no account pays in both. *)
Lemma paid_trans txType S S1 S2 v v1 v2 :
  paid txType S1 v v1 -> paid txType S2 v1 v2 -> (forall a, S a -> S1 a /\ S2 a) -> (forall a, S1 a \/ S2 a) ->
  paid txType S v v2.
Proof.
  intros [E1 (Hs1 & Hd1) D1 A1 T1] [E2 (Hs2 & Hd2) D2 A2 T2] HS Hdisj.
  pose proof E1 as (F1 & _ & _ & K1 & L1).
  assert (Hfee : forall a, calculateHookChainFee (v_ledger v1) txType a true = calculateHookChainFee (v_ledger v) txType a true).
  { intros a. unfold calculateHookChainFee. rewrite K1. destruct (hooks (v_ledger v) !! a) as [hs|]; [|done].
    generalize 0. induction hs as [|h hs IH]; intros fee; [done|]. simpl. unfold hook_fee. rewrite L1.
    destruct (hook_HookHash h); [|done]. destruct (definitions (v_ledger v) !! _); [|done]. by destruct (_ && _). }
  split; [unfold same_env in *; intuition congruence|split; congruence|congruence| |lia].
  intros a r r2 Hr Hr2.
  assert (Hr1 : exists r1, accounts (v_ledger v1) !! a = Some r1).
  { apply elem_of_dom. rewrite D1. by apply elem_of_dom_2 in Hr. }
  destruct Hr1 as (r1 & Hr1). destruct (A1 a r r1 Hr Hr1) as [U1 P1]. destruct (A2 a r1 r2 Hr1 Hr2) as [U2 P2].
  split; [intros [Ha1 Ha2]%HS; by rewrite U2, U1|].
  destruct (Hdisj a) as [Ha|Ha].
  - specialize (U1 Ha). unfold account_paid in *. rewrite Hfee, F1 in P2. injection U1 as Ub Uo Uc Un Uf.
    destruct P2 as [P2|(P2a & P2b & P2c & P2d)]; [left; rewrite P2; unfold untouched; congruence|right].
    rewrite Uf in P2b. rewrite Uo in P2d. split_and!; try done. rewrite P2c. unfold untouched, set_Balance. simpl. congruence.
  - specialize (U2 Ha). injection U2 as Ub Uo Uc Un Uf. unfold account_paid in *.
    destruct P1 as [P1|(P1a & P1b & P1c & P1d)]; [left; rewrite <- P1; unfold untouched; congruence|right].
    split_and!; [done|done| |congruence]. rewrite <- P1c. unfold untouched. congruence.
Qed.

Lemma paid_touch txType v acc : paid txType (fun _ => True) v (touchAccount v acc).
Proof.
  unfold touchAccount. destruct (negb _); [apply paid_refl|].
  destruct (accounts (v_ledger v) !! acc) as [r0|] eqn:Ea; [|apply paid_refl]. split; simpl; try done.
  - rewrite dom_insert_L. apply elem_of_dom_2 in Ea. set_solver.
  - intros a r r' Hr Hr'. assert (Hu : untouched r' = untouched r).
    { destruct (decide (a = acc)) as [->|Hne]; [rewrite lookup_insert_eq in Hr'|rewrite lookup_insert_ne in Hr' by done]; by simplify_eq. }
    split; [done|by left].
  - rewrite (total_xrp_update _ acc r0) by done. simpl. lia.
Qed.

Lemma tsh_fee_paid txType v acc tshAcc v1 :
  accounts (v_ledger v) !! acc = Some tshAcc ->
  tsh_fee v acc tshAcc false (calculateHookChainFee (v_ledger v) txType acc true) = Some v1 ->
  paid txType (fun a => a <> acc) v v1.
Proof.
  intros Ha. unfold tsh_fee. set (fee := calculateHookChainFee (v_ledger v) txType acc true).
  destruct (fee =? 0); [done|]. destruct (Z.eqb_spec (Z.land (AccountFlags tshAcc) lsfTshCollect) 0) as [|Hfl]; [done|].
  destruct (Z.ltb_spec (Balance tshAcc) (fee + accountReserve (fees (v_ledger v)) (OwnerCount tshAcc))) as [|Hbal]; [done|].
  destruct (Z.ltb_spec 0 fee) as [Hpos|]; intros [= <-]; [|apply paid_refl]. split; simpl; try done.
  - rewrite dom_insert_L. apply elem_of_dom_2 in Ha. set_solver.
  - intros a r r' Hr Hr'. destruct (decide (a = acc)) as [->|Hne].
    + rewrite lookup_insert_eq in Hr'. simplify_eq. split; [done|]. right. split_and!; [done|done|done|]. simpl. lia.
    + rewrite lookup_insert_ne in Hr' by done. simplify_eq. split; [done|by left].
  - rewrite (total_xrp_update _ acc tshAcc) by done. simpl. lia.
Qed.

(** ** The loop *)

Section Loop.
Context `{Keylets} (wasm : ledger -> hook_args -> HookStateMap -> list api_call * wasm_end).

Lemma paid_weaken txType (S S' : Z -> Prop) v v' : paid txType S v v' -> (forall a, S' a -> S a) -> paid txType S' v v'.
Proof. intros [E1 H1 D1 A1 T1] HS. split; try done. intros a r r' Hr Hr'. destruct (A1 a r r' Hr Hr'). split; auto. Qed.

(** Whatever the hooks do, an account pays at most once, for its own chain. *)
Lemma tsh_loop_paid tx meta tsh : forall v S m results,
  let '(_, v', _, _) := tsh_loop wasm tx false meta v S m results tsh in
  paid (tx_type tx) (fun a => a = tx_account tx \/ a ∈ S) v v'.
Proof.
  induction tsh as [|[acc canRollback] tsh IH]; intros v S m results; [apply paid_refl|]. cbn [tsh_loop]. cbv zeta.
  destruct (Z.eqb_spec acc (tx_account tx)) as [|Hacc]; [apply IH|]. case_bool_decide as Hin; [apply IH|].
  assert (Hskip : forall v1 S1 m1 results1, paid (tx_type tx) S1 v v1 -> (forall a, a <> acc -> S1 a) ->
    let '(_, v', _, _) := tsh_loop wasm tx false meta v1 ({[acc]} ∪ S) m1 results1 tsh in
    paid (tx_type tx) (fun a => a = tx_account tx \/ a ∈ S) v v').
  { intros v1 S1 m1 results1 Hp HS1. specialize (IH v1 ({[acc]} ∪ S) m1 results1).
    destruct (tsh_loop _ _ _ _ _ _ _ _ _) as [[[t v'] m'] results'].
    eapply paid_trans; [done|done| |]; intros a; [|destruct (decide (a = acc)); [right; set_solver|left; auto]].
    intros Ha. split; [apply HS1; set_solver|set_solver]. }
  assert (Hr : paid (tx_type tx) (fun _ => True) v v) by apply paid_refl.
  destruct canRollback; cbn [negb andb orb]; [by eapply Hskip|].
  pose proof (paid_touch (tx_type tx) v acc) as Ht. set (v1 := touchAccount v acc) in *.
  destruct (hooks (v_ledger v1) !! acc) as [hs|]; [|by eapply Hskip].
  destruct (accounts (v_ledger v1) !! acc) as [tshAcc|] eqn:Ea; [|by eapply Hskip].
  destruct (tsh_fee _ _ _ _ _) as [v2|] eqn:Ef; [|by eapply Hskip].
  apply tsh_fee_paid in Ef; [|done].
  assert (Hp : paid (tx_type tx) (fun a => a <> acc) v v2) by (eapply paid_trans; [done|done|naive_solver|naive_solver]).
  destruct (executeHookChain _ _ _ _ _ _ _ _ _ _) as [[t m1] results1]. cbn [andb]. by eapply Hskip.
Qed.

End Loop.
