(* ===== verification/HookPhaseClaims.v ===== *)
(** * The hooks of a transaction: the properties

    The chain of one account, parameters and their overrides, the phase before the
    transaction is applied, which is all or nothing, the fees of weak stakeholders,
    and what the phase after it does to hooks that roll back. *)

From S2P Require Import Prelude HookEnum HookMemory GuardRuntime LedgerDir LedgerDirFacts HookState.
From S2P Require Import HookStateFacts StateCache StateCacheFacts StateApiFacts StateCommit StateClaims.
From S2P Require Import Emission HookContext HookChain HookChainFacts HookPhases HookFees.

(** ** Writing the results *)

(** The emitted transactions are those in the emitted directory, which has no page
    above [B]. *)
Definition emitted_ok (v : apply_view) (B : Z) : Prop :=
  dir_repr (v_emittedDir v) (v_emitted v) /\ pages_upto (v_emittedDir v) B /\ 0 <= B.

(** The view but for the emitted transactions and the metadata. *)
Definition same_view (v v' : apply_view) : Prop :=
  v_ledger v' = v_ledger v /\ v_open v' = v_open v /\ v_rules v' = v_rules v /\ v_destroyed v' = v_destroyed v.

Definition emission_ids (l : list (Z * Z)) : gset Z := list_to_set (map fst l).

Lemma emit_loop_spec {E} cap l : forall v B ids,
  emitted_ok v B -> B + lenZ l < page_limit cap ->
  exists v' ids', @emit_loop E cap v ids l = Ret (Some ids', v') /\ emitted_ok v' (B + lenZ l) /\ same_view v v' /\
    v_executions v' = v_executions v /\ dom (v_emitted v') = dom (v_emitted v) ∪ emission_ids l.
Proof.
  induction l as [|[id nonce] l IH]; intros v B ids Hok Hl; cbn [emit_loop].
  - exists v, ids. rewrite lenZ_nil, Z.add_0_r. unfold emission_ids. split_and!; try done. set_solver.
  - rewrite lenZ_cons in *. pose proof (lenZ_nonneg l) as Hnn. destruct Hok as (Hr & Hu & HB).
    assert (Hids : emission_ids ((id, nonce) :: l) = {[id]} ∪ emission_ids l) by done.
    destruct (v_emitted v !! id) as [p|] eqn:Eid.
    + destruct (IH v (B + 1) ids) as (v' & ids' & Heq & Hok' & Hs & Hx & Hd); [|lia|].
      { split_and!; [done| |lia]. intros p' Hp'. specialize (Hu p' Hp'). lia. }
      exists v', ids'. replace (B + (1 + lenZ l)) with (B + 1 + lenZ l) by lia. split_and!; try done; try apply Hs.
      rewrite Hd, Hids. apply elem_of_dom_2 in Eid. set_solver.
    + assert (Hlim : page_limit cap <= 2 ^ 64 - 1) by (unfold page_limit, dirNodeMaxPages; destruct cap; lia).
      destruct (dir_repr_insert (E := E) cap (v_emittedDir v) (v_emitted v) id B Hr Eid Hu ltac:(lia)) as [(p & d & -> & Hr' & Hu')|(_ & -> & Hfull)].
      2: { unfold page_limit in Hl. lia. }
      simpl. destruct (IH (set_emitted (<[id := p]> (v_emitted v)) d v) (B + 1) (ids ++ [(id, nonce)])) as (v' & ids' & Heq & Hok' & Hs & Hx & Hd); [|lia|].
      { split_and!; [done|done|lia]. }
      exists v', ids'. replace (B + (1 + lenZ l)) with (B + 1 + lenZ l) by lia. split_and!; try done; try apply Hs.
      rewrite Hd, Hids. simpl. rewrite dom_insert_L. set_solver.
Qed.

Lemma unsigned_exit_code_ret {E} code : - 2 ^ 63 < code < 2 ^ 63 -> exists x, @unsigned_exit_code E code = Ret x.
Proof.
  intros Hc. unfold unsigned_exit_code. destruct (0 <=? code); [by eexists|].
  destruct (Z.eqb_spec code (- 2 ^ 63)); [lia|by eexists].
Qed.

(** The transactions that the results add to the emitted ones. *)
Definition emissions (open doEmit : bool) (results : list hook_context) : gset Z :=
  if negb open && doEmit then ⋃ (map (fun r => emission_ids (ctx_emitted r)) results) else ∅.

Lemma finalizeHookResult_spec {E} N r v B doEmit :
  emitted_ok v B -> result_fits N r -> 0 <= N -> B + N < page_limit (fixPageCap (v_ledger v)) ->
  exists v', @finalizeHookResult E r v doEmit = Ret (tesSUCCESS, v') /\ emitted_ok v' (B + N) /\ same_view v v' /\
    dom (v_emitted v') = dom (v_emitted v) ∪ emissions (v_open v) doEmit [r] /\
    lenZ (v_executions v') = lenZ (v_executions v) + (if v_open v then 0 else 1).
Proof.
  intros Hok [Hcode Hem] HN Hl. unfold finalizeHookResult, emissions.
  assert (Hweak : forall v' B', emitted_ok v' B' -> B' <= B + N -> emitted_ok v' (B + N)).
  { intros v' B' (H1 & H2 & H3) HB. split_and!; [done| |lia]. intros p Hp. specialize (H2 p Hp). lia. }
  destruct (v_open v) eqn:Eo; cbn [negb andb].
  { exists v. split; [done|]. split; [apply (Hweak v B Hok); lia|]. split; [done|]. split; [set_solver|lia]. }
  cbv zeta. destruct (unsigned_exit_code_ret (E := E) (exitCode (ctx_guard r)) Hcode) as [x Hx]. destruct doEmit; cbn [andb].
  - destruct (emit_loop_spec (E := E) (fixPageCap (v_ledger v)) (ctx_emitted r) v B [] Hok ltac:(lia)) as (v1 & ids & -> & Hok1 & Hs & Hxe & Hd).
    simpl. rewrite Hx. simpl. eexists. split; [done|]. split; [apply (Hweak v1 _ Hok1); lia|]. split; [exact Hs|].
    split; [by rewrite union_empty_r_L|]. simpl. by rewrite lenZ_app, Hxe.
  - simpl. rewrite Hx. simpl. eexists. split; [done|]. split; [apply (Hweak v B Hok); lia|]. split; [done|].
    split; [set_solver|]. simpl. by rewrite lenZ_app.
Qed.

Lemma emissions_cons open doEmit r results :
  emissions open doEmit (r :: results) = emissions open doEmit [r] ∪ emissions open doEmit results.
Proof. unfold emissions. destruct (negb open && doEmit); simpl; set_solver. Qed.

Lemma finalize_results_spec {E} N doEmit results : 0 <= N -> forall v B,
  emitted_ok v B -> Forall (result_fits N) results -> B + N * lenZ results < page_limit (fixPageCap (v_ledger v)) ->
  exists v', @finalize_results E v doEmit results = Ret v' /\ same_view v v' /\
    (exists B', emitted_ok v' B') /\ dom (v_emitted v') = dom (v_emitted v) ∪ emissions (v_open v) doEmit results /\
    lenZ (v_executions v') = lenZ (v_executions v) + (if v_open v then 0 else lenZ results).
Proof.
  intros HN. induction results as [|r results IH]; intros v B Hok Hall Hl; cbn [finalize_results].
  - exists v. split_and!; [done|done..|by exists B| |].
    + unfold emissions. destruct (_ && _); set_solver.
    + pose proof (@lenZ_nil hook_context). destruct (v_open v); lia.
  - inversion_clear Hall as [|? ? Hr Hrest]. rewrite lenZ_cons in *. pose proof (lenZ_nonneg results).
    destruct (finalizeHookResult_spec (E := E) N r v B doEmit Hok Hr HN ltac:(nia)) as (v1 & -> & Hok1 & (Hs1 & Hs2 & Hs3 & Hs4) & Hd1 & Hx1).
    simpl. destruct (IH v1 (B + N) Hok1 Hrest) as (v' & -> & (Ht1 & Ht2 & Ht3 & Ht4) & HB & Hd & Hx); [rewrite Hs1; lia|].
    exists v'. split_and!; [done|repeat split; congruence|done| |].
    + rewrite Hd, Hd1, Hs2, (emissions_cons _ _ r results). set_solver.
    + rewrite Hx, Hx1, Hs2. destruct (v_open v); lia.
Qed.

(** ** Before the transaction is applied *)

Section Claims.
Context `{KeyletsInj} (wasm : ledger -> hook_args -> HookStateMap -> list api_call * wasm_end).

(** The state the hooks left: what the last of a sequence of state calls sees. *)
Definition state_seen (led : ledger) (m : HookStateMap) (a n k : Z) : option (list Z) :=
  view_of led (mkResult 0 0 0 m 0 false) a n k.

Lemma state_seen_eq led r a n k : view_of led r a n k = state_seen led (result_stateMap r) a n k.
Proof. done. Qed.

(** The map that hooks reach from the empty one commits. *)
Lemma reaches_commit {E} led m n B :
  reaches led empty_state_map m n -> n < 2 ^ 31 -> ledger_wf led -> 0 <= increment (fees led) -> room led B ->
  exists led', @finalizeHookState _ E m led = Ret (tesSUCCESS, led') /\ ledger_wf led' /\
    (forall a n k, state_of led' a n k = state_seen led m a n k) /\ same_env led led'.
Proof.
  intros Hr Hn Hwf Hinc Hroom. destruct (Hr (mkResult 0 0 0 empty_state_map 0 false) eq_refl) as (cs & <- & Hl).
  destruct (state_run_start led (mkResult 0 0 0 empty_state_map 0 false) cs Hwf eq_refl ltac:(lia)) as [(M & Hok) _].
  destruct (finalize_spec (E := E) led _ M B Hwf Hok Hinc Hroom) as (led' & Hf & Hwf' & Hs & He).
  exists led'. split_and!; [done|done|intros a x k; by rewrite Hs, state_seen_eq|done].
Qed.

Lemma state_seen_equiv led led' m a n k : touch_equiv led led' -> state_seen led m a n k = state_seen led' m a n k.
Proof.
  intros Heq. unfold state_seen, view_of. destruct (lookup_state_cache _ a n k) as [[??]|]; [done|].
  by apply touch_equiv_state.
Qed.

(** C3: the hooks before the transaction are all or nothing. For a well-formed
    ledger and hooks that make a bounded number of calls, the phase always ends; no
    hook of an account is executed twice. Either the result is [tesSUCCESS], every
    hook accepted, the ledger holds exactly the state the hooks left in the cache
    and satisfies the invariant, and the transactions that they emitted are added
    to the emitted ones; or the result is a rejection, and nothing changed but touch
    counts and metadata: no state is written and nothing is emitted. *)
Theorem strong_phase_atomic {E} N B B' stakeholders tx v :
  calls_bounded wasm N -> 1 <= N -> (forall led a m, Forall code_ok (wasm led a m).1) ->
  ledger_wf (v_ledger v) -> chains_short (v_ledger v) -> 0 <= increment (fees (v_ledger v)) -> room (v_ledger v) B ->
  emitted_ok v B' -> B' + N * (N * 255 * (1 + lenZ (stakeholders (v_ledger v)))) < page_limit (fixPageCap (v_ledger v)) ->
  N * 255 * (1 + lenZ (stakeholders (v_ledger v))) < 2 ^ 31 ->
  let '(t, _, m, results) := run_strong wasm stakeholders tx v in
  exists v', @strong_phase _ wasm E stakeholders tx v = Ret (t, v', again_map results) /\
    NoDup (map execution_id results) /\
    ((t = tesSUCCESS /\ Forall accepted results /\ ledger_wf (v_ledger v') /\
      (forall a n k, state_of (v_ledger v') a n k = state_seen (v_ledger v) m a n k) /\
      dom (v_emitted v') = dom (v_emitted v) ∪ emissions (v_open v) true results) \/
     ((t = tecHOOK_REJECTED \/ t = tecINTERNAL) /\ touch_equiv (v_ledger v') (v_ledger v) /\
      dom (v_emitted v') = dom (v_emitted v))).
Proof.
  intros HN HN1 Hcode Hwf Hshort Hinc Hroom Hem Hpages Hsmall. unfold strong_phase.
  pose proof (run_strong_effect wasm N stakeholders tx v HN HN1 Hshort) as Heff.
  pose proof (run_strong_all wasm (result_fits N) (fun v3 led a m r => hook_apply_fits wasm N v3 led a m r HN Hcode) stakeholders tx v) as Hfit.
  destruct (run_strong wasm stakeholders tx v) as [[[t v1] m] results]. simpl in Hfit.
  destruct Heff as (He & Hv1 & Hr & new & -> & [Honce _ Hacc Ht] & Hlen). simpl in *.
  assert (Hfin : forall led doEmit, same_env (v_ledger v1) led ->
    exists v', @finalize_results E (set_ledger led v1) doEmit new = Ret v' /\ v_ledger v' = led /\
      dom (v_emitted v') = dom (v_emitted v) ∪ emissions (v_open v) doEmit new).
  { intros led doEmit (_ & _ & Hcap & _).
    destruct (finalize_results_spec (E := E) N doEmit new ltac:(lia) (set_ledger led v1) B') as (v' & Heq & Hs & _ & Hd & _).
    - by rewrite Hv1.
    - done.
    - destruct (te_env _ _ He) as (_ & _ & Hcap' & _). simpl. rewrite Hcap, Hcap'. nia.
    - exists v'. split; [done|]. split; [apply Hs|]. rewrite Hd. by rewrite Hv1. }
  destruct (isTesSuccess t) eqn:Et.
  - assert (t = tesSUCCESS) as -> by (by destruct Ht as [->|[->| ->]]).
    destruct (reaches_commit (E := E) (v_ledger v1) m (N * 255 * (1 + lenZ (stakeholders (v_ledger v)))) B) as (led' & -> & Hwf' & Hst & Henv).
    + eapply reaches_equiv; [by symmetry|done].
    + done.
    + by eapply touch_equiv_wf; [symmetry|].
    + destruct (te_env _ _ He) as (Hf & _). by rewrite Hf.
    + by eapply touch_equiv_room; [symmetry|].
    + simpl. destruct (Hfin led' true Henv) as (v' & -> & <- & Hd). simpl. exists v'. split_and!; [done|done|].
      left. split_and!; [done|by apply Hacc|done| |done]. intros a n k. rewrite Hst. by apply state_seen_equiv.
  - simpl. destruct (Hfin (v_ledger v1) false ltac:(done)) as (v' & -> & Hl & Hd). simpl. exists v'. split_and!; [done|done|].
    right. split_and!; [by destruct Ht as [->|?]|by rewrite Hl|]. rewrite Hd. unfold emissions. rewrite andb_false_r. set_solver.
Qed.

(** ** The chain of one account *)

(** Every hook that fires was executed, or skipped by a hook before it. *)
Definition all_served (led : ledger) (txType : Z) (strong : bool) (hs : list hook_obj) (results : list hook_context) : Prop :=
  forall i obj hash def, hs !! i = Some obj -> fires led txType strong obj hash def ->
  exists r, r ∈ results /\ (hook_pos r = Z.of_nat i \/ (hook_pos r < Z.of_nat i /\ hash ∈ ctx_skips r)).

(** At a hook where a chain stopped, it was not served. *)
Lemma stopped_not_served led txType strong hs results i obj hash def :
  stopped_at led txType strong 0 [] hs results i obj hash def -> ~ all_served led txType strong hs results.
Proof.
  intros (Hi & Hf & Hs & Hp) Hall. destruct (Hall i obj hash def Hi Hf) as (r & Hr & [Hpos|[_ Hsk]]).
  - rewrite Forall_forall in Hp. specialize (Hp r Hr). lia.
  - apply Hs. by exists r.
Qed.

(** C24: the chain of an account, of at most 255 hooks, executes them in order, each
    at most once. A result is that of a hook that is installed at its position, fires
    on the transaction and is not skipped by a hook before it; it was given its
    parameters and the overrides that the hook before it left. The chain succeeds
    exactly when every result accepted and every hook that fires was executed or
    skipped by a hook before it. Otherwise the last result did not accept and all
    before it did, or all accepted and the next hook that fires threw an exception or
    has parameters that cannot be read. *)
Theorem hook_chain_correct v3 led txType hs m acc strong meta :
  lenZ hs <= 255 ->
  let '(t, _, results) := executeHookChain wasm v3 led txType hs m [] acc strong meta in
  StronglySorted Z.lt (map hook_pos results) /\
  (forall j r, results !! j = Some r -> result_of led txType acc strong meta 0 hs (take j results) r) /\
  (t = tesSUCCESS <-> Forall (fun r => ctx_exit r = ACCEPT) results /\ all_served led txType strong hs results) /\
  chain_stops wasm v3 led txType acc strong meta 0 [] hs t results.
Proof.
  intros Hl. pose proof (executeHookChain_trace wasm v3 led txType hs m [] acc strong meta Hl) as Ht.
  destruct (executeHookChain _ _ _ _ _ _ _ _ _ _) as [[t m'] results]. destruct Ht as (new & -> & Ht). simpl.
  pose proof (trace_stops _ _ _ _ _ _ _ _ _ _ _ _ Ht) as Hstop.
  split_and!; [by eapply trace_positions| | |done].
  - intros j r Hj. by apply (trace_results _ _ _ _ _ _ _ _ _ _ _ _ Ht).
  - split.
    + intros ->. split; [done|]. intros i obj hash def Hi Hf.
      destruct (trace_complete _ _ _ _ _ _ _ _ _ _ _ _ Ht eq_refl i obj hash def Hi Hf) as [(r & Hr & Hp)|[(r & Hr & _)|(r & Hr & Hp & Hsk)]].
      * exists r. split; [done|]. left. lia.
      * by apply not_elem_of_nil in Hr.
      * exists r. split; [done|]. right. split; [lia|done].
    + intros [Hall Hserved]. destruct t; try done; simpl in Hstop.
      * destruct Hstop as [(ok & r & -> & _ & Hr)|(_ & i & obj & hash & def & ps & Hst & _)].
        -- apply Forall_app in Hall as [_ [Hx _]%Forall_cons]. done.
        -- by apply stopped_not_served in Hst.
      * destruct Hstop as (_ & i & obj & hash & def & Hst & _). by apply stopped_not_served in Hst.
Qed.

(** ** The fees of weak stakeholders *)

(** C34: after the weak stakeholders, whatever their hooks do: an account has the
    balance it had, or it allows collect calls and has paid the fee of its own
    chain, once, and still has its reserve; the sender pays nothing here; nothing
    else of the accounts but the touch count has changed; and the XRP taken from the
    balances is what was destroyed. *)
Theorem weak_fees_safe stakeholders additional tx v m results :
  let '(_, v', _, _) := doTSH wasm stakeholders additional tx false true v m results in
  (forall a r r', accounts (v_ledger v) !! a = Some r -> accounts (v_ledger v') !! a = Some r' ->
     account_paid (v_ledger v) (tx_type tx) a r r' /\ (a = tx_account tx -> untouched r' = untouched r)) /\
  dom (accounts (v_ledger v')) = dom (accounts (v_ledger v)) /\
  total_xrp (accounts (v_ledger v')) + v_destroyed v' = total_xrp (accounts (v_ledger v)) + v_destroyed v.
Proof.
  unfold doTSH. match goal with |- context [tsh_loop _ tx false true v ∅ m results ?l] =>
    pose proof (tsh_loop_paid wasm tx true l v ∅ m results) as Hp; destruct (tsh_loop wasm tx false true v ∅ m results l) as [[[t v'] m'] results'] end.
  destruct Hp as [_ _ Hd Ha Ht]. split_and!; [|done|done]. intros a r r' Hr Hr'. destruct (Ha a r r' Hr Hr') as [Hs Hpaid].
  split; [done|]. intros ->. apply Hs. by left.
Qed.

End Claims.

(** ** Parameters *)

(** An override is read back. After a [hook_param_set] that answers a length,
    a hook that is given the overrides and has the hash reads the value under the
    name, or [DOESNT_EXIST] when it is empty; under other names and for other hashes
    the parameters are as before. A hook sets at most 16 of them. *)
Theorem hook_param_set_get c mem rp rl kp kl hp hl c' d mem' wp wl np nl :
  hook_param_set c mem rp rl kp kl hp hl = (rl, c') -> 0 <= rl ->
  ctx_overrides d = ctx_overrides c' ->
  NOT_IN_BOUNDS np nl (lenZ mem') = false -> NOT_IN_BOUNDS wp wl (lenZ mem') = false -> 1 <= nl <= 32 ->
  ctx_overrideCount c < max_params /\
  hook_param d mem' wp wl np nl =
    if decide (arg_hookHash (ctx_args d) = fromVoid (mem_slice mem hp 32) /\ mem_slice mem' np nl = mem_slice mem kp kl)
    then if lenZ (mem_slice mem rp rl) =? 0 then (DOESNT_EXIST, mem')
         else WRITE_WASM_MEMORY_AND_RETURN mem' wp wl (mem_slice mem rp rl)
    else hook_param (set_overrides (ctx_overrides c) 0 d) mem' wp wl np nl.
Proof.
  intros Hset Hrl Ho Hn Hw Hnl. unfold hook_param_set in Hset. cbv zeta in Hset.
  repeat match type of Hset with (if ?b then _ else _) = _ => destruct b eqn:? end;
    try (injection Hset as Hcode _; subst rl; by vm_compute in Hrl).
  injection Hset as <-. simpl in Ho. split; [lia|]. unfold hook_param. rewrite Hn, Hw.
  replace (nl <? 1) with false by lia. replace (32 <? nl) with false by lia.
  assert (Hlook : forall x n, lookup_param x n =
    match override (ctx_overrides x) (arg_hookHash (ctx_args x)) n with Some y => Some y | None => arg_hookParams (ctx_args x) !! n end).
  { intros x n. unfold lookup_param, override. by destruct (ctx_overrides x !! _). }
  rewrite !Hlook, Ho, override_set. simpl. by case_decide.
Qed.

(** ** Examples *)

Section Demo.
#[local] Existing Instance demo_keylets.
#[local] Existing Instance demo_keylets_inj.

(** Account 1 has the hook 111 with namespace 5 and grants the hook 222 its state;
    account 2 has the hook 222 with namespace 6. Both fire on every type but SetHook
    and collect; an execution costs one drop. Accounts allow collect calls. *)
Definition demo_hook (hash : Z) (grants : option (list hook_grant)) : hook_obj :=
  mkHook (Some hash) None grants None None None None.
Definition demo_def (ns : Z) : hook_def := mkDef ns (2 ^ 22) None hsfCOLLECT (Some [([80], [1])]) 0 [] None 1 0 (Some 1).
Definition phase_ledger (balance : Z) : ledger :=
  mkLedger true false (mkFees 10 5)
    {[ 1 := mkAccount balance 0 0 None lsfTshCollect None; 2 := mkAccount 100 0 0 None lsfTshCollect None ]} ∅ ∅
    {[ 1 := [demo_hook 111 (Some [mkGrant 222 None])]; 2 := [demo_hook 222 None] ]}
    {[ 111 := demo_def 5; 222 := demo_def 6 ]}.
Definition phase_view (balance : Z) : apply_view :=
  mkView (phase_ledger balance) false (mkRules true true true true) ∅ ∅ [] [] 0.

(** A payment from account 1. *)
Definition demo_otxn (acc : Z) : otxn := mkOtxn acc 0 1000 None.

(** Each hook sets an entry of its account, emits a transaction and ends with [last]. *)
Definition set_and_end (last : api_call) (led : ledger) (a : hook_args) (m : HookStateMap) : list api_call * wasm_end :=
  ([ApiStateSet (demo_mem 9) 0 1 1 1 0 0 0 0; ApiEmit (arg_account a + 500) 7; last], Finished 10).
Definition accepts := set_and_end (ApiAccept [0] 0 0 0).
Definition rolls_back := set_and_end (ApiRollback [0] 0 0 0).

(** Accounts 1 and 2 are stakeholders, weak or strong. *)
Definition both (strong : bool) (led : ledger) : list (Z * bool) := [(2, strong); (1, strong)].

Lemma phase_wf balance : ledger_wf (phase_ledger balance).
Proof.
  apply ledger_wf_fresh. intros a r. rewrite lookup_insert_Some, lookup_singleton_Some. intros [[_ <-]|[_ [_ <-]]]; done.
Qed.

Lemma phase_room balance : room (phase_ledger balance) 0.
Proof.
  split_and!; [|apply pages_small_fresh|lia|done]. intros a r. simpl. rewrite lookup_insert_Some, lookup_singleton_Some.
  intros [[_ <-]|[_ [_ <-]]]; done.
Qed.

Lemma phase_emitted balance : emitted_ok (phase_view balance) 0.
Proof. split_and!; [apply dir_repr_empty| |done]. intros p. simpl. rewrite lookup_empty. by intros []. Qed.

Lemma phase_chains balance : chains_short (phase_ledger balance).
Proof.
  intros a hs. simpl. rewrite lookup_insert_Some, lookup_singleton_Some. intros [[_ <-]|[_ [_ <-]]]; done.
Qed.

Lemma strong_phase_atomic_witness :
  exists v', @strong_phase _ accepts unit (both true) (demo_otxn 1) (phase_view 100) = Ret (tesSUCCESS, v', ∅) /\
    state_of (v_ledger v') 1 5 75 = Some [9] /\ state_of (v_ledger v') 2 6 75 = Some [9] /\
    dom (v_emitted v') = {[501; 502]}.
Proof.
  assert (HN : calls_bounded accepts 4) by (intros led a m; done).
  assert (Hcode : forall led a m, Forall code_ok (accepts led a m).1) by (intros led a m; by repeat constructor).
  pose proof (strong_phase_atomic (E := unit) accepts 4 0 0 (both true) (demo_otxn 1) (phase_view 100) HN ltac:(done) Hcode
    (phase_wf 100) (phase_chains 100) ltac:(done) (phase_room 100) (phase_emitted 100) ltac:(done) ltac:(done)) as Hs.
  assert (Hrun : (run_strong accepts (both true) (demo_otxn 1) (phase_view 100)).1.1.1 = tesSUCCESS) by (by vm_compute).
  assert (Hag : again_map (run_strong accepts (both true) (demo_otxn 1) (phase_view 100)).2 = ∅) by (by vm_compute).
  assert (Hsee1 : state_seen (phase_ledger 100) (run_strong accepts (both true) (demo_otxn 1) (phase_view 100)).1.2 1 5 75 = Some [9]) by (by vm_compute).
  assert (Hsee2 : state_seen (phase_ledger 100) (run_strong accepts (both true) (demo_otxn 1) (phase_view 100)).1.2 2 6 75 = Some [9]) by (by vm_compute).
  assert (Hem : (∅ : gset Z) ∪ emissions false true (run_strong accepts (both true) (demo_otxn 1) (phase_view 100)).2 = {[501; 502]}) by (by vm_compute).
  destruct (run_strong accepts (both true) (demo_otxn 1) (phase_view 100)) as [[[t v1] m] results]. simpl in *. subst t.
  destruct Hs as (v' & Hret & _ & [(_ & _ & _ & Hst & Hd)|[[?|?] _]]); [|discriminate..].
  exists v'. rewrite Hret, Hag, !Hst, Hd, dom_empty_L. exact (conj eq_refl (conj Hsee1 (conj Hsee2 Hem))).
Defined.

(** Two hooks, of which the first skips the second and overrides its parameter. *)
Definition skips_next (led : ledger) (a : hook_args) (m : HookStateMap) : list api_call * wasm_end :=
  ([ApiParamSet ([33; 80] ++ replicate 31 0 ++ [222]) 0 1 1 1 2 32; ApiSkip (replicate 31 0 ++ [222]) 0 32 0;
    ApiAccept [0] 0 0 0], Finished 3).

Definition two_hooks : list hook_obj := [demo_hook 111 None; demo_hook 222 None].
Definition two_ledger : ledger :=
  mkLedger true false (mkFees 10 5) {[ 1 := mkAccount 100 0 0 None 0 None ]} ∅ ∅ {[ 1 := two_hooks ]}
    {[ 111 := demo_def 5; 222 := demo_def 6 ]}.

Lemma hook_chain_correct_witness :
  let '(t, _, results) := executeHookChain skips_next true two_ledger 0 two_hooks empty_state_map [] 1 true false in
  t = tesSUCCESS /\ map hook_pos results = [0] /\ StronglySorted Z.lt (map hook_pos results).
Proof.
  pose proof (hook_chain_correct skips_next true two_ledger 0 two_hooks empty_state_map 1 true false ltac:(done)) as Hc.
  assert (Ht : (executeHookChain skips_next true two_ledger 0 two_hooks empty_state_map [] 1 true false).1.1 = tesSUCCESS) by (by vm_compute).
  assert (Hp : map hook_pos (executeHookChain skips_next true two_ledger 0 two_hooks empty_state_map [] 1 true false).2 = [0]) by (by vm_compute).
  destruct (executeHookChain _ _ _ _ _ _ _ _ _ _) as [[t m] results]. simpl in *. by destruct Hc as (Hs & _).
Defined.

(** The context of a hook with the hash 222 and a parameter of its own. *)
Definition param_context : hook_context :=
  new_hook_context true (mkArgs 0 222 0 6 [] {[ [80] := [1] ]} ∅ 2 false false true 0 1 false) empty_state_map.
Definition param_set : Z * hook_context :=
  hook_param_set param_context ([33; 34; 80] ++ replicate 31 0 ++ [222]) 0 2 2 1 3 32.

Lemma hook_param_set_get_witness : hook_param param_set.2 [80; 0; 0; 0] 1 3 0 1 = (2, [80; 33; 34; 0]).
Proof.
  destruct (hook_param_set_get param_context ([33; 34; 80] ++ replicate 31 0 ++ [222]) 0 2 2 1 3 32 param_set.2 param_set.2 [80; 0; 0; 0] 1 3 0 1)
    as [_ Hp]; [by vm_compute|lia|done|by vm_compute|by vm_compute|lia|].
  rewrite Hp. by vm_compute.
Defined.

(** ** Where the code departs *)

(** The hook of account 2 sets an entry of account 1, by its grant, and one of its own. *)
Definition sets_both (led : ledger) (a : hook_args) (m : HookStateMap) : list api_call * wasm_end :=
  (if arg_account a =? 2
   then [ApiStateSet (demo_mem 8) 0 1 1 1 2 32 34 20; ApiStateSet (demo_mem 9) 0 1 1 1 0 0 0 0; ApiAccept [0] 0 0 0]
   else [ApiAccept [0] 0 0 0], Finished 10).

(** The results that the metadata show. *)
Definition exits (v : apply_view) : list (Z * ExitType) := map (fun x => (ex_HookAccount x, ex_HookResult x)) (v_executions v).

(** A hook that rolls back after the transaction was applied does not discard its
    state changes and emitted transactions: the weak phase writes the state map and
    queues the emissions of every weak hook that was executed. And it may write part
    of the state only: the reserve of account 1 is cached when the hook of account 2
    sets an entry of it, then account 1 pays the fee of its own hook; the commit
    stops at account 1 for lack of reserve, and the entry of account 2 is lost
    although all hooks accepted and the calls answered success. *)
Theorem weak_phase_gaps :
  match @weak_phase _ rolls_back unit (both false) ∅ (demo_otxn 9) ∅ tesSUCCESS (phase_view 100) with
  | Ret v => exits v = [(2, ROLLBACK); (1, ROLLBACK)] /\ state_of (v_ledger v) 1 5 75 = Some [9] /\
             state_of (v_ledger v) 2 6 75 = Some [9] /\ map_to_list (v_emitted v) = map_to_list ({[501 := 0; 502 := 0]} : gmap Z Z)
  | _ => False
  end /\
  match @weak_phase _ sets_both unit (both false) ∅ (demo_otxn 9) ∅ tesSUCCESS (phase_view 15) with
  | Ret v => exits v = [(2, ACCEPT); (1, ACCEPT)] /\ state_of (v_ledger v) 1 5 75 = None /\ state_of (v_ledger v) 2 6 75 = None
  | _ => False
  end /\
  match @weak_phase _ sets_both unit (both false) ∅ (demo_otxn 9) ∅ tesSUCCESS (phase_view 16) with
  | Ret v => state_of (v_ledger v) 1 5 75 = Some [8] /\ state_of (v_ledger v) 2 6 75 = Some [9]
  | _ => False
  end.
Proof. vm_compute. repeat split. Qed.

End Demo.
