(* ===== verification/SetHookTx.v ===== *)
(** * The SetHook transaction: its form (src/src/ripple/app/tx/impl/SetHook.cpp)

    The hooks array of the transaction, the operation each entry stands for, its
    validation, the fee, and the checks before the transaction is applied. A
    validation that returns false after a log line is [Exit] with the log code.
    Instantiating the code in WasmEdge is the parameter [validateWasm], which tells
    whether there was no error. *)

From S2P Require Import Prelude HookEnum GuardValidate Emission HookState HookContext HookChain.

(** ** The transaction *)

(** [sfHookParameter]: whether the object has that name, whether it has a field of
    another name, and the name and value. *)
Record param_obj := mkParam {
  par_isHookParameter : bool;
  par_otherField : bool;
  par_Name : option (list Z);
  par_Value : option (list Z)
}.

(** [sfHookGrant] *)
Record grant_obj := mkGrantObj {
  gr_isHookGrant : bool;
  gr_HookHash : Z;
  gr_Authorize : option Z
}.

(** [sfHook] of the transaction. [hs_count] is [getCount], the number of entries of
    the object: those that a template adds for absent fields are counted. *)
Record hook_set := mkSet {
  hs_isHook : bool;
  hs_count : Z;
  hs_otherField : bool;
  hs_CreateCode : option (list Z);
  hs_HookHash : option Z;
  hs_HookNamespace : option Z;
  hs_HookParameters : option (list param_obj);
  hs_HookOn : option Z;
  hs_HookCanEmit : option Z;
  hs_HookGrants : option (list grant_obj);
  hs_HookApiVersion : option Z;
  hs_Flags : option Z
}.

(** The amendments. *)
Record set_rules := mkSetRules {
  sr_rules : rules;
  featureHooks : bool;
  featureHookCanEmit : bool;
  fix20250131 : bool;
  fixNSDelete : bool
}.

Definition present {A} (f : option A) : bool := match f with Some _ => true | None => false end.
Definition has_flag (flags flag : Z) : bool := negb (Z.land flags flag =? 0).

Definition maxHookWasmSize : Z := 0xFFFF.
Definition maxHookChainLength : Z := 10.
Definition maxNamespaceDelete : Z := 256.

(** ** Grants and parameters *)

Fixpoint grants_loop (hookAcc : Z) (already : gset (Z * option Z)) (hookGrants : list grant_obj)
    : outcome hook_log_code unit :=
  match hookGrants with
  | [] => Ret tt
  | g :: hookGrants =>
    if negb (gr_isHookGrant g) then Exit LOG_GRANTS_ILLEGAL
    else if bool_decide (gr_Authorize g = Some hookAcc) then Exit LOG_GRANTS_ILLEGAL
    else
      let entry := (gr_HookHash g, gr_Authorize g) in
      if bool_decide (entry ∈ already) then Exit LOG_GRANTS_ILLEGAL
      else grants_loop hookAcc ({[entry]} ∪ already) hookGrants
  end.

Definition validateHookGrants (hookAcc : Z) (hookGrants : list grant_obj) : outcome hook_log_code unit :=
  if 8 <? lenZ hookGrants then Exit LOG_GRANTS_EXCESS else grants_loop hookAcc ∅ hookGrants.

Fixpoint params_loop (alreadySet : gset (list Z)) (hookParams : list param_obj) : outcome hook_log_code unit :=
  match hookParams with
  | [] => Ret tt
  | p :: hookParams =>
    if negb (par_isHookParameter p) then Exit LOG_PARAMETERS_ILLEGAL
    else if par_otherField p then Exit LOG_PARAMETERS_FIELD
    else
      match par_Name p with
      | None => Exit LOG_PARAMETERS_NAME
      | Some paramName =>
        if (maxHookParameterKeySize <? lenZ paramName) ||
           match par_Value p with Some v => maxHookParameterValueSize <? lenZ v | None => false end
        then Exit LOG_HOOK_PARAM_SIZE
        else if bool_decide (paramName ∈ alreadySet) then Exit LOG_PARAMETERS_NAME_REPEATED
        else params_loop ({[paramName]} ∪ alreadySet) hookParams
      end
  end.

Definition validateHookParams (hookParams : list param_obj) : outcome hook_log_code unit :=
  if 16 <? lenZ hookParams then Exit LOG_HOOK_PARAMS_COUNT else params_loop ∅ hookParams.

(** ** The operation of an entry *)

Definition inferOperation (o : hook_set) : HookSetOperation :=
  let wasmByteCount := match hs_CreateCode o with Some code => lenZ code | None => 0 end in
  let hasHash := present (hs_HookHash o) in
  let hasCode := present (hs_CreateCode o) in
  if hasHash && hasCode then hsoINVALID
  else if hasHash then hsoINSTALL
  else if hasCode then (if 0 <? wasmByteCount then hsoCREATE else hsoDELETE)
  else if negb (present (hs_HookGrants o)) && negb (present (hs_HookNamespace o)) &&
          negb (present (hs_HookParameters o)) && negb (present (hs_HookOn o)) &&
          negb (present (hs_HookCanEmit o)) && negb (present (hs_HookApiVersion o)) &&
          negb (present (hs_Flags o))
  then hsoNOOP
  else
    let flags := default 0 (hs_Flags o) in
    if present (hs_HookNamespace o) && has_flag flags hsfNSDELETE then hsoNSDELETE else hsoUPDATE.

(** ** Validation of an entry *)

(** [if (isFieldPresent(...) && !validate(...)) return false] *)
Definition when {A} (f : option A) (validate : A -> outcome hook_log_code unit) : outcome hook_log_code unit :=
  match f with Some x => validate x | None => Ret tt end.

Definition requires (b : bool) (code : hook_log_code) : outcome hook_log_code unit := if b then Ret tt else Exit code.

Definition rulesVersion (r : set_rules) : Z :=
  (if featureHooksUpdate1 (sr_rules r) then 1 else 0) + (if fix20250131 r then 2 else 0).

(** [Ret None] is [true] and [Ret (Some counts)] the pair of instruction counts. The
    code is present when the operation is [hsoCREATE]. *)
Definition validateHookSetEntry (validateWasm : list Z -> bool) (r : set_rules) (acc : Z) (o : hook_set)
    : outcome hook_log_code (option (Z * Z)) :=
  let flags := default 0 (hs_Flags o) in
  match inferOperation o with
  | hsoNOOP => Ret None
  | hsoNSDELETE =>
    let* _ := requires (negb (present (hs_HookGrants o) || present (hs_HookParameters o) || present (hs_HookOn o) ||
                              present (hs_HookCanEmit o) || present (hs_HookApiVersion o) ||
                              negb (present (hs_Flags o)) || negb (present (hs_HookNamespace o)))) LOG_NSDELETE_FIELD in
    let* _ := requires (flags =? hsfNSDELETE) LOG_NSDELETE_FLAGS in
    Ret None
  | hsoDELETE =>
    let* _ := requires (negb (present (hs_HookGrants o) || present (hs_HookParameters o) || present (hs_HookOn o) ||
                              present (hs_HookCanEmit o) || present (hs_HookApiVersion o) ||
                              present (hs_HookNamespace o) || negb (present (hs_Flags o)))) LOG_DELETE_FIELD in
    let* _ := requires (has_flag flags hsfOVERRIDE) LOG_OVERRIDE_MISSING in
    let* _ := requires (negb (has_flag flags (Z.lnot (Z.lor hsfOVERRIDE (Z.lor hsfNSDELETE hsfCOLLECT)))))
                LOG_FLAGS_INVALID in
    Ret None
  | hsoINSTALL =>
    let* _ := when (hs_HookParameters o) validateHookParams in
    let* _ := when (hs_HookGrants o) (validateHookGrants acc) in
    let* _ := requires (negb (present (hs_HookApiVersion o))) LOG_API_ILLEGAL in
    Ret None
  | hsoUPDATE =>
    let* _ := requires (negb (has_flag flags hsfOVERRIDE ||
                              (has_flag flags hsfNSDELETE && negb (present (hs_HookNamespace o))))) LOG_FLAGS_INVALID in
    let* _ := when (hs_HookParameters o) validateHookParams in
    let* _ := when (hs_HookGrants o) (validateHookGrants acc) in
    let* _ := requires (negb (present (hs_HookApiVersion o))) LOG_API_ILLEGAL in
    Ret None
  | hsoCREATE =>
    let* _ := when (hs_HookParameters o) validateHookParams in
    let* _ := when (hs_HookGrants o) (validateHookGrants acc) in
    let* _ := requires (present (hs_HookNamespace o)) LOG_NAMESPACE_MISSING in
    let* _ := requires (present (hs_HookApiVersion o)) LOG_API_MISSING in
    let* _ := requires (default 0 (hs_HookApiVersion o) =? 0) LOG_API_INVALID in
    let* _ := requires (present (hs_HookOn o)) LOG_HOOKON_MISSING in
    let hook := default [] (hs_CreateCode o) in
    let* counts := validateGuards hook (rulesVersion r) in
    let* _ := requires (validateWasm hook) LOG_WASM_TEST_FAILURE in
    Ret (Some counts)
  | hsoINVALID => Exit LOG_HASH_OR_CODE
  end.

(** ** Fees *)

(** The bytes of the parameters, [None] on overflow. *)
Fixpoint param_bytes (paramBytes : Z) (params : list param_obj) : option Z :=
  match params with
  | [] => Some paramBytes
  | p :: params =>
    let entryBytes := lenZ (default [] (par_Name p)) + lenZ (default [] (par_Value p)) in
    if s64 (paramBytes + entryBytes) <? paramBytes then None
    else param_bytes (s64 (paramBytes + entryBytes)) params
  end.

(** The fee of the entries, [None] on overflow. *)
Fixpoint hook_set_fees (hookFee : Z) (hookSets : list hook_set) : option Z :=
  match hookSets with
  | [] => Some hookFee
  | o :: hookSets =>
    let createFee := match hs_CreateCode o with Some code => computeCreationFee (lenZ code) | None => 0 end in
    match match hs_HookParameters o with Some ps => param_bytes 0 ps | None => Some 0 end with
    | None => None
    | Some paramFee =>
      if s64 (hookFee + paramFee) <? hookFee then None
      else
        let hookFee := s64 (hookFee + paramFee) in
        if s64 (hookFee + createFee) <? hookFee then None
        else hook_set_fees (s64 (hookFee + createFee)) hookSets
    end
  end.

(** [SetHook::calculateBaseFee]; [fee] is that of [Transactor::calculateBaseFee]. *)
Definition setHook_calculateBaseFee (fee : Z) (hookSets : list hook_set) : Z :=
  match hook_set_fees 0 hookSets with
  | None => INITIAL_XRP
  | Some hookFee => if s64 (fee + hookFee) <? fee then INITIAL_XRP else s64 (fee + hookFee)
  end.

(** ** Before the transaction is applied *)

Fixpoint preclaim (led : ledger) (hookSets : list hook_set) : ter :=
  match hookSets with
  | [] => tesSUCCESS
  | o :: hookSets =>
    match hs_HookHash o with
    | None => preclaim led hookSets
    | Some hash => if present (definitions led !! hash) then preclaim led hookSets else terNO_HOOK
    end
  end.

(** The loop of [preflight]: whether all entries are blank. Exceptions of the
    validation are caught. *)
Fixpoint preflight_loop (validateWasm : list Z -> bool) (r : set_rules) (acc : Z) (allBlank : bool)
    (hookSets : list hook_set) : outcome ter bool :=
  match hookSets with
  | [] => Ret allBlank
  | o :: hookSets =>
    if negb (hs_isHook o) then Exit temMALFORMED
    else if match hs_CreateCode o with Some code => maxHookWasmSize <? lenZ code | None => false end then Exit temMALFORMED
    else if hs_count o =? 0 then preflight_loop validateWasm r acc allBlank hookSets
    else if negb (featureHookCanEmit r) && present (hs_HookCanEmit o) then Exit temDISABLED
    else if hs_otherField o then Exit temMALFORMED
    else
      match validateHookSetEntry validateWasm r acc o with
      | Ret _ => preflight_loop validateWasm r acc false hookSets
      | Exit _ | Throw _ => Exit temMALFORMED
      | Undef u => Undef u
      | Timeout => Timeout
      end
  end.

(** [preflight1] and [preflight2] are the checks common to all transactions. *)
Definition preflight (validateWasm : list Z -> bool) (preflight1 preflight2 : ter) (r : set_rules) (acc : Z)
    (sfHooks : option (list hook_set)) : outcome ter ter :=
  if negb (featureHooks r) then Exit temDISABLED
  else if negb (isTesSuccess preflight1) then Exit preflight1
  else
    match sfHooks with
    | None => Exit temMALFORMED
    | Some hookSets =>
      if lenZ hookSets <? 1 then Exit temMALFORMED
      else if maxHookChainLength <? lenZ hookSets then Exit temMALFORMED
      else
        let* allBlank := preflight_loop validateWasm r acc true hookSets in
        if allBlank then Exit temMALFORMED else Ret preflight2
    end.
