(* ===== verification/SetHookApply.v ===== *)
(** * The SetHook transaction: its effect (src/src/ripple/app/tx/impl/SetHook.cpp)

    [destroyNamespace], the parameters of a hook, and [setHook], which goes through
    the hooks of the account and the entries of the transaction side by side. The
    definitions are objects of the view, shared by all pointers to them: the loop
    keeps one copy of each ([lp_cache]), and what [setHook] did to a copy is on the
    ledger only if it asked for the update. [return t] inside the loop is [Exit t].
    A dereferenced empty optional is [Undef UB_null]. *)

From S2P Require Import Prelude HookEnum LedgerDir Emission HookState HookContext SetHookTx.

(** ** Directories *)

Definition dirIsEmpty (d : directory) : bool :=
  match d !! rootPage with
  | None => true
  | Some node => if negb (is_nil (Indexes node)) then false else next_page node =? 0
  end.

(** [internalDirNext]: the entry after the position, a page and an index in it, and
    the position after the entry. The fuel counts pages. *)
Fixpoint cdirNext {E} (fuel : nat) (d : directory) (page : dir_page) (index : nat)
    : outcome E (option (Z * dir_page * nat)) :=
  match fuel with
  | O => Timeout
  | S fuel =>
    match Indexes page !! index with
    | Some entry => Ret (Some (entry, page, S index))
    | None =>
      let next := next_page page in
      if next =? 0 then Ret None
      else
        match d !! next with
        | None => Ret None
        | Some page => cdirNext fuel d page 0
        end
    end
  end.

Definition dir_fuel (d : directory) : nat := S (size d).

Definition cdirFirst {E} (d : directory) : outcome E (option (Z * dir_page * nat)) :=
  match d !! rootPage with
  | None => Ret None
  | Some page => cdirNext (dir_fuel d) d page 0
  end.

(** The number of entries of all pages. *)
Definition dir_size (d : directory) : nat := map_fold (fun _ pg n => (length (Indexes pg) + n)%nat) O d.

Section Namespaces.
Context `{Keylets}.

(** ** [destroyNamespace]

    An error is [Exit] with the result and the ledger as it is by then. *)

(** The [do] loop: the keys to delete and whether some are left. An entry that is
    not a state object is an error. *)
Fixpoint collect_states (fuel : nat) (fixEnabled : bool) (led : ledger) (d : directory) (toDelete : list Z)
    (entry : Z) (page : dir_page) (index : nat) : outcome (ter * ledger) (list Z * bool) :=
  match fuel with
  | O => Timeout
  | S fuel =>
    if fixEnabled && (maxNamespaceDelete <=? lenZ toDelete) then Ret (toDelete, true)
    else if negb (present (states led !! entry)) then Exit (tefBAD_LEDGER, led)
    else
      let toDelete := toDelete ++ [entry] in
      let* next := cdirNext (dir_fuel d) d page index in
      match next with
      | None => Ret (toDelete, false)
      | Some (entry, page, index) => collect_states fuel fixEnabled led d toDelete entry page index
      end
  end.

(** The second loop. *)
Fixpoint delete_states (led : ledger) (dirKeylet : Z) (toDelete : list Z) : outcome (ter * ledger) ledger :=
  match toDelete with
  | [] => Ret led
  | itemKey :: toDelete =>
    match states led !! itemKey with
    | None => delete_states led dirKeylet toDelete
    | Some sleItem =>
      let* '(ok, d) := dirRemove (dir_at led dirKeylet) (OwnerNode sleItem) itemKey false in
      if negb ok then Exit (tefBAD_LEDGER, led)
      else delete_states (set_states (delete itemKey (states led)) (set_dir dirKeylet d led)) dirKeylet toDelete
    end
  end.

Definition destroyNamespace (fixEnabled : bool) (led : ledger) (account ns : Z)
    : outcome (ter * ledger) (ter * ledger) :=
  match accounts led !! account with
  | None => Exit (tefBAD_LEDGER, led)
  | Some sleAccount =>
    let dirKeylet := keylet_hookStateDir account ns in
    let d := dir_at led dirKeylet in
    let dirExists := dir_exists led dirKeylet in
    if negb dirExists || dirIsEmpty d then
      let led := set_account account (removeHookNamespaceEntry sleAccount ns) led in
      Ret (tesSUCCESS, if dirExists then set_dir dirKeylet (delete rootPage d) led else led)
    else
      let* first := cdirFirst d in
      match first with
      | None => Exit (tefINTERNAL, led)
      | Some (entry, page, index) =>
        let oldStateCount := HookStateCount sleAccount in
        let* '(toDelete, partialDelete) := collect_states (S (dir_size d)) fixEnabled led d [] entry page index in
        let* led := delete_states led dirKeylet toDelete in
        let stateCount := u32 (oldStateCount - lenZ toDelete) in
        if oldStateCount <? stateCount then Exit (tefBAD_LEDGER, led)
        else
          let sleAccount := set_HookStateCount stateCount sleAccount in
          let sleAccount := if fixEnabled then adjustOwnerCount sleAccount (- lenZ toDelete) else sleAccount in
          let sleAccount := if negb partialDelete && present (HookNamespaces sleAccount)
                            then removeHookNamespaceEntry sleAccount ns else sleAccount in
          Ret (if partialDelete then tesPARTIAL else tesSUCCESS, set_account account sleAccount led)
      end
  end.

End Namespaces.

(** ** Reference counts *)

Definition set_ReferenceCount (rc : Z) (d : hook_def) : hook_def :=
  mkDef (def_HookNamespace d) (def_HookOn d) (def_HookCanEmit d) (def_Flags d) (def_HookParameters d)
    (def_HookSetTxnID d) (def_CreateCode d) (def_HookCallbackFee d) (def_Fee d) (def_HookApiVersion d) (Some rc).

(** Whether the definition is to be deleted, and the definition. *)
Definition reduceReferenceCount (d : hook_def) : bool * hook_def :=
  match def_ReferenceCount d with
  | None => (false, d)
  | Some refCount =>
    let refCount' := if 0 <? refCount then refCount - 1 else refCount in
    (refCount' <=? 0, if 0 <? refCount then set_ReferenceCount refCount' d else d)
  end.

Definition incrementReferenceCount (d : hook_def) : hook_def :=
  let rc := match def_ReferenceCount d with Some rc => u64 (rc + 1) | None => 1 end in
  if rc =? 0 then d else set_ReferenceCount rc d.

(** ** [updateHookParameters] *)

(** The order of [std::map<Blob, ...>]: lexicographic. *)
Fixpoint blob_le (a b : list Z) : bool :=
  match a, b with
  | [], _ => true
  | _ :: _, [] => false
  | x :: a, y :: b => if x <? y then true else if y <? x then false else blob_le a b
  end.

Definition param_order (p q : list Z * option (list Z)) : Prop := blob_le p.1 q.1 = true.
#[global] Instance param_order_dec : RelDecision param_order := fun p q => bool_eq_dec _ _.

Definition param_map_list (m : gmap (list Z) (option (list Z))) : list (list Z * option (list Z)) :=
  merge_sort param_order (map_to_list m).

(** [parameters[pname] = ...] for each parameter *)
Definition override_params (ps : list (list Z * option (list Z))) (parameters : gmap (list Z) (option (list Z)))
    : gmap (list Z) (option (list Z)) :=
  foldl (fun m p => <[p.1 := p.2]> m) parameters ps.

(** A default of the definition: values that are absent or equal are erased, an
    empty value that differs is an explicit blank. *)
Definition against_default (s : gmap (list Z) (option (list Z)) * gset (list Z)) (p : list Z * list Z)
    : gmap (list Z) (option (list Z)) * gset (list Z) :=
  let '(parameters, explicitBlanks) := s in
  let '(n, v) := p in
  match parameters !! n with
  | None => (parameters, explicitBlanks)
  | Some None => (delete n parameters, explicitBlanks)
  | Some (Some pv) =>
    if bool_decide (pv = v) then (delete n parameters, explicitBlanks)
    else if is_nil pv then (parameters, {[n]} ∪ explicitBlanks)
    else (parameters, explicitBlanks)
  end.

(** Whether a parameter stays: not an absent value, nor an empty one without a
    default to blank. *)
Definition param_kept (explicitBlanks : gset (list Z)) (p : list Z * option (list Z)) : Prop :=
  match p.2 with
  | None => False
  | Some v => v <> [] \/ p.1 ∈ explicitBlanks
  end.
#[global] Instance param_kept_dec blanks p : Decision (param_kept blanks p).
Proof. unfold param_kept. destruct p.2; apply _. Defined.

(** [sfHookParameters] of the new hook *)
Fixpoint new_params (ps : list (list Z * option (list Z))) : outcome ter (list (list Z * list Z)) :=
  match ps with
  | [] => Ret []
  | (n, None) :: ps => new_params ps
  | (n, Some v) :: ps =>
    if (maxHookParameterKeySize <? lenZ n) || (maxHookParameterValueSize <? lenZ v) then Exit tecINTERNAL
    else let* ps := new_params ps in Ret ((n, v) :: ps)
  end.

(** The parameters of the transaction as names and optional values: an absent name
    reads as empty. *)
Definition tx_params (ps : option (list param_obj)) : list (list Z * option (list Z)) :=
  map (fun p => (default [] (par_Name p), par_Value p)) (default [] ps).

Definition updateHookParameters (hookParameters : option (list param_obj)) (oldDef : option hook_def)
    (oldParameters : list (list Z * list Z)) : outcome ter (option (list (list Z * list Z))) :=
  let parameters := override_params (map (fun p => (p.1, Some p.2)) oldParameters) ∅ in
  let parameters := override_params (tx_params hookParameters) parameters in
  let defParameters := match oldDef with Some d => def_HookParameters d | None => None end in
  let '(parameters, explicitBlanks) :=
    match defParameters with
    | Some defParameters =>
      if (0 <? size parameters)%nat then foldl against_default (parameters, ∅) defParameters else (parameters, ∅)
    | None => (parameters, ∅)
    end in
  let parameters := filter (param_kept explicitBlanks) parameters in
  if (16 <? size parameters)%nat then Exit tecINTERNAL
  else
    let* newParameters := new_params (param_map_list parameters) in
    Ret (if is_nil newParameters then None else Some newParameters).

(** ** The loop of [setHook] *)

(** The definitions as [peek] shows them, [slesToInsert], the keys of [slesToUpdate],
    [keyletsToDestroy], [namespacesToDestroy] and [newHooks]. *)
Record set_loop := mkLoop {
  lp_cache : gmap Z hook_def;
  lp_insert : gmap Z hook_def;
  lp_update : gset Z;
  lp_destroy : gset Z;
  lp_namespaces : gset Z;
  lp_hooks : list hook_obj
}.

Definition blank_hook : hook_obj := mkHook None None None None None None None.

Definition push_hook (h : hook_obj) (lp : set_loop) : set_loop :=
  mkLoop (lp_cache lp) (lp_insert lp) (lp_update lp) (lp_destroy lp) (lp_namespaces lp) (lp_hooks lp ++ [h]).
Definition mark_namespace (ns : Z) (lp : set_loop) : set_loop :=
  mkLoop (lp_cache lp) (lp_insert lp) (lp_update lp) (lp_destroy lp) ({[ns]} ∪ lp_namespaces lp) (lp_hooks lp).
Definition insert_def (hash : Z) (d : hook_def) (lp : set_loop) : set_loop :=
  mkLoop (lp_cache lp) (<[hash := d]> (lp_insert lp)) (lp_update lp) (lp_destroy lp) (lp_namespaces lp) (lp_hooks lp).

(** The definition behind a pointer is changed: one of the ledger, or one to be
    inserted. *)
Definition store_def (hash : Z) (d : hook_def) (lp : set_loop) : set_loop :=
  if present (lp_cache lp !! hash)
  then mkLoop (<[hash := d]> (lp_cache lp)) (lp_insert lp) (lp_update lp) (lp_destroy lp) (lp_namespaces lp) (lp_hooks lp)
  else insert_def hash d lp.
Definition mark_update (hash : Z) (lp : set_loop) : set_loop :=
  mkLoop (lp_cache lp) (lp_insert lp) ({[hash]} ∪ lp_update lp) (lp_destroy lp) (lp_namespaces lp) (lp_hooks lp).
Definition mark_destroy (hash : Z) (lp : set_loop) : set_loop :=
  mkLoop (lp_cache lp) (lp_insert lp) (lp_update lp) ({[hash]} ∪ lp_destroy lp) (lp_namespaces lp) (lp_hooks lp).

(** The existing hook at the position: the keylet of its definition, the definition
    and the namespace. [oldHookOn] and [oldHookCanEmit] are never read. *)
Definition old_def (lp : set_loop) (oldHook : option hook_obj) : option (Z * option hook_def) :=
  match oldHook with
  | Some h => match hook_HookHash h with Some hash => Some (hash, lp_cache lp !! hash) | None => None end
  | None => None
  end.
Definition old_def_sle (lp : set_loop) (oldHook : option hook_obj) : option hook_def :=
  match old_def lp oldHook with Some (_, d) => d | None => None end.

Definition old_namespace (lp : set_loop) (oldHook : option hook_obj) : outcome ter (option Z) :=
  match oldHook, old_def lp oldHook with
  | Some h, Some (_, oldDefSLE) =>
    match hook_HookNamespace h, oldDefSLE with
    | Some ns, _ => Ret (Some ns)
    | None, Some d => Ret (Some (def_HookNamespace d))
    | None, None => Undef UB_null
    end
  | _, _ => Ret None
  end.

(** The definition loses a reference. *)
Definition release_def (oldHook : option hook_obj) (lp : set_loop) : set_loop :=
  match old_def lp oldHook with
  | Some (hash, Some d) =>
    let '(unused, d) := reduceReferenceCount d in
    let lp := store_def hash d lp in
    if unused then mark_destroy hash lp else mark_update hash lp
  | _ => lp
  end.

Definition to_grant (g : grant_obj) : hook_grant := mkGrant (gr_HookHash g) (gr_Authorize g).

(** [sfHookGrants] when grants are given *)
Definition new_grants (gs : option (list grant_obj)) : option (list hook_grant) :=
  match gs with Some (g :: gs) => Some (map to_grant (g :: gs)) | _ => None end.

(** A field that is set only where it differs from the definition. *)
Definition unless_default (def new : option Z) : option Z :=
  match new with
  | Some x => if bool_decide (def = Some x) then None else Some x
  | None => None
  end.

(** The same for an update, which keeps the field of the old hook. *)
Definition update_field (def new old : option Z) : option Z :=
  match new with Some _ => unless_default def new | None => old end.

(** Flags that are not passed on to the ledger are taken out. *)
Definition new_flags (flags : option Z) : Z :=
  let newFlags := default 0 flags in
  let newFlags := if has_flag newFlags hsfOVERRIDE then newFlags - hsfOVERRIDE else newFlags in
  if has_flag newFlags hsfNSDELETE then newFlags - hsfNSDELETE else newFlags.

(** Whether flags are given and contain [flag]. *)
Definition flag_set (flags : option Z) (flag : Z) : bool :=
  match flags with Some f => has_flag f flag | None => false end.

Definition has_hash_field (h : option hook_obj) : bool :=
  match h with Some h => present (hook_HookHash h) | None => false end.

(** [hsoDELETE] *)
Definition set_delete (oldHook : option hook_obj) (o : hook_set) (lp : set_loop) : outcome ter set_loop :=
  if negb (flag_set (hs_Flags o) hsfOVERRIDE) then Exit tecREQUIRES_FLAG
  else
    let lp := push_hook blank_hook lp in
    match oldHook with None => Ret lp | Some _ => Ret (release_def oldHook lp) end.

(** [hsoUPDATE] *)
Definition set_update (oldHook : option hook_obj) (o : hook_set) (lp : set_loop) : outcome ter set_loop :=
  match oldHook, old_def_sle lp oldHook with
  | Some h, Some d =>
    let* params :=
      match hs_HookParameters o with
      | Some [] => Ret None
      | ps => updateHookParameters ps (Some d) (default [] (hook_HookParameters h))
      end in
    let grants := match hs_HookGrants o with Some gs => new_grants (Some gs) | None => HookGrants h end in
    Ret (push_hook
           (mkHook (hook_HookHash h)
              (update_field (Some (def_HookNamespace d)) (hs_HookNamespace o) (hook_HookNamespace h))
              grants
              (update_field (Some (def_HookOn d)) (hs_HookOn o) (hook_HookOn h))
              (update_field (def_HookCanEmit d) (hs_HookCanEmit o) (hook_HookCanEmit h))
              (hs_Flags o) params) lp)
  | _, _ => Exit tecNO_ENTRY
  end.

(** [hsoINSTALL] of the definition with the hash, also after [hsoCREATE]: [None] is
    a definition that does not exist. [defHookCanEmit] of the replaced definition
    stays where the new one has none. *)
Definition lookup_def (lp : set_loop) (hash : Z) : option hook_def :=
  match lp_cache lp !! hash with Some d => Some d | None => lp_insert lp !! hash end.

Definition set_install (oldHook : option hook_obj) (o : hook_set) (hash : Z) (newDefSLE : option hook_def)
    (lp : set_loop) : outcome ter set_loop :=
  if has_hash_field oldHook && negb (flag_set (hs_Flags o) hsfOVERRIDE) then Exit tecREQUIRES_FLAG
  else
    match newDefSLE with
    | None => Exit tecNO_ENTRY
    | Some _ =>
      let oldCanEmit := match old_def_sle lp oldHook with Some d => def_HookCanEmit d | None => None end in
      let lp := release_def oldHook lp in
      match lookup_def lp hash with
      | None => Undef UB_null
      | Some d =>
        let d := incrementReferenceCount d in
        let lp := store_def hash d lp in
        let defHookCanEmit := match def_HookCanEmit d with Some x => Some x | None => oldCanEmit end in
        let* params := updateHookParameters (hs_HookParameters o) (Some d) [] in
        let lp := push_hook
          (mkHook (Some hash)
             (unless_default (Some (def_HookNamespace d)) (hs_HookNamespace o))
             (new_grants (hs_HookGrants o))
             (unless_default (Some (def_HookOn d)) (hs_HookOn o))
             (unless_default defHookCanEmit (hs_HookCanEmit o))
             (match hs_Flags o with Some _ => Some (new_flags (hs_Flags o)) | None => None end) params) lp in
        Ret (mark_update hash lp)
      end
    end.

Section SetHook.
Context `{Keylets} (sha512Half : list Z -> Z) (validateWasm : list Z -> bool) (r : set_rules) (account txID : Z).

(** A definition that does not exist yet. *)
Definition create_def (oldHook : option hook_obj) (o : hook_set) (hash : Z) (wasmBytes : list Z) (lp : set_loop)
    : outcome ter set_loop :=
  match validateHookSetEntry validateWasm r account o with
  | Ret (Some (maxInstrCountHook, maxInstrCountCbak)) =>
    let lp := release_def oldHook lp in
    match hs_HookOn o, hs_HookNamespace o with
    | Some hookOn, Some ns =>
      let newHookDef :=
        mkDef ns hookOn (hs_HookCanEmit o) (new_flags (hs_Flags o))
          (Some (map (fun p => (p.1, default [] p.2)) (tx_params (hs_HookParameters o)))) txID wasmBytes
          (if 0 <? maxInstrCountCbak then Some (computeExecutionFee maxInstrCountCbak) else None)
          (computeExecutionFee maxInstrCountHook) (default 0 (hs_HookApiVersion o)) (Some 1) in
      let lp := insert_def hash newHookDef lp in
      Ret (push_hook (mkHook (Some hash) None (new_grants (hs_HookGrants o)) None None None None) lp)
    | _, _ => Undef UB_null
    end
  | Ret None | Exit _ | Throw _ => Exit tecINTERNAL
  | Undef u => Undef u
  | Timeout => Timeout
  end.

(** [hsoCREATE] *)
Definition set_create (oldHook : option hook_obj) (o : hook_set) (lp : set_loop) : outcome ter set_loop :=
  if has_hash_field oldHook && negb (flag_set (hs_Flags o) hsfOVERRIDE) then Exit tecREQUIRES_FLAG
  else
    let wasmBytes := default [] (hs_CreateCode o) in
    if maxHookWasmSize <? lenZ wasmBytes then Exit tecINTERNAL
    else
      let hash := sha512Half wasmBytes in
      match lookup_def lp hash with
      | Some d => set_install oldHook o hash (Some d) lp
      | None => create_def oldHook o hash wasmBytes lp
      end.

(** One round: the hook at the position and the entry of the transaction. *)
Definition set_round (oldHook : option hook_obj) (hookSetObj : option hook_set) (lp : set_loop)
    : outcome ter set_loop :=
  let* oldNamespace := old_namespace lp oldHook in
  match hookSetObj with
  | None => Ret (push_hook (default blank_hook oldHook) lp)
  | Some o =>
    let op := inferOperation o in
    let lp :=
      if flag_set (hs_Flags o) hsfNSDELETE then
        match op, hs_HookNamespace o, oldNamespace with
        | hsoNOOP, _, _ | hsoINVALID, _, _ => lp
        | hsoNSDELETE, Some newNamespace, _ => mark_namespace newNamespace lp
        | _, _, Some ns => mark_namespace ns lp
        | _, _, None => lp
        end
      else lp in
    match op with
    | hsoNSDELETE | hsoNOOP => Ret (push_hook (default blank_hook oldHook) lp)
    | hsoDELETE => set_delete oldHook o lp
    | hsoUPDATE => set_update oldHook o lp
    | hsoCREATE => set_create oldHook o lp
    | hsoINSTALL =>
      let hash := default 0 (hs_HookHash o) in
      set_install oldHook o hash (lp_cache lp !! hash) lp
    | hsoINVALID => Exit tecCLAIM
    end
  end.

(** The rounds from a position on, as long as there is a hook or an entry. *)
Fixpoint set_rounds (n : nat) (oldHooks : list hook_obj) (hookSets : list hook_set) (lp : set_loop)
    : outcome ter set_loop :=
  match n with
  | O => Ret lp
  | S n =>
    let* lp := set_round (head oldHooks) (head hookSets) lp in
    set_rounds n (tail oldHooks) (tail hookSets) lp
  end.

(** ** The rest of [setHook] *)

Definition computeHookReserve (h : hook_obj) : Z :=
  if negb (present (hook_HookHash h)) then 0
  else 1 + lenZ (default [] (hook_HookParameters h)) + lenZ (default [] (HookGrants h)).

Definition chain_reserve (hs : list hook_obj) : Z :=
  foldr (fun h n => computeHookReserve h + n) 0 (take (Z.to_nat maxHookChainLength) hs).

(** The definitions on the ledger: those inserted or updated as the loop left them,
    the others as they were, without those that lost their last reference. *)
Definition unreferenced (d : hook_def) : bool :=
  match def_ReferenceCount d with Some refCount => refCount <=? 0 | None => true end.

Definition write_definitions (lp : set_loop) (defs : gmap Z hook_def) : gmap Z hook_def :=
  let table := lp_insert lp ∪ lp_cache lp in
  let written := filter (fun p => p.1 ∈ dom (lp_insert lp) ∪ lp_update lp) table in
  let erased (hash : Z) := bool_decide (hash ∈ lp_destroy lp) &&
                           match table !! hash with Some d => unreferenced d | None => false end in
  filter (fun p => erased p.1 = false) (written ∪ defs).

Fixpoint destroy_namespaces (result : ter) (nss : list Z) (led : ledger) : outcome ter (ter * ledger) :=
  match nss with
  | [] => Ret (result, led)
  | ns :: nss =>
    match destroyNamespace (fixNSDelete r) led account ns with
    | Ret (result, led) => destroy_namespaces result nss led
    | Exit (result, led) => Ret (result, led)
    | Throw x => Throw x
    | Undef u => Undef u
    | Timeout => Timeout
    end
  end.

(** The ledger with the owner directories and, per account with hooks, the page of
    that directory with its hook object ([sfOwnerNode]). An owner directory is listed
    under its account. *)
Record hook_view := mkHookView {
  hv_ledger : ledger;
  hv_ownerDirs : gmap Z directory;
  hv_ownerNodes : gmap Z Z
}.

Definition set_definitions (defs : gmap Z hook_def) (led : ledger) : ledger :=
  mkLedger (fixXahauV1 led) (fixPageCap led) (fees led) (accounts led) (states led) (dirs led) (hooks led) defs.
Definition set_hooks (hs : gmap Z (list hook_obj)) (led : ledger) : ledger :=
  mkLedger (fixXahauV1 led) (fixPageCap led) (fees led) (accounts led) (states led) (dirs led) hs (definitions led).

Definition owner_dir (v : hook_view) : directory := default ∅ (hv_ownerDirs v !! account).

(** The hook object of the account is deleted, updated or created. *)
Definition write_hooks (hookKeylet : Z) (newHooks : list hook_obj) (v : hook_view) : outcome ter hook_view :=
  let led := hv_ledger v in
  let newHooksEmpty := negb (existsb (fun h => present (hook_HookHash h)) newHooks) in
  let with_dir d nodes hs := mkHookView (set_hooks hs led) (<[account := d]> (hv_ownerDirs v)) nodes in
  match hooks led !! account with
  | Some _ =>
    let hint := default 0 (hv_ownerNodes v !! account) in
    if newHooksEmpty then
      let* '(ok, d) := dirRemove (owner_dir v) hint hookKeylet false in
      if negb ok then Exit tefBAD_LEDGER
      else Ret (with_dir d (delete account (hv_ownerNodes v)) (delete account (hooks led)))
    else
      Ret (mkHookView (set_hooks (<[account := newHooks]> (hooks led)) led) (hv_ownerDirs v)
             (<[account := if fixXahauV1 led then hint else 0]> (hv_ownerNodes v)))
  | None =>
    if newHooksEmpty then Ret v
    else
      let* '(page, d) := dirInsert (fixPageCap led) (owner_dir v) hookKeylet in
      match page with
      | None => Exit tecDIR_FULL
      | Some page => Ret (with_dir d (<[account := page]> (hv_ownerNodes v)) (<[account := newHooks]> (hooks led)))
      end
  end.

(** The reserve that the new hooks need, and the change of the owner count. *)
Definition reserve_delta (led : ledger) (mSourceBalance : Z) (oldHooks newHooks : list hook_obj)
    : outcome ter Z :=
  match accounts led !! account with
  | None => Undef UB_null
  | Some accountSLE =>
    let reserveDelta := chain_reserve newHooks - chain_reserve oldHooks in
    let newOwnerCount := OwnerCount accountSLE + reserveDelta in
    if (newOwnerCount <? 0) || (0xFFFFFFFF <? newOwnerCount) then Exit tefINTERNAL
    else if mSourceBalance <? accountReserve (fees led) newOwnerCount then Exit tecINSUFFICIENT_RESERVE
    else Ret reserveDelta
  end.

Definition adjust_account (reserveDelta : Z) (led : ledger) : outcome ter ledger :=
  if reserveDelta =? 0 then Ret led
  else
    match accounts led !! account with
    | None => Undef UB_null
    | Some accountSLE => Ret (set_account account (adjustOwnerCount accountSLE reserveDelta) led)
    end.

Definition setHook (hookKeylet mSourceBalance : Z) (hookSets : list hook_set) (v : hook_view)
    : outcome ter (ter * hook_view) :=
  let led := hv_ledger v in
  let oldHooks := default [] (hooks led !! account) in
  let* lp := set_rounds (Nat.max (length oldHooks) (length hookSets)) oldHooks hookSets
               (mkLoop (definitions led) ∅ ∅ ∅ ∅ []) in
  let* reserveDelta := reserve_delta led mSourceBalance oldHooks (lp_hooks lp) in
  let* '(nsDeleteResult, led) :=
    destroy_namespaces tesSUCCESS (merge_sort Z.le (elements (lp_namespaces lp))) led in
  let led := set_definitions (write_definitions lp (definitions led)) led in
  let* v := write_hooks hookKeylet (lp_hooks lp) (mkHookView led (hv_ownerDirs v) (hv_ownerNodes v)) in
  let* led := adjust_account reserveDelta (hv_ledger v) in
  Ret (nsDeleteResult, mkHookView led (hv_ownerDirs v) (hv_ownerNodes v)).

End SetHook.
