(* ===== verification/SetHookParams.v ===== *)
(** * SetHook: the parameters of a hook

    What a hook sees of its parameters after [updateHookParameters]: a value that is
    given, nothing for an empty value, the default of the definition for an absent
    value, and what it saw before for a name that is not mentioned. *)

From S2P Require Import Prelude HookEnum LedgerDir HookState HookContext HookChain SetHookTx SetHookApply.

(** A parameter as [hook_param] returns it: an empty value does not exist. *)
Definition nonempty (v : option (list Z)) : option (list Z) :=
  match v with Some (x :: v) => Some (x :: v) | _ => None end.

(** What a hook sees of the parameter [n] without overrides. *)
Definition effective (d : hook_def) (custom : option (list (list Z * list Z))) (n : list Z) : option (list Z) :=
  match gatherHookParameters d (mkHook None None None None None None custom) with
  | Some m => nonempty (m !! n)
  | None => None
  end.

(** The value that the entry gives for a name: the last one of the list. *)
Definition given (ps : option (list param_obj)) (n : list Z) : option (option (list Z)) :=
  override_params (tx_params ps) ∅ !! n.

Lemma override_params_union ps m : override_params ps m = override_params ps ∅ ∪ m.
Proof.
  unfold override_params. revert m. induction ps as [|[n v] ps IH] using rev_ind; intros m; [simpl; by rewrite (left_id_L ∅ (∪))|].
  rewrite !foldl_app. simpl. by rewrite IH, insert_union_l.
Qed.

Lemma add_params_union ps m : add_params ps m = add_params ps ∅ ∪ m.
Proof.
  unfold add_params. revert m. induction ps as [|[n v] ps IH] using rev_ind; intros m; [simpl; by rewrite (left_id_L ∅ (∪))|].
  rewrite !foldl_app. simpl. by rewrite IH, insert_union_l.
Qed.

Lemma override_old ps n :
  override_params (map (fun p => (p.1, Some p.2)) ps) ∅ !! n = Some <$> add_params ps ∅ !! n.
Proof.
  unfold override_params, add_params. induction ps as [|[x v] ps IH] using rev_ind; [simpl; by rewrite !lookup_empty|].
  rewrite map_app, !foldl_app. simpl. destruct (decide (n = x)) as [->|Hx].
  - by rewrite !lookup_insert_eq.
  - by rewrite !lookup_insert_ne by done.
Qed.

Lemma add_params_nodup ps n v :
  NoDup (map fst ps) -> add_params ps ∅ !! n = Some v <-> (n, v) ∈ ps.
Proof.
  unfold add_params. induction ps as [|[x w] ps IH] using rev_ind; [intros; simpl; rewrite lookup_empty; set_solver|].
  rewrite map_app, NoDup_app. intros (Hnd & Hx & _). rewrite foldl_app. simpl.
  specialize (IH Hnd). destruct (decide (n = x)) as [->|Hne].
  - rewrite lookup_insert_eq. split; [intros [= ->]; set_solver|]. intros [Hin|Hin]%elem_of_app.
    + exfalso. apply (Hx x); [|set_solver]. apply list_elem_of_fmap. by exists (x, v).
    + by apply list_elem_of_singleton in Hin as [= ->].
  - rewrite lookup_insert_ne by done. rewrite IH. set_solver.
Qed.

(** ** The defaults of the definition *)

Definition against (dv : option (list Z)) (pv : option (option (list Z))) : option (option (list Z)) :=
  match dv, pv with
  | Some _, Some None => None
  | Some v, Some (Some p) => if bool_decide (p = v) then None else Some (Some p)
  | _, _ => pv
  end.

Lemma against_default_step m blanks x w :
  let '(m', blanks') := against_default (m, blanks) (x, w) in
  (forall n, n <> x -> m' !! n = m !! n /\ (n ∈ blanks' <-> n ∈ blanks)) /\
  m' !! x = against (Some w) (m !! x) /\ (x ∈ blanks' <-> x ∈ blanks \/ (w <> [] /\ m !! x = Some (Some []))).
Proof.
  unfold against_default, against. destruct (m !! x) as [[pv|]|] eqn:E; [case_bool_decide; [|destruct pv as [|c pv]]| |]; simpl.
  - subst pv. split_and!; [intros n Hn; by rewrite lookup_delete_ne|apply lookup_delete_eq|]. naive_solver.
  - split_and!; [intros n Hn; split; [done|set_solver]|done|]. set_solver.
  - split_and!; [done|done|]. naive_solver.
  - split_and!; [intros n Hn; by rewrite lookup_delete_ne|apply lookup_delete_eq|]. naive_solver.
  - split_and!; [done|done|]. naive_solver.
Qed.

Lemma add_params_snoc ps x w : add_params (ps ++ [(x, w)]) ∅ = <[x := w]> (add_params ps ∅).
Proof. unfold add_params. by rewrite foldl_app. Qed.

Lemma against_default_spec defs m : NoDup (map fst defs) ->
  let '(m', blanks) := foldl against_default (m, ∅) defs in
  (forall n, m' !! n = against (add_params defs ∅ !! n) (m !! n)) /\
  (forall n, n ∈ blanks <-> exists v, add_params defs ∅ !! n = Some v /\ v <> [] /\ m !! n = Some (Some [])).
Proof.
  induction defs as [|[x w] defs IH] using rev_ind.
  { intros _. simpl. unfold add_params, against. simpl. setoid_rewrite lookup_empty. split; [done|set_solver]. }
  rewrite map_app, NoDup_app. intros (Hnd & Hx & _). rewrite foldl_app. specialize (IH Hnd).
  destruct (foldl against_default (m, ∅) defs) as [m' blanks]. destruct IH as [Hm Hb]. cbn [foldl].
  assert (Hnone : add_params defs ∅ !! x = None).
  { destruct (add_params defs ∅ !! x) as [v|] eqn:E; [|done]. apply add_params_nodup in E; [|done].
    exfalso. apply (Hx x); [|set_solver]. apply list_elem_of_fmap. by exists (x, v). }
  pose proof (against_default_step m' blanks x w) as Hstep.
  destruct (against_default (m', blanks) (x, w)) as [m2 b2]. destruct Hstep as (Hne & Hx2 & Hb2).
  rewrite add_params_snoc. rewrite Hm, Hnone in Hx2. rewrite Hb, Hm, Hnone in Hb2. cbn [against] in Hx2, Hb2.
  split; intros n; (destruct (decide (n = x)) as [->|Hn]; [rewrite lookup_insert_eq|rewrite lookup_insert_ne by done]).
  - done.
  - destruct (Hne n Hn) as [-> _]. apply Hm.
  - rewrite Hb2. split; [intros [(? & ? & _)|?]; [done|by exists w]|]. intros (v & [= ->] & ?). by right.
  - destruct (Hne n Hn) as [_ ->]. apply Hb.
Qed.

(** ** The list of the parameters *)

Lemma param_map_list_elem m n v : (n, v) ∈ param_map_list m <-> m !! n = Some v.
Proof. unfold param_map_list. rewrite merge_sort_Permutation. apply elem_of_map_to_list. Qed.

Lemma param_map_list_nodup m : NoDup (map fst (param_map_list m)).
Proof. unfold param_map_list. rewrite merge_sort_Permutation. apply NoDup_fst_map_to_list. Qed.

Record params_ok (ps : list (list Z * list Z)) : Prop := {
  po_count : lenZ ps <= 16;
  po_nodup : NoDup (map fst ps);
  po_size n v : (n, v) ∈ ps -> lenZ n <= maxHookParameterKeySize /\ lenZ v <= maxHookParameterValueSize
}.

Lemma new_params_spec ps l :
  new_params ps = Ret l -> Forall (fun p => is_Some p.2) ps ->
  map (fun p => (p.1, Some p.2)) l = ps /\
  forall n v, (n, v) ∈ l -> lenZ n <= maxHookParameterKeySize /\ lenZ v <= maxHookParameterValueSize.
Proof.
  revert l. induction ps as [|[n [v|]] ps IH]; intros l Hl Hall; simpl in Hl; inversion_clear Hall as [|? ? Hn Hps].
  - simplify_eq. split; [done|set_solver].
  - destruct (_ || _) eqn:Esz; [done|]. run_inv Hl. simplify_eq. destruct (IH _ Hrun Hps) as [Hm Hs].
    simpl. rewrite Hm. split; [done|].
    apply orb_false_iff in Esz as [??]. intros n' v' [[= -> ->]|Hin]%elem_of_cons; [lia|by apply Hs].
  - by destruct Hn.
Qed.

(** The parameters in the order of [std::map]. *)
Lemma new_params_map m l :
  new_params (param_map_list m) = Ret l -> (16 <? size m)%nat = false -> (forall n, m !! n <> Some None) ->
  params_ok l /\ forall n, Some <$> add_params l ∅ !! n = m !! n.
Proof.
  intros Hl Hsz Hsome. destruct (new_params_spec _ _ Hl) as [Hm Hs].
  { apply Forall_forall. intros [n v] Hin. apply param_map_list_elem in Hin. simpl.
    destruct v; [by eexists|by apply Hsome in Hin]. }
  assert (Hnd : NoDup (map fst l)).
  { pose proof (param_map_list_nodup m) as Hn. rewrite <- Hm, map_map in Hn. done. }
  split.
  - split; [|done|done]. apply Nat.ltb_ge in Hsz. unfold lenZ.
    assert (length l = size m) as ->; [|lia]. rewrite <- (length_map (fun p => (p.1, Some p.2)) l), Hm.
    unfold param_map_list. rewrite merge_sort_Permutation. by rewrite length_map_to_list.
  - intros n. destruct (m !! n) as [v|] eqn:E.
    + apply param_map_list_elem in E. rewrite <- Hm in E. apply list_elem_of_fmap in E as ([n' v'] & [= -> ->] & Hin).
      apply (add_params_nodup l n' v' Hnd) in Hin. by rewrite Hin.
    + destruct (add_params l ∅ !! n) as [v|] eqn:El; [|done]. exfalso.
      apply (add_params_nodup l n v Hnd) in El. assert (Hin : (n, Some v) ∈ param_map_list m).
      { rewrite <- Hm. apply list_elem_of_fmap. by exists (n, v). }
      apply param_map_list_elem in Hin. congruence.
Qed.

(** ** The parameters that the hook sees *)

(** What is left of the parameters [m] next to the defaults [defs]. *)
Definition kept_params (defs : list (list Z * list Z)) (m : gmap (list Z) (option (list Z)))
    : gmap (list Z) (option (list Z)) :=
  let '(m', blanks) := foldl against_default (m, ∅) defs in filter (param_kept blanks) m'.

Lemma kept_params_some defs m n : kept_params defs m !! n <> Some None.
Proof.
  unfold kept_params. destruct (foldl against_default (m, ∅) defs) as [m' blanks].
  intros [_ []]%map_lookup_filter_Some.
Qed.

Lemma kept_params_effective defs m n : NoDup (map fst defs) ->
  nonempty (match kept_params defs m !! n with Some (Some v) => Some v | _ => add_params defs ∅ !! n end) =
  nonempty (match m !! n with Some (Some v) => Some v | _ => add_params defs ∅ !! n end).
Proof.
  intros Hnd. unfold kept_params. pose proof (against_default_spec defs m Hnd) as Hspec.
  destruct (foldl against_default (m, ∅) defs) as [m' blanks]. destruct Hspec as [Hm Hb].
  destruct (m !! n) as [[pv|]|] eqn:Em; rewrite (map_lookup_filter _ m'), Hm, Em; unfold against; simpl.
  - specialize (Hb n). rewrite Em in Hb.
    destruct (add_params defs ∅ !! n) as [w|] eqn:Ew; simpl; [case_bool_decide; [by subst|]|]; simpl.
    + case_guard as Hk; simpl; [done|]. destruct pv; [|exfalso; apply Hk; by left]. destruct w; [done|].
      exfalso. apply Hk. right. apply Hb. by exists (z :: w).
    + case_guard as Hk; simpl; [done|]. destruct pv; [done|]. exfalso. apply Hk. by left.
  - by destruct (add_params defs ∅ !! n).
  - by destruct (add_params defs ∅ !! n).
Qed.

(** The call without its local names. *)
Lemma updateHookParameters_eq ps d defs old :
  def_HookParameters d = Some defs ->
  updateHookParameters ps (Some d) old =
  let m := kept_params defs (override_params (tx_params ps) (override_params (map (fun p => (p.1, Some p.2)) old) ∅)) in
  if (16 <? size m)%nat then Exit tecINTERNAL
  else let* l := new_params (param_map_list m) in Ret (if is_nil l then None else Some l).
Proof.
  intros Hd. unfold updateHookParameters, kept_params. rewrite Hd.
  set (m := override_params (tx_params ps) _). destruct (Nat.ltb_spec 0 (size m)); [by destruct (foldl against_default (m, ∅) defs)|].
  assert (m = ∅) as -> by (apply map_size_empty_inv; lia).
  assert (Hf : forall l, foldl against_default (∅, ∅) l = (∅, ∅)).
  { induction l as [|[x w] l IH]; [done|]. cbn [foldl]. unfold against_default at 2. by rewrite lookup_empty. }
  by rewrite Hf.
Qed.

Lemma updateHookParameters_spec ps d defs old new n :
  def_HookParameters d = Some defs -> NoDup (map fst defs) -> updateHookParameters ps (Some d) old = Ret new ->
  (forall l, new = Some l -> params_ok l) /\
  effective d new n =
    match given ps n with
    | Some (Some v) => nonempty (Some v)
    | Some None => effective d None n
    | None => effective d (Some old) n
    end.
Proof.
  intros Hd Hnd Hu. rewrite (updateHookParameters_eq ps d defs old Hd) in Hu. cbv zeta in Hu.
  destruct (16 <? _)%nat eqn:Esz; [done|]. run_inv Hu.
  destruct (new_params_map _ _ Hrun Esz (kept_params_some defs _)) as [Hok Hl]. specialize (Hl n).
  pose proof (kept_params_effective defs (override_params (tx_params ps) (override_params (map (fun p => (p.1, Some p.2)) old) ∅)) n Hnd) as Heff.
  assert (Hnew : effective d new n = nonempty (match Some <$> add_params v ∅ !! n with Some (Some x) => Some x | _ => add_params defs ∅ !! n end)).
  { unfold effective, gatherHookParameters. rewrite Hd. simplify_eq. destruct v as [|p v]; simpl is_nil; cbv iota; [done|].
    cbn [hook_HookParameters]. rewrite add_params_union, lookup_union. by destruct (add_params (p :: v) ∅ !! n), (add_params defs ∅ !! n). }
  split; [intros l; destruct v; intros; by simplify_eq/=|]. rewrite Hnew, Hl, Heff, override_params_union, lookup_union, override_old.
  unfold given, effective, gatherHookParameters. rewrite Hd. cbn [hook_HookParameters].
  rewrite (add_params_union old (add_params defs ∅)), (lookup_union (add_params old ∅)).
  by destruct (override_params (tx_params ps) ∅ !! n) as [[?|]|], (add_params old ∅ !! n), (add_params defs ∅ !! n).
Qed.
