(* ===== verification/SetHookNamespaces.v ===== *)
(** * SetHook: the deletion of a namespace

    The traversal of a directory ([cdirFirst], [cdirNext]) gives its keys, each once,
    and [destroyNamespace] on a well-formed ledger deletes the objects of the
    namespace, at most [maxNamespaceDelete] of them, and keeps the ledger
    well-formed. *)

From S2P Require Import Prelude HookEnum LedgerDir LedgerDirFacts HookState HookStateFacts SetHookTx SetHookApply.

(** ** The keys of a directory in the order of the traversal *)

Definition page_keys (d : directory) (p : Z) : list Z := default [] (idx_of d p).
Definition chain_keys (d : directory) (ps : list Z) : list Z := concat (map (page_keys d) ps).

Lemma chain_keys_cons d p ps : chain_keys d (p :: ps) = page_keys d p ++ chain_keys d ps.
Proof. done. Qed.

Lemma page_keys_elem d p k : k ∈ page_keys d p <-> in_page d p k.
Proof.
  unfold page_keys, in_page. destruct (idx_of d p) as [l|]; simpl; [naive_solver|].
  split; [by intros ?%elem_of_nil|by intros (? & ? & _)].
Qed.

Lemma chain_keys_elem d ps k : k ∈ chain_keys d ps <-> exists p, p ∈ ps /\ in_page d p k.
Proof.
  unfold chain_keys. induction ps as [|p ps IH]; [simpl; split; [by intros ?%elem_of_nil|by intros (? & ?%elem_of_nil & _)]|].
  cbn [map concat]. rewrite elem_of_app, IH, page_keys_elem. setoid_rewrite elem_of_cons. naive_solver.
Qed.

Lemma chain_keys_nodup d ps : dir_entries d -> NoDup ps -> NoDup (chain_keys d ps).
Proof.
  intros He. induction 1 as [|p ps Hp Hnd IH]; [constructor|]. rewrite chain_keys_cons. apply NoDup_app. split_and!.
  - unfold page_keys. destruct (idx_of d p) as [l|] eqn:E; simpl; [by eapply entries_nodup|constructor].
  - intros k Hk Hk'. apply page_keys_elem in Hk. apply chain_keys_elem in Hk' as (q & Hq & Hk').
    by rewrite (entries_unique d He p q k Hk Hk') in Hp.
  - done.
Qed.

(** The fuel of the traversals. *)
Lemma chain_keys_length d ps : NoDup ps -> (length (chain_keys d ps) <= dir_size d)%nat.
Proof.
  intros Hnd. revert d. induction Hnd as [|p ps Hp Hnd IH]; intros d; [simpl; lia|].
  rewrite chain_keys_cons, length_app. unfold page_keys, idx_of. destruct (d !! p) as [pg|] eqn:Ep; simpl.
  - unfold dir_size. rewrite (map_fold_delete_L _ _ p pg d) by (done || intros; lia). specialize (IH (delete p d)).
    unfold dir_size in IH. replace (chain_keys d ps) with (chain_keys (delete p d) ps); [lia|].
    unfold chain_keys. f_equal. apply map_ext_in. intros q Hq. apply list_elem_of_In in Hq. unfold page_keys, idx_of.
    rewrite lookup_delete_ne; [done|]. congruence.
  - apply IH.
Qed.

Lemma chain_length d ps : dir_chain d ps -> (length (0%Z :: ps) <= size d)%nat.
Proof.
  intros Hc. rewrite <- size_dom. rewrite <- (size_list_to_set (C := gset Z) (0 :: ps)) by by apply (chain_NoDup d).
  apply subseteq_size. intros p Hp%elem_of_list_to_set. apply elem_of_dom. apply idx_of_is_Some. by apply (chain_dom d ps Hc).
Qed.

(** The position [(pg, i)] is in the chain and [rem] are the keys from it on. *)
Definition at_pos (d : directory) (ps : list Z) (pg : dir_page) (i : nat) (rem : list Z) : Prop :=
  exists L p R, 0 :: ps = L ++ p :: R /\ d !! p = Some pg /\ rem = drop i (Indexes pg) ++ chain_keys d R.

Lemma at_pos_first d ps pg : d !! 0 = Some pg -> at_pos d ps pg 0 (chain_keys d (0 :: ps)).
Proof.
  intros Hpg. exists [], 0, ps. split_and!; [done|done|]. rewrite chain_keys_cons. unfold page_keys, idx_of. by rewrite Hpg.
Qed.

Lemma cdirNext_spec {E} d ps pg i rem fuel :
  dir_chain d ps -> at_pos d ps pg i rem -> (size d < fuel)%nat ->
  match rem with
  | [] => @cdirNext E fuel d pg i = Ret None
  | e :: rem => exists pg' i', @cdirNext E fuel d pg i = Ret (Some (e, pg', i')) /\ at_pos d ps pg' i' rem
  end.
Proof.
  intros Hc (L & p & R & EL & Hpg & Hrem) Hfuel.
  assert (HR : (length R < fuel)%nat).
  { pose proof (chain_length d ps Hc) as Hl. rewrite EL, length_app in Hl. simpl in Hl. lia. }
  clear Hfuel. revert L p pg i fuel EL Hpg Hrem HR. induction R as [|q R IH]; intros L p pg i fuel EL Hpg Hrem HR.
  all: destruct fuel as [|fuel]; [simpl in HR; lia|]; simpl; destruct (Indexes pg !! i) as [e|] eqn:Ei.
  1, 3: rewrite (drop_S _ _ _ Ei) in Hrem; rewrite Hrem; exists pg, (S i); split; [done|]; eexists L, p, _; split; [exact EL|by split].
  all: assert (Hdrop : drop i (Indexes pg) = []) by (apply drop_ge, lookup_ge_None; done); rewrite Hdrop in Hrem; simpl in Hrem.
  - assert (Hn : next_of d p = Some 0).
    { apply (chain_next d ps Hc). rewrite app_comm_cons, EL, <- app_assoc. apply adj_mid. }
    unfold next_of in Hn. rewrite Hpg in Hn. injection Hn as ->. by rewrite Hrem.
  - assert (Hn : next_of d p = Some q).
    { apply (chain_next d ps Hc). rewrite app_comm_cons, EL, <- app_assoc. apply adj_mid. }
    unfold next_of in Hn. rewrite Hpg in Hn. injection Hn as ->.
    assert (Hq : q ∈ ps).
    { destruct L as [|x L]; simplify_eq/=; set_solver. }
    assert (Hq0 : q <> 0) by (intros ->; pose proof (chain_NoDup d ps Hc) as Hnd; by apply NoDup_cons in Hnd as [? _]).
    destruct (Z.eqb_spec q 0); [done|].
    destruct (chain_page d ps q Hc) as [pq Hpq]; [by right|]. rewrite Hpq.
    apply (IH (L ++ [p]) q pq 0%nat fuel); [by rewrite <- app_assoc|done| |simpl in HR; lia].
    rewrite Hrem, chain_keys_cons. unfold page_keys, idx_of. by rewrite Hpq.
Qed.

(** ** The two loops *)

Section Facts.
Context `{KeyletsInj}.

(** The keys of a namespace that one call deletes, and whether some are left. *)
Definition batch (fixEnabled : bool) (keys : list Z) : list Z :=
  if fixEnabled then take (Z.to_nat maxNamespaceDelete) keys else keys.
Definition left_over (fixEnabled : bool) (keys : list Z) : bool :=
  fixEnabled && (maxNamespaceDelete <? lenZ keys).

Lemma collect_states_spec fixEnabled led d ps rem : dir_chain d ps -> forall fuel toDelete e pg i,
  Forall (fun x => is_Some (states led !! x)) (e :: rem) -> at_pos d ps pg i rem -> (length rem < fuel)%nat ->
  (fixEnabled = true -> lenZ toDelete <= maxNamespaceDelete) ->
  collect_states fuel fixEnabled led d toDelete e pg i =
  Ret (batch fixEnabled (toDelete ++ e :: rem), left_over fixEnabled (toDelete ++ e :: rem)).
Proof.
  intros Hc. induction rem as [|x rem IH]; intros fuel toDelete e pg i Hall Hpos Hfuel Hlen.
  all: destruct fuel as [|fuel]; [simpl in Hfuel; lia|]; cbn [collect_states].
  all: assert (Hcut : fixEnabled && (maxNamespaceDelete <=? lenZ toDelete) = true -> forall l,
         Ret (E := ter * ledger) (toDelete, true) = Ret (batch fixEnabled (toDelete ++ e :: l), left_over fixEnabled (toDelete ++ e :: l))).
  1, 3: intros [-> Hge]%andb_true_iff l; specialize (Hlen eq_refl); unfold batch, left_over, maxNamespaceDelete, lenZ in *;
    rewrite take_app_length' by lia; rewrite length_app; cbn [andb length]; do 2 f_equal; symmetry; apply Z.ltb_lt; lia.
  all: destruct (fixEnabled && (maxNamespaceDelete <=? lenZ toDelete)) eqn:Ecut; [by apply Hcut|clear Hcut].
  all: inversion_clear Hall as [|? ? [st He] Hall']; rewrite He; cbn [present negb].
  all: pose proof (cdirNext_spec (E := ter * ledger) d ps pg i _ (dir_fuel d) Hc Hpos ltac:(unfold dir_fuel; lia)) as Hnext.
  - rewrite Hnext. cbn [obind]. do 2 f_equal.
    + unfold batch. destruct fixEnabled; [|done]. unfold maxNamespaceDelete, lenZ in *. cbn [andb] in Ecut.
      rewrite take_ge; [done|]. rewrite length_app. simpl. lia.
    + unfold left_over, maxNamespaceDelete, lenZ in *. destruct fixEnabled; [|done]. cbn [andb] in *.
      rewrite length_app. simpl. symmetry. apply Z.ltb_ge. lia.
  - destruct Hnext as (pg' & i' & -> & Hpos'). cbn [obind].
    replace (toDelete ++ e :: x :: rem) with ((toDelete ++ [e]) ++ x :: rem) by (by rewrite <- app_assoc).
    apply IH; [done|done|simpl in Hfuel; lia|]. intros ->. cbn [andb] in Ecut. autorewrite with mach. lia.
Qed.

(** The keys in [l] are deleted from the directory [dk], which holds [m]. *)
Record deleted_keys (l : list Z) (dk : Z) (m : gmap Z Z) (B : Z) (led led' : ledger) : Prop := {
  dk_states x : states led' !! x = if decide (x ∈ l) then None else states led !! x;
  dk_repr : exists m', dir_repr (dir_at led' dk) m' /\ forall x, m' !! x = if decide (x ∈ l) then None else m !! x;
  dk_dirs k : k <> dk -> dir_at led' k = dir_at led k;
  dk_accounts : accounts led' = accounts led;
  dk_env : same_env led led';
  dk_pages : pages_small led' B
}.

Lemma lookup_delete_cons {A} (m : gmap Z A) x l y :
  (if decide (y ∈ l) then None else delete x m !! y) = if decide (y ∈ x :: l) then None else m !! y.
Proof.
  destruct (decide (y = x)) as [->|Hyx].
  - rewrite lookup_delete_eq, (decide_True (P := x ∈ x :: l)) by set_solver. by case_decide.
  - rewrite lookup_delete_ne by done. destruct (decide (y ∈ l)); [rewrite decide_True by set_solver|rewrite decide_False by set_solver]; done.
Qed.

Lemma delete_states_spec dk B l : forall led m,
  NoDup l -> dir_repr (dir_at led dk) m -> pages_small led B ->
  (forall x, x ∈ l -> exists st, states led !! x = Some st /\ m !! x = Some (OwnerNode st)) ->
  exists led', delete_states led dk l = Ret led' /\ deleted_keys l dk m B led led'.
Proof.
  induction l as [|x l IH]; intros led m Hnd Hr HP Hall; cbn [delete_states].
  - exists led. split; [done|]. split; try done. by exists m.
  - apply NoDup_cons in Hnd as [Hx Hnd]. destruct (Hall x) as (st & -> & Hm); [by left|].
    destruct (dir_repr_remove (E := ter * ledger) (dir_at led dk) m x (OwnerNode st) B Hr Hm (HP dk)) as (d & -> & Hr' & Hup).
    cbn [obind negb]. set (led1 := set_states _ _).
    assert (Hdir : forall k, dir_at led1 k = if decide (k = dk) then d else dir_at led k) by apply (dir_at_set_dir led).
    destruct (IH led1 (delete x m)) as (led' & Heq & [Hs (m' & Hr2 & Hm') Hd Ha He Hp]).
    + done.
    + by rewrite Hdir, decide_True.
    + intros k. rewrite Hdir. case_decide; [done|apply HP].
    + intros y Hy. destruct (Hall y) as (st' & Hst' & Hmy); [by right|]. exists st'.
      assert (y <> x) by congruence. unfold led1. simpl. by rewrite !lookup_delete_ne.
    + exists led'. split; [done|]. split.
      * intros y. rewrite Hs. apply lookup_delete_cons.
      * exists m'. split; [done|]. intros y. rewrite Hm'. apply lookup_delete_cons.
      * intros k Hk. rewrite Hd by done. rewrite Hdir. by rewrite decide_False.
      * done.
      * done.
      * done.
Qed.

(** ** [destroyNamespace] *)

(** The entries [ks] of the namespace are gone. *)
Record cleared (fixEnabled : bool) (B : Z) (led led' : ledger) (a ns : Z) (t : ter) (ks : list Z) (r r' : account_root) : Prop := {
  cl_wf : ledger_wf led';
  cl_state a' n' k' : state_of led' a' n' k' =
    if decide ((a', n') = (a, ns) /\ k' ∈ ks) then None else state_of led a' n' k';
  cl_accounts : accounts led' = <[a := r']> (accounts led);
  cl_balance : Balance r' = Balance r;
  cl_count : HookStateCount r' = HookStateCount r - lenZ ks;
  cl_owner : OwnerCount r' = OwnerCount r - (if fixEnabled then lenZ ks else 0);
  cl_result : (t = tesSUCCESS /\ forall k, state_of led' a ns k = None) \/
              (t = tesPARTIAL /\ fixEnabled = true /\ lenZ ks = maxNamespaceDelete /\ exists k, is_Some (state_of led' a ns k));
  cl_env : same_env led led';
  cl_pages : pages_small led' B
}.

(** The set of entries of an account after those of [ks]. *)
Lemma account_ok_clear led led' a ns ks r r' S :
  account_ok led a r S -> NoDup ks -> (forall k, k ∈ ks -> (ns, k) ∈ S) ->
  (forall n' k', state_of led' a n' k' = if decide (n' = ns /\ k' ∈ ks) then None else state_of led a n' k') ->
  HookStateCount r' = HookStateCount r - lenZ ks -> HookStateCount r' <= OwnerCount r' < 2 ^ 32 ->
  NoDup (namespaces r') ->
  (forall n', n' ∈ namespaces r' <-> n' ∈ namespaces r /\ (n' = ns -> exists k', is_Some (state_of led' a ns k'))) ->
  exists S', account_ok led' a r' S'.
Proof.
  intros HS Hnd Hin Hst Hc Ho Hndr Hns. set (R := list_to_set (map (pair ns) ks) : gset (Z * Z)).
  assert (HR : forall n k, (n, k) ∈ R <-> n = ns /\ k ∈ ks).
  { intros n k. unfold R. rewrite elem_of_list_to_set, list_elem_of_fmap. naive_solver. }
  assert (Hsub : R ⊆ S) by (intros [n k] Hk; apply HR in Hk as [-> Hk]; by apply Hin).
  assert (Hset : forall n k, (n, k) ∈ S ∖ R <-> is_Some (state_of led' a n k)).
  { intros n k. rewrite elem_of_difference, HR, (ok_set _ _ _ _ HS), Hst. case_decide; [|tauto].
    split; [tauto|by intros []]. }
  exists (S ∖ R). split; try done.
  - rewrite Hc, (ok_count _ _ _ _ HS), size_difference by done.
    assert (size R = length ks) as ->.
    { unfold R. rewrite size_list_to_set; [apply length_map|]. apply NoDup_fmap_2; [|done]. by intros ? ? [=]. }
    pose proof (subseteq_size _ _ Hsub) as Hsz. unfold R in Hsz. rewrite size_list_to_set, length_map in Hsz; [unfold lenZ; lia|].
    apply NoDup_fmap_2; [|done]. by intros ? ? [=].
  - intros n. rewrite Hns, (ok_ns _ _ _ _ HS). split.
    + intros [(k & Hk) Himp]. destruct (decide (n = ns)) as [->|Hne].
      * destruct (Himp eq_refl) as (k2 & Hk2). exists k2. by apply Hset.
      * exists k. apply elem_of_difference. rewrite HR. tauto.
    + intros (k & Hk). split; [exists k; set_solver|]. intros ->. exists k. by apply Hset.
Qed.

(** What deletion in a namespace has to establish. *)
Lemma wf_clear led led' a ns (ks : list Z) r r' :
  ledger_wf led -> accounts led !! a = Some r -> accounts led' = <[a := r']> (accounts led) ->
  (forall a' n' k', state_of led' a' n' k' = if decide ((a', n') = (a, ns) /\ k' ∈ ks) then None else state_of led a' n' k') ->
  (forall a' n' k', (a', n') <> (a, ns) -> states led' !! keylet_hookState a' k' n' = states led !! keylet_hookState a' k' n') ->
  (forall x, x <> keylet_hookStateDir a ns -> dir_at led' x = dir_at led x) ->
  (exists S, account_ok led' a r' S) -> (exists m, dir_ok led' a ns m) -> ledger_wf led'.
Proof.
  intros Hwf Ha Hacc Hst Hstates Hdir HS Hm.
  assert (Hother : forall a' n' k', (a', n') <> (a, ns) -> state_of led' a' n' k' = state_of led a' n' k').
  { intros a' n' k' Hne. rewrite Hst. rewrite decide_False; [done|]. by intros [? _]. }
  split.
  - intros a' r1. rewrite Hacc. destruct (decide (a' = a)) as [->|Hna].
    { rewrite lookup_insert_eq. by intros [= <-]. }
    rewrite lookup_insert_ne by done. intros (S & HS')%(wf_account led Hwf). exists S.
    split; [|apply HS'..]. intros n' k'. rewrite Hother by congruence. apply HS'.
  - intros a' n'. destruct (decide ((a', n') = (a, ns))) as [[= -> ->]|Hne]; [done|].
    destruct (wf_dir led Hwf a' n') as (m & [Hr Hp]). exists m. split.
    + rewrite Hdir; [done|]. intros Heq. apply hookStateDir_inj in Heq. naive_solver.
    + intros x p. rewrite Hp. split; intros (k & st & -> & Hx & Ho); exists k, st; [rewrite Hstates by done|rewrite Hstates in Hx by done]; done.
  - intros a' n' k'. rewrite Hacc, lookup_insert_is_Some', Hst. case_decide; [by intros []|]. intros Hs.
    right. by apply (wf_orphan led Hwf a' n' k').
  - intros a' n' k'. rewrite Hst. case_decide; [done|apply Hwf].
Qed.

(** A namespace without entries. *)
Lemma destroyNamespace_none fixEnabled led a ns r B :
  ledger_wf led -> accounts led !! a = Some r -> pages_small led B -> (forall k, state_of led a ns k = None) ->
  exists led' r', destroyNamespace fixEnabled led a ns = Ret (tesSUCCESS, led') /\
    cleared fixEnabled B led led' a ns tesSUCCESS [] r r'.
Proof.
  intros Hwf Ha HP Hnone. destruct (wf_dir led Hwf a ns) as (m & Hm). destruct (wf_account led Hwf a r Ha) as (S & HS).
  unfold destroyNamespace. rewrite Ha. cbv zeta.
  destruct (dir_exists led (keylet_hookStateDir a ns)) eqn:Ex.
  { apply (dir_exists_spec led a ns m Hm) in Ex as (k & Hk). rewrite Hnone in Hk. by destruct Hk. }
  cbn [negb orb]. set (r' := removeHookNamespaceEntry r ns). exists (set_account a r' led), r'. split; [done|].
  destruct (removeHookNamespaceEntry_frame r ns) as (Hb & Ho & Hc). fold r' in Hb, Ho, Hc.
  assert (Hst : forall a' n' k', state_of (set_account a r' led) a' n' k' =
    if decide ((a', n') = (a, ns) /\ k' ∈ @nil Z) then None else state_of led a' n' k').
  { intros a' n' k'. rewrite decide_False; [done|]. by intros [_ ?%elem_of_nil]. }
  split; try done.
  - apply (wf_clear led _ a ns [] r r'); try done; [|by exists m; destruct Hm; split].
    destruct (namespaces_remove r ns (ok_ns_nodup _ _ _ _ HS)) as [Hnd Hel]. pose proof (ok_owner _ _ _ _ HS).
    apply (account_ok_clear led _ a ns [] r r' S); try done.
    + constructor.
    + by intros k ?%elem_of_nil.
    + intros n' k'. rewrite Hst. by destruct (decide ((a, n') = (a, ns) /\ k' ∈ @nil Z)), (decide (n' = ns /\ k' ∈ @nil Z)); try naive_solver.
    + rewrite Hc, lenZ_nil. lia.
    + lia.
    + intros n'. unfold r'. rewrite Hel. split; [naive_solver|]. intros [Hin Himp]. split; [done|]. intros ->.
      destruct (Himp eq_refl) as (k & Hk). rewrite Hst, decide_False, Hnone in Hk; [by destruct Hk|by intros [_ ?%elem_of_nil]].
  - rewrite Hc, lenZ_nil. lia.
  - rewrite Ho, lenZ_nil. destruct fixEnabled; lia.
  - left. split; [done|]. intros k. rewrite Hst, Hnone. by case_decide.
Qed.

(** The directory of a namespace lists the keys of its entries. *)
Lemma namespace_keys led a ns m :
  dir_ok led a ns m -> dir_exists led (keylet_hookStateDir a ns) = true ->
  let d := dir_at led (keylet_hookStateDir a ns) in
  exists ps pg ks, dir_chain d ps /\ d !! 0 = Some pg /\ NoDup ks /\
    chain_keys d (0 :: ps) = map (fun k => keylet_hookState a k ns) ks /\
    (forall k, k ∈ ks <-> is_Some (state_of led a ns k)).
Proof.
  intros [Hr Hp] Hex d. fold d in Hr. destruct Hr as (Hwf & Hm & _).
  unfold dir_exists in Hex. apply bool_decide_eq_true in Hex as [pg Hpg]. fold d in Hpg. unfold rootPage in Hpg.
  destruct Hwf as [Hd|[[ps Hc] He]]; [by rewrite Hd in Hpg|].
  assert (Hel : forall x, x ∈ chain_keys d (0 :: ps) <-> is_Some (m !! x)).
  { intros x. rewrite chain_keys_elem. split.
    - intros (p & _ & Hx). apply Hm in Hx. by eexists.
    - intros [p Hx]. apply Hm in Hx. exists p. split; [|done]. apply (chain_dom d ps Hc). destruct Hx as (l & Hl & _). by eexists. }
  assert (Hks : exists ks, chain_keys d (0 :: ps) = map (fun k => keylet_hookState a k ns) ks).
  { assert (Hall : Forall (fun x => exists k, x = keylet_hookState a k ns) (chain_keys d (0 :: ps))).
    { apply Forall_forall. intros x [p Hx]%Hel. apply Hp in Hx as (k & _ & -> & _). by exists k. }
    clear Hel. induction Hall as [|x l [k ->] _ (ks & ->)]; [by exists []|by exists (k :: ks)]. }
  destruct Hks as (ks & Hks). exists ps, pg, ks. split_and!; try done.
  - pose proof (chain_keys_nodup d (0 :: ps) He (chain_NoDup d ps Hc)) as Hnd. rewrite Hks in Hnd. by apply NoDup_fmap_1 in Hnd.
  - intros k. transitivity (keylet_hookState a k ns ∈ chain_keys d (0 :: ps)).
    + rewrite Hks, list_elem_of_fmap. split; [intros ?; by exists k|]. intros (k' & Heq & ?).
      apply hookState_inj in Heq as (_ & -> & _). done.
    + rewrite Hel. unfold state_of. rewrite fmap_is_Some. split.
      * intros [p Hx]. apply Hp in Hx as (k' & st & Heq & Hs & _). apply hookState_inj in Heq as (_ & <- & _). by eexists.
      * intros [st Hs]. exists (OwnerNode st). apply Hp. by exists k, st.
Qed.

Lemma batch_map fixEnabled (f : Z -> Z) ks : batch fixEnabled (map f ks) = map f (batch fixEnabled ks).
Proof. unfold batch. destruct fixEnabled; [by rewrite <- fmap_take|done]. Qed.

Lemma batch_elem fixEnabled ks k : k ∈ batch fixEnabled ks -> k ∈ ks.
Proof. unfold batch. destruct fixEnabled; [|done]. intros Hk. by apply elem_of_take in Hk as (i & Hi & _); eapply list_elem_of_lookup_2. Qed.

Lemma batch_nodup fixEnabled (ks : list Z) : NoDup ks -> NoDup (batch fixEnabled ks).
Proof. unfold batch. destruct fixEnabled; [|done]. intros Hnd. rewrite <- (take_drop (Z.to_nat maxNamespaceDelete)) in Hnd. by apply NoDup_app in Hnd as (? & _). Qed.

(** The entries that are left. *)
Lemma batch_left fixEnabled (ks : list Z) : NoDup ks ->
  if left_over fixEnabled ks then lenZ (batch fixEnabled ks) = maxNamespaceDelete /\ exists k, k ∈ ks /\ k ∉ batch fixEnabled ks
  else batch fixEnabled ks = ks.
Proof.
  intros Hnd. unfold left_over, batch. destruct fixEnabled; cbn [andb]; [|done].
  set (n := Z.to_nat maxNamespaceDelete). assert (Hn : Z.of_nat n = maxNamespaceDelete) by done.
  destruct (Z.ltb_spec maxNamespaceDelete (lenZ ks)) as [Hlt|Hge]; unfold lenZ in *.
  - rewrite length_take. split; [lia|]. destruct (drop n ks) as [|k l] eqn:Ed.
    { apply (f_equal length) in Ed. rewrite length_drop in Ed. simpl in Ed. lia. }
    rewrite <- (take_drop n ks), Ed in Hnd. apply NoDup_app in Hnd as (_ & Hdis & _). exists k. split; [|intros Hk; apply (Hdis k Hk); by left].
    rewrite <- (take_drop n ks), Ed. set_solver.
  - apply take_ge. lia.
Qed.

Lemma confineOwnerCount_sub c n : 0 <= n <= c -> c < 2 ^ 32 -> confineOwnerCount c (- n) = c - n.
Proof.
  intros Hn Hc. unfold confineOwnerCount. rewrite u32_small by lia. destruct (Z.ltb_spec 0 (- n)); [lia|].
  destruct (Z.ltb_spec c (c + - n)); lia.
Qed.

(** The account root after [n] entries are deleted. *)
Definition cleared_root (fixEnabled : bool) (n : Z) (remove : bool) (ns : Z) (r : account_root) : account_root :=
  let r := set_HookStateCount (HookStateCount r - n) r in
  let r := if fixEnabled then set_OwnerCount (OwnerCount r - n) r else r in
  if remove then removeHookNamespaceEntry r ns else r.

Lemma cleared_root_fields fixEnabled n remove ns r :
  let r' := cleared_root fixEnabled n remove ns r in
  Balance r' = Balance r /\ HookStateCount r' = HookStateCount r - n /\
  OwnerCount r' = OwnerCount r - (if fixEnabled then n else 0).
Proof.
  unfold cleared_root. destruct remove; cbv zeta.
  - match goal with |- Balance (removeHookNamespaceEntry ?x ns) = _ /\ _ => destruct (removeHookNamespaceEntry_frame x ns) as (-> & -> & ->) end.
    destruct fixEnabled; simpl; lia.
  - destruct fixEnabled; simpl; lia.
Qed.

Lemma cleared_root_namespaces fixEnabled n remove ns r : NoDup (namespaces r) ->
  let r' := cleared_root fixEnabled n remove ns r in
  NoDup (namespaces r') /\ forall x, x ∈ namespaces r' <-> x ∈ namespaces r /\ (remove = true -> x <> ns).
Proof.
  intros Hnd r'. set (r1 := cleared_root fixEnabled n false ns r).
  assert (Hns : namespaces r1 = namespaces r) by (unfold r1, cleared_root; by destruct fixEnabled).
  assert (Hr' : r' = if remove then removeHookNamespaceEntry r1 ns else r1) by (unfold r', r1, cleared_root; by destruct fixEnabled, remove).
  rewrite Hr'. rewrite <- Hns in *. destruct remove.
  - destruct (namespaces_remove r1 ns Hnd) as [Hnd' Hel]. split; [done|]. intros x. rewrite Hel. naive_solver.
  - split; [done|]. naive_solver.
Qed.

(** What the call computes for a namespace with the entries [ks]. *)
Lemma destroyNamespace_run fixEnabled led a ns r m ps pg ks B :
  accounts led !! a = Some r -> dir_ok led a ns m -> dir_exists led (keylet_hookStateDir a ns) = true ->
  let d := dir_at led (keylet_hookStateDir a ns) in
  dir_chain d ps -> d !! 0 = Some pg -> NoDup ks -> ks <> [] ->
  chain_keys d (0 :: ps) = map (fun k => keylet_hookState a k ns) ks -> (forall k, k ∈ ks -> is_Some (state_of led a ns k)) ->
  lenZ ks <= HookStateCount r <= OwnerCount r -> OwnerCount r < 2 ^ 32 -> pages_small led B ->
  let l := map (fun k => keylet_hookState a k ns) (batch fixEnabled ks) in
  let part := left_over fixEnabled ks in
  exists led1, deleted_keys l (keylet_hookStateDir a ns) m B led led1 /\
    destroyNamespace fixEnabled led a ns =
      Ret (if part then tesPARTIAL else tesSUCCESS,
           set_account a (cleared_root fixEnabled (lenZ (batch fixEnabled ks)) (negb part) ns r) led1).
Proof.
  intros Ha Hm Hex d Hc Hpg Hnd Hne Hkeys Hall Hcnt Hown HP l part.
  pose proof (cdirNext_spec (E := ter * ledger) d ps pg 0 _ (dir_fuel d) Hc (at_pos_first d ps pg Hpg) ltac:(unfold dir_fuel; lia)) as Hfirst.
  destruct ks as [|k0 ks]; [done|]. rewrite Hkeys in Hfirst. cbn [map] in Hfirst.
  destruct Hfirst as (pg' & i' & Hfirst & Hpos).
  assert (Hst : forall k, k ∈ k0 :: ks -> exists st, states led !! keylet_hookState a k ns = Some st).
  { intros k Hk. apply Hall in Hk. unfold state_of in Hk. by apply fmap_is_Some in Hk. }
  destruct (delete_states_spec (keylet_hookStateDir a ns) B l led m) as (led1 & Hdel & Hspec).
  { apply NoDup_fmap_2; [|by apply batch_nodup]. intros x y Heq. by apply hookState_inj in Heq as (_ & ? & _). }
  { apply Hm. }
  { done. }
  { intros x Hx. apply list_elem_of_fmap in Hx as (k & -> & Hk). apply batch_elem in Hk. destruct (Hst k Hk) as [st Hs].
    exists st. split; [done|]. apply (ok_page _ _ _ _ Hm). by exists k, st. }
  exists led1. split; [done|]. unfold destroyNamespace. rewrite Ha. cbv zeta. fold d. rewrite Hex. cbn [negb orb].
  assert (dirIsEmpty d = false) as ->.
  { unfold dirIsEmpty, rootPage. rewrite Hpg. destruct (Indexes pg) eqn:Ei; [|done]. cbn [is_nil negb].
    destruct (next_page pg =? 0) eqn:En; [|done]. unfold dir_fuel in Hfirst. cbn [cdirNext] in Hfirst. by rewrite Ei, En in Hfirst. }
  unfold cdirFirst, rootPage. rewrite Hpg, Hfirst. cbn [obind].
  pose proof (chain_keys_length d (0 :: ps) (chain_NoDup d ps Hc)) as Hfuel. rewrite Hkeys, length_map in Hfuel. cbn [length] in Hfuel.
  rewrite (collect_states_spec fixEnabled led d ps (map (fun k => keylet_hookState a k ns) ks) Hc (S (dir_size d)) [] _ pg' i').
  2: { apply Forall_forall. intros x Hx. apply (list_elem_of_fmap (fun k => keylet_hookState a k ns) (k0 :: ks)) in Hx as (k & -> & Hk).
       by destruct (Hst k Hk) as [st ->]; eexists. }
  2: done.
  2: rewrite length_map; lia.
  2: intros _; done.
  cbn [obind app]. change (keylet_hookState a k0 ns :: map (fun k => keylet_hookState a k ns) ks) with (map (fun k => keylet_hookState a k ns) (k0 :: ks)).
  rewrite batch_map. fold l. rewrite Hdel. cbn [obind].
  assert (Hl : lenZ l = lenZ (batch fixEnabled (k0 :: ks))) by (unfold l, lenZ; by rewrite length_map).
  assert (Hle : 0 <= lenZ (batch fixEnabled (k0 :: ks)) <= lenZ (k0 :: ks)).
  { unfold batch, lenZ. destruct fixEnabled; [rewrite length_take; lia|lia]. }
  assert (Hpart : left_over fixEnabled (map (fun k => keylet_hookState a k ns) (k0 :: ks)) = part)
    by (unfold part, left_over, lenZ; by rewrite length_map).
  rewrite Hpart, Hl. set (n := lenZ (batch fixEnabled (k0 :: ks))) in *.
  rewrite u32_small by lia. destruct (Z.ltb_spec (HookStateCount r) (HookStateCount r - n)); [lia|].
  unfold cleared_root. do 3 f_equal. destruct fixEnabled; unfold adjustOwnerCount; cbn [OwnerCount set_HookStateCount].
  - rewrite confineOwnerCount_sub by lia. destruct part; [done|]. cbn [negb andb].
    destruct (HookNamespaces r) as [v|] eqn:En; cbn [HookNamespaces set_OwnerCount set_HookStateCount present]; rewrite En; [done|].
    unfold removeHookNamespaceEntry. simpl. by rewrite En.
  - destruct part; [done|]. cbn [negb andb].
    destruct (HookNamespaces r) as [v|] eqn:En; cbn [HookNamespaces set_OwnerCount set_HookStateCount present]; rewrite En; [done|].
    unfold removeHookNamespaceEntry. simpl. by rewrite En.
Qed.

(** The directory and the states after the keys of [l] are deleted. *)
Lemma deleted_state_of led led1 a ns m B (l : list Z) :
  deleted_keys (map (fun k => keylet_hookState a k ns) l) (keylet_hookStateDir a ns) m B led led1 ->
  forall a' n' k', state_of led1 a' n' k' = if decide ((a', n') = (a, ns) /\ k' ∈ l) then None else state_of led a' n' k'.
Proof.
  intros Hd a' n' k'. unfold state_of. rewrite (dk_states _ _ _ _ _ _ Hd).
  destruct (decide ((a', n') = (a, ns) /\ k' ∈ l)) as [[[= -> ->] Hk]|Hn].
  - rewrite decide_True; [done|]. apply list_elem_of_fmap. by exists k'.
  - rewrite decide_False; [done|]. intros (k & Heq & Hk)%list_elem_of_fmap. apply hookState_inj in Heq as (-> & -> & ->). by apply Hn.
Qed.

Lemma deleted_dir_ok led led1 a ns m B (l : list Z) :
  dir_ok led a ns m -> deleted_keys (map (fun k => keylet_hookState a k ns) l) (keylet_hookStateDir a ns) m B led led1 ->
  exists m', dir_ok led1 a ns m'.
Proof.
  intros [_ Hp] Hd. destruct (dk_repr _ _ _ _ _ _ Hd) as (m' & Hr & Hm'). exists m'. split; [done|]. intros x p.
  rewrite Hm', (dk_states _ _ _ _ _ _ Hd). case_decide; [|apply Hp]. split; [done|]. by intros (? & ? & _ & ? & _).
Qed.

Lemma account_ok_length led a r S ns ks :
  account_ok led a r S -> NoDup ks -> (forall k, k ∈ ks -> (ns, k) ∈ S) -> lenZ ks <= HookStateCount r.
Proof.
  intros HS Hnd Hin. rewrite (ok_count _ _ _ _ HS). unfold lenZ.
  rewrite <- (length_map (pair ns)), <- (size_list_to_set (C := gset (Z * Z))).
  - apply inj_le, subseteq_size. intros [n k]. rewrite elem_of_list_to_set, list_elem_of_fmap.
    intros (k' & [= -> ->] & Hk). by apply Hin.
  - apply NoDup_fmap_2; [|done]. by intros ? ? [=].
Qed.

Lemma destroyNamespace_spec fixEnabled led a ns r B :
  ledger_wf led -> accounts led !! a = Some r -> pages_small led B ->
  exists t led' ks r', destroyNamespace fixEnabled led a ns = Ret (t, led') /\ cleared fixEnabled B led led' a ns t ks r r'.
Proof.
  intros Hwf Ha HP. destruct (wf_dir led Hwf a ns) as (m & Hm). destruct (wf_account led Hwf a r Ha) as (S & HS).
  destruct (dir_exists led (keylet_hookStateDir a ns)) eqn:Hex.
  2: { destruct (destroyNamespace_none fixEnabled led a ns r B Hwf Ha HP) as (led' & r' & ? & ?); [|by exists tesSUCCESS, led', [], r'].
       intros k. apply eq_None_not_Some. intros Hk. assert (dir_exists led (keylet_hookStateDir a ns) = true); [|congruence].
       apply (dir_exists_spec led a ns m Hm). by exists k. }
  destruct (namespace_keys led a ns m Hm Hex) as (ps & pg & ks & Hc & Hpg & Hnd & Hkeys & Hall).
  assert (HinS : forall k, k ∈ ks <-> (ns, k) ∈ S) by (intros k; by rewrite Hall, (ok_set _ _ _ _ HS)).
  pose proof (ok_owner _ _ _ _ HS) as Hown.
  assert (Hlen : lenZ ks <= HookStateCount r) by (apply (account_ok_length led a r S ns ks HS Hnd); intros; by apply HinS).
  assert (Hne : ks <> []).
  { apply (dir_exists_spec led a ns m Hm) in Hex as (k & Hk). apply Hall in Hk. intros ->. by apply elem_of_nil in Hk. }
  destruct (destroyNamespace_run fixEnabled led a ns r m ps pg ks B) as (led1 & Hd & Heq); try done; [naive_solver|lia|lia|].
  pose proof (batch_left fixEnabled ks Hnd) as Hleft. set (l := batch fixEnabled ks) in *. set (part := left_over fixEnabled ks) in *.
  set (r' := cleared_root fixEnabled (lenZ l) (negb part) ns r) in *.
  destruct (cleared_root_fields fixEnabled (lenZ l) (negb part) ns r) as (Hb & Hcnt & Ho). fold r' in Hb, Hcnt, Ho.
  assert (Hst : forall a' n' k', state_of (set_account a r' led1) a' n' k' =
    if decide ((a', n') = (a, ns) /\ k' ∈ l) then None else state_of led a' n' k') by (apply (deleted_state_of _ _ _ _ m B l Hd)).
  assert (Hkeep : (exists k, is_Some (state_of (set_account a r' led1) a ns k)) <-> part = true).
  { destruct part.
    - destruct Hleft as (_ & k & Hk & Hkl). split; [done|]. intros _. exists k. rewrite Hst, decide_False by tauto. by apply Hall.
    - split; [|done]. intros (k & Hk). rewrite Hst in Hk. case_decide as Hdec; [by destruct Hk|]. exfalso. apply Hdec. split; [done|].
      rewrite Hleft. by apply Hall. }
  assert (Hfix : part = true -> fixEnabled = true) by (unfold part, left_over; by destruct fixEnabled).
  exists (if part then tesPARTIAL else tesSUCCESS), (set_account a r' led1), l, r'. split; [done|].
  assert (Hl : 0 <= lenZ l) by (unfold lenZ; lia).
  destruct (cleared_root_namespaces fixEnabled (lenZ l) (negb part) ns r (ok_ns_nodup _ _ _ _ HS)) as [Hndr Hns]. fold r' in Hndr, Hns.
  split; try done; [|by simpl; rewrite (dk_accounts _ _ _ _ _ _ Hd)| |apply Hd..].
  - apply (wf_clear led _ a ns l r r'); try done.
    + simpl. by rewrite (dk_accounts _ _ _ _ _ _ Hd).
    + intros a' n' k' Hne'. simpl. rewrite (dk_states _ _ _ _ _ _ Hd). rewrite decide_False; [done|].
      intros (k & Hk & _)%list_elem_of_fmap. apply hookState_inj in Hk as (-> & _ & ->). done.
    + apply Hd.
    + apply (account_ok_clear led _ a ns l r r' S); try done.
      * by apply batch_nodup.
      * intros k Hk. apply HinS. by eapply batch_elem.
      * intros n' k'. rewrite Hst. destruct (decide (n' = ns /\ k' ∈ l)) as [[-> ?]|Hn]; [by rewrite decide_True|].
        rewrite decide_False; [done|]. intros [[= ->] ?]. by apply Hn.
      * destruct fixEnabled; lia.
      * intros n'. rewrite Hns. rewrite Hkeep. destruct part; simpl; naive_solver.
    + destruct (deleted_dir_ok led led1 a ns m B l Hm Hd) as (m' & [? ?]). exists m'. by split.
  - destruct part; [right; split_and!; try done; [|apply Hleft|by apply Hkeep]|left; split; [done|]].
    + by apply Hfix.
    + intros k. apply eq_None_not_Some. intros Hk. assert (false = true); [|done]. apply Hkeep. by exists k.
Qed.

End Facts.
