(* ===== verification/SetHookRefs.v ===== *)
(** * SetHook: hook definitions and their references

    The invariant of the loop of [setHook]: the reference count of every definition
    is the number of hooks that use it, in the accounts, among the hooks still to be
    looked at and among the new ones; every change of a definition is one that will
    be written. *)

From S2P Require Import Prelude HookEnum GuardValidate LedgerDir Emission HookState HookContext HookChain SetHookTx SetHookApply.
From S2P Require Import SetHookParams.

(** ** Counting references *)

Definition hits (h : Z) (o : option Z) : Z := if decide (o = Some h) then 1 else 0.
Definition count_hash (h : Z) (hs : list hook_obj) : Z := foldr (fun x n => hits h (hook_HookHash x) + n) 0 hs.

(** The hooks of all accounts that use the definition. *)
Definition refs (m : gmap Z (list hook_obj)) (h : Z) : Z := map_fold (fun _ hs n => count_hash h hs + n) 0 m.

Lemma hits_range h o : 0 <= hits h o <= 1.
Proof. unfold hits. case_decide; lia. Qed.

Lemma hits_eq h : hits h (Some h) = 1.
Proof. unfold hits. by rewrite decide_True. Qed.
Lemma hits_ne h h' : h <> h' -> hits h (Some h') = 0.
Proof. intros ?. unfold hits. rewrite decide_False; congruence. Qed.
Lemma hits_none h : hits h None = 0.
Proof. done. Qed.

Lemma count_hash_range h hs : 0 <= count_hash h hs <= lenZ hs.
Proof.
  induction hs as [|x hs IH]; [done|]. rewrite lenZ_cons. simpl. pose proof (hits_range h (hook_HookHash x)). lia.
Qed.

Lemma count_hash_app h l l' : count_hash h (l ++ l') = count_hash h l + count_hash h l'.
Proof. induction l as [|x l IH]; [done|]. simpl. lia. Qed.

Lemma refs_insert m a hs h : m !! a = None -> refs (<[a := hs]> m) h = count_hash h hs + refs m h.
Proof. intros Ha. unfold refs. rewrite map_fold_insert_L; [done| |done]. intros. lia. Qed.

Lemma refs_delete m a h : refs m h = count_hash h (default [] (m !! a)) + refs (delete a m) h.
Proof.
  destruct (m !! a) as [hs|] eqn:Ha; simpl; [|by rewrite delete_id].
  rewrite <- (insert_delete_id m a hs Ha) at 1. by rewrite refs_insert by apply lookup_delete_eq.
Qed.

Lemma refs_nonneg m h : 0 <= refs m h.
Proof.
  unfold refs. apply (map_fold_weak_ind (fun n _ => 0 <= n)); [done|]. intros a hs m' n _ Hn. pose proof (count_hash_range h hs). lia.
Qed.

(** ** Definitions *)

#[global] Instance hook_def_eq_dec : EqDecision hook_def.
Proof. solve_decision. Defined.

(** The same definition but for the reference count. *)
Definition same_def (d d' : hook_def) : Prop := set_ReferenceCount 0 d = set_ReferenceCount 0 d'.

Lemma same_def_set d rc : same_def d (set_ReferenceCount rc d).
Proof. by destruct d. Qed.

(** The definition was accepted by the guard checker and WasmEdge under the rules
    [version]; its fees are the worst cases that the checker found. *)
Record def_checked (sha512Half : list Z -> Z) (validateWasm : list Z -> bool) (version : Z) (h : Z) (d : hook_def) : Prop := {
  dc_hash : sha512Half (def_CreateCode d) = h;
  dc_size : lenZ (def_CreateCode d) <= maxHookWasmSize;
  dc_wasm : validateWasm (def_CreateCode d) = true;
  dc_guards : exists maxHook maxCbak, validateGuards (def_CreateCode d) version = Ret (maxHook, maxCbak) /\
    def_Fee d = computeExecutionFee maxHook /\
    def_HookCallbackFee d = (if 0 <? maxCbak then Some (computeExecutionFee maxCbak) else None);
  dc_params : exists ps, def_HookParameters d = Some ps /\ params_ok ps;
  dc_version : def_HookApiVersion d = 0
}.

Lemma def_checked_same sha validateWasm version h d d' :
  same_def d d' -> def_checked sha validateWasm version h d -> def_checked sha validateWasm version h d'.
Proof. destruct d, d'. unfold same_def, set_ReferenceCount. simpl. intros [=]. subst. intros [? ? ? ? ? ?]. by split. Qed.

Lemma reduce_spec d rc : def_ReferenceCount d = Some rc -> 0 < rc ->
  reduceReferenceCount d = (rc - 1 <=? 0, set_ReferenceCount (rc - 1) d).
Proof. intros Hd Hrc. unfold reduceReferenceCount. rewrite Hd. by replace (0 <? rc) with true by lia. Qed.

Lemma increment_spec d rc : def_ReferenceCount d = Some rc -> 0 <= rc < 2 ^ 64 - 1 ->
  incrementReferenceCount d = set_ReferenceCount (rc + 1) d.
Proof.
  intros Hd Hrc. unfold incrementReferenceCount. rewrite Hd, u64_small by lia. by replace (rc + 1 =? 0) with false by lia.
Qed.

(** ** The table of the loop *)

Section Table.
Context (defs : gmap Z hook_def) (P : Z -> hook_def -> Prop) (Pset : forall h d rc, P h d -> P h (set_ReferenceCount rc d)).

(** [c h] is the number of references of [h]. *)
Record table_inv (c : Z -> Z) (lp : set_loop) : Prop := {
  ti_count h : match lookup_def lp h with Some d => def_ReferenceCount d = Some (c h) | None => c h = 0 end;
  ti_nonneg h : 0 <= c h;
  ti_disjoint h : is_Some (lp_cache lp !! h) -> lp_insert lp !! h = None;
  ti_insert h d : lp_insert lp !! h = Some d -> 0 < c h /\ P h d;
  ti_cache h d : lp_cache lp !! h = Some d ->
    exists d0, defs !! h = Some d0 /\ same_def d0 d /\ (d <> d0 -> 0 < c h -> h ∈ lp_update lp) /\ (c h = 0 -> h ∈ lp_destroy lp);
  ti_dom h : is_Some (defs !! h) -> is_Some (lp_cache lp !! h)
}.

(** The parts of the loop state that the table does not depend on. *)
Lemma table_inv_push c h lp : table_inv c lp -> table_inv c (push_hook h lp).
Proof. intros [? ? ? ? ? ?]. by split. Qed.
Lemma table_inv_namespace c ns lp : table_inv c lp -> table_inv c (mark_namespace ns lp).
Proof. intros [? ? ? ? ? ?]. by split. Qed.

Lemma table_inv_ext c c' lp : (forall h, c h = c' h) -> table_inv c lp -> table_inv c' lp.
Proof.
  intros Heq [H1 H2 H3 H4 H5 H6]. split; [|intros h; rewrite <- Heq; apply H2|done| | |done].
  - intros h. specialize (H1 h). rewrite <- Heq. done.
  - intros h d Hd. rewrite <- Heq. by apply H4.
  - intros h d Hd. rewrite <- Heq. by apply H5.
Qed.

Lemma table_inv_start c : (forall h, match defs !! h with Some d => def_ReferenceCount d = Some (c h) /\ 0 < c h | None => c h = 0 end) ->
  table_inv c (mkLoop defs ∅ ∅ ∅ ∅ []).
Proof.
  intros Hc. split; unfold lookup_def; simpl.
  - intros h. specialize (Hc h). destruct (defs !! h); [apply Hc|by rewrite lookup_empty].
  - intros h. specialize (Hc h). destruct (defs !! h); lia.
  - done.
  - by intros h d ?%lookup_empty_Some.
  - intros h d Hd. exists d. specialize (Hc h). rewrite Hd in Hc. split_and!; [done|done|done|lia].
  - done.
Qed.

(** A hook that uses the definition [hash] of the ledger is replaced. *)
Lemma release_inv c lp old hash :
  table_inv c lp -> hook_HookHash old = Some hash -> is_Some (defs !! hash) -> 0 < c hash ->
  table_inv (fun h => c h - hits h (Some hash)) (release_def (Some old) lp).
Proof.
  intros Hinv Hh Hdef Hc. destruct (ti_dom c lp Hinv hash Hdef) as [d Hd].
  unfold release_def, old_def. rewrite Hh, Hd.
  pose proof (ti_count c lp Hinv hash) as Hrc. unfold lookup_def in Hrc. rewrite Hd in Hrc.
  rewrite (reduce_spec d (c hash) Hrc Hc). unfold store_def. rewrite Hd. cbn [present].
  destruct (ti_cache c lp Hinv hash d Hd) as (d0 & Hd0 & Hsame & _ & _).
  set (lp1 := mkLoop _ _ _ _ _ _).
  set (lp' := if c hash - 1 <=? 0 then mark_destroy hash lp1 else mark_update hash lp1).
  assert (Hcache : lp_cache lp' = <[hash := set_ReferenceCount (c hash - 1) d]> (lp_cache lp)) by (unfold lp'; by destruct (_ <=? 0)).
  assert (Hins : lp_insert lp' = lp_insert lp) by (unfold lp'; by destruct (_ <=? 0)).
  assert (Hup : lp_update lp ⊆ lp_update lp' /\ (0 < c hash - 1 -> hash ∈ lp_update lp')).
  { unfold lp'. destruct (Z.leb_spec (c hash - 1) 0); simpl; split; [done|lia|set_solver|set_solver]. }
  assert (Hde : lp_destroy lp ⊆ lp_destroy lp' /\ (c hash - 1 = 0 -> hash ∈ lp_destroy lp')).
  { unfold lp'. destruct (Z.leb_spec (c hash - 1) 0); simpl; split; [set_solver|set_solver|done|lia]. }
  clearbody lp'. clear lp1. split.
  - intros h. unfold lookup_def. rewrite Hcache, Hins. destruct (decide (h = hash)) as [->|Hne].
    + rewrite lookup_insert_eq, hits_eq. done.
    + rewrite lookup_insert_ne by done. rewrite hits_ne, Z.sub_0_r by done. apply (ti_count c lp Hinv h).
  - intros h. pose proof (ti_nonneg c lp Hinv h). destruct (decide (h = hash)) as [->|Hne]; [rewrite hits_eq|rewrite hits_ne by done]; lia.
  - intros h. rewrite Hcache, Hins. destruct (decide (h = hash)) as [->|Hne].
    + intros _. apply (ti_disjoint c lp Hinv). by eexists.
    + rewrite lookup_insert_ne by done. apply (ti_disjoint c lp Hinv).
  - intros h dx. rewrite Hins. intros Hx. destruct (ti_insert c lp Hinv h dx Hx) as [Hp HP]. rewrite hits_ne; [split; [lia|done]|].
    intros ->. by rewrite (ti_disjoint c lp Hinv hash) in Hx by (by eexists).
  - intros h dx. rewrite Hcache. destruct (decide (h = hash)) as [->|Hne].
    + rewrite lookup_insert_eq. intros [= <-]. exists d0. rewrite hits_eq. split_and!; [done| |naive_solver|naive_solver].
      etransitivity; [exact Hsame|apply same_def_set].
    + rewrite lookup_insert_ne by done. rewrite hits_ne, Z.sub_0_r by done. intros Hx.
      destruct (ti_cache c lp Hinv h dx Hx) as (dy & ? & ? & ? & ?). exists dy. set_solver.
  - intros h Hx. rewrite Hcache. apply lookup_insert_is_Some'. right. by apply (ti_dom c lp Hinv).
Qed.

(** A hook that uses the definition [hash] is added. *)
Lemma install_inv c lp hash d :
  table_inv c lp -> lookup_def lp hash = Some d -> c hash < 2 ^ 64 - 1 ->
  table_inv (fun h => c h + hits h (Some hash)) (mark_update hash (store_def hash (incrementReferenceCount d) lp)).
Proof.
  intros Hinv Hd Hc. pose proof (ti_count c lp Hinv hash) as Hrc. rewrite Hd in Hrc. pose proof (ti_nonneg c lp Hinv) as Hnn.
  rewrite (increment_spec d (c hash) Hrc) by (specialize (Hnn hash); lia). set (d' := set_ReferenceCount (c hash + 1) d).
  set (lp' := mark_update hash (store_def hash d' lp)).
  assert (Hlook : forall h, lookup_def lp' h = if decide (h = hash) then Some d' else lookup_def lp h).
  { intros h. unfold lp', lookup_def, store_def, insert_def, mark_update. destruct (lp_cache lp !! hash) as [dc|] eqn:Ec; simpl.
    - case_decide as Hh; [subst; by rewrite lookup_insert_eq|by rewrite lookup_insert_ne].
    - case_decide as Hh; [subst; by rewrite Ec, lookup_insert_eq|by rewrite lookup_insert_ne]. }
  assert (Hrest : lp_update lp' = {[hash]} ∪ lp_update lp /\ lp_destroy lp' = lp_destroy lp) by (unfold lp', store_def; by destruct (present _)).
  destruct Hrest as [Hup Hde].
  assert (Hparts : (is_Some (lp_cache lp !! hash) /\ lp_cache lp' = <[hash := d']> (lp_cache lp) /\ lp_insert lp' = lp_insert lp) \/
                   (lp_cache lp !! hash = None /\ lp_cache lp' = lp_cache lp /\ lp_insert lp' = <[hash := d']> (lp_insert lp))).
  { unfold lp', store_def. destruct (lp_cache lp !! hash); [left|right]; simpl; split; [by eexists|done..]. }
  clearbody lp'. split.
  - intros h. rewrite Hlook. destruct (decide (h = hash)) as [->|Hne]; [by rewrite hits_eq|]. rewrite hits_ne, Z.add_0_r by done. apply Hinv.
  - intros h. specialize (Hnn h). pose proof (hits_range h (Some hash)). lia.
  - intros h Hx. destruct Hparts as [(Hs & Ec & Ei)|(Hn & Ec & Ei)]; rewrite Ei; rewrite Ec in Hx.
    + apply lookup_insert_is_Some' in Hx. apply (ti_disjoint c lp Hinv). by destruct Hx as [<-|Hx].
    + rewrite lookup_insert_ne by (intros ->; rewrite Hn in Hx; by destruct Hx). by apply (ti_disjoint c lp Hinv).
  - intros h dx Hx. destruct Hparts as [(Hs & Ec & Ei)|(Hn & Ec & Ei)]; rewrite Ei in Hx; pose proof (hits_range h (Some hash)).
    + destruct (ti_insert c lp Hinv h dx Hx). split; [lia|done].
    + apply lookup_insert_Some in Hx as [[<- <-]|[Hne Hx]].
      * unfold lookup_def in Hd. rewrite Hn in Hd. destruct (ti_insert c lp Hinv hash d Hd) as [Hp HP]. split; [lia|].
        by apply (Pset hash d).
      * destruct (ti_insert c lp Hinv h dx Hx). split; [lia|done].
  - intros h dx Hx. rewrite Hup, Hde. destruct Hparts as [(Hs & Ec & Ei)|(Hn & Ec & Ei)]; rewrite Ec in Hx.
    + apply lookup_insert_Some in Hx as [[<- <-]|[Hne Hx]].
      * destruct Hs as [dc Hs]. unfold lookup_def in Hd. rewrite Hs in Hd. injection Hd as ->.
        destruct (ti_cache c lp Hinv hash d Hs) as (d0 & ? & Hsame & _ & _). exists d0. split_and!; [done| |set_solver|].
        { etransitivity; [exact Hsame|apply same_def_set]. }
        rewrite hits_eq. specialize (Hnn hash). lia.
      * destruct (ti_cache c lp Hinv h dx Hx) as (d0 & ? & ? & ? & ?). exists d0. rewrite hits_ne, Z.add_0_r by done. set_solver.
    + assert (h <> hash) by congruence. destruct (ti_cache c lp Hinv h dx Hx) as (d0 & ? & ? & ? & ?). exists d0.
      rewrite hits_ne, Z.add_0_r by done. set_solver.
  - intros h Hx. apply (ti_dom c lp Hinv) in Hx. destruct Hparts as [(Hs & -> & _)|(_ & -> & _)]; [|done].
    apply lookup_insert_is_Some'. by right.
Qed.

(** A new definition with its first hook. *)
Lemma insert_inv c lp hash d :
  table_inv c lp -> lookup_def lp hash = None -> P hash d -> def_ReferenceCount d = Some 1 ->
  table_inv (fun h => c h + hits h (Some hash)) (insert_def hash d lp).
Proof.
  intros Hinv Hnone HP Hrc. unfold lookup_def in Hnone. destruct (lp_cache lp !! hash) eqn:Ec; [done|].
  pose proof (ti_count c lp Hinv hash) as H0. unfold lookup_def in H0. rewrite Ec, Hnone in H0. split; simpl.
  - intros h. unfold lookup_def. simpl. destruct (decide (h = hash)) as [->|Hne].
    + by rewrite Ec, lookup_insert_eq, hits_eq, H0.
    + rewrite lookup_insert_ne by done. rewrite hits_ne, Z.add_0_r by done. apply (ti_count c lp Hinv).
  - intros h. pose proof (ti_nonneg c lp Hinv h). pose proof (hits_range h (Some hash)). lia.
  - intros h Hx. rewrite lookup_insert_ne by (intros ->; rewrite Ec in Hx; by destruct Hx). by apply (ti_disjoint c lp Hinv).
  - intros h dx [[<- <-]|[Hne Hx]]%lookup_insert_Some; [rewrite hits_eq; split; [lia|done]|].
    destruct (ti_insert c lp Hinv h dx Hx). pose proof (hits_range h (Some hash)). split; [lia|done].
  - intros h dx Hx. destruct (ti_cache c lp Hinv h dx Hx) as (d0 & ? & ? & ? & ?). exists d0.
    rewrite hits_ne, Z.add_0_r by congruence. done.
  - apply Hinv.
Qed.

(** The definitions that are written: those with references. *)
Lemma write_definitions_spec c lp h :
  table_inv c lp -> write_definitions lp defs !! h = (d ← lookup_def lp h; if decide (c h = 0) then None else Some d).
Proof.
  intros Hinv. unfold write_definitions. rewrite map_lookup_filter, lookup_union, map_lookup_filter, lookup_union.
  cbn [fst]. set (e := bool_decide (h ∈ lp_destroy lp) && _).
  assert (He : e = bool_decide (h ∈ lp_destroy lp) && match lp_insert lp !! h ∪ lp_cache lp !! h with Some d => unreferenced d | None => false end)
    by (unfold e; by rewrite lookup_union).
  clearbody e. pose proof (ti_count c lp Hinv h) as Hrc. unfold lookup_def in *. destruct (lp_cache lp !! h) as [d|] eqn:Ec.
  - rewrite (ti_disjoint c lp Hinv h) in * by (by eexists). destruct (ti_cache c lp Hinv h d Ec) as (d0 & Hd0 & _ & Hu & Hz).
    rewrite Hd0. simpl in *. unfold unreferenced in He. rewrite Hrc in He. pose proof (ti_nonneg c lp Hinv h) as Hnn.
    destruct (decide (c h = 0)) as [Hc0|Hc0].
    + rewrite (bool_decide_true _ (Hz Hc0)) in He. replace (c h <=? 0) with true in He by lia. simpl in He. rewrite He.
      by case_guard; simpl; case_guard.
    + replace (c h <=? 0) with false in He by lia. rewrite andb_false_r in He. rewrite He.
      case_guard; [|by exfalso; auto]. case_guard as Hw; simpl; [done|]. destruct (decide (d = d0)) as [->|Hne]; [done|].
      exfalso. apply Hw. apply elem_of_union. right. apply Hu; [done|lia].
  - destruct (lp_insert lp !! h) as [d|] eqn:Ei; simpl in *.
    + destruct (ti_insert c lp Hinv h d Ei) as [Hp _]. rewrite (decide_False (P := c h = 0)) by lia.
      unfold unreferenced in He. rewrite Hrc in He. replace (c h <=? 0) with false in He by lia. rewrite andb_false_r in He. rewrite He.
      assert (h ∈ dom (lp_insert lp)) by (by eapply elem_of_dom_2).
      case_guard; [|by exfalso; auto]. case_guard as Hw; [|exfalso; set_solver]. by destruct (defs !! h).
    + destruct (defs !! h) as [d0|] eqn:Ed; [|done]. destruct (ti_dom c lp Hinv h) as [? Hx]; [by rewrite Ed; eexists|congruence].
Qed.

End Table.
