(* ===== verification/SetHookLoop.v ===== *)
(** * SetHook: the loop over the hooks

    A round of the loop never runs into an undefined operation when the entry of the
    transaction passed validation, and keeps the table of definitions in step with
    the hooks. *)

From S2P Require Import Prelude HookEnum GuardValidate LedgerDir HookState HookContext HookChain SetHookTx SetHookApply.
From S2P Require Import SetHookParams SetHookRefs.

(** ** Results

    [settles P m]: [m] returns a value with [P] or stops with a result that is not a
    success. *)

Definition settles {A} (P : A -> Prop) (m : outcome ter A) : Prop :=
  match m with Ret a => P a | Exit t => isTesSuccess t = false | _ => False end.

Lemma settles_bind {A B} (P : A -> Prop) (Q : B -> Prop) (m : outcome ter A) k :
  settles P m -> (forall a, P a -> settles Q (k a)) -> settles Q (obind m k).
Proof. destruct m; simpl; auto; done. Qed.

Lemma settles_mono {A} (P Q : A -> Prop) (m : outcome ter A) : settles P m -> (forall a, P a -> Q a) -> settles Q m.
Proof. destruct m; simpl; auto. Qed.

Lemma settles_ret {A} (P : A -> Prop) (m : outcome ter A) a : settles P m -> m = Ret a -> P a.
Proof. by intros H ->. Qed.

(** ** Entries that passed validation *)

Lemma grants_checked acc gs : validateHookGrants acc gs = Ret tt -> lenZ gs <= 8.
Proof. unfold validateHookGrants. destruct (Z.ltb_spec 8 (lenZ gs)); [done|lia]. Qed.

(** The parameters of the definition that the entry creates. *)
Definition def_params (ps : option (list param_obj)) : list (list Z * list Z) :=
  map (fun p => (p.1, default [] p.2)) (tx_params ps).

Lemma params_loop_spec ps : forall seen, params_loop seen ps = Ret tt ->
  let l := def_params (Some ps) in
  NoDup (map fst l) /\ (forall n, n ∈ map fst l -> n ∉ seen) /\
  (forall n v, (n, v) ∈ l -> lenZ n <= maxHookParameterKeySize /\ lenZ v <= maxHookParameterValueSize).
Proof.
  induction ps as [|p ps IH]; intros seen Hp; cbn [params_loop] in Hp.
  { split_and!; [constructor|by intros n ?%elem_of_nil|by intros n v ?%elem_of_nil]. }
  destruct (par_isHookParameter p); [|done]. destruct (par_otherField p); [done|]. cbn [negb] in Hp.
  destruct (par_Name p) as [n|] eqn:En; [|done]. destruct (_ || _) eqn:Esz; [done|]. case_bool_decide as Hseen; [done|].
  destruct (IH _ Hp) as (Hnd & Hfresh & Hsz).
  assert (Hl : def_params (Some (p :: ps)) = (n, default [] (par_Value p)) :: def_params (Some ps))
    by (unfold def_params, tx_params; simpl; by rewrite En).
  rewrite Hl. cbn [map fst]. apply orb_false_iff in Esz as [Hn Hv]. split_and!.
  - constructor; [|done]. intros Hin. apply Hfresh in Hin. set_solver.
  - intros x [->|Hx]%elem_of_cons; [done|]. apply Hfresh in Hx. set_solver.
  - intros x v [[= -> ->]|Hx]%elem_of_cons; [|by eapply Hsz]. split; [lia|].
    destruct (par_Value p); simpl; [lia|unfold maxHookParameterValueSize; rewrite lenZ_nil; lia].
Qed.

Lemma params_checked ps : validateHookParams ps = Ret tt -> params_ok (def_params (Some ps)).
Proof.
  unfold validateHookParams. destruct (Z.ltb_spec 16 (lenZ ps)); [done|]. intros Hp.
  destruct (params_loop_spec ps ∅ Hp) as (? & _ & ?). split; [|done|done].
  unfold def_params, tx_params, lenZ in *. simpl. rewrite !length_map. lia.
Qed.

Section Entry.
Context (validateWasm : list Z -> bool) (r : set_rules) (account : Z).

(** The entry was accepted by [preflight]. *)
Record entry_ok (o : hook_set) : Prop := {
  eo_valid : exists res, validateHookSetEntry validateWasm r account o = Ret res;
  eo_size : lenZ (default [] (hs_CreateCode o)) <= maxHookWasmSize
}.

Lemma entry_grants o : entry_ok o -> inferOperation o ∈ [hsoINSTALL; hsoUPDATE; hsoCREATE] ->
  lenZ (default [] (hs_HookGrants o)) <= 8.
Proof.
  intros [[res Hv] _] Hop. unfold validateHookSetEntry in Hv. destruct (hs_HookGrants o) as [gs|]; simpl; [|unfold lenZ; simpl; lia].
  destruct (inferOperation o); try (exfalso; set_solver); run_inv Hv;
    match goal with Hg : when (Some gs) _ = Ret ?u |- _ => destruct u; by apply (grants_checked account) end.
Qed.

(** What validation says of an entry that creates a definition. *)
Lemma entry_create o : entry_ok o -> inferOperation o = hsoCREATE ->
  exists maxHook maxCbak hookOn ns, validateHookSetEntry validateWasm r account o = Ret (Some (maxHook, maxCbak)) /\
    validateGuards (default [] (hs_CreateCode o)) (rulesVersion r) = Ret (maxHook, maxCbak) /\
    validateWasm (default [] (hs_CreateCode o)) = true /\
    hs_HookOn o = Some hookOn /\ hs_HookNamespace o = Some ns /\ default 0 (hs_HookApiVersion o) = 0 /\
    params_ok (def_params (hs_HookParameters o)).
Proof.
  intros [[res Hv] _] Hop. pose proof Hv as Hval. unfold validateHookSetEntry in Hv. rewrite Hop in Hv. run_inv Hv.
  unfold requires in *. destruct (hs_HookNamespace o) as [ns|]; [|done]. destruct (hs_HookOn o) as [hookOn|]; [|done].
  destruct (validateWasm (default [] (hs_CreateCode o))); [|done].
  destruct (Z.eqb_spec (default 0 (hs_HookApiVersion o)) 0); [|done].
  simplify_eq. eexists _, _, hookOn, ns. split_and!; try done.
  destruct (hs_HookParameters o) as [ps|]; simpl in *.
  - apply params_checked. by destruct v.
  - split; [done|constructor|by intros ? ? ?%elem_of_nil].
Qed.

End Entry.

(** ** The hooks of an account *)

Record hook_ok (x : hook_obj) : Prop := {
  ho_params ps : hook_HookParameters x = Some ps -> params_ok ps;
  ho_grants : lenZ (default [] (HookGrants x)) <= 8
}.

Lemma blank_hook_ok : hook_ok blank_hook.
Proof. split; [done|]. unfold lenZ. simpl. lia. Qed.

Lemma new_grants_length gs : lenZ (default [] (new_grants gs)) = lenZ (default [] gs).
Proof. unfold lenZ. destruct gs as [[|g gs]|]; simpl; [done| |done]. by rewrite length_map. Qed.

Lemma new_params_settles ps : settles (fun _ => True) (new_params ps).
Proof.
  induction ps as [|[n [v|]] ps IH]; cbn [new_params]; [done| |done]. destruct (_ || _); [done|].
  eapply settles_bind; [exact IH|done].
Qed.

Lemma updateHookParameters_settles ps d old :
  settles (fun new => forall l, new = Some l -> params_ok l) (updateHookParameters ps d old).
Proof.
  unfold updateHookParameters. cbv zeta. destruct (match match d with Some d => _ | None => _ end with Some _ => _ | None => _ end) as [m blanks].
  destruct (16 <? _)%nat eqn:Esz; [done|].
  pose proof (new_params_settles (param_map_list (filter (param_kept blanks) m))) as Ht.
  destruct (new_params _) as [l| | | |] eqn:El; simpl in *; try done.
  destruct (new_params_map _ _ El Esz) as [Hok _]; [intros n [_ []]%map_lookup_filter_Some|].
  intros l'. destruct l; [done|]. by intros [= <-].
Qed.

(** ** The rounds *)

Section Rounds.
Context `{Keylets} (sha512Half : list Z -> Z) (validateWasm : list Z -> bool) (r : set_rules) (account txID : Z).
Context (defs : gmap Z hook_def) (base : Z -> Z) (N : nat).

Abbreviation checked := (def_checked sha512Half validateWasm (rulesVersion r)).
Abbreviation tables := (table_inv defs checked).

Lemma checked_set h d rc : checked h d -> checked h (set_ReferenceCount rc d).
Proof. apply def_checked_same, same_def_set. Qed.

(** The references: in other accounts, in the hooks [R] still to be looked at and in
    the new hooks. *)
Definition ref_count (R hs : list hook_obj) (h : Z) : Z := base h + count_hash h R + count_hash h hs.

(** Before [n] more rounds of [N]. *)
Record round_inv (n : nat) (R : list hook_obj) (lp : set_loop) : Prop := {
  ri_table : tables (ref_count R (lp_hooks lp)) lp;
  ri_hooks : Forall hook_ok (lp_hooks lp);
  ri_old : Forall (fun x => hook_ok x /\ forall h, hook_HookHash x = Some h -> is_Some (defs !! h)) R;
  ri_rest : (length R <= n)%nat;
  ri_total : (length (lp_hooks lp) + n = N)%nat;
  ri_base h : 0 <= base h /\ base h + Z.of_nat n + lenZ (lp_hooks lp) < 2 ^ 64 - 1
}.

Definition hash_of (o : option hook_obj) : option Z := match o with Some x => hook_HookHash x | None => None end.

Lemma count_hash_head h R : count_hash h R = hits h (hash_of (head R)) + count_hash h (tail R).
Proof. by destruct R. Qed.

Lemma ref_count_push R hs x h : ref_count R (hs ++ [x]) h = ref_count R hs h + hits h (hook_HookHash x).
Proof. unfold ref_count. rewrite count_hash_app. simpl. lia. Qed.

(** A round that adds the hook [x] and has the table right for it. *)
Lemma round_push n R lp lp' x :
  round_inv (S n) R lp -> lp_hooks lp' = lp_hooks lp ++ [x] -> hook_ok x ->
  tables (fun h => ref_count (tail R) (lp_hooks lp) h + hits h (hook_HookHash x)) lp' ->
  round_inv n (tail R) lp'.
Proof.
  intros [_ Hh Ho Hr HN Hb] Hlp Hx Ht. split.
  - rewrite Hlp. eapply table_inv_ext; [|exact Ht]. intros h. by rewrite ref_count_push.
  - rewrite Hlp. apply Forall_app. split; [done|by constructor].
  - destruct R; [done|]. by inversion_clear Ho.
  - destruct R; simpl in *; lia.
  - rewrite Hlp, length_app. simpl. lia.
  - intros h. specialize (Hb h). rewrite Hlp. autorewrite with mach. lia.
Qed.

Lemma round_head n R lp x : round_inv n R lp -> head R = Some x ->
  hook_ok x /\ forall h, hook_HookHash x = Some h -> is_Some (defs !! h).
Proof. intros Hinv Hx. destruct R as [|y R]; [done|]. simplify_eq/=. by pose proof (ri_old _ _ _ Hinv) as Ho; inversion_clear Ho. Qed.

Lemma round_ref_bound n R lp h : round_inv (S n) R lp -> 0 <= ref_count (tail R) (lp_hooks lp) h < 2 ^ 64 - 1.
Proof.
  intros Hinv. pose proof (ri_base _ _ _ Hinv h) as Hb. pose proof (ri_rest _ _ _ Hinv) as Hr.
  pose proof (count_hash_range h (tail R)). pose proof (count_hash_range h (lp_hooks lp)). unfold ref_count.
  destruct R; unfold lenZ in *; simpl in *; lia.
Qed.

(** The old hook is not used any more. *)
Lemma round_release n R lp : round_inv (S n) R lp ->
  tables (ref_count (tail R) (lp_hooks lp)) (release_def (head R) lp).
Proof.
  intros Hinv. pose proof (ri_table _ _ _ Hinv) as Ht.
  assert (Hc : forall h, ref_count R (lp_hooks lp) h = ref_count (tail R) (lp_hooks lp) h + hits h (hash_of (head R)))
    by (intros h; unfold ref_count; rewrite (count_hash_head h R); lia).
  destruct (head R) as [x|] eqn:Ex; simpl in Hc.
  - destruct (hook_HookHash x) as [hash|] eqn:Eh.
    + destruct (round_head _ _ _ _ Hinv Ex) as [_ Hd]. eapply table_inv_ext; [|apply (release_inv defs checked checked_set _ lp x hash Ht Eh)].
      * intros h. simpl. rewrite Hc. lia.
      * by apply Hd.
      * rewrite Hc, hits_eq. pose proof (round_ref_bound _ _ _ hash Hinv). lia.
    + unfold release_def, old_def. rewrite Eh. eapply table_inv_ext; [|exact Ht]. intros h. rewrite Hc, hits_none. lia.
  - eapply table_inv_ext; [|exact Ht]. intros h. rewrite Hc, hits_none. lia.
Qed.

Lemma release_hooks o lp : lp_hooks (release_def o lp) = lp_hooks lp.
Proof.
  unfold release_def. destruct (old_def lp o) as [[hash [d|]]|]; [|done..]. destruct (reduceReferenceCount d) as [[] d'];
  unfold store_def; by destruct (present _).
Qed.

Lemma release_lookup o lp h : is_Some (lookup_def (release_def o lp) h) <-> is_Some (lookup_def lp h).
Proof.
  unfold release_def. destruct (old_def lp o) as [[hash [d|]]|] eqn:Eo; [|done..].
  assert (Hc : lp_cache lp !! hash = Some d).
  { unfold old_def in Eo. destruct o as [x|]; [|done]. destruct (hook_HookHash x); [|done]. by simplify_eq. }
  destruct (reduceReferenceCount d) as [unused d']. unfold store_def. rewrite Hc. cbn [present].
  assert (Hl : forall lp', lp_cache lp' = <[hash := d']> (lp_cache lp) -> lp_insert lp' = lp_insert lp ->
    is_Some (lookup_def lp' h) <-> is_Some (lookup_def lp h)).
  { intros lp' E1 E2. unfold lookup_def. rewrite E1, E2. destruct (decide (h = hash)) as [->|Hne].
    - rewrite lookup_insert_eq, Hc. split; by eexists.
    - by rewrite lookup_insert_ne. }
  destruct unused; by apply Hl.
Qed.

(** ** The operations *)

Lemma hook_hash_default o : hook_HookHash (default blank_hook o) = hash_of o.
Proof. by destruct o. Qed.

Lemma keep_round n R lp : round_inv (S n) R lp -> round_inv n (tail R) (push_hook (default blank_hook (head R)) lp).
Proof.
  intros Hinv. apply (round_push n R lp _ (default blank_hook (head R))); [done|done| |].
  - destruct (head R) as [x|] eqn:Ex; [|apply blank_hook_ok]. by eapply round_head.
  - apply table_inv_push. eapply table_inv_ext; [|apply Hinv]. intros h. unfold ref_count.
    rewrite hook_hash_default, (count_hash_head h R). lia.
Qed.

Lemma delete_round n R lp o : round_inv (S n) R lp -> settles (round_inv n (tail R)) (set_delete (head R) o lp).
Proof.
  intros Hinv. unfold set_delete. destruct (flag_set _ _); [|done]. cbn [negb].
  assert (Hrel : release_def (head R) (push_hook blank_hook lp) = push_hook blank_hook (release_def (head R) lp)).
  { unfold release_def, old_def. destruct (head R) as [x|]; [|done]. destruct (hook_HookHash x) as [hash|]; [|done]. simpl.
    destruct (lp_cache lp !! hash) as [d|] eqn:Ed; [|done]. destruct (reduceReferenceCount d) as [u d']. unfold store_def. simpl. rewrite Ed. by destruct u. }
  assert (Hgoal : round_inv n (tail R) (push_hook blank_hook (release_def (head R) lp))).
  { apply (round_push n R lp _ blank_hook); [done|simpl; by rewrite release_hooks|apply blank_hook_ok|].
    apply table_inv_push. eapply table_inv_ext; [|by eapply round_release]. intros h. by rewrite hits_none, Z.add_0_r. }
  destruct (head R) as [x|] eqn:Ex; simpl; [by rewrite Hrel|exact Hgoal].
Qed.

Lemma update_round n R lp o :
  round_inv (S n) R lp -> entry_ok validateWasm r account o -> inferOperation o = hsoUPDATE ->
  settles (round_inv n (tail R)) (set_update (head R) o lp).
Proof.
  intros Hinv Hok Hop. unfold set_update. destruct (head R) as [x|] eqn:Ex; [|done].
  destruct (old_def_sle lp (Some x)) as [d|] eqn:Ed; [|done]. destruct (round_head _ _ _ _ Hinv Ex) as [[_ Hg] _].
  apply (settles_bind (fun new => forall l, new = Some l -> params_ok l)).
  { destruct (hs_HookParameters o) as [[|p ps]|]; [done|apply updateHookParameters_settles..]. }
  intros params Hparams. cbn [settles]. eapply round_push; [done|done| |].
  - split; [done|]. cbn [HookGrants]. destruct (hs_HookGrants o) as [gs|] eqn:Eg; [|done]. rewrite new_grants_length, <- Eg.
    eapply entry_grants; [done|]. rewrite Hop. set_solver.
  - apply table_inv_push. eapply table_inv_ext; [|apply Hinv]. intros h. unfold ref_count.
    rewrite (count_hash_head h R), Ex. simpl. lia.
Qed.

Lemma mark_push hash x lp : mark_update hash (push_hook x lp) = push_hook x (mark_update hash lp).
Proof. done. Qed.

Lemma install_round n R lp o hash def :
  round_inv (S n) R lp -> entry_ok validateWasm r account o -> inferOperation o ∈ [hsoINSTALL; hsoUPDATE; hsoCREATE] ->
  (is_Some def -> is_Some (lookup_def lp hash)) -> settles (round_inv n (tail R)) (set_install (head R) o hash def lp).
Proof.
  intros Hinv Hok Hop Hdef. unfold set_install. destruct (_ && _); [done|]. destruct def as [d0|]; [|done]. cbv zeta.
  assert (Hd : is_Some (lookup_def (release_def (head R) lp) hash)) by (apply release_lookup, Hdef; by eexists).
  destruct Hd as [d Hd]. rewrite Hd.
  apply (settles_bind (fun new => forall l, new = Some l -> params_ok l)); [apply updateHookParameters_settles|].
  intros params Hparams. cbn [settles]. eapply round_push; [done| | |].
  - simpl. unfold store_def. destruct (present _); simpl; by rewrite release_hooks.
  - split; [done|]. cbn [HookGrants]. rewrite new_grants_length. by eapply entry_grants.
  - cbn [hook_HookHash]. rewrite mark_push. apply table_inv_push.
    apply (install_inv defs checked checked_set _ _ _ _ (round_release n R lp Hinv) Hd).
    apply (round_ref_bound n R lp hash Hinv).
Qed.

Lemma create_round n R lp o :
  round_inv (S n) R lp -> entry_ok validateWasm r account o -> inferOperation o = hsoCREATE ->
  settles (round_inv n (tail R)) (set_create sha512Half validateWasm r account txID (head R) o lp).
Proof.
  intros Hinv Hok Hop. unfold set_create. destruct (_ && _); [done|]. cbv zeta.
  destruct (_ <? _) eqn:Esz; [done|]. set (code := default [] (hs_CreateCode o)) in *.
  destruct (lookup_def lp (sha512Half code)) as [d|] eqn:Ed.
  { apply install_round; [done|done|rewrite Hop; set_solver|]. intros _. rewrite Ed. by eexists. }
  unfold create_def. destruct (entry_create validateWasm r account o Hok Hop) as (mh & mc & hookOn & ns & -> & Hguards & Hwasm & -> & -> & Hver & Hps).
  cbv zeta. cbn [settles]. eapply round_push; [done| | |].
  - simpl. by rewrite release_hooks.
  - split; [done|]. cbn [HookGrants]. rewrite new_grants_length. eapply entry_grants; [done|]. rewrite Hop. set_solver.
  - cbn [hook_HookHash]. apply table_inv_push. apply insert_inv; [by eapply round_release| | |done].
    + apply eq_None_not_Some. rewrite release_lookup, Ed. by intros [].
    + split; simpl; [done|lia|done|by exists mh, mc|by eexists|done].
Qed.

Lemma round_namespace n R lp ns : round_inv n R lp -> round_inv n R (mark_namespace ns lp).
Proof. intros [? ? ? ? ? ?]. by split; [apply table_inv_namespace|..]. Qed.

Lemma old_namespace_settles n R lp : round_inv n R lp -> settles (fun _ => True) (old_namespace lp (head R)).
Proof.
  intros Hinv. unfold old_namespace, old_def. destruct (head R) as [x|] eqn:Ex; [|done].
  destruct (hook_HookHash x) as [h|] eqn:Eh; [|done]. destruct (hook_HookNamespace x); [done|].
  destruct (round_head _ _ _ _ Hinv Ex) as [_ Hd]. destruct (ti_dom _ _ _ _ (ri_table _ _ _ Hinv) h (Hd h Eh)) as [d ->]. done.
Qed.

Lemma set_round_spec n R lp so :
  round_inv (S n) R lp -> (forall o, so = Some o -> entry_ok validateWasm r account o) ->
  settles (round_inv n (tail R)) (set_round sha512Half validateWasm r account txID (head R) so lp).
Proof.
  intros Hinv Hok. unfold set_round. eapply settles_bind; [by eapply old_namespace_settles|]. intros ons _.
  destruct so as [o|]; [|by apply keep_round]. specialize (Hok o eq_refl). cbv zeta.
  set (lp1 := if flag_set _ _ then _ else lp).
  assert (Hinv1 : round_inv (S n) R lp1).
  { unfold lp1. destruct (flag_set _ _); [|done]. destruct (inferOperation o), (hs_HookNamespace o), ons; try done; by apply round_namespace. }
  clearbody lp1. destruct (inferOperation o) eqn:Eop.
  - done.
  - by apply keep_round.
  - by apply create_round.
  - apply install_round; [done|done|rewrite Eop; set_solver|]. intros [d Hd]. unfold lookup_def. rewrite Hd. by eexists.
  - by apply delete_round.
  - by apply keep_round.
  - by apply update_round.
Qed.

Lemma set_rounds_spec n : forall R sets lp,
  round_inv n R lp -> Forall (entry_ok validateWasm r account) sets ->
  settles (fun lp' => round_inv 0 [] lp') (set_rounds sha512Half validateWasm r account txID n R sets lp).
Proof.
  induction n as [|n IH]; intros R sets lp Hinv Hsets; cbn [set_rounds].
  { simpl. pose proof (ri_rest _ _ _ Hinv) as Hr. by destruct R; [|simpl in Hr; lia]. }
  eapply settles_bind; [apply set_round_spec; [done|]|].
  - intros o Ho. destruct sets; simplify_eq/=. by inversion_clear Hsets.
  - intros lp1 Hlp1. apply IH; [done|]. destruct sets; [done|]. by inversion_clear Hsets.
Qed.

End Rounds.
