(* ===== verification/SetHookFacts.v ===== *)
(** * SetHook: the invariant of the ledger

    [hooks_wf]: the hook state is well-formed, the reference count of every
    definition is the number of hooks that use it and is not zero, every definition
    was accepted by the guard checker, and the owner count of every account covers
    its state and its hooks. *)

From S2P Require Import Prelude HookEnum LedgerDir LedgerDirFacts HookState HookStateFacts HookContext HookChain.
From S2P Require Import SetHookTx SetHookApply SetHookParams SetHookNamespaces SetHookRefs SetHookLoop.

Section Facts.
Context `{KeyletsInj}.

(** ** Changes that hook state does not depend on *)

Lemma ledger_wf_ext led led' :
  ledger_wf led -> states led' = states led -> dirs led' = dirs led -> dom (accounts led') = dom (accounts led) ->
  (forall a r', accounts led' !! a = Some r' -> exists r, accounts led !! a = Some r /\ namespaces r' = namespaces r /\
     HookStateCount r' = HookStateCount r /\ HookStateCount r' <= OwnerCount r' < 2 ^ 32) ->
  ledger_wf led'.
Proof.
  intros Hwf Hs Hd Hdom Hacc.
  assert (Hst : forall a n k, state_of led' a n k = state_of led a n k) by (intros; unfold state_of; by rewrite Hs).
  split.
  - intros a r' Hr'. destruct (Hacc a r' Hr') as (x & Hr & Hns & Hc & Ho). destruct (wf_account led Hwf a x Hr) as (S & [? ? ? ? ?]).
    exists S. split; [|congruence|done|congruence|]; intros; rewrite ?Hst, ?Hns; auto.
  - intros a n. destruct (wf_dir led Hwf a n) as (m & [Hr Hp]). exists m. split; [unfold dir_at; by rewrite Hd|by rewrite Hs].
  - intros a n k. rewrite Hst, <- elem_of_dom, Hdom, elem_of_dom. apply Hwf.
  - intros a n k. rewrite Hst. apply Hwf.
Qed.

(** ** The namespaces that are destroyed *)

(** The entries of [a] in the namespaces [nss] may be gone, [n] of them are. *)
Record namespaces_cleared (fixEnabled : bool) (B : Z) (led led' : ledger) (a : Z) (nss : list Z) (x x' : account_root) : Prop := {
  nc_wf : ledger_wf led';
  nc_state a' n' k' : state_of led' a' n' k' = state_of led a' n' k' \/
    (a' = a /\ n' ∈ nss /\ state_of led' a' n' k' = None);
  nc_accounts : accounts led' = <[a := x']> (accounts led);
  nc_balance : Balance x' = Balance x;
  nc_count : HookStateCount x' <= HookStateCount x;
  nc_owner : OwnerCount x' = OwnerCount x - (if fixEnabled then HookStateCount x - HookStateCount x' else 0);
  nc_env : same_env led led';
  nc_pages : pages_small led' B
}.

Lemma destroy_namespaces_spec rl a B nss : forall led t x,
  ledger_wf led -> accounts led !! a = Some x -> pages_small led B -> isTesSuccess t = true ->
  exists t' led' x', destroy_namespaces rl a t nss led = Ret (t', led') /\ isTesSuccess t' = true /\
    namespaces_cleared (fixNSDelete rl) B led led' a nss x x'.
Proof.
  induction nss as [|ns nss IH]; intros led t x Hwf Ha HP Ht; cbn [destroy_namespaces].
  - exists t, led, x. split_and!; [done|done|]. split; try done; [by left|by rewrite insert_id|].
    destruct (fixNSDelete rl); lia.
  - destruct (destroyNamespace_spec (fixNSDelete rl) led a ns x B Hwf Ha HP) as (t1 & led1 & ks & x1 & -> & Hc).
    assert (Ha1 : accounts led1 !! a = Some x1) by (rewrite (cl_accounts _ _ _ _ _ _ _ _ _ _ Hc); by rewrite lookup_insert_eq).
    assert (Ht1 : isTesSuccess t1 = true) by (by destruct (cl_result _ _ _ _ _ _ _ _ _ _ Hc) as [[-> _]|[-> _]]).
    destruct (IH led1 t1 x1 (cl_wf _ _ _ _ _ _ _ _ _ _ Hc) Ha1 (cl_pages _ _ _ _ _ _ _ _ _ _ Hc) Ht1) as (t' & led' & x' & -> & Ht' & Hn).
    exists t', led', x'. split_and!; [done|done|]. destruct Hc as [_ Hst Hacc Hb Hcnt Ho _ He _]. destruct Hn as [? Hst' Hacc' Hb' Hcnt' Ho' He' ?].
    assert (Hl : 0 <= lenZ ks) by (unfold lenZ; lia).
    split; try done.
    + intros a' n' k'. destruct (Hst' a' n' k') as [->|(-> & Hin & ->)]; [|right; split_and!; [done|by right|done]].
      rewrite Hst. case_decide as Hd; [|by left]. destruct Hd as [[= -> ->] _]. right. split_and!; [done|by left|done].
    + by rewrite Hacc', Hacc, insert_insert_eq.
    + congruence.
    + lia.
    + destruct (fixNSDelete rl); lia.
    + unfold same_env in *. intuition congruence.
Qed.

(** ** The owner count *)

Lemma hook_reserve_range x : hook_ok x -> 0 <= computeHookReserve x <= 25.
Proof.
  intros [Hp Hg]. unfold computeHookReserve. destruct (present (hook_HookHash x)); simpl; [|lia].
  pose proof (lenZ_nonneg (default [] (HookGrants x))).
  destruct (hook_HookParameters x) as [ps|]; simpl; [pose proof (po_count ps (Hp ps eq_refl)); pose proof (lenZ_nonneg ps); lia|].
  unfold lenZ in *. simpl. lia.
Qed.

Lemma chain_reserve_range hs : Forall hook_ok hs -> 0 <= chain_reserve hs <= 250.
Proof.
  intros Hhs. unfold chain_reserve. set (n := Z.to_nat maxHookChainLength). assert (Hn : n = 10%nat) by done. clearbody n.
  assert (Hgen : forall l, Forall hook_ok l -> 0 <= foldr (fun h n => computeHookReserve h + n) 0 l <= 25 * lenZ l).
  { induction 1 as [|x l Hx Hl IH]; [done|]. simpl. rewrite lenZ_cons. pose proof (hook_reserve_range x Hx). lia. }
  specialize (Hgen (take n hs) (Forall_take _ n hs Hhs)). unfold lenZ in Hgen. rewrite length_take in Hgen. lia.
Qed.

Lemma confineOwnerCount_spec c d : 0 <= c < 2 ^ 32 -> 0 <= c + d < 2 ^ 32 -> confineOwnerCount c d = c + d.
Proof.
  intros Hc Hd. unfold confineOwnerCount. rewrite u32_small by done.
  destruct (Z.ltb_spec 0 d); [destruct (Z.ltb_spec (c + d) c)|destruct (Z.ltb_spec c (c + d))]; lia.
Qed.

(** ** The invariant *)

Context (sha512Half : list Z -> Z) (validateWasm : list Z -> bool) (keylet_hook : Z -> Z).

(** The owner directory of [a] lists its hook object, in the page of [sfOwnerNode]. *)
Definition owner_ok (v : hook_view) (a : Z) : Prop :=
  exists m, dir_repr (owner_dir a v) m /\ m !! keylet_hook a = hv_ownerNodes v !! a /\
    (is_Some (hooks (hv_ledger v) !! a) <-> is_Some (hv_ownerNodes v !! a)).

Definition refs_ok (defs : gmap Z hook_def) (m : gmap Z (list hook_obj)) : Prop := forall h,
  match defs !! h with
  | Some d => def_ReferenceCount d = Some (refs m h) /\ 0 < refs m h
  | None => refs m h = 0
  end.

Record hooks_wf (v : hook_view) : Prop := {
  hw_ledger : ledger_wf (hv_ledger v);
  hw_refs : refs_ok (definitions (hv_ledger v)) (hooks (hv_ledger v));
  hw_defs h d : definitions (hv_ledger v) !! h = Some d -> exists version, def_checked sha512Half validateWasm version h d;
  hw_chain a hs : hooks (hv_ledger v) !! a = Some hs -> lenZ hs <= maxHookChainLength /\ Forall hook_ok hs;
  hw_owner a x : accounts (hv_ledger v) !! a = Some x ->
    HookStateCount x + chain_reserve (default [] (hooks (hv_ledger v) !! a)) <= OwnerCount x;
  hw_dir a : owner_ok v a
}.

(** ** The hook object *)

Lemma count_hash_blank h hs : negb (existsb (fun x => present (hook_HookHash x)) hs) = true -> count_hash h hs = 0.
Proof.
  induction hs as [|x hs IH]; [done|]. simpl. rewrite negb_orb, andb_true_iff. intros [Hx Hhs]. rewrite IH by done.
  by destruct (hook_HookHash x).
Qed.

Lemma reserve_blank hs : negb (existsb (fun x => present (hook_HookHash x)) hs) = true -> chain_reserve hs = 0.
Proof.
  unfold chain_reserve. generalize (Z.to_nat maxHookChainLength) as n. induction hs as [|x hs IH]; intros [|n]; [done..|].
  simpl. rewrite negb_orb, andb_true_iff. intros [Hx Hhs]. rewrite IH by done.
  unfold computeHookReserve. by destruct (hook_HookHash x).
Qed.

(** The hooks of the account are [newHooks] now; blank ones count as none. *)
Record hooks_written (a : Z) (newHooks : list hook_obj) (v v' : hook_view) : Prop := {
  wr_other b : b <> a -> hooks (hv_ledger v') !! b = hooks (hv_ledger v) !! b /\ owner_dir b v' = owner_dir b v /\
    hv_ownerNodes v' !! b = hv_ownerNodes v !! b;
  wr_hooks : hooks (hv_ledger v') !! a = Some newHooks \/
    (hooks (hv_ledger v') !! a = None /\ forall h, count_hash h newHooks = 0 /\ chain_reserve newHooks = 0);
  wr_dir : owner_ok v' a
}.

Lemma owner_dir_other a b v led d nodes : b <> a -> owner_dir b (mkHookView led (<[a := d]> (hv_ownerDirs v)) nodes) = owner_dir b v.
Proof. intros Hb. unfold owner_dir. simpl. by rewrite lookup_insert_ne. Qed.
Lemma owner_dir_same a v led d nodes : owner_dir a (mkHookView led (<[a := d]> (hv_ownerDirs v)) nodes) = d.
Proof. unfold owner_dir. simpl. by rewrite lookup_insert_eq. Qed.

Lemma write_hooks_spec a newHooks v B :
  owner_ok v a -> fixXahauV1 (hv_ledger v) = true -> pages_upto (owner_dir a v) B -> 0 <= B < 2 ^ 64 - 1 ->
  settles (fun v' => hooks_written a newHooks v v' /\ exists m, hv_ledger v' = set_hooks m (hv_ledger v))
    (write_hooks a (keylet_hook a) newHooks v).
Proof.
  intros (m & Hr & Hm & Hn) Hfix Hu HB. unfold write_hooks. cbv zeta. rewrite Hfix.
  destruct (hooks (hv_ledger v) !! a) as [old|] eqn:Eold; destruct (negb (existsb _ newHooks)) eqn:Eblank.
  - destruct Hn as [Hn _]. destruct Hn as [p Hp]; [by eexists|]. rewrite Hp in *. simpl default.
    destruct (dir_repr_remove (E := ter) (owner_dir a v) m (keylet_hook a) p B Hr Hm Hu) as (d & -> & Hr' & _). simpl. split; [|by eexists]. split; simpl.
    + intros b Hb. rewrite !lookup_delete_ne by done. by rewrite owner_dir_other.
    + right. rewrite lookup_delete_eq. split; [done|]. intros h. by split; [apply count_hash_blank|apply reserve_blank].
    + eexists. rewrite owner_dir_same. split; [done|]. simpl. rewrite !lookup_delete_eq. done.
  - destruct Hn as [Hn _]. destruct Hn as [p Hp]; [by eexists|]. simpl. split; [|by eexists]. split; simpl.
    + intros b Hb. by rewrite !lookup_insert_ne.
    + left. by rewrite lookup_insert_eq.
    + exists m. split; [done|]. simpl. rewrite !lookup_insert_eq. rewrite Hm, Hp. split; [done|]. split; by eexists.
  - simpl. split; [|exists (hooks (hv_ledger v)); by destruct (hv_ledger v)]. split.
    + done.
    + right. split; [done|]. intros h. by split; [apply count_hash_blank|apply reserve_blank].
    + exists m. split; [done|]. by rewrite Eold.
  - assert (Hnone : m !! keylet_hook a = None).
    { rewrite Hm. apply eq_None_not_Some. intros Hs. apply Hn in Hs. by destruct Hs. }
    destruct (dir_repr_insert (E := ter) (fixPageCap (hv_ledger v)) (owner_dir a v) m (keylet_hook a) B Hr Hnone Hu HB) as [(p & d & -> & Hr' & _)|(-> & _)]; [|done].
    simpl. split; [|by eexists]. split; simpl.
    + intros b Hb. rewrite !lookup_insert_ne by done. by rewrite owner_dir_other.
    + left. by rewrite lookup_insert_eq.
    + eexists. rewrite owner_dir_same. split; [done|]. simpl. rewrite !lookup_insert_eq. split; [done|]. split; by eexists.
Qed.

(** ** The account root *)

Lemma reserve_delta_spec a led balance old new x :
  accounts led !! a = Some x ->
  settles (fun delta => delta = chain_reserve new - chain_reserve old /\ 0 <= OwnerCount x + delta < 2 ^ 32 /\
             accountReserve (fees led) (OwnerCount x + delta) <= balance)
    (reserve_delta a led balance old new).
Proof.
  intros Ha. unfold reserve_delta. rewrite Ha. cbv zeta.
  destruct (_ || _) eqn:Eb; [done|]. apply orb_false_iff in Eb as [? ?]. destruct (balance <? _) eqn:Er; [done|]. simpl. lia.
Qed.

Lemma adjust_account_spec a led delta x :
  accounts led !! a = Some x -> 0 <= OwnerCount x < 2 ^ 32 -> 0 <= OwnerCount x + delta < 2 ^ 32 ->
  exists x', adjust_account a delta led = Ret (set_account a x' led) /\ x' = set_OwnerCount (OwnerCount x + delta) x.
Proof.
  intros Ha Hx Hd. unfold adjust_account. destruct (Z.eqb_spec delta 0) as [->|Hne].
  - exists x. rewrite Z.add_0_r. split; [|by destruct x]. f_equal. destruct led. unfold set_account. simpl in *. by rewrite insert_id.
  - rewrite Ha. eexists. split; [done|]. unfold adjustOwnerCount. by rewrite confineOwnerCount_spec.
Qed.

(** ** [setHook] *)

Context (rl : set_rules) (account txID : Z).

(** What a successful SetHook did. *)
Record set_effect (balance : Z) (newHooks : list hook_obj) (v v' : hook_view) (x x' : account_root) : Prop := {
  se_hooks : hooks (hv_ledger v') !! account = Some newHooks \/
    (hooks (hv_ledger v') !! account = None /\ forall h, count_hash h newHooks = 0);
  se_others b : b <> account -> hooks (hv_ledger v') !! b = hooks (hv_ledger v) !! b;
  se_accounts : accounts (hv_ledger v') = <[account := x']> (accounts (hv_ledger v));
  se_balance : Balance x' = Balance x;
  se_owner : OwnerCount x' = OwnerCount x + chain_reserve newHooks - chain_reserve (default [] (hooks (hv_ledger v) !! account))
    - (if fixNSDelete rl then HookStateCount x - HookStateCount x' else 0);
  se_reserve : accountReserve (fees (hv_ledger v)) (OwnerCount x + chain_reserve newHooks - chain_reserve (default [] (hooks (hv_ledger v) !! account))) <= balance;
  se_state a n k : state_of (hv_ledger v') a n k = state_of (hv_ledger v) a n k \/ (a = account /\ state_of (hv_ledger v') a n k = None);
  se_defs h d' : definitions (hv_ledger v') !! h = Some d' ->
    (exists d, definitions (hv_ledger v) !! h = Some d /\ same_def d d') \/
    (definitions (hv_ledger v) !! h = None /\ def_checked sha512Half validateWasm (rulesVersion rl) h d');
  se_fees : fees (hv_ledger v') = fees (hv_ledger v)
}.

Lemma final_refs v v' newHooks h :
  hooks_written account newHooks v v' ->
  refs (hooks (hv_ledger v')) h = ref_count (refs (delete account (hooks (hv_ledger v)))) [] newHooks h.
Proof.
  intros Hw. rewrite (refs_delete _ account). unfold ref_count. simpl.
  assert (delete account (hooks (hv_ledger v')) = delete account (hooks (hv_ledger v))) as ->.
  { apply map_eq. intros b. destruct (decide (b = account)) as [->|Hb]; [by rewrite !lookup_delete_eq|].
    rewrite !lookup_delete_ne by done. by apply (wr_other _ _ _ _ Hw). }
  destruct (wr_hooks _ _ _ _ Hw) as [->|[-> Hz]]; simpl; [lia|]. destruct (Hz h) as [-> _]. lia.
Qed.

(** The invariant before the first round. *)
Lemma first_round v (sets : list hook_set) :
  hooks_wf v -> (forall h, refs (hooks (hv_ledger v)) h < 2 ^ 63) -> lenZ sets <= maxHookChainLength ->
  let old := default [] (hooks (hv_ledger v) !! account) in
  let n := Nat.max (length old) (length sets) in
  round_inv sha512Half validateWasm rl (definitions (hv_ledger v)) (refs (delete account (hooks (hv_ledger v)))) n n old
    (mkLoop (definitions (hv_ledger v)) ∅ ∅ ∅ ∅ []) /\ (n <= 10)%nat.
Proof.
  intros Hwf Hsmall Hsets old n. set (led := hv_ledger v) in *.
  assert (Hold : (length old <= 10)%nat /\ Forall hook_ok old).
  { unfold old. destruct (hooks led !! account) as [hs|] eqn:Eh; simpl; [|split; [lia|constructor]].
    destruct (hw_chain v Hwf account hs Eh) as [Hl Hok]. split; [unfold lenZ, maxHookChainLength in Hl; lia|done]. }
  assert (Hn : (n <= 10)%nat) by (unfold n, lenZ, maxHookChainLength in *; lia). split; [|done].
  assert (Hrefs : forall h, refs (hooks led) h = count_hash h old + refs (delete account (hooks led)) h) by (intros; apply refs_delete).
  split; simpl.
  - apply table_inv_start. intros h. pose proof (hw_refs v Hwf h) as Hr. fold led in Hr. rewrite Hrefs in Hr. unfold ref_count. simpl.
    replace (refs (delete account (hooks led)) h + count_hash h old + 0) with (count_hash h old + refs (delete account (hooks led)) h) by lia. done.
  - constructor.
  - apply Forall_forall. intros x Hx. split; [by eapply Forall_forall in Hx; [|apply Hold]|]. intros h Hh.
    pose proof (hw_refs v Hwf h) as Hr. fold led in Hr. destruct (definitions led !! h); [by eexists|]. exfalso.
    rewrite Hrefs in Hr. pose proof (refs_nonneg (delete account (hooks led)) h).
    apply list_elem_of_split in Hx as (l1 & l2 & Hx). rewrite Hx, count_hash_app in Hr. simpl in Hr. rewrite Hh, hits_eq in Hr.
    pose proof (count_hash_range h l1). pose proof (count_hash_range h l2). lia.
  - lia.
  - lia.
  - intros h. pose proof (refs_nonneg (delete account (hooks led)) h). specialize (Hsmall h). rewrite Hrefs in Hsmall.
    pose proof (count_hash_range h old). unfold lenZ in *. simpl. lia.
Qed.

(** The definitions after the last round. *)
Lemma final_definitions v lp n h d :
  round_inv sha512Half validateWasm rl (definitions (hv_ledger v)) (refs (delete account (hooks (hv_ledger v)))) n 0 [] lp ->
  write_definitions lp (definitions (hv_ledger v)) !! h = Some d ->
  (exists d0, definitions (hv_ledger v) !! h = Some d0 /\ same_def d0 d) \/
  (definitions (hv_ledger v) !! h = None /\ def_checked sha512Half validateWasm (rulesVersion rl) h d).
Proof.
  intros Hinv Hd. pose proof (ri_table _ _ _ _ _ _ _ _ _ Hinv) as Ht. rewrite (write_definitions_spec _ _ (checked_set _ _ _) _ _ _ Ht) in Hd.
  unfold lookup_def in Hd. destruct (lp_cache lp !! h) as [dc|] eqn:Ec; simpl in Hd.
  - case_decide; [done|]. simplify_eq. destruct (ti_cache _ _ _ _ Ht h d Ec) as (d0 & ? & ? & _). left. by exists d0.
  - destruct (lp_insert lp !! h) as [di|] eqn:Ei; [|done]. simpl in Hd. case_decide; [done|]. simplify_eq. right.
    split; [|by apply (ti_insert _ _ _ _ Ht)]. apply eq_None_not_Some. intros Hs. apply (ti_dom _ _ _ _ Ht) in Hs as [? ?]. congruence.
Qed.

Lemma final_refs_ok v v2 v' lp n :
  round_inv sha512Half validateWasm rl (definitions (hv_ledger v)) (refs (delete account (hooks (hv_ledger v)))) n 0 [] lp ->
  hooks (hv_ledger v2) = hooks (hv_ledger v) -> hooks_written account (lp_hooks lp) v2 v' ->
  refs_ok (write_definitions lp (definitions (hv_ledger v))) (hooks (hv_ledger v')).
Proof.
  intros Hinv Hv2 Hw h. pose proof (ri_table _ _ _ _ _ _ _ _ _ Hinv) as Ht.
  rewrite (write_definitions_spec _ _ (checked_set _ _ _) _ _ _ Ht), (final_refs v2 v' (lp_hooks lp) h Hw), Hv2.
  pose proof (ti_count _ _ _ _ Ht h) as Hc. pose proof (ti_nonneg _ _ _ _ Ht h) as Hnn.
  destruct (lookup_def lp h) as [d|]; simpl; [|done]. case_decide; [done|]. split; [done|lia].
Qed.

(** The hooks of every account after the last round. *)
Lemma final_hooks v v2 v' newHooks (P : list hook_obj -> Prop) :
  hooks (hv_ledger v2) = hooks (hv_ledger v) -> hooks_written account newHooks v2 v' -> P newHooks ->
  (forall a hs, hooks (hv_ledger v) !! a = Some hs -> P hs) -> forall a hs, hooks (hv_ledger v') !! a = Some hs -> P hs.
Proof.
  intros Hv2 Hw HP Hold a hs Hhs. destruct (decide (a = account)) as [->|Ha].
  - destruct (wr_hooks _ _ _ _ Hw) as [Hn|[Hn _]]; rewrite Hn in Hhs; [by simplify_eq|done].
  - destruct (wr_other _ _ _ _ Hw a Ha) as [Hn _]. rewrite Hn, Hv2 in Hhs. by eapply Hold.
Qed.

Lemma final_reserve v2 v' newHooks : hooks_written account newHooks v2 v' ->
  chain_reserve (default [] (hooks (hv_ledger v') !! account)) = chain_reserve newHooks.
Proof. intros Hw. destruct (wr_hooks _ _ _ _ Hw) as [->|[-> Hz]]; [done|]. by destruct (Hz 0) as [_ ->]. Qed.

(** The steps of a successful SetHook from [v] to [v']: the loop ends in [lp], the
    namespaces are cleared in [led1], the hook object is written from [v2] on. *)
Record set_steps (balance : Z) (N : nat) (v v' : hook_view) (lp : set_loop) (led1 : ledger) (v2 : hook_view)
    (B : Z) (x x1 : account_root) : Prop := {
  st_loop : round_inv sha512Half validateWasm rl (definitions (hv_ledger v)) (refs (delete account (hooks (hv_ledger v)))) N 0 [] lp;
  st_cleared : namespaces_cleared (fixNSDelete rl) B (hv_ledger v) led1 account (merge_sort Z.le (elements (lp_namespaces lp))) x x1;
  st_v2 : hooks (hv_ledger v2) = hooks (hv_ledger v) /\ hv_ownerDirs v2 = hv_ownerDirs v /\ hv_ownerNodes v2 = hv_ownerNodes v;
  st_written : hooks_written account (lp_hooks lp) v2 v';
  st_defs : definitions (hv_ledger v') = write_definitions lp (definitions (hv_ledger v));
  st_states : states (hv_ledger v') = states led1 /\ dirs (hv_ledger v') = dirs led1 /\ fees (hv_ledger v') = fees (hv_ledger v);
  st_delta : let delta := chain_reserve (lp_hooks lp) - chain_reserve (default [] (hooks (hv_ledger v) !! account)) in
    accounts (hv_ledger v') = <[account := set_OwnerCount (OwnerCount x1 + delta) x1]> (accounts (hv_ledger v)) /\
    accountReserve (fees (hv_ledger v)) (OwnerCount x + delta) <= balance /\ OwnerCount x + delta < 2 ^ 32
}.

(** The owner count of the account is not below what it has. *)
Lemma owner_bound v lp led1 x x1 B nss :
  hooks_wf v -> accounts (hv_ledger v) !! account = Some x -> Forall hook_ok (lp_hooks lp) ->
  namespaces_cleared (fixNSDelete rl) B (hv_ledger v) led1 account nss x x1 ->
  let delta := chain_reserve (lp_hooks lp) - chain_reserve (default [] (hooks (hv_ledger v) !! account)) in
  OwnerCount x + delta < 2 ^ 32 ->
  0 <= OwnerCount x1 < 2 ^ 32 /\ OwnerCount x1 + delta < 2 ^ 32 /\ 0 <= HookStateCount x1 /\ 0 <= chain_reserve (lp_hooks lp) /\
  HookStateCount x1 + chain_reserve (lp_hooks lp) <= OwnerCount x1 + delta.
Proof.
  intros Hwf Hx Hhooks [Hwf1 _ Hacc1 _ Hc1 Ho1 _ _] delta Hd.
  pose proof (hw_owner v Hwf account x Hx) as Hox'. destruct (wf_account led1 Hwf1 account x1) as (S1 & HS1); [by rewrite Hacc1, lookup_insert_eq|].
  pose proof (ok_owner _ _ _ _ HS1). pose proof (ok_count _ _ _ _ HS1). pose proof (chain_reserve_range _ Hhooks).
  unfold delta in *. destruct (fixNSDelete rl); lia.
Qed.

Lemma setHook_steps balance sets v x B :
  hooks_wf v -> accounts (hv_ledger v) !! account = Some x -> fixXahauV1 (hv_ledger v) = true ->
  (forall h, refs (hooks (hv_ledger v)) h < 2 ^ 63) -> pages_small (hv_ledger v) B ->
  pages_upto (owner_dir account v) B -> 0 <= B < 2 ^ 64 - 1 ->
  Forall (entry_ok validateWasm rl account) sets -> lenZ sets <= maxHookChainLength ->
  let N := Nat.max (length (default [] (hooks (hv_ledger v) !! account))) (length sets) in
  (N <= 10)%nat /\
  settles (fun res => isTesSuccess res.1 = true /\ exists lp led1 v2 x1, set_steps balance N v res.2 lp led1 v2 B x x1)
    (setHook sha512Half validateWasm rl account txID (keylet_hook account) balance sets v).
Proof.
  intros Hwf Hx Hfix Hsmall HP Hu HB Hsets Hlen. unfold setHook. cbv zeta.
  destruct (first_round v sets Hwf Hsmall Hlen) as [Hfirst Hn10]. split; [done|].
  set (led := hv_ledger v) in *. set (old := default [] (hooks led !! account)) in *.
  eapply settles_bind; [by apply set_rounds_spec|]. intros lp Hlp. cbn beta in Hlp.
  pose proof (ri_hooks _ _ _ _ _ _ _ _ _ Hlp) as Hhooks.
  eapply settles_bind; [by apply (reserve_delta_spec account led balance old (lp_hooks lp) x)|].
  intros delta (Hdelta & Hdr & Hres). cbn beta.
  destruct (destroy_namespaces_spec rl account B (merge_sort Z.le (elements (lp_namespaces lp))) led tesSUCCESS x
    (hw_ledger v Hwf) Hx HP eq_refl) as (t & led1 & x1 & -> & Ht & Hcl).
  cbn [obind]. destruct (nc_env _ _ _ _ _ _ _ _ Hcl) as (Hf1 & Hfix1 & Hcap1 & Hh1 & Hd1). rewrite Hd1.
  set (v2 := mkHookView _ _ _).
  assert (Hv2 : hooks (hv_ledger v2) = hooks (hv_ledger v)) by (unfold v2; simpl; by rewrite Hh1).
  assert (Hown2 : owner_ok v2 account).
  { destruct (hw_dir v Hwf account) as (m & Hr & Hm & Hiff). exists m. split_and!; [done|done|]. by rewrite Hv2. }
  eapply settles_bind; [apply (write_hooks_spec account (lp_hooks lp) v2 B Hown2); [by rewrite <- Hfix, <- Hfix1|done|done]|].
  intros v3 (Hw & hm & Hv3).
  assert (Hacc3 : accounts (hv_ledger v3) = <[account := x1]> (accounts led)) by (rewrite Hv3; exact (nc_accounts _ _ _ _ _ _ _ _ Hcl)).
  assert (Hx3 : accounts (hv_ledger v3) !! account = Some x1) by (rewrite Hacc3; apply lookup_insert_eq).
  rewrite Hdelta in *. destruct (owner_bound v lp led1 x x1 B _ Hwf Hx Hhooks Hcl ltac:(fold led old; lia)) as (Hb1 & Hb2 & Hb3 & Hb4 & Hb5).
  fold led old in Hb2, Hb5.
  destruct (adjust_account_spec account (hv_ledger v3) (chain_reserve (lp_hooks lp) - chain_reserve old) x1 Hx3 Hb1 ltac:(lia)) as (x' & -> & ->). cbn [obind settles fst snd].
  split; [done|]. exists lp, led1, v2, x1. split; fold led old.
  - done.
  - done.
  - done.
  - destruct Hw as [W1 W2 W3]. by split.
  - simpl. by rewrite Hv3.
  - simpl. rewrite Hv3. done.
  - simpl. rewrite Hacc3, insert_insert_eq. split_and!; [done|done|lia].
Qed.

Lemma steps_wf balance N v v' lp led1 v2 B x x1 :
  hooks_wf v -> accounts (hv_ledger v) !! account = Some x -> (N <= 10)%nat -> set_steps balance N v v' lp led1 v2 B x x1 -> hooks_wf v'.
Proof.
  intros Hwf Hx HN [Hlp Hcl (Hv2 & Hod & Hon) Hw Hdefs (Hs & Hd & _) (Hacc & _ & Hlt)].
  pose proof (ri_hooks _ _ _ _ _ _ _ _ _ Hlp) as Hhooks. pose proof (ri_total _ _ _ _ _ _ _ _ _ Hlp) as Htot.
  destruct (owner_bound v lp led1 x x1 B _ Hwf Hx Hhooks Hcl Hlt) as (Hb1 & Hb2 & Hb3 & Hb4 & Hb5).
  destruct Hcl as [Hwf1 _ Hacc1 _ _ _ _ _]. split.
  - apply (ledger_wf_ext led1); [done|done|done| |].
    + rewrite Hacc, Hacc1. by rewrite !dom_insert_L.
    + intros a y. rewrite Hacc, Hacc1. destruct (decide (a = account)) as [->|Hne].
      { rewrite !lookup_insert_eq. intros [= <-]. exists x1. split_and!; try done; simpl; lia. }
      rewrite !lookup_insert_ne by done. intros Hy. exists y. split_and!; try done;
        destruct (wf_account (hv_ledger v) (hw_ledger v Hwf) a y Hy) as (Sy & HSy); apply (ok_owner _ _ _ _ HSy).
  - rewrite Hdefs. by apply (final_refs_ok v v2 v' lp _ Hlp).
  - intros h d Hd'. rewrite Hdefs in Hd'. destruct (final_definitions v lp _ h d Hlp Hd') as [(d0 & Hd0 & Hsame)|[_ Hc]]; [|by eexists].
    destruct (hw_defs v Hwf h d0 Hd0) as [ver Hv]. exists ver. by apply (def_checked_same _ _ _ _ d0).
  - apply (final_hooks v v2 v' (lp_hooks lp) (fun hs => lenZ hs <= maxHookChainLength /\ Forall hook_ok hs) Hv2 Hw); [|apply (hw_chain v Hwf)].
    split; [unfold lenZ, maxHookChainLength; lia|done].
  - intros a y. rewrite Hacc. destruct (decide (a = account)) as [->|Hne].
    + rewrite lookup_insert_eq, (final_reserve v2 v' _ Hw). intros [= <-]. simpl. lia.
    + rewrite lookup_insert_ne by done. destruct (wr_other _ _ _ _ Hw a Hne) as [-> _]. rewrite Hv2. apply (hw_owner v Hwf).
  - intros a. destruct (decide (a = account)) as [->|Hne]; [apply Hw|].
    destruct (wr_other _ _ _ _ Hw a Hne) as (E1 & E2 & E3). destruct (hw_dir v Hwf a) as (m & Hr & Hm & Hiff).
    exists m. rewrite E1, E2, E3, Hv2, Hon. unfold owner_dir. by rewrite Hod.
Qed.

Lemma steps_effect balance N v v' lp led1 v2 B x x1 :
  set_steps balance N v v' lp led1 v2 B x x1 -> exists newHooks x', length newHooks = N /\ set_effect balance newHooks v v' x x'.
Proof.
  intros [Hlp [_ Hst1 _ Hb1 _ Ho1 _ _] (Hv2 & _) Hw Hdefs (Hs & _ & Hf) (Hacc & Hres & _)].
  pose proof (ri_total _ _ _ _ _ _ _ _ _ Hlp). eexists (lp_hooks lp), _. split; [lia|]. split.
  - destruct (wr_hooks _ _ _ _ Hw) as [?|[? Hz]]; [by left|right]. split; [done|]. intros h. apply Hz.
  - intros b Hb. destruct (wr_other _ _ _ _ Hw b Hb) as [-> _]. by rewrite Hv2.
  - exact Hacc.
  - done.
  - simpl. destruct (fixNSDelete rl); lia.
  - by rewrite <- Z.add_sub_assoc.
  - intros a n k. unfold state_of. rewrite Hs.
    destruct (Hst1 a n k) as [Heq|(-> & _ & Heq)]; unfold state_of in Heq; rewrite Heq; [by left|by right].
  - intros h d'. rewrite Hdefs. by apply (final_definitions v lp N h d').
  - done.
Qed.

End Facts.
