(* ===== verification/SetHookClaims.v ===== *)
(** * SetHook: the properties

    A transaction that [preflight] accepted is applied without an undefined operation
    and keeps the invariant of hooks and definitions; its effect; the deletion of a
    namespace; the parameters a hook sees; and what the code does not mean to do. *)

From S2P Require Import Prelude HookEnum GuardValidate GuardValidateFacts LedgerDir LedgerDirFacts HookState HookStateFacts.
From S2P Require Import StateCache StateCacheFacts StateApiFacts StateCommit StateClaims HookContext HookChain.
From S2P Require Import SetHookTx SetHookApply SetHookParams SetHookNamespaces SetHookRefs SetHookLoop SetHookFacts.

(** ** Transactions that [preflight] accepts *)

(** An object without entries has no fields. *)
Definition fields_counted (o : hook_set) : Prop := hs_count o = 0 -> inferOperation o = hsoNOOP.

Lemma preflight_loop_entries validateWasm r acc sets : forall allBlank b,
  Forall fields_counted sets -> preflight_loop validateWasm r acc allBlank sets = Ret b ->
  Forall (entry_ok validateWasm r acc) sets.
Proof.
  induction sets as [|o sets IH]; intros allBlank b Hc Hp; [constructor|]. inversion_clear Hc as [|? ? Ho Hc'].
  cbn [preflight_loop] in Hp. destruct (hs_isHook o); [|done]. cbn [negb] in Hp.
  destruct (match hs_CreateCode o with Some code => _ | None => _ end) eqn:Esz; [done|].
  assert (Hsz : lenZ (default [] (hs_CreateCode o)) <= maxHookWasmSize)
    by (destruct (hs_CreateCode o); simpl; [lia|unfold lenZ, maxHookWasmSize; simpl; lia]).
  destruct (Z.eqb_spec (hs_count o) 0) as [E|E].
  - constructor; [|by eapply IH]. split; [|done]. exists None. unfold validateHookSetEntry. by rewrite (Ho E).
  - destruct (_ && _); [done|]. destruct (hs_otherField o); [done|].
    destruct (validateHookSetEntry validateWasm r acc o) as [res| | | |] eqn:Ev; try done.
    constructor; [|by eapply IH]. split; [by exists res|done].
Qed.

Lemma preflight_entries validateWasm p1 p2 r acc sets t :
  Forall fields_counted sets -> preflight validateWasm p1 p2 r acc (Some sets) = Ret t ->
  Forall (entry_ok validateWasm r acc) sets /\ 1 <= lenZ sets <= maxHookChainLength.
Proof.
  intros Hc Hp. unfold preflight in Hp. destruct (featureHooks r); [|done]. destruct (isTesSuccess p1); [|done]. cbn [negb] in Hp.
  destruct (Z.ltb_spec (lenZ sets) 1); [done|]. destruct (Z.ltb_spec maxHookChainLength (lenZ sets)); [done|]. run_inv Hp.
  split; [by eapply preflight_loop_entries|lia].
Qed.

Section Claims.
Context `{KeyletsInj} (sha512Half : list Z -> Z) (validateWasm : list Z -> bool) (keylet_hook : Z -> Z).

(** The state of a ledger in which a SetHook of [account] is applied: it satisfies
    the invariant, the account exists, and its directories have room. *)
Record set_ready (v : hook_view) (account B : Z) (x : account_root) : Prop := {
  sy_wf : hooks_wf sha512Half validateWasm keylet_hook v;
  sy_account : accounts (hv_ledger v) !! account = Some x;
  sy_fix : fixXahauV1 (hv_ledger v) = true;
  sy_refs h : refs (hooks (hv_ledger v)) h < 2 ^ 63;
  sy_pages : pages_small (hv_ledger v) B;
  sy_owner : pages_upto (owner_dir account v) B;
  sy_bound : 0 <= B < 2 ^ 64 - 1
}.

(** C4: a SetHook that [preflight] accepted is safe and keeps the invariant. On a
    ledger where the reference count of every hook definition is the number of hooks
    that use it, every definition was accepted by the guard checker, and owner counts
    cover state and hooks, [setHook] ends without an undefined operation, an
    exception or a loop; it stops with an error code, or succeeds and the new ledger
    satisfies the invariant. So a definition is deleted exactly with its last hook. *)
Theorem setHook_invariant rl account txID p1 p2 t balance sets v x B :
  set_ready v account B x -> Forall fields_counted sets ->
  preflight validateWasm p1 p2 rl account (Some sets) = Ret t ->
  match setHook sha512Half validateWasm rl account txID (keylet_hook account) balance sets v with
  | Ret (res, v') => isTesSuccess res = true /\ hooks_wf sha512Half validateWasm keylet_hook v'
  | Exit res => isTesSuccess res = false
  | _ => False
  end.
Proof.
  intros [Hwf Hx Hfix Hrefs Hp Ho HB] Hc Hpre. destruct (preflight_entries _ _ _ _ _ _ _ Hc Hpre) as [Hok Hlen].
  destruct (setHook_steps sha512Half validateWasm keylet_hook rl account txID balance sets v x B) as [HN Hs]; try done; [lia|].
  destruct (setHook _ _ _ _ _ _ _ _ _) as [[res v']|res| | |]; simpl in Hs; try done.
  destruct Hs as [Ht (lp & led1 & v2 & x1 & Hst)]. split; [done|]. by eapply steps_wf.
Qed.

(** C18: the effect of a successful SetHook. The account has as many hooks as the
    longer of its old chain and the entries; hooks of other accounts stay. The owner
    count changes by the reserves of the new and old hooks and of deleted state, and
    the balance covers the reserve. No state is lost but of the account. A definition
    of the new ledger is one of the old ledger, unchanged but for its reference
    count, or it is new, and then its code was accepted by the guard checker and
    WasmEdge under the current rules and its fees are the worst cases of the checker. *)
Theorem setHook_effect rl account txID p1 p2 t balance sets v x B res v' :
  set_ready v account B x -> Forall fields_counted sets ->
  preflight validateWasm p1 p2 rl account (Some sets) = Ret t ->
  setHook sha512Half validateWasm rl account txID (keylet_hook account) balance sets v = Ret (res, v') ->
  exists newHooks x', length newHooks = Nat.max (length (default [] (hooks (hv_ledger v) !! account))) (length sets) /\
    set_effect sha512Half validateWasm rl account balance newHooks v v' x x'.
Proof.
  intros [Hwf Hx Hfix Hrefs Hp Ho HB] Hc Hpre Hrun. destruct (preflight_entries _ _ _ _ _ _ _ Hc Hpre) as [Hok Hlen].
  destruct (setHook_steps sha512Half validateWasm keylet_hook rl account txID balance sets v x B) as [HN Hs]; try done; [lia|].
  rewrite Hrun in Hs. destruct Hs as [Ht (lp & led1 & v2 & x1 & Hst)]. by eapply steps_effect.
Qed.

(** C19: the deletion of a namespace. On a well-formed ledger [destroyNamespace]
    always succeeds; it deletes entries of the namespace only, updates the counters
    of the account by their number and keeps the ledger well-formed. Either nothing
    of the namespace is left, or exactly [maxNamespaceDelete] entries were deleted,
    some are left, and the result is [tesPARTIAL]. *)
Theorem destroyNamespace_correct fixEnabled led a ns x B :
  ledger_wf led -> accounts led !! a = Some x -> pages_small led B ->
  exists t led' ks x', destroyNamespace fixEnabled led a ns = Ret (t, led') /\
    cleared fixEnabled B led led' a ns t ks x x'.
Proof. apply destroyNamespace_spec. Qed.

End Claims.

(** The parameters of a hook after an update or an installation. Each name has
    the value that the entry gives; an empty value hides the parameter; an absent
    value resets it to the default of the definition; a name that is not mentioned
    keeps what the hook saw before. There are at most 16 custom parameters, of
    bounded size and with different names. *)
Theorem hook_parameters_effective ps d defs old new n :
  def_HookParameters d = Some defs -> NoDup (map fst defs) -> updateHookParameters ps (Some d) old = Ret new ->
  (forall l, new = Some l -> params_ok l) /\
  effective d new n =
    match given ps n with
    | Some (Some v) => nonempty (Some v)
    | Some None => effective d None n
    | None => effective d (Some old) n
    end.
Proof. apply updateHookParameters_spec. Qed.

(** ** Examples *)

Section Demo.
#[local] Existing Instance demo_keylets.
#[local] Existing Instance demo_keylets_inj.

(** Account 1 without hooks; the hash of a code is its length and the key of a hook
    object its account. All amendments are enabled. *)
Definition new_account : account_root := mkAccount 1000 0 0 None 0 None.
Definition new_view : hook_view :=
  mkHookView (mkLedger true true (mkFees 10 5) {[ 1 := new_account ]} ∅ ∅ ∅ ∅) ∅ ∅.
Definition demo_sha (code : list Z) : Z := lenZ code.
Definition demo_wasm (code : list Z) : bool := true.
Definition demo_hook_key (a : Z) : Z := a.
Definition all_rules : set_rules := mkSetRules (mkRules true true true true) true true true true.

(** The entry creates [good_hook] with the parameter [80]. *)
Definition create_entry : hook_set :=
  mkSet true 9 false (Some good_hook) None (Some 5) (Some [mkParam true false (Some [80]) (Some [1])]) (Some (2 ^ 22)) None None
    (Some 0) None.
Definition demo_set (sets : list hook_set) (v : hook_view) : outcome ter (ter * hook_view) :=
  setHook demo_sha demo_wasm all_rules 1 99 1 1000 sets v.

Lemma new_view_ready : set_ready demo_sha demo_wasm demo_hook_key new_view 1 0 new_account.
Proof.
  split; try done.
  - split; simpl.
    + apply ledger_wf_fresh. intros a r [_ <-]%lookup_singleton_Some. done.
    + intros h. rewrite lookup_empty. done.
    + intros h d. by rewrite lookup_empty.
    + intros a hs. by rewrite lookup_empty.
    + intros a x [_ <-]%lookup_singleton_Some. rewrite lookup_empty. done.
    + intros a. exists ∅. unfold owner_dir. simpl. rewrite !lookup_empty. split_and!; [apply dir_repr_empty|done|]. split; by intros [].
  - apply pages_small_fresh.
  - intros p. unfold owner_dir. simpl. rewrite lookup_empty. simpl. rewrite lookup_empty. by intros [].
Qed.

Lemma create_counted : Forall fields_counted [create_entry].
Proof. by repeat constructor. Qed.

Lemma create_preflight : preflight demo_wasm tesSUCCESS tesSUCCESS all_rules 1 (Some [create_entry]) = Ret tesSUCCESS.
Proof. by vm_compute. Qed.

Lemma create_runs : match demo_set [create_entry] new_view with Ret (t, _) => bool_decide (t = tesSUCCESS) | _ => false end = true.
Proof. by vm_compute. Qed.

Lemma setHook_invariant_witness :
  exists v', demo_set [create_entry] new_view = Ret (tesSUCCESS, v') /\ hooks_wf demo_sha demo_wasm demo_hook_key v'.
Proof.
  pose proof (setHook_invariant demo_sha demo_wasm demo_hook_key all_rules 1 99 tesSUCCESS tesSUCCESS tesSUCCESS 1000 [create_entry]
    new_view new_account 0 new_view_ready create_counted create_preflight) as Hinv.
  pose proof create_runs as Hrun. fold (demo_set [create_entry] new_view) in Hinv. unfold demo_hook_key at 1 in Hinv.
  change (setHook demo_sha demo_wasm all_rules 1 99 1 1000 [create_entry] new_view) with (demo_set [create_entry] new_view) in Hinv.
  destruct (demo_set [create_entry] new_view) as [[t v']| | | |]; try discriminate Hrun.
  apply bool_decide_eq_true in Hrun as ->. exists v'. split; [reflexivity|apply Hinv].
Defined.

Lemma setHook_effect_witness :
  exists v' newHooks x', demo_set [create_entry] new_view = Ret (tesSUCCESS, v') /\ length newHooks = 1%nat /\
    set_effect demo_sha demo_wasm all_rules 1 1000 newHooks new_view v' new_account x'.
Proof.
  pose proof create_runs as Hrun. destruct (demo_set [create_entry] new_view) as [[t v']| | | |] eqn:Eset; try discriminate Hrun.
  apply bool_decide_eq_true in Hrun as ->.
  destruct (setHook_effect demo_sha demo_wasm demo_hook_key all_rules 1 99 tesSUCCESS tesSUCCESS tesSUCCESS 1000 [create_entry]
    new_view new_account 0 tesSUCCESS v' new_view_ready create_counted create_preflight Eset) as (newHooks & x' & Hl & Heff).
  exists v', newHooks, x'. split; [reflexivity|]. split; [exact Hl|exact Heff].
Defined.

Lemma destroyNamespace_correct_witness :
  exists t led' ks x', destroyNamespace true (demo_ledger 100) 1 5 = Ret (t, led') /\
    cleared true 0 (demo_ledger 100) led' 1 5 t ks (mkAccount 100 0 0 None 0 None) x'.
Proof.
  apply (destroyNamespace_correct true (demo_ledger 100) 1 5 (mkAccount 100 0 0 None 0 None) 0);
    [apply demo_wf|reflexivity|apply pages_small_fresh].
Defined.

(** A definition with the defaults [80] = 1 and [81] = 2. *)
Definition default_params : hook_def :=
  mkDef 5 0 None 0 (Some [([80], [1]); ([81], [2])]) 0 [] None 1 0 (Some 1).

Lemma hook_parameters_effective_witness :
  updateHookParameters (Some [mkParam true false (Some [80]) (Some []); mkParam true false (Some [82]) (Some [3])])
    (Some default_params) [([81], [7])] = Ret (Some [([80], []); ([81], [7]); ([82], [3])]) /\
  effective default_params (Some [([80], []); ([81], [7]); ([82], [3])]) [80] = None.
Proof.
  split; [by vm_compute|].
  apply (hook_parameters_effective (Some [mkParam true false (Some [80]) (Some []); mkParam true false (Some [82]) (Some [3])])
    default_params [([80], [1]); ([81], [2])] [([81], [7])] (Some [([80], []); ([81], [7]); ([82], [3])]) [80]);
    [reflexivity| |by vm_compute].
  apply NoDup_cons. split; [set_solver|]. apply NoDup_singleton.
Defined.

(** ** What the code does not mean to do *)

(** [n] entries in the namespace [ns] of account 1. *)
Fixpoint fill_namespace (n : nat) (ns : Z) (led : ledger) : outcome unit ledger :=
  match n with
  | O => Ret led
  | S n => let* '(_, led) := setHookState led 1 ns (Z.of_nat n) [1] in fill_namespace n ns led
  end.

Definition rich_ledger : ledger := mkLedger true true (mkFees 0 0) {[ 1 := new_account ]} ∅ ∅ ∅ ∅.

Definition nsdelete_entry (ns : Z) : hook_set :=
  mkSet true 9 false None None (Some ns) None None None None None (Some hsfNSDELETE).

(** The result and the number of entries that are left. *)
Definition delete_two : option (ter * Z) :=
  match (let* led := fill_namespace 257 6 rich_ledger in fill_namespace 1 7 led) with
  | Ret led =>
    match demo_set [nsdelete_entry 6; nsdelete_entry 7] (mkHookView led ∅ ∅) with
    | Ret (t, v) => match accounts (hv_ledger v) !! 1 with Some x => Some (t, HookStateCount x) | None => None end
    | _ => None
    end
  | _ => None
  end.

(** Account 1 has a hook of a definition that restricts emission to [7] and
    installs one that does not. *)
Definition can_emit_view : hook_view :=
  mkHookView (mkLedger true true (mkFees 0 0) {[ 1 := mkAccount 1000 1 0 None 0 None ]} ∅ ∅
                {[ 1 := [mkHook (Some 111) None None None None (Some hsfCOLLECT) None] ]}
                {[ 111 := mkDef 5 0 (Some 7) 0 (Some []) 0 [] None 1 0 (Some 1); 222 := mkDef 5 0 None 0 (Some []) 0 [] None 1 0 (Some 1) ]})
    ∅ {[ 1 := 0 ]}.
Definition install_entry : hook_set :=
  mkSet true 9 false None (Some 222) None None None (Some 7) None None (Some hsfOVERRIDE).
Definition update_entry : hook_set := mkSet true 9 false None None (Some 8) None None None None None None.
Definition hooks_after (o : hook_set) : option (list hook_obj) :=
  match demo_set [o] can_emit_view with Ret (_, v) => hooks (hv_ledger v) !! 1 | _ => None end.

(** What the code does not mean to do. The result of a namespace whose deletion
    is only partial is lost when another namespace is deleted after it: the
    transaction reports success while an entry is left. An installation that asks for
    the emission rights of the definition it replaces gets none recorded, so that
    those of the new definition apply. An update without flags drops the flags of the
    hook. An array of blank objects from a template is not found blank. *)
Theorem setHook_gaps :
  delete_two = Some (tesSUCCESS, 1) /\
  hooks_after install_entry = Some [mkHook (Some 222) None None None None (Some 0) None] /\
  hooks_after update_entry = Some [mkHook (Some 111) (Some 8) None None None None None] /\
  preflight demo_wasm tesSUCCESS tesSUCCESS all_rules 1 (Some [mkSet true 9 false None None None None None None None None None]) =
    Ret tesSUCCESS.
Proof. split_and!; by vm_compute. Qed.

End Demo.
