(* ===== verification/Govern.v ===== *)
(** * The governance hook (src/hook/genesis/govern.c)

    The hook is C compiled to WebAssembly and installed on the governed account; its
    state lives in the namespace of the hook. A run ends with [accept] or [rollback].
    The state is the map from keys of 32 bytes to data that the state API refines
    ([StateClaims]). What the hook asks of its surroundings are the fields of
    [gov_env]; buffers are byte lists, and the bytes a local buffer has before it is
    written are the fields [gs_*], because the code reads some of them. *)

From Stdlib Require Import SpecFloat.
From S2P Require Import Prelude HookEnum GuardCheck HookMemory HookState.

Definition SEAT_COUNT : Z := 20.
Definition HOOK_MAX : Z := 10.
Definition ttINVOKE : Z := 99.

Definition genesis : list Z :=
  [0xB5; 0xF7; 0x62; 0x79; 0x8A; 0x53; 0xD5; 0x43; 0xA0; 0x14; 0xCA; 0xF8; 0xB2; 0x97; 0xCF; 0xF8; 0xF2; 0xF9; 0x37; 0xE8].

(** The characters of the code. *)
Definition ch_C : Z := 67.
Definition ch_D : Z := 68.
Definition ch_H : Z := 72.
Definition ch_I : Z := 73.
Definition ch_L : Z := 76.
Definition ch_M : Z := 77.
Definition ch_R : Z := 82.
Definition ch_S : Z := 83.
Definition ch_T : Z := 84.
Definition ch_V : Z := 86.

(** ** Surroundings *)

(** A transaction the hook emits: the vote of an L2 table, with the bytes of its
    parameters, or the SetHook that installs the hook with the hash at position [n]
    ([None] deletes it). *)
Inductive emission :=
| EmitVote (parameters : list Z)
| EmitSetHook (n : Z) (hookhash : option (list Z)).

(** Memory of local variables before they are written. *)
Record gov_stack := mkStack {
  gs_account_field : list Z;
  gs_topic_data : list Z;
  gs_previous_topic_data : list Z;
  gs_previous_member : list Z;
  gs_irr : list Z;
  gs_ird : list Z
}.

(** [gv_set_error] is the error code of [state_set] for a key, [None] when it
    succeeds; [gv_emit] is the result of [emit]. *)
Record gov_env := mkGov {
  gv_otxn_type : Z;
  gv_account : list Z;
  gv_destination : option (list Z);
  gv_hook_account : list Z;
  gv_hook_param : list Z -> option (list Z);
  gv_otxn_param : list Z -> option (list Z);
  gv_ledger : ledger;
  gv_set_error : list Z -> option Z;
  gv_emit : emission -> Z;
  gv_stack : gov_stack
}.

Notation gov_state := (gmap (list Z) (list Z)).

(** How a run ends. *)
Inductive gov_end :=
| Accept (m : gov_state) (e : option emission)
| Rollback.

Definition ASSERT (b : bool) : outcome gov_end unit := if b then Ret tt else Exit Rollback.

(** Keys shorter than 32 bytes have zeros in front. *)
Definition state_key (bs : list Z) : list Z := replicate (32 - length bs) 0 ++ bs.

(** [state(buf + off, len, key)]: the code and the buffer. *)
Definition hook_state_read (m : gov_state) (key buf : list Z) (off len : Z) : Z * list Z :=
  match m !! state_key key with
  | None => (DOESNT_EXIST, buf)
  | Some d =>
    if lenZ d =? 0 then (0, buf)
    else if len <? lenZ d then (TOO_SMALL, buf)
    else (lenZ d, mem_set buf off d)
  end.

(** [state(0, 0, key)]: short data as a number. *)
Definition state_int (m : gov_state) (key : list Z) : Z :=
  match m !! state_key key with
  | None => DOESNT_EXIST
  | Some d => if lenZ d =? 0 then 0 else data_as_int64 d
  end.

(** [state_set]; no data deletes the entry. *)
Definition hook_state_set (e : gov_env) (data key : list Z) (m : gov_state) : Z * gov_state :=
  match gv_set_error e (state_key key) with
  | Some code => (code, m)
  | None => (lenZ data, if lenZ data =? 0 then delete (state_key key) m else <[state_key key := data]> m)
  end.

(** [hook_param] cuts a value to the buffer, [otxn_param] refuses it. *)
Definition read_hook_param (e : gov_env) (name buf : list Z) : Z * list Z :=
  match gv_hook_param e name with
  | None => (DOESNT_EXIST, buf)
  | Some v =>
    if lenZ v =? 0 then (DOESNT_EXIST, buf)
    else let written := Z.min (lenZ v) (lenZ buf) in (written, mem_set buf 0 (take (Z.to_nat written) v))
  end.

Definition read_otxn_param (e : gov_env) (name buf : list Z) (off len : Z) : Z * list Z :=
  match gv_otxn_param e name with
  | None => (DOESNT_EXIST, buf)
  | Some v =>
    if lenZ v =? 0 then (DOESNT_EXIST, buf)
    else if len <? lenZ v then (TOO_SMALL, buf)
    else (lenZ v, mem_set buf off v)
  end.

(** [BUFFER_EQUAL_20], [BUFFER_EQUAL_32] at offsets. *)
Definition BUFFER_EQUAL (n : Z) (a : list Z) (i : Z) (b : list Z) (j : Z) : bool :=
  bool_decide (mem_slice a i n = mem_slice b j n).

Definition is_zero (bs : list Z) : bool := forallb (fun b => b =? 0) bs.
Definition of_bool (b : bool) : Z := if b then 1 else 0.

(** ** Setup *)

(** One assertion on the result of [state_set]. *)
Definition set_or_rollback (e : gov_env) (ok : Z -> bool) (data key : list Z) (m : gov_state) : outcome gov_end gov_state :=
  let '(code, m) := hook_state_set e data key m in
  let* _ := ASSERT (ok code) in Ret m.

(** Both keys of a member at a seat are set. *)
Definition add_member (e : gov_env) (seat : Z) (acc : list Z) (m : gov_state) : outcome gov_end gov_state :=
  let* m := set_or_rollback e (fun c => c =? 20) acc [seat] m in
  set_or_rollback e (fun c => c =? 1) [seat] acc m.

(** The loop over the initial members, from seat [i]. *)
Fixpoint setup_members (e : gov_env) (n : nat) (i : Z) (m : gov_state) : outcome gov_end gov_state :=
  match n with
  | O => Ret m
  | S n =>
    let '(code, member_acc) := read_hook_param e [ch_I; ch_S; i] (replicate 20 0) in
    if negb (code =? 20) then Exit Rollback
    else
      let* m := add_member e i member_acc m in
      setup_members e n (i + 1) m
  end.

Definition setup (e : gov_env) (is_L1_table : bool) (m : gov_state) : outcome gov_end unit :=
  let '(code, imc) := read_hook_param e [ch_I; ch_M; ch_C] [0] in
  if code <? 0 then Exit Rollback
  else
    let imc := default 0 (head imc) in
    let* m := set_or_rollback e (fun c => 0 <? c) [imc] [ch_M; ch_C] m in
    if imc =? 0 then Exit Rollback
    else if SEAT_COUNT <? imc then Exit Rollback
    else
      let* m :=
        if is_L1_table then
          let '(code, irr) := read_hook_param e [ch_I; ch_R; ch_R] (gs_irr (gv_stack e)) in
          if code <? 0 then Exit Rollback
          else
            let '(code, ird) := read_hook_param e [ch_I; ch_R; ch_D] (gs_ird (gv_stack e)) in
            if code <? 0 then Exit Rollback
            else if is_zero ird then Exit Rollback
            else
              let* m := set_or_rollback e (fun c => 0 <? c) irr [ch_R; ch_R] m in
              set_or_rollback e (fun c => 0 <? c) ird [ch_R; ch_D] m
        else Ret m in
      let* m := setup_members e (Z.to_nat imc) 0 m in
      Exit (Accept m None).

(** ** Votes *)

(** A vote: topic type and number, layer, the buffer of its data and their size. *)
Record gov_vote := mkVote {
  vt_t : Z;
  vt_n : Z;
  vt_l : Z;
  vt_topic_data : list Z;
  vt_topic_size : Z
}.

Definition vt_padding (v : gov_vote) : Z := 32 - vt_topic_size v.

(** The topic data without the padding. *)
Definition vt_data (v : gov_vote) : list Z := mem_slice (vt_topic_data v) (vt_padding v) (vt_topic_size v).

Definition topic_data_zero (v : gov_vote) : bool := is_zero (mem_slice (vt_topic_data v) 0 32).

(** The layer the vote is for. *)
Definition read_layer (e : gov_env) (is_L1_table : bool) : outcome gov_end Z :=
  if is_L1_table then Ret 1
  else
    let '(result, l) := read_otxn_param e [ch_L] [1] 0 1 in
    let l := default 0 (head l) in
    if negb (result =? 1) then Exit Rollback
    else if negb (l =? 1) && negb (l =? 2) then Exit Rollback
    else Ret l.

Definition read_vote (e : gov_env) (is_L1_table : bool) : outcome gov_end gov_vote :=
  let '(result, topic) := read_otxn_param e [ch_T] [0; 0] 0 2 in
  let t := default 0 (topic !! 0%nat) in
  let n := default 0 (topic !! 1%nat) in
  if negb (result =? 2) || (negb (t =? ch_S) && negb (t =? ch_H) && negb (t =? ch_R)) then Exit Rollback
  else if (t =? ch_S) && (SEAT_COUNT - 1 <? n) then Exit Rollback
  else if (t =? ch_H) && (HOOK_MAX <? n) then Exit Rollback
  else if (t =? ch_R) && negb (n =? ch_R) && negb (n =? ch_D) then Exit Rollback
  else
    let* l := read_layer e is_L1_table in
    if (l =? 2) && (t =? ch_R) then Exit Rollback
    else
      let topic_size := if t =? ch_H then 32 else if t =? ch_S then 20 else 8 in
      let padding := 32 - topic_size in
      let '(result, topic_data) := read_otxn_param e [ch_V] (gs_topic_data (gv_stack e)) padding topic_size in
      if negb (result =? topic_size) then Exit Rollback
      else Ret (mkVote t n l topic_data topic_size).

(** A buffer whose first four bytes are overwritten to make a key. *)
Definition topic_key (c : Z) (v : gov_vote) (buf : list Z) : list Z := mem_set buf 0 [c; vt_t v; vt_n v; vt_l v].

(** The previous vote is uncounted; the counter of no votes is deleted. *)
Definition uncount_vote (e : gov_env) (v : gov_vote) (previous_topic_data : list Z) (m : gov_state)
    : outcome gov_end gov_state :=
  let key := topic_key ch_C v previous_topic_data in
  let '(code, votes) := hook_state_read m key [0] 0 1 in
  let votes := default 0 (head votes) in
  let* _ := ASSERT (code =? 1) in
  let* _ := ASSERT (0 <? votes) in
  let votes := u8 (votes - 1) in
  set_or_rollback e (fun c => 0 <=? c) (if votes =? 0 then [] else [votes]) key m.

(** The counter of the new vote goes up. *)
Definition count_vote (e : gov_env) (v : gov_vote) (m : gov_state) : outcome gov_end (Z * gov_state) :=
  let key := topic_key ch_C v (mem_slice (vt_topic_data v) 0 32) in
  let '(_, votes) := hook_state_read m key [0] 0 1 in
  let votes := u8 (default 0 (head votes) + 1) in
  let* m := set_or_rollback e (fun c => 0 <? c) [votes] key m in
  Ret (votes, m).

(** The vote is recorded: the number of votes for its data. *)
Definition record_vote (e : gov_env) (account_field : list Z) (v : gov_vote) (m : gov_state)
    : outcome gov_end (Z * gov_state) :=
  let vote_key := topic_key ch_V v account_field in
  let '(previous_topic_size, previous_topic_data) :=
    hook_state_read m vote_key (gs_previous_topic_data (gv_stack e)) (vt_padding v) (vt_topic_size v) in
  if (previous_topic_size =? vt_topic_size v) && BUFFER_EQUAL 32 previous_topic_data 0 (vt_topic_data v) 0
  then Exit (Accept m None)
  else
    let* m := set_or_rollback e (fun c => c =? vt_topic_size v) (vt_data v) vote_key m in
    let* m := if 0 <? previous_topic_size then uncount_vote e v previous_topic_data m else Ret m in
    count_vote e v m.

(** [int64_t q = member_count * x] for a double [x], at least 2. *)
Definition double_to_s64 (x : spec_float) : outcome gov_end Z :=
  match x with
  | S754_zero _ => Ret 0
  | S754_finite s m e =>
    let t := if 0 <=? e then Z.pos m * 2 ^ e else Z.pos m / 2 ^ (- e) in
    let t := if s then - t else t in
    if (- 2 ^ 63 <=? t) && (t <? 2 ^ 63) then Ret t else Undef UB_cast
  | S754_infinity _ | S754_nan => Undef UB_cast
  end.

(** The doubles 0.8 and 0.51. *)
Definition double_0_8 : spec_float := S754_finite false 7205759403792794 (-53).
Definition double_0_51 : spec_float := S754_finite false 4593671619917906 (-53).

Definition quorum (x : spec_float) (member_count : Z) : outcome gov_end Z :=
  let* q := double_to_s64 (SFmul 53 1024 (to_double member_count) x) in
  Ret (if q <? 2 then 2 else q).

(** ** Actions *)

(** The parameters of the transaction that carries a vote to the L1 table, up to
    [txn_len]. *)
Definition vote_parameters (v : gov_vote) : list Z :=
  [0xF0; 0x13; 0xE0; 0x17; 0x70; 0x18; 0x01; 0x54] ++ [0x70; 0x19; 0x02] ++ [vt_t v; vt_n v] ++
  [0xE1; 0xE0; 0x17; 0x70; 0x18; 0x01; 0x56; 0x70] ++ [0x19] ++ [vt_topic_size v] ++ vt_data v.

Definition action_L1_vote (e : gov_env) (v : gov_vote) (m : gov_state) : outcome gov_end unit :=
  let txn := EmitVote (vote_parameters v) in
  if gv_emit e txn =? 32 then Exit (Accept m (Some txn)) else Exit Rollback.

Definition action_reward (e : gov_env) (v : gov_vote) (m : gov_state) : outcome gov_end unit :=
  let* m := set_or_rollback e (fun c => 0 <? c) (vt_data v) [vt_t v; vt_n v] m in
  Exit (Accept m None).

(** The hash of the hook at position [n] of the account. *)
Definition existing_hook (e : gov_env) (n : Z) : option Z :=
  hs ← hooks (gv_ledger e) !! fromVoid (gv_hook_account e); h ← hs !! Z.to_nat n; hook_HookHash h.

(** [h] has ten entries. *)
Definition action_hook (e : gov_env) (v : gov_vote) (m : gov_state) : outcome gov_end unit :=
  let hash := fromVoid (mem_slice (vt_topic_data v) 0 32) in
  if bool_decide (existing_hook e (vt_n v) = Some hash) then Exit (Accept m None)
  else if negb (topic_data_zero v) && negb (bool_decide (is_Some (definitions (gv_ledger e) !! hash))) then Exit Rollback
  else if HOOK_MAX <=? vt_n v then Undef UB_oob
  else
    let txn := EmitSetHook (vt_n v) (if topic_data_zero v then None else Some (mem_slice (vt_topic_data v) 0 32)) in
    if gv_emit e txn =? 32 then Exit (Accept m (Some txn)) else Exit Rollback.

(** The garbage collection of the votes of a member, round [i]: [member] holds the
    account from offset 12. *)
Definition collect_vote (e : gov_env) (member : list Z) (i : Z) (m : gov_state) : outcome gov_end gov_state :=
  let t := if i <? 2 then ch_R else if i <? 12 then ch_H else ch_S in
  let n := if i =? 0 then ch_R else if i =? 1 then ch_D else if i <? 12 then i - 2 else i - 12 in
  let member := mem_set member 0 [ch_V; t; n] in
  let '(code, vote_key) := hook_state_read m member (replicate 32 0) 0 32 in
  if code =? 32 then
    let vote_key := mem_set vote_key 0 [ch_C; t; n] in
    let '(code, vote_count) := hook_state_read m vote_key [0] 0 1 in
    let vote_count := default 0 (head vote_count) in
    let* m :=
      if code =? 1 then
        if vote_count <=? 1 then set_or_rollback e (fun c => c =? 0) [] vote_key m
        else set_or_rollback e (fun c => c =? 1) [u8 (vote_count - 1)] vote_key m
      else Ret m in
    set_or_rollback e (fun c => c =? 0) [] member m
  else Ret m.

Fixpoint collect_votes (e : gov_env) (member : list Z) (rounds : list Z) (m : gov_state) : outcome gov_end gov_state :=
  match rounds with
  | [] => Ret m
  | i :: rounds => let* m := collect_vote e member i m in collect_votes e member rounds m
  end.

(** [for (int i = 1; i < 32; ++i)] *)
Definition collect_rounds : list Z := seqZ 1 31.

(** Both keys of a member at a seat are deleted. *)
Definition delete_member (e : gov_env) (seat : Z) (acc : list Z) (m : gov_state) : outcome gov_end gov_state :=
  let* m := set_or_rollback e (fun c => c =? 0) [] [seat] m in
  set_or_rollback e (fun c => c =? 0) [] acc m.

(** The members are changed: a moving member leaves its seat, the previous member of
    seat [n] leaves with its votes, and the new member gets the seat. *)
Definition change_seat (e : gov_env) (v : gov_vote) (member_count existing_member : Z) (previous_present : bool)
    (previous_member : list Z) (m : gov_state) : outcome gov_end unit :=
  let new := mem_slice (vt_topic_data v) 12 20 in
  let* m := set_or_rollback e (fun c => c =? 1) [u8 member_count] [ch_M; ch_C] m in
  let* m := if 0 <=? existing_member then delete_member e (u8 existing_member) new m else Ret m in
  let* m :=
    if previous_present then
      let* m := collect_votes e previous_member collect_rounds m in
      delete_member e (vt_n v) (mem_slice previous_member 12 20) m
    else Ret m in
  let* m := if topic_data_zero v then Ret m else add_member e (vt_n v) new m in
  Exit (Accept m None).

Definition action_seat (e : gov_env) (v : gov_vote) (member_count : Z) (m : gov_state) : outcome gov_end unit :=
  let '(code, previous_member) := hook_state_read m [vt_n v] (gs_previous_member (gv_stack e)) 12 20 in
  let previous_present := code =? 20 in
  if BUFFER_EQUAL 20 previous_member 12 (vt_topic_data v) 12 then Exit (Accept m None)
  else
    let existing_member := state_int m (mem_slice (vt_topic_data v) 12 20) in
    let op := 4 * of_bool (negb previous_present) + 2 * of_bool (topic_data_zero v) + of_bool (0 <=? existing_member) in
    let* _ := ASSERT (negb (op =? 3) && negb (op =? 7) && (op <? 8)) in
    let member_count :=
      if (op =? 1) || (op =? 2) then member_count - 1
      else if op =? 4 then member_count + 1
      else member_count in
    let* _ := ASSERT (1 <? member_count) in
    change_seat e v member_count existing_member previous_present previous_member m.

(** ** The hook *)

(** The votes a topic needs. *)
Definition threshold (is_L1_table : bool) (v : gov_vote) (member_count : Z) : outcome gov_end Z :=
  let* q80 := quorum double_0_8 member_count in
  let* q51 := quorum double_0_51 member_count in
  Ret (if is_L1_table || (vt_l v =? 2) then (if vt_t v =? ch_S then q80 else member_count) else q51).

(** A member votes. *)
Definition govern_vote (e : gov_env) (account_field : list Z) (is_L1_table : bool) (member_count : Z) (m : gov_state)
    : outcome gov_end unit :=
  let* v := read_vote e is_L1_table in
  let* '(votes, m) := record_vote e account_field v m in
  let* needed := threshold is_L1_table v member_count in
  if votes <? needed then Exit (Accept m None)
  else if (vt_l v =? 1) && negb is_L1_table then action_L1_vote e v m
  else if vt_t v =? ch_R then action_reward e v m
  else if vt_t v =? ch_H then action_hook e v m
  else if vt_t v =? ch_S then action_seat e v member_count m
  else Exit Rollback.

Definition govern (e : gov_env) (m : gov_state) : outcome gov_end unit :=
  if negb (gv_otxn_type e =? ttINVOKE) then Exit (Accept m None)
  else
    let account_field := mem_set (gs_account_field (gv_stack e)) 12 (gv_account e) in
    if bool_decide (gv_hook_account e = gv_account e) &&
       match gv_destination e with Some dest => negb (bool_decide (gv_hook_account e = dest)) | None => false end
    then Exit (Accept m None)
    else
      let is_L1_table := bool_decide (gv_hook_account e = genesis) in
      let member_count := state_int m [ch_M; ch_C] in
      if member_count =? DOESNT_EXIST then setup e is_L1_table m
      else if state_int m (gv_account e) <? 0 then Exit Rollback
      else govern_vote e account_field is_L1_table member_count m.
