(* ===== verification/GovernFacts.v ===== *)
(** * The governance hook: table and votes

    The keys of the hook's state stand for a table of seats and for votes with their
    counters. The operations of [Govern] are related to updates of the table and of
    the votes. *)

From S2P Require Import Prelude HookEnum HookMemory Govern.

(** ** Runs *)

(** [R] holds if the run rolls back, [P] of the state and emission it is accepted
    with, [Q] of a result. *)
Definition ends {A : Type} (R : Prop) (P : gov_state -> option emission -> Prop) (Q : A -> Prop) (o : outcome gov_end A) : Prop :=
  match o with
  | Ret a => Q a
  | Exit Rollback => R
  | Exit (Accept m em) => P m em
  | _ => False
  end.

Lemma ends_bind {A B : Type} R P (Q : A -> Prop) (Q' : B -> Prop) o k :
  ends R P Q o -> (forall a, Q a -> ends R P Q' (k a)) -> ends R P Q' (obind o k).
Proof. destruct o as [a|[m em|]| | |]; simpl; auto. Qed.

Lemma ends_mono {A : Type} (R R' : Prop) (P P' : gov_state -> option emission -> Prop) (Q Q' : A -> Prop) o :
  ends R P Q o -> (R -> R') -> (forall m em, P m em -> P' m em) -> (forall a, Q a -> Q' a) -> ends R' P' Q' o.
Proof. destruct o as [a|[m em|]| | |]; simpl; auto. Qed.

Lemma ends_ASSERT R P (Q : unit -> Prop) b : (b = false -> R) -> (b = true -> Q tt) -> ends R P Q (ASSERT b).
Proof. destruct b; simpl; auto. Qed.

Definition zero_stack : gov_stack :=
  mkStack (replicate 32 0) (replicate 56 0) (replicate 32 0) (replicate 32 0) (replicate 8 0) (replicate 8 0).

(** What the surroundings promise: error codes are negative, accounts have 20 bytes,
    parameters are bytes. The memory of an instance starts as zeros, and no code of
    the hook writes to the buffers before. *)
Record env_ok (e : gov_env) : Prop := {
  eo_error k c : gv_set_error e k = Some c -> c < 0;
  eo_account : length (gv_account e) = 20%nat;
  eo_param n v : gv_otxn_param e n = Some v -> bytesOk v;
  eo_hook_param n v : gv_hook_param e n = Some v -> bytesOk v;
  eo_stack : gv_stack e = zero_stack
}.

(** The state after [state_set]. *)
Definition written (data key : list Z) (m : gov_state) : gov_state :=
  if lenZ data =? 0 then delete (state_key key) m else <[state_key key := data]> m.

Definition set_fails (e : gov_env) : Prop := exists k c, gv_set_error e k = Some c.

Lemma ends_set e R P ok data key m :
  env_ok e -> (set_fails e -> R) -> (forall c, ok c = true -> 0 <= c) -> ok (lenZ data) = true ->
  ends R P (fun m' => m' = written data key m) (set_or_rollback e ok data key m).
Proof.
  intros He HR Hok Hd. unfold set_or_rollback, hook_state_set. destruct (gv_set_error e (state_key key)) as [c|] eqn:Ec.
  - assert (Hc := eo_error e He _ _ Ec). cbn. destruct (ok c) eqn:E; simpl; [apply Hok in E; lia|]. apply HR. by eexists _, _.
  - simpl. by rewrite Hd.
Qed.

Lemma written_set b bs key m : written (b :: bs) key m = <[state_key key := b :: bs]> m.
Proof. unfold written. by rewrite lenZ_cons, (proj2 (Z.eqb_neq _ _)) by (pose proof (lenZ_nonneg bs); lia). Qed.

Lemma written_delete key m : written [] key m = delete (state_key key) m.
Proof. done. Qed.

(** ** Keys *)

Definition seat_key (s : Z) : list Z := state_key [s].
Definition mc_key : list Z := state_key [ch_M; ch_C].

(** An account that is neither a seat nor the name of a setting. *)
Definition proper (a : list Z) : Prop := length a = 20%nat /\ bytesOk a /\ take 18 a <> replicate 18 0.

Lemma acc_key a : length a = 20%nat -> state_key a = replicate 12 0 ++ a.
Proof. intros E. unfold state_key. by rewrite E. Qed.

Lemma acc_key_inj a b : length a = 20%nat -> length b = 20%nat -> state_key a = state_key b -> a = b.
Proof. intros Ha Hb. rewrite !acc_key by done. apply app_inv_head. Qed.

Lemma seat_key_inj s r : seat_key s = seat_key r -> s = r.
Proof. unfold seat_key, state_key. intros E%app_inv_head. by injection E. Qed.

Lemma proper_short a bs : proper a -> (length bs <= 2)%nat -> state_key a <> state_key bs.
Proof.
  intros (Hl & _ & Hn) Hb E. rewrite acc_key in E by done. unfold state_key in E. apply Hn.
  apply (f_equal (fun x => take 18 (drop 12 x))) in E. rewrite drop_app_length' in E by done. rewrite E.
  rewrite drop_app_le, drop_replicate, take_app_le by (rewrite ?length_replicate; lia).
  rewrite take_replicate. f_equal. lia.
Qed.

Lemma seat_mc s : seat_key s <> mc_key.
Proof. unfold seat_key, mc_key, state_key. simpl. intros E. repeat (injection E as E; try done). Qed.

(** Keys of the table have zeros in front, others a letter. *)
Definition table_key (k : list Z) : Prop := head k = Some 0.

Lemma short_table_key bs : (length bs < 32)%nat -> table_key (state_key bs).
Proof. intros Hl. unfold table_key, state_key. by replace (32 - length bs)%nat with (S (31 - length bs)) by lia. Qed.

(** ** The table *)

(** The member at each occupied seat. *)
Notation seats := (gmap Z (list Z)).

Record table (m : gov_state) (T : seats) : Prop := {
  tb_seat s : 0 <= s < SEAT_COUNT -> m !! seat_key s = T !! s;
  tb_range s a : T !! s = Some a -> 0 <= s < SEAT_COUNT /\ proper a;
  tb_member a d : proper a -> m !! state_key a = Some d <-> exists s, d = [s] /\ T !! s = Some a
}.

(** The state holds the table and the number of members. *)
Definition represents (m : gov_state) (T : seats) : Prop :=
  table m T /\ m !! mc_key = Some [Z.of_nat (size T)].

Lemma table_inj m T s r a : table m T -> T !! s = Some a -> T !! r = Some a -> s = r.
Proof.
  intros Ht Hs Hr. destruct (tb_range m T Ht _ _ Hs) as [_ Ha].
  assert (E1 := proj2 (tb_member m T Ht a [s] Ha) (ex_intro _ s (conj eq_refl Hs))).
  assert (E2 := proj2 (tb_member m T Ht a [r] Ha) (ex_intro _ r (conj eq_refl Hr))). congruence.
Qed.

Lemma table_agree m m' T :
  table m T -> (forall k, table_key k -> k <> mc_key -> m' !! k = m !! k) -> table m' T.
Proof.
  intros Ht Hag. split.
  - intros s Hs. rewrite Hag; [by apply Ht| |apply seat_mc]. apply short_table_key. simpl. lia.
  - apply Ht.
  - intros a d Ha. rewrite Hag; [by apply Ht| |].
    + apply short_table_key. destruct Ha. lia.
    + apply proper_short; [done|]. simpl. lia.
Qed.

Lemma table_delete m T s a :
  table m T -> T !! s = Some a -> table (delete (state_key a) (delete (seat_key s) m)) (delete s T).
Proof.
  intros Ht Hs. destruct (tb_range m T Ht _ _ Hs) as [Hr Ha]. split.
  - intros r Hr'. rewrite lookup_delete_ne by (apply proper_short; [done|simpl; lia]).
    destruct (decide (r = s)) as [->|Hne]; [by rewrite !lookup_delete_eq|].
    rewrite !lookup_delete_ne; [by apply Ht|done|]. intros E%seat_key_inj. congruence.
  - intros r b [_ Hb]%lookup_delete_Some. by apply Ht in Hb.
  - intros b d Hb. destruct (decide (b = a)) as [->|Hne].
    + rewrite lookup_delete_eq. split; [done|]. intros (r & -> & [Hne Hra]%lookup_delete_Some). destruct Hne. by eapply table_inj.
    + rewrite !lookup_delete_ne; [|apply not_eq_sym, proper_short; [done|simpl; lia]|].
      * rewrite (tb_member m T Ht b d Hb). apply exist_proper. intros r. rewrite lookup_delete_Some. split; [|by intros (?&?&?)].
        intros [-> Hrb]. split; [done|]. split; [|done]. intros ->. congruence.
      * intros E. destruct Hne. symmetry. apply acc_key_inj; [apply Ha|apply Hb|done].
Qed.

Lemma table_insert m T s a :
  table m T -> T !! s = None -> (forall r, T !! r <> Some a) -> proper a -> 0 <= s < SEAT_COUNT ->
  table (<[state_key a := [s]]> (<[seat_key s := a]> m)) (<[s := a]> T).
Proof.
  intros Ht Hs Hfresh Ha Hr. split.
  - intros r Hr'. rewrite lookup_insert_ne by (apply proper_short; [done|simpl; lia]).
    destruct (decide (r = s)) as [->|Hne]; [by rewrite !lookup_insert_eq|].
    rewrite !lookup_insert_ne; [by apply Ht|done|]. intros E%seat_key_inj. congruence.
  - intros r b [[-> ->]|[_ Hb]]%lookup_insert_Some; [done|]. by apply Ht in Hb.
  - intros b d Hb. destruct (decide (b = a)) as [->|Hne].
    + rewrite lookup_insert_eq. split.
      * intros [= <-]. exists s. by rewrite lookup_insert_eq.
      * intros (r & -> & [[-> _]|[_ Hra]]%lookup_insert_Some); [done|]. by destruct (Hfresh r).
    + rewrite !lookup_insert_ne; [|apply not_eq_sym, proper_short; [done|simpl; lia]|].
      * rewrite (tb_member m T Ht b d Hb). apply exist_proper. intros r. rewrite lookup_insert_Some. split; [|naive_solver].
        intros [-> Hrb]. split; [done|]. right. split; [|done]. intros ->. congruence.
      * intros E. destruct Hne. symmetry. apply acc_key_inj; [apply Ha|apply Hb|done].
Qed.

Lemma table_size m T : table m T -> (size T <= 20)%nat.
Proof.
  intros Ht. rewrite <- size_dom. transitivity (size (list_to_set (seqZ 0 20) : gset Z)).
  - apply subseteq_size. intros s [a Hs]%elem_of_dom. apply elem_of_list_to_set, elem_of_seqZ.
    apply Ht in Hs as [Hs _]. unfold SEAT_COUNT in Hs. lia.
  - rewrite size_list_to_set by apply NoDup_seqZ. by rewrite length_seqZ.
Qed.

Lemma represents_agree m m' T :
  represents m T -> (forall k, table_key k -> m' !! k = m !! k) -> represents m' T.
Proof.
  intros [Ht Hc] Hag. split; [eapply table_agree; eauto|]. rewrite Hag; [done|]. apply short_table_key. simpl. lia.
Qed.

(** ** Reading the table *)

Lemma data_byte b : is_u8 b -> data_as_int64 [b] = b.
Proof.
  intros Hb. rewrite data_as_int64_spec by (by constructor). unfold fromVoid. cbn [foldl]. rewrite Z.mul_0_l, Z.add_0_l.
  unfold is_u8 in Hb. change (lenZ [b] <=? 8) with true. by rewrite (proj2 (Z.ltb_lt b (2 ^ 63))) by lia.
Qed.

Lemma state_int_count m T : represents m T -> state_int m [ch_M; ch_C] = Z.of_nat (size T).
Proof.
  intros [Ht Hc]. unfold state_int. fold mc_key. rewrite Hc. change (lenZ _ =? 0) with false. cbv iota.
  apply data_byte. assert (Hs := table_size m T Ht). unfold is_u8. lia.
Qed.

(** The seat of an account. *)
Lemma state_int_member m T s a : table m T -> T !! s = Some a -> state_int m a = s.
Proof.
  intros Ht Hs. destruct (tb_range m T Ht _ _ Hs) as [Hr Ha]. unfold state_int.
  rewrite (proj2 (tb_member m T Ht a [s] Ha)) by (by exists s). apply data_byte. unfold is_u8, SEAT_COUNT in *. lia.
Qed.

Lemma state_int_other m T a : table m T -> proper a -> (forall s, T !! s <> Some a) -> state_int m a < 0.
Proof.
  intros Ht Ha Hno. unfold state_int. destruct (m !! state_key a) as [d|] eqn:E; [|done].
  apply (tb_member m T Ht a d Ha) in E as (s & _ & Hs). by destruct (Hno s).
Qed.

(** The account of zeros has the key of seat 0, whose data are no number. *)
Lemma state_int_zero m T : table m T -> state_int m (replicate 20 0) < 0.
Proof.
  intros Ht. unfold state_int. change (state_key (replicate 20 0)) with (seat_key 0). rewrite (tb_seat m T Ht 0) by done.
  destruct (T !! 0) as [a|] eqn:E; [|done]. destruct (tb_range m T Ht _ _ E) as [_ (Hl & _)].
  assert (lenZ a = 20) as Hz by (unfold lenZ; lia). rewrite Hz. cbn. unfold data_as_int64. by rewrite Hz.
Qed.
