(* ===== verification/GovernVotes.v ===== *)
(** * The governance hook: votes and their counters

    The counter of a topic and its data is the number of accounts whose vote they
    are; [record_vote] keeps it so. *)

From S2P Require Import Prelude HookEnum HookMemory Govern GovernFacts.

(** ** Counting *)

Lemma size_filter_insert_fresh {A : Type} (P : list Z * A -> Prop) `{forall x, Decision (P x)} (m : gmap (list Z) A) k d :
  m !! k = None -> size (filter P (<[k := d]> m)) = (size (filter P m) + (if decide (P (k, d)) then 1 else 0))%nat.
Proof.
  intros Hk. destruct (decide (P (k, d))).
  - rewrite map_filter_insert_True by done. rewrite map_size_insert_None; [lia|]. apply map_lookup_filter_None. by left.
  - rewrite map_filter_insert_False by done. rewrite delete_id by done. lia.
Qed.

Lemma size_filter_insert {A : Type} (P : list Z * A -> Prop) `{forall x, Decision (P x)} (m : gmap (list Z) A) k d :
  (size (filter P (<[k := d]> m)) + match m !! k with Some d0 => if decide (P (k, d0)) then 1 else 0 | None => 0 end =
   size (filter P m) + (if decide (P (k, d)) then 1 else 0))%nat.
Proof.
  rewrite <- insert_delete_eq, size_filter_insert_fresh by apply lookup_delete_eq.
  destruct (m !! k) as [d0|] eqn:Ek.
  - assert (E := size_filter_insert_fresh P (delete k m) k d0 (lookup_delete_eq m k)). rewrite insert_delete_id in E by done. lia.
  - rewrite (delete_id m k) by done. lia.
Qed.

(** The key of the counter of a vote with the key [k] and the data [d]. *)
Definition count_key (k d : list Z) : list Z := ch_C :: take 3 (drop 1 k) ++ drop 4 (state_key d).

Definition counted (ck : list Z) (kd : list Z * list Z) : Prop := head kd.1 = Some ch_V /\ count_key kd.1 kd.2 = ck.
#[global] Instance counted_dec ck kd : Decision (counted ck kd).
Proof. unfold counted. apply _. Defined.

(** The accounts whose vote has the counter [ck]. *)
Definition voters (m : gov_state) (ck : list Z) : nat := size (filter (counted ck) m).

Definition counter (c : nat) : option (list Z) := if decide (c = 0%nat) then None else Some [Z.of_nat c].

Definition size_of (t : Z) : Z := if t =? ch_H then 32 else if t =? ch_S then 20 else 8.

Definition vote_key (t n l : Z) (acc : list Z) : list Z := ch_V :: t :: n :: l :: replicate 8 0 ++ acc.

Record counts_inv (m : gov_state) : Prop := {
  ci_count ck : head ck = Some ch_C -> m !! ck = counter (voters m ck);
  ci_vote k d : m !! k = Some d -> head k = Some ch_V ->
    exists t n l acc, k = vote_key t n l acc /\ length acc = 20%nat /\ (l = 1 \/ l = 2) /\ lenZ d = size_of t
}.

(** Entries that are no votes do not count. *)
Lemma voters_agree m m' ck : (forall k, head k = Some ch_V -> m' !! k = m !! k) -> voters m' ck = voters m ck.
Proof.
  intros Hag. unfold voters. f_equal. apply map_eq. intros k.
  apply option_eq. intros d. rewrite !map_lookup_filter_Some. unfold counted. simpl.
  split; intros [Hk [Hh E]]; (split; [|done]); rewrite <- Hk; [symmetry|]; by apply Hag.
Qed.

Lemma voters_insert m k d ck :
  head k = Some ch_V ->
  (voters (<[k := d]> m) ck + match m !! k with Some d0 => if decide (count_key k d0 = ck) then 1 else 0 | None => 0 end =
   voters m ck + (if decide (count_key k d = ck) then 1 else 0))%nat.
Proof.
  intros Hk. pose proof (size_filter_insert (counted ck) m k d) as E. unfold voters.
  assert (Hd : forall d', (if decide (counted ck (k, d')) then 1 else 0)%nat = (if decide (count_key k d' = ck) then 1 else 0)%nat).
  { intros d'. destruct (decide (counted ck (k, d'))) as [[_ Hc]|Hn], (decide (count_key k d' = ck)) as [He|He]; [done|by destruct He|by destruct Hn|done]. }
  destruct (m !! k); rewrite !Hd in E; exact E.
Qed.

Lemma counts_agree m m' :
  counts_inv m -> (forall k, head k = Some ch_V \/ head k = Some ch_C -> m' !! k = m !! k) -> counts_inv m'.
Proof.
  intros [Hc Hv] Hag. split.
  - intros ck Hck. rewrite Hag, (voters_agree m m') by auto. by apply Hc.
  - intros k d Hk Hh. rewrite Hag in Hk by auto. by apply Hv.
Qed.

(** ** Votes *)

(** The vote of a transaction. *)
Definition vote_of (t n l : Z) (data : list Z) : gov_vote :=
  mkVote t n l (state_key data ++ replicate 24 0) (lenZ data).

(** The layer a transaction may vote for. *)
Definition layer_ok (e : gov_env) (is_L1_table : bool) (l : Z) : Prop :=
  if is_L1_table then l = 1 else gv_otxn_param e [ch_L] = Some [l] /\ (l = 1 \/ l = 2).

(** The checks of the topic. *)
Definition topic_ok (t n l : Z) : Prop :=
  (t = ch_S /\ n < SEAT_COUNT) \/ (t = ch_H /\ n <= HOOK_MAX) \/ (t = ch_R /\ (n = ch_R \/ n = ch_D) /\ l = 1).

(** The parameters ask for a vote on a topic. *)
Record valid_vote (e : gov_env) (is_L1_table : bool) (t n l : Z) (data : list Z) : Prop := {
  vv_topic : gv_otxn_param e [ch_T] = Some [t; n];
  vv_data : gv_otxn_param e [ch_V] = Some data;
  vv_size : lenZ data = size_of t;
  vv_layer : layer_ok e is_L1_table l;
  vv_kind : topic_ok t n l
}.

Lemma state_key_length bs : (length bs <= 32)%nat -> length (state_key bs) = 32%nat.
Proof. intros H. unfold state_key. rewrite length_app, length_replicate. lia. Qed.

Lemma state_key_full bs : length bs = 32%nat -> state_key bs = bs.
Proof. intros E. unfold state_key. by rewrite E. Qed.

Lemma mem_set_zeros data :
  (length data <= 32)%nat -> mem_set (replicate 56 0) (32 - lenZ data) data = state_key data ++ replicate 24 0.
Proof.
  intros Hl. unfold mem_set, state_key, lenZ. rewrite take_replicate, drop_replicate, <- app_assoc. f_equal; [f_equal; lia|].
  do 2 f_equal. lia.
Qed.

Lemma vote_of_slice t n l data : (length data <= 32)%nat -> mem_slice (vt_topic_data (vote_of t n l data)) 0 32 = state_key data.
Proof. intros Hl. unfold mem_slice. simpl. by rewrite drop_0, take_app_length' by (by rewrite state_key_length). Qed.

Lemma vote_of_data t n l data : (length data <= 32)%nat -> vt_data (vote_of t n l data) = data.
Proof.
  intros Hl. unfold vt_data, vt_padding, mem_slice. simpl. unfold state_key, lenZ. rewrite <- app_assoc.
  rewrite drop_app_length' by (rewrite length_replicate; lia). rewrite take_app_length' by lia. done.
Qed.

Lemma size_of_cases t : size_of t = 32 \/ size_of t = 20 \/ size_of t = 8.
Proof. unfold size_of. destruct (t =? ch_H), (t =? ch_S); auto. Qed.

Lemma valid_length e L1 t n l data : valid_vote e L1 t n l data -> (0 < length data <= 32)%nat.
Proof. intros [_ _ Hs _ _]. unfold lenZ in Hs. destruct (size_of_cases t) as [E|[E|E]]; rewrite E in Hs; lia. Qed.

Lemma read_pair e (a b : Z) :
  gv_otxn_param e [ch_T] = Some [a; b] -> read_otxn_param e [ch_T] [0; 0] 0 2 = (2, [a; b]).
Proof. intros E. unfold read_otxn_param. by rewrite E. Qed.

Lemma read_data e data :
  env_ok e -> gv_otxn_param e [ch_V] = Some data -> (0 < length data <= 32)%nat ->
  read_otxn_param e [ch_V] (gs_topic_data (gv_stack e)) (32 - lenZ data) (lenZ data) =
    (lenZ data, state_key data ++ replicate 24 0).
Proof.
  intros He Hd Hl. unfold read_otxn_param. rewrite Hd, (eo_stack e He). cbn [gs_topic_data zero_stack].
  rewrite (proj2 (Z.eqb_neq (lenZ data) 0)) by (unfold lenZ; lia). rewrite Z.ltb_irrefl. by rewrite mem_set_zeros by lia.
Qed.

Lemma read_layer_valid e L1 l : layer_ok e L1 l -> read_layer e L1 = Ret l.
Proof.
  unfold layer_ok, read_layer, read_otxn_param. destruct L1; [by intros ->|]. intros [-> [-> | ->]]; done.
Qed.

Lemma read_layer_inv e L1 : read_layer e L1 = Exit Rollback \/ exists l, layer_ok e L1 l.
Proof.
  unfold layer_ok, read_layer, read_otxn_param. destruct L1; [right; by exists 1|].
  destruct (gv_otxn_param e [ch_L]) as [[|l [|]]|]; [by left| | |by left].
  - change (lenZ [l]) with 1. change (mem_set [1] 0 [l]) with [l]. change (1 =? 0) with false. change (1 <? 1) with false. cbv beta iota zeta. unfold default. cbn [head from_option id]. destruct (Z.eqb_spec l 1); [right; exists l; auto|]. destruct (Z.eqb_spec l 2); [right; exists l; auto|by left].
  - left. rewrite !lenZ_cons. pose proof (lenZ_nonneg l0). rewrite (proj2 (Z.eqb_neq _ 0)), (proj2 (Z.ltb_lt 1 _)) by lia. done.
Qed.

Lemma read_vote_valid e L1 t n l data :
  env_ok e -> valid_vote e L1 t n l data -> read_vote e L1 = Ret (vote_of t n l data).
Proof.
  intros He Hv. assert (Hl := valid_length _ _ _ _ _ _ Hv). destruct Hv as [Ht Hd Hs HL Hk].
  unfold read_vote. rewrite (read_pair e t n Ht), (read_layer_valid e L1 l HL). unfold default. cbn [lookup list_lookup from_option id obind].
  fold (size_of t). rewrite <- Hs. cbv zeta. rewrite (read_data e data He Hd Hl). rewrite Z.eqb_refl.
  unfold topic_ok, SEAT_COUNT, HOOK_MAX in *.
  destruct (Z.ltb_spec (20 - 1) n), (Z.ltb_spec 10 n), Hk as [[-> Hn]|[[-> Hn]|[-> [[-> | ->] ->]]]]; try lia; cbn; by rewrite ?andb_false_r, ?Z.eqb_refl.
Qed.

Lemma read_vote_inv e L1 :
  env_ok e -> read_vote e L1 = Exit Rollback \/ exists t n l data, valid_vote e L1 t n l data.
Proof.
  intros He. destruct (gv_otxn_param e [ch_T]) as [tp|] eqn:Et; [|by left; unfold read_vote, read_otxn_param; rewrite Et].
  destruct (decide (length tp = 2%nat)) as [Hl|Hl].
  2:{ left. unfold read_vote, read_otxn_param. rewrite Et. destruct (lenZ tp =? 0); [done|]. destruct (2 <? lenZ tp); [done|].
      by rewrite (proj2 (Z.eqb_neq (lenZ tp) 2)) by (unfold lenZ; lia). }
  destruct tp as [|t [|n [|]]]; try done. unfold read_vote. rewrite (read_pair e t n Et). unfold default. cbn [lookup list_lookup from_option id].
  destruct (read_layer_inv e L1) as [El|[l Hlay]]; [rewrite El; cbn [obind]; left; by repeat case_match|].
  rewrite (read_layer_valid _ _ _ Hlay). cbn [obind negb orb]. fold (size_of t).
  destruct (negb (t =? ch_S) && _ && _) eqn:E1; [by left|]. destruct ((t =? ch_S) && _) eqn:E2; [by left|].
  destruct ((t =? ch_H) && _) eqn:E3; [by left|]. destruct ((t =? ch_R) && _ && _) eqn:E4; [by left|].
  destruct ((l =? 2) && _) eqn:E5; [by left|]. unfold read_otxn_param.
  destruct (gv_otxn_param e [ch_V]) as [data|] eqn:Ed; [|by left; destruct (size_of_cases t) as [E|[E|E]]; rewrite E].
  destruct (decide (lenZ data = size_of t)) as [Hs|Hs].
  - right. exists t, n, l, data. split; try done. unfold topic_ok, layer_ok, SEAT_COUNT, HOOK_MAX, ch_S, ch_H, ch_R, ch_D in *. destruct L1; lia.
  - left. destruct (lenZ data =? 0); [by destruct (size_of_cases t) as [E|[E|E]]; rewrite E|].
    destruct (size_of t <? lenZ data); [by destruct (size_of_cases t) as [E|[E|E]]; rewrite E|].
    by rewrite (proj2 (Z.eqb_neq (lenZ data) (size_of t))) by done.
Qed.

(** ** Recording a vote *)

Lemma count_key_head k d : head (count_key k d) = Some ch_C.
Proof. done. Qed.

Lemma count_key_length k d : length k = 32%nat -> (length d <= 32)%nat -> length (count_key k d) = 32%nat.
Proof.
  intros Hk Hd. unfold count_key. cbn [length]. rewrite length_app, length_take, !length_drop, state_key_length by done. lia.
Qed.

Lemma vote_key_length t n l acc : length acc = 20%nat -> length (vote_key t n l acc) = 32%nat.
Proof. intros H. unfold vote_key. cbn [length]. by rewrite length_app, H. Qed.

Lemma topic_key_vote t n l data acc : topic_key ch_V (vote_of t n l data) (replicate 12 0 ++ acc) = vote_key t n l acc.
Proof. done. Qed.

Lemma topic_key_count t n l data acc d : topic_key ch_C (vote_of t n l data) (state_key d) = count_key (vote_key t n l acc) d.
Proof. done. Qed.

Lemma state_read_count m ck c :
  length ck = 32%nat -> m !! ck = counter c -> (c < 256)%nat ->
  hook_state_read m ck [0] 0 1 = if decide (c = 0%nat) then (DOESNT_EXIST, [0]) else (1, [Z.of_nat c]).
Proof.
  intros Hl Hm Hc. unfold hook_state_read. rewrite state_key_full, Hm by done. unfold counter. case_decide; done.
Qed.

Lemma previous_vote e t n l data acc m :
  env_ok e -> counts_inv m -> lenZ data = size_of t -> length acc = 20%nat ->
  hook_state_read m (vote_key t n l acc) (gs_previous_topic_data (gv_stack e)) (vt_padding (vote_of t n l data)) (lenZ data) =
  match m !! vote_key t n l acc with Some d0 => (lenZ data, state_key d0) | None => (DOESNT_EXIST, replicate 32 0) end.
Proof.
  intros He Hi Hs Ha. unfold hook_state_read. rewrite state_key_full by (by apply vote_key_length). rewrite (eo_stack e He). cbn [gs_previous_topic_data zero_stack].
  destruct (m !! vote_key t n l acc) as [d0|] eqn:E; [|done].
  destruct (ci_vote m Hi _ _ E eq_refl) as (t' & n' & l' & acc' & Ek & _ & _ & Hd0). injection Ek as <- _ _ _.
  rewrite Hd0, <- Hs. rewrite Z.ltb_irrefl. assert (Hc := size_of_cases t).
  rewrite (proj2 (Z.eqb_neq (lenZ data) 0)) by lia. f_equal. unfold vt_padding, mem_set. cbn [vt_topic_size vote_of].
  unfold lenZ in *. rewrite take_replicate, drop_replicate. unfold state_key.
  replace (32 - (Z.to_nat (32 - Z.of_nat (length data)) + length d0))%nat with 0%nat by lia. rewrite app_nil_r. f_equal. f_equal. lia.
Qed.

Lemma previous_same t n l data d0 :
  lenZ data = size_of t -> lenZ d0 = size_of t ->
  BUFFER_EQUAL 32 (state_key d0) 0 (vt_topic_data (vote_of t n l data)) 0 = bool_decide (d0 = data).
Proof.
  intros Hs Hd. assert (Hc := size_of_cases t). unfold lenZ in *. unfold BUFFER_EQUAL. rewrite vote_of_slice by lia.
  unfold mem_slice. rewrite drop_0, take_ge by (rewrite state_key_length; lia). apply bool_decide_ext.
  unfold state_key. replace (length d0) with (length data) by lia. split; [apply app_inv_head|by intros ->].
Qed.

(** The state with the vote [d] at [vk], and its counters. *)
Record recorded (m m' : gov_state) (vk d : list Z) : Prop := {
  rc_counts : counts_inv m';
  rc_vote : m' !! vk = Some d;
  rc_other k : k <> vk -> head k <> Some ch_C -> m' !! k = m !! k
}.

Lemma recorded_voters m m' vk d ck : head vk = Some ch_V -> recorded m m' vk d -> voters m' ck = voters (<[vk := d]> m) ck.
Proof.
  intros Hv Hr. apply voters_agree. intros k Hk. destruct (decide (k = vk)) as [->|Hne].
  - rewrite lookup_insert_eq. apply Hr.
  - rewrite lookup_insert_ne by done. apply Hr; [done|]. rewrite Hk. done.
Qed.

Lemma counts_recorded m m' vk d :
  counts_inv m -> head vk = Some ch_V ->
  (exists t n l acc, vk = vote_key t n l acc /\ length acc = 20%nat /\ (l = 1 \/ l = 2) /\ lenZ d = size_of t) ->
  m' !! vk = Some d -> (forall k, k <> vk -> head k <> Some ch_C -> m' !! k = m !! k) ->
  (forall ck, head ck = Some ch_C -> m' !! ck = counter (voters (<[vk := d]> m) ck)) ->
  recorded m m' vk d.
Proof.
  intros Hi Hv Hok Hd Ho Hc.
  assert (Hvot : forall ck, voters m' ck = voters (<[vk := d]> m) ck).
  { intros ck. apply voters_agree. intros k Hk. destruct (decide (k = vk)) as [->|Hne]; [by rewrite lookup_insert_eq|].
    rewrite lookup_insert_ne by done. apply Ho; [done|]. by rewrite Hk. }
  split; [split|done..].
  - intros ck Hck. rewrite Hvot. by apply Hc.
  - intros k x Hk Hh. destruct (decide (k = vk)) as [->|Hne].
    + rewrite Hd in Hk. injection Hk as <-. done.
    + rewrite Ho in Hk; [by apply (ci_vote m Hi)|done|]. by rewrite Hh.
Qed.

Definition set_counter (ck : list Z) (c : nat) (m : gov_state) : gov_state :=
  match counter c with Some v => <[ck := v]> m | None => delete ck m end.

Lemma lookup_set_counter ck c m k : set_counter ck c m !! k = if decide (k = ck) then counter c else m !! k.
Proof.
  unfold set_counter. destruct (counter c) eqn:E; destruct (decide (k = ck)) as [->|Hne].
  - by rewrite lookup_insert_eq.
  - by rewrite lookup_insert_ne.
  - by rewrite lookup_delete_eq.
  - by rewrite lookup_delete_ne.
Qed.

Lemma uncount_spec e R P t n l data acc d0 m c :
  env_ok e -> (set_fails e -> R) -> length acc = 20%nat -> (length d0 <= 32)%nat ->
  let ck := count_key (vote_key t n l acc) d0 in
  m !! ck = counter (S c) -> (S c < 256)%nat ->
  ends R P (fun m' => m' = set_counter ck c m) (uncount_vote e (vote_of t n l data) (state_key d0) m).
Proof.
  intros He HR Ha Hd ck Hm Hc. unfold uncount_vote. rewrite (topic_key_count t n l data acc d0). fold ck.
  assert (Hl : length ck = 32%nat) by (apply count_key_length; [by apply vote_key_length|done]).
  rewrite (state_read_count m ck (S c)) by done. cbn [decide decide_rel]. rewrite decide_False by done. unfold default. cbn [head from_option id].
  eapply ends_bind; [apply (ends_ASSERT _ _ (fun _ => True)); done|]. intros _ _.
  eapply ends_bind; [apply (ends_ASSERT _ _ (fun _ => True)); [intros ?%Z.ltb_ge; exfalso; lia|done]|]. intros _ _. cbv zeta.
  replace (u8 (Z.of_nat (S c) - 1)) with (Z.of_nat c) by (unfold u8; rewrite Z.mod_small; lia).
  destruct c as [|c].
  - eapply ends_mono; [apply ends_set; [done|done|intros; lia|done]|done|done|]. intros m' ->. cbn [Z.of_nat Z.eqb].
    by rewrite written_delete, state_key_full.
  - rewrite (proj2 (Z.eqb_neq (Z.of_nat (S c)) 0)) by lia.
    eapply ends_mono; [apply ends_set; [done|done|intros; lia|done]|done|done|]. intros m' ->. by rewrite written_set, state_key_full.
Qed.

Lemma count_spec e R P t n l data acc m c :
  env_ok e -> (set_fails e -> R) -> length acc = 20%nat -> (length data <= 32)%nat ->
  let ck := count_key (vote_key t n l acc) data in
  m !! ck = counter c -> (c < 255)%nat ->
  ends R P (fun r => r = (Z.of_nat (S c), set_counter ck (S c) m)) (count_vote e (vote_of t n l data) m).
Proof.
  intros He HR Ha Hd ck Hm Hc. unfold count_vote. rewrite vote_of_slice by done. rewrite (topic_key_count t n l data acc data). fold ck.
  assert (Hl : length ck = 32%nat) by (apply count_key_length; [by apply vote_key_length|done]).
  rewrite (state_read_count m ck c) by (done || lia).
  assert (Hv : u8 (default 0 (head (if decide (c = 0%nat) then (DOESNT_EXIST, [0]) else (1, [Z.of_nat c])).2) + 1) = Z.of_nat (S c)).
  { case_decide; [by subst|]. unfold default. cbn [snd head from_option id]. unfold u8. rewrite Z.mod_small; lia. }
  destruct (if decide (c = 0%nat) then _ else _) as [code votes]. cbn [snd] in Hv. cbv zeta. rewrite Hv.
  eapply ends_bind; [apply ends_set; [done|done|intros; lia|done]|]. intros m' ->. cbn [ends]. f_equal. by rewrite written_set, state_key_full.
Qed.

(** At most 254 accounts vote the same way. *)
Definition few_votes (m : gov_state) : Prop := forall ck, (voters m ck < 255)%nat.

Lemma voters_pos m k d : m !! k = Some d -> head k = Some ch_V -> (0 < voters m (count_key k d))%nat.
Proof.
  intros Hk Hh. unfold voters. assert (filter (counted (count_key k d)) m <> ∅) as Hne%map_size_non_empty_iff; [|lia].
  intros E. assert (Hx : filter (counted (count_key k d)) m !! k = Some d) by (by apply map_lookup_filter_Some).
  rewrite E in Hx. by rewrite lookup_empty in Hx.
Qed.

Lemma vote_not_count t n l acc ck : head ck = Some ch_C -> vote_key t n l acc <> ck.
Proof. by intros H <-. Qed.

(** The last step: everything but the counter [ck] of the new vote is as it will be. *)
Lemma count_recorded e R P t n l data acc m m2 :
  env_ok e -> (set_fails e -> R) -> counts_inv m ->
  length acc = 20%nat -> lenZ data = size_of t -> l = 1 \/ l = 2 ->
  let vk := vote_key t n l acc in let ck := count_key vk data in
  (voters (<[vk := data]> m) ck < 256)%nat -> m2 !! vk = Some data ->
  (forall k, k <> vk -> head k <> Some ch_C -> m2 !! k = m !! k) ->
  (forall k, head k = Some ch_C -> m2 !! k = counter (voters (<[vk := data]> m) k - (if decide (ck = k) then 1 else 0))) ->
  ends R P (fun r => r.1 = Z.of_nat (voters r.2 ck) /\ recorded m r.2 vk data) (count_vote e (vote_of t n l data) m2).
Proof.
  intros He HR Hi Ha Hs Hl vk ck Hb Hvk Ho Hc. assert (Hsz := size_of_cases t).
  assert (Hpos := voters_pos (<[vk := data]> m) vk data (lookup_insert_eq _ _ _) eq_refl). fold ck in Hpos.
  eapply ends_mono; [apply (count_spec e R P t n l data acc m2 (voters (<[vk := data]> m) ck - 1))|done|done|]; try done.
  - unfold lenZ in Hs; lia.
  - fold vk ck. rewrite Hc by done. by rewrite decide_True.
  - fold vk ck. lia.
  - fold vk ck. intros [votes m'] [= -> ->]. cbn [fst snd].
    assert (Hrec : recorded m (set_counter ck (S (voters (<[vk := data]> m) ck - 1)) m2) vk data).
    { apply counts_recorded; try done.
      - by exists t, n, l, acc.
      - by rewrite lookup_set_counter, decide_False.
      - intros k Hk Hh. rewrite lookup_set_counter, decide_False by (by intros ->). by apply Ho.
      - intros k Hk. rewrite lookup_set_counter. case_decide as E; [subst k; f_equal; lia|].
        rewrite Hc, decide_False by (done || congruence). f_equal. lia. }
    split; [|done]. rewrite (recorded_voters m _ vk data ck eq_refl Hrec). f_equal. lia.
Qed.

(** A vote that is the recorded one ends the run; another one is recorded, and the
    result is the number of accounts that vote so. *)
Lemma record_vote_spec e R P t n l data acc m :
  env_ok e -> (set_fails e -> R) -> counts_inv m -> few_votes m ->
  length acc = 20%nat -> lenZ data = size_of t -> l = 1 \/ l = 2 ->
  let vk := vote_key t n l acc in let ck := count_key vk data in
  (m !! vk = Some data -> P m None) ->
  ends R P (fun r => m !! vk <> Some data /\ r.1 = Z.of_nat (voters r.2 ck) /\ recorded m r.2 vk data)
    (record_vote e (replicate 12 0 ++ acc) (vote_of t n l data) m).
Proof.
  intros He HR Hi Hf Ha Hs Hl vk ck Hsame. assert (Hc := size_of_cases t). assert (Hlen : (0 < length data <= 32)%nat) by (unfold lenZ in Hs; lia).
  unfold record_vote. rewrite topic_key_vote. change (vt_topic_size (vote_of t n l data)) with (lenZ data).
  rewrite (previous_vote e t n l data acc m) by done. fold vk.
  assert (Hvi := fun k => voters_insert m vk data k eq_refl). fold ck in Hvi.
  assert (Hb : (voters (<[vk := data]> m) ck < 256)%nat) by (specialize (Hvi ck); specialize (Hf ck); destruct (decide _), (m !! vk); lia).
  assert (Hw : written data vk m = <[vk := data]> m).
  { destruct data; [simpl in Hlen; lia|]. by rewrite written_set, state_key_full by (by apply vote_key_length). }
  assert (Hset : ends R P (fun m1 => m1 = <[vk := data]> m)
     (set_or_rollback e (fun c => c =? lenZ data) (vt_data (vote_of t n l data)) vk m)).
  { rewrite vote_of_data, <- Hw by lia. apply ends_set; [done|done|intros c E%Z.eqb_eq; unfold lenZ in E; lia|apply Z.eqb_refl]. }
  destruct (m !! vk) as [d0|] eqn:Evk.
  - destruct (ci_vote m Hi _ _ Evk eq_refl) as (t' & n' & l' & acc' & Ek & _ & _ & Hd0). injection Ek as <- _ _ _.
    rewrite Z.eqb_refl, (previous_same t n l data d0) by done. cbn [andb]. case_bool_decide as Hd; [subst; by apply Hsame|].
    eapply ends_bind; [exact Hset|]. intros m1 ->. rewrite (proj2 (Z.ltb_lt 0 (lenZ data))) by (unfold lenZ; lia).
    set (cp := count_key vk d0) in *. assert (Hp := voters_pos m vk d0 Evk eq_refl). fold cp in Hp. assert (Hfc := Hf cp).
    eapply ends_bind.
    { apply (uncount_spec e R P t n l data acc d0 _ (voters m cp - 1)); try done; [unfold lenZ in Hd0; lia| |fold vk cp; lia].
      fold vk cp. rewrite lookup_insert_ne by (by apply vote_not_count). rewrite (ci_count m Hi) by done. f_equal. lia. }
    fold vk cp. intros m2 ->. eapply ends_mono; [apply (count_recorded e R P t n l data acc m); try done|done|done|].
    + by rewrite lookup_set_counter, decide_False, lookup_insert_eq by (by apply vote_not_count).
    + intros k Hk Hh. rewrite lookup_set_counter, decide_False by (by intros ->). by rewrite lookup_insert_ne.
    + fold vk ck. intros k Hk. specialize (Hvi k). rewrite lookup_set_counter. destruct (decide (k = cp)) as [->|Hne].
      * rewrite decide_True in Hvi by done. f_equal. lia.
      * rewrite decide_False in Hvi by done. rewrite lookup_insert_ne, (ci_count m Hi) by (done || by apply vote_not_count). f_equal. lia.
    + intros r Hr. split; [congruence|done].
  - rewrite (proj2 (Z.eqb_neq DOESNT_EXIST (lenZ data))) by (unfold DOESNT_EXIST, lenZ; lia). cbn [andb].
    eapply ends_bind; [exact Hset|]. intros m1 ->. change (0 <? DOESNT_EXIST) with false. cbv iota. cbn [obind].
    eapply ends_mono; [apply (count_recorded e R P t n l data acc m); try done|done|done|].
    + by rewrite lookup_insert_eq.
    + intros k Hk Hh. by rewrite lookup_insert_ne.
    + fold vk ck. intros k Hk. specialize (Hvi k). rewrite lookup_insert_ne, (ci_count m Hi) by (done || by apply vote_not_count).
      f_equal. lia.
    + intros r Hr. split; [congruence|done].
Qed.
