(* ===== verification/GovernActions.v ===== *)
(** * The governance hook: the change of a seat

    [action_seat] implements the change of a table of seats. *)

From S2P Require Import Prelude HookEnum HookMemory Govern GovernFacts GovernVotes.

(** The new member [x] gets seat [n] and leaves the one it had; the account of zeros
    empties the seat. *)
Definition seat_change (n : Z) (x : list Z) (T : seats) : seats :=
  if is_zero x then delete n T else <[n := x]> (filter (fun sa => sa.2 <> x) T).

(** Votes, counters and rewards stay; also the number of members. *)
Definition keeps (m m' : gov_state) : Prop :=
  forall k, ~ table_key k \/ k = mc_key \/ (exists r, k = state_key [ch_R; r]) -> m' !! k = m !! k.

#[global] Instance keeps_preorder : PreOrder keeps.
Proof. split; [done|]. intros m1 m2 m3 H12 H23 k Hk. by rewrite H23, H12. Qed.

Lemma keeps_key m k d : table_key k -> k <> mc_key -> (forall r, k <> state_key [ch_R; r]) ->
  keeps m (<[k := d]> m) /\ keeps m (delete k m).
Proof. intros Ht Hm Hr. split; intros k' Hk; [rewrite lookup_insert_ne|rewrite lookup_delete_ne]; naive_solver. Qed.

Lemma seat_key_keeps m s d : keeps m (<[seat_key s := d]> m) /\ keeps m (delete (seat_key s) m).
Proof.
  apply keeps_key; [by apply short_table_key; simpl; lia|apply seat_mc|].
  intros r. unfold seat_key, state_key. simpl. intros E. repeat (injection E as E; try done).
Qed.

Lemma acc_key_keeps m a d : proper a -> keeps m (<[state_key a := d]> m) /\ keeps m (delete (state_key a) m).
Proof.
  intros Ha. apply keeps_key; [apply short_table_key; destruct Ha; lia| |intros r]; apply proper_short; done || (simpl; lia).
Qed.

Section Actions.
Context (e : gov_env) (R : Prop).
Context (He : env_ok e) (HR : set_fails e -> R).

Lemma delete_member_spec P m T s a :
  table m T -> T !! s = Some a ->
  ends R P (fun m' => table m' (delete s T) /\ keeps m m') (delete_member e s a m).
Proof.
  intros Ht Hs. unfold delete_member. assert (Ha : proper a) by (by eapply tb_range).
  eapply ends_bind; [by apply ends_set; [done|done|intros; lia|]|]. intros m1 ->.
  eapply ends_mono; [by apply ends_set; [done|done|intros; lia|]|done|done|]. intros m2 ->. rewrite !written_delete. fold (seat_key s).
  split; [by apply table_delete|]. etrans; [exact (proj2 (seat_key_keeps m s []))|exact (proj2 (acc_key_keeps _ a [] Ha))].
Qed.

Lemma add_member_spec P m T s a :
  table m T -> T !! s = None -> (forall r, T !! r <> Some a) -> proper a -> 0 <= s < SEAT_COUNT ->
  ends R P (fun m' => table m' (<[s := a]> T) /\ keeps m m') (add_member e s a m).
Proof.
  intros Ht Hs Hf Ha Hr. unfold add_member. assert (Hl : lenZ a = 20) by (unfold lenZ; by destruct Ha as [-> _]).
  eapply ends_bind; [by apply ends_set; [done|done|intros; lia|rewrite Hl]|]. intros m1 ->.
  eapply ends_mono; [by apply ends_set; [done|done|intros; lia|]|done|done|]. intros m2 ->.
  destruct a as [|b bs]; [by destruct Ha|]. rewrite !written_set. fold (seat_key s).
  split; [by apply table_insert|]. etrans; [exact (proj1 (seat_key_keeps m s (b :: bs)))|exact (proj1 (acc_key_keeps _ _ [s] Ha))].
Qed.

(** No vote has the layer 0. *)
Definition layered (m : gov_state) : Prop := forall t n rest, m !! (ch_V :: t :: n :: 0 :: rest) = None.

Lemma counts_layered m : counts_inv m -> layered m.
Proof.
  intros Hi t n rest. destruct (m !! _) as [d|] eqn:E; [|done].
  destruct (ci_vote m Hi _ _ E eq_refl) as (? & ? & l & ? & Ek & _ & Hl & _). injection Ek as _ _ <- _. lia.
Qed.

Lemma layered_keeps m m' : layered m -> keeps m m' -> layered m'.
Proof. intros Hl Hk t n rest. rewrite Hk; [apply Hl|]. by left. Qed.

(** The collection looks for votes of layer 0. *)
Lemma collect_votes_none m p rounds :
  layered m -> length p = 20%nat -> collect_votes e (replicate 12 0 ++ p) rounds m = Ret m.
Proof.
  intros Hl Hp. induction rounds as [|i rounds IH]; [done|]. cbn [collect_votes].
  assert (Hi : collect_vote e (replicate 12 0 ++ p) i m = Ret m); [|by rewrite Hi].
  unfold collect_vote, hook_state_read. cbv zeta. set (t := if i <? 2 then _ else _). set (n := if i =? 0 then _ else _).
  change (mem_set (replicate 12 0 ++ p) 0 [ch_V; t; n]) with (ch_V :: t :: n :: 0 :: replicate 8 0 ++ p).
  rewrite state_key_full by (cbn [length]; by rewrite length_app, Hp). by rewrite Hl.
Qed.

(** The table without the seat of the moving member and without the previous member
    of seat [n]. *)
Definition vacated (T : seats) (n : Z) (moving : option Z) : seats :=
  delete n (match moving with Some s => delete s T | None => T end).

Definition moved_to (T : seats) (n : Z) (x : list Z) (moving : option Z) : seats :=
  if is_zero x then vacated T n moving else <[n := x]> (vacated T n moving).

Lemma vote_new n l x : length x = 20%nat -> mem_slice (vt_topic_data (vote_of ch_S n l x)) 12 20 = x.
Proof.
  intros Hx. unfold mem_slice, vote_of. cbn [vt_topic_data]. rewrite acc_key, <- app_assoc by done.
  rewrite drop_app_length' by done. by rewrite take_app_length'.
Qed.

Lemma vote_zero n l x : length x = 20%nat -> topic_data_zero (vote_of ch_S n l x) = is_zero x.
Proof. intros Hx. unfold topic_data_zero. rewrite vote_of_slice, acc_key by lia. done. Qed.

Lemma moved_size T n x moving : (size (moved_to T n x moving) <= S (size T))%nat.
Proof.
  assert (Hd : forall (U : seats) i, (size (delete i U) <= size U)%nat)
    by (intros U i; rewrite map_size_delete; destruct (U !! i); simpl; lia).
  assert (Hv : (size (vacated T n moving) <= size T)%nat)
    by (unfold vacated; destruct moving; [etrans; [apply Hd|apply Hd]|apply Hd]).
  unfold moved_to. destruct (is_zero x); [lia|]. rewrite map_size_insert. destruct (vacated T n moving !! n); simpl; lia.
Qed.

Definition move_ok (T : seats) (n : Z) (x : list Z) (moving : option Z) (existing : Z) : Prop :=
  match moving with
  | Some s => existing = s /\ T !! s = Some x /\ s <> n
  | None => existing < 0 /\ (is_zero x = false -> forall r, T !! r <> Some x)
  end.

Lemma vacated_fresh m T n x moving existing r :
  table m T -> is_zero x = false -> move_ok T n x moving existing -> vacated T n moving !! r <> Some x.
Proof.
  intros Ht Hx Hm E. unfold vacated in E. apply lookup_delete_Some in E as [_ E]. destruct moving as [s|].
  - destruct Hm as (_ & Hs & _). apply lookup_delete_Some in E as [Hne E]. destruct Hne. by eapply table_inj.
  - destruct Hm as [_ Hm]. by eapply Hm.
Qed.

Lemma leave_seat_spec P m T n x moving existing :
  table m T -> move_ok T n x moving existing ->
  ends R P (fun m' => table m' (match moving with Some s => delete s T | None => T end) /\ keeps m m')
    (if 0 <=? existing then delete_member e (u8 existing) x m else Ret m).
Proof.
  intros Ht Hm. destruct moving as [s|].
  - destruct Hm as (-> & Hs & _). destruct (tb_range m T Ht _ _ Hs) as [Hr _]. unfold SEAT_COUNT in Hr.
    rewrite (proj2 (Z.leb_le 0 s)) by lia. replace (u8 s) with s by (unfold u8; rewrite Z.mod_small; lia). by apply delete_member_spec.
  - destruct Hm as [Hm _]. rewrite (proj2 (Z.leb_gt 0 existing)) by lia. done.
Qed.

Lemma clear_seat_spec P m T n :
  table m T -> layered m ->
  ends R P (fun m' => table m' (delete n T) /\ keeps m m')
    (if bool_decide (is_Some (T !! n)) then
       let* m := collect_votes e (replicate 12 0 ++ default (replicate 20 0) (T !! n)) collect_rounds m in
       delete_member e n (mem_slice (replicate 12 0 ++ default (replicate 20 0) (T !! n)) 12 20) m
     else Ret m).
Proof.
  intros Ht Hl. destruct (T !! n) as [p|] eqn:E.
  - rewrite bool_decide_eq_true_2 by done. cbn [default]. assert (Hp : length p = 20%nat) by (by eapply tb_range).
    unfold default. cbn [from_option id]. rewrite collect_votes_none by done. cbn [obind]. unfold mem_slice. rewrite drop_app_length' by done.
    rewrite take_ge by (rewrite Hp; done). by apply delete_member_spec.
  - rewrite bool_decide_eq_false_2 by (by intros []). cbn [ends]. by rewrite delete_id.
Qed.

Lemma change_seat_spec m T n l x moving existing :
  represents m T -> layered m -> 0 <= n < SEAT_COUNT -> length x = 20%nat -> is_zero x = true \/ proper x ->
  move_ok T n x moving existing ->
  ends R (fun m' em => em = None /\ represents m' (moved_to T n x moving) /\
            forall k, k <> mc_key -> ~ table_key k \/ (exists r, k = state_key [ch_R; r]) -> m' !! k = m !! k)
    (fun _ => False)
    (change_seat e (vote_of ch_S n l x) (Z.of_nat (size (moved_to T n x moving))) existing (bool_decide (is_Some (T !! n)))
       (replicate 12 0 ++ default (replicate 20 0) (T !! n)) m).
Proof.
  intros [Ht Hc] Hlay Hn Hx Hp Hmov. unfold change_seat. rewrite vote_new, vote_zero by done. cbn [vt_n vote_of].
  assert (Hsz := moved_size T n x moving). assert (HszT := table_size m T Ht).
  replace (u8 (Z.of_nat (size (moved_to T n x moving)))) with (Z.of_nat (size (moved_to T n x moving)))
    by (unfold u8; rewrite Z.mod_small; lia).
  eapply ends_bind; [by apply ends_set; [done|done|intros; lia|]|]. intros m1 ->. rewrite written_set. fold mc_key.
  set (m1 := <[mc_key := _]> m).
  assert (Ht1 : table m1 T) by (eapply table_agree; [done|]; intros k _ Hk; by apply lookup_insert_ne).
  assert (Hl1 : layered m1) by (intros t' n' rest; unfold m1; rewrite lookup_insert_ne by done; apply Hlay).
  eapply ends_bind; [by eapply leave_seat_spec|]. intros m2 [Ht2 Hk2]. set (T1 := match moving with Some s => delete s T | None => T end) in Ht2.
  assert (HT1 : T !! n = T1 !! n) by (unfold T1; destruct moving as [s|]; [rewrite lookup_delete_ne; [done|]; by apply Hmov|done]).
  rewrite HT1. eapply ends_bind; [eapply clear_seat_spec; [done|by eapply layered_keeps]|]. intros m3 [Ht3 Hk3].
  change (delete n T1) with (vacated T n moving) in Ht3.
  eapply (ends_bind _ _ (fun m4 => table m4 (moved_to T n x moving) /\ keeps m3 m4)).
  - unfold moved_to. destruct (is_zero x) eqn:Ez; [done|]. destruct Hp as [Hp|Hp]; [done|]. apply add_member_spec; try done.
    + unfold vacated. apply lookup_delete_eq.
    + intros r. by eapply vacated_fresh.
  - intros m4 [Ht4 Hk4]. assert (Hk : keeps m1 m4) by (by etrans; [exact Hk2|]; etrans).
    cbn [ends]. split; [done|]. split; [split; [done|]|].
    + rewrite Hk by auto. apply lookup_insert_eq.
    + intros k Hmc Hkk. rewrite Hk by naive_solver. by apply lookup_insert_ne.
Qed.

(** ** The change of a seat *)

Lemma is_zero_spec x : is_zero x = true <-> x = replicate (length x) 0.
Proof.
  unfold is_zero. induction x as [|b x IH]; [done|]. cbn [forallb length replicate]. rewrite andb_true_iff, IH, Z.eqb_eq.
  split; [by intros [-> <-]|]. by intros [= -> <-].
Qed.

Lemma proper_nonzero x : proper x -> is_zero x = false.
Proof.
  intros (Hl & _ & Hn). destruct (is_zero x) eqn:E; [|done]. apply is_zero_spec in E. rewrite Hl in E. by subst.
Qed.

Lemma filter_member m T s x : table m T -> T !! s = Some x -> filter (fun sa => sa.2 <> x) T = delete s T.
Proof.
  intros Ht Hs. apply map_eq. intros r. apply option_eq. intros a. rewrite map_lookup_filter_Some, lookup_delete_Some. simpl.
  split; intros [H1 H2]; split; try done; [intros ->; congruence|]. intros ->. destruct H1. by eapply table_inj.
Qed.

Lemma filter_stranger (T : seats) x : (forall r, T !! r <> Some x) -> filter (fun sa => sa.2 <> x) T = T.
Proof. intros Hf. apply map_filter_id. intros r a Hr Ha. simpl in Ha. subst. by destruct (Hf r). Qed.

Lemma seat_change_moved m T n x moving existing :
  table m T -> move_ok T n x moving existing -> is_zero x = true /\ moving = None \/ proper x ->
  seat_change n x T = moved_to T n x moving.
Proof.
  intros Ht Hm Hx. unfold seat_change, moved_to, vacated. destruct Hx as [[-> ->]|Hx]; [done|]. rewrite proper_nonzero by done.
  rewrite insert_delete_eq. f_equal. destruct moving as [s|].
  - destruct Hm as (_ & Hs & _). by eapply filter_member.
  - destruct Hm as [_ Hm]. apply filter_stranger, Hm. by apply proper_nonzero.
Qed.

Lemma seat_change_same m T n x : table m T -> default (replicate 20 0) (T !! n) = x -> seat_change n x T = T.
Proof.
  intros Ht. destruct (T !! n) as [p|] eqn:E; unfold default; cbn [from_option id]; intros <-; unfold seat_change.
  - rewrite proper_nonzero by (by eapply tb_range). rewrite (filter_member m T n p) by done. by apply insert_delete_id.
  - cbn. by apply delete_id.
Qed.

(** The change of the member count. *)
Definition seat_op (T : seats) (n : Z) (x : list Z) (moving : option Z) : Z :=
  4 * of_bool (negb (bool_decide (is_Some (T !! n)))) + 2 * of_bool (is_zero x) + of_bool (bool_decide (is_Some moving)).

Lemma size_delete_Some (T : seats) n p : T !! n = Some p -> size T = S (size (delete n T)).
Proof. intros E. rewrite <- (insert_delete_id T n p E) at 1. apply map_size_insert_None, lookup_delete_eq. Qed.

#[local] Ltac eval_op :=
  match goal with |- context [4 * ?a + 2 * ?b + ?c] =>
    let r := eval compute in (4 * a + 2 * b + c) in change (4 * a + 2 * b + c) with r end;
  cbn [Z.eqb Pos.eqb orb].

Lemma moved_count T n x moving existing :
  move_ok T n x moving existing -> (is_zero x = true -> moving = None) ->
  Z.of_nat (size (moved_to T n x moving)) =
  if (seat_op T n x moving =? 1) || (seat_op T n x moving =? 2) then Z.of_nat (size T) - 1
  else if seat_op T n x moving =? 4 then Z.of_nat (size T) + 1 else Z.of_nat (size T).
Proof.
  intros Hm Hz. unfold seat_op, moved_to, vacated. destruct (is_zero x).
  - rewrite Hz by done. destruct (T !! n) as [p|] eqn:E; eval_op; [|by rewrite delete_id].
    apply size_delete_Some in E. lia.
  - rewrite map_size_insert_None by apply lookup_delete_eq. destruct moving as [s|].
    + destruct Hm as (_ & Hs & Hne). assert (E1 := size_delete_Some T s x Hs).
      destruct (T !! n) as [p|] eqn:E; eval_op.
      * rewrite <- (lookup_delete_ne T s n) in E by done. apply size_delete_Some in E. lia.
      * rewrite (delete_id (delete s T)) by (by rewrite lookup_delete_ne). lia.
    + destruct (T !! n) as [p|] eqn:E; eval_op; [apply size_delete_Some in E; lia|]. rewrite delete_id by done. lia.
Qed.

(** The member of seat [n], as the hook reads it. *)
Lemma previous_member m T n :
  table m T -> 0 <= n < SEAT_COUNT ->
  hook_state_read m [n] (gs_previous_member (gv_stack e)) 12 20 =
  (if bool_decide (is_Some (T !! n)) then 20 else DOESNT_EXIST, replicate 12 0 ++ default (replicate 20 0) (T !! n)).
Proof.
  intros Ht Hn. unfold hook_state_read. fold (seat_key n). rewrite (tb_seat m T Ht n Hn), (eo_stack e He). cbn [gs_previous_member zero_stack].
  destruct (T !! n) as [p|] eqn:E; [|done]. destruct (tb_range m T Ht _ _ E) as [_ (Hp & _)].
  assert (lenZ p = 20) as -> by (unfold lenZ; by rewrite Hp). rewrite bool_decide_eq_true_2 by done.
  change (20 =? 0) with false. change (20 <? 20) with false. cbv iota. f_equal. unfold mem_set. rewrite take_replicate, drop_replicate, Hp.
  change (32 - (Z.to_nat 12 + 20))%nat with 0%nat. by rewrite app_nil_r.
Qed.

(** The seat of the new member. *)
Lemma existing_member m T n x :
  table m T -> length x = 20%nat -> is_zero x = true \/ proper x -> default (replicate 20 0) (T !! n) <> x ->
  exists moving, move_ok T n x moving (state_int m x) /\ (is_zero x = true -> moving = None) /\
    (0 <=? state_int m x) = bool_decide (is_Some moving).
Proof.
  intros Ht Hl [Hz|Hp] Hne.
  - exists None. assert (x = replicate 20 0) as -> by (rewrite <- Hl; by apply is_zero_spec).
    assert (Hneg := state_int_zero m T Ht). split; [by split|]. split; [done|]. rewrite bool_decide_eq_false_2 by (by intros []). lia.
  - rewrite proper_nonzero by done. destruct (m !! state_key x) as [d|] eqn:E.
    + apply (tb_member m T Ht x d Hp) in E as (s & _ & Hs). exists (Some s). rewrite (state_int_member m T s x) by done.
      split; [split; [done|]; split; [done|]; intros ->; rewrite Hs in Hne; by destruct Hne|]. split; [done|].
      rewrite bool_decide_eq_true_2 by done. apply Z.leb_le. destruct (tb_range m T Ht _ _ Hs); lia.
    + assert (Hf : forall r, T !! r <> Some x).
      { intros r Hr. rewrite (proj2 (tb_member m T Ht x [r] Hp)) in E by (by exists r). done. }
      exists None. assert (Hneg := state_int_other m T x Ht Hp Hf). split; [by split|]. split; [done|].
      rewrite bool_decide_eq_false_2 by (by intros []). lia.
Qed.

(** [action_seat] implements [seat_change]. *)
Lemma action_seat_spec m T n l x :
  represents m T -> layered m -> 0 <= n < SEAT_COUNT -> length x = 20%nat -> is_zero x = true \/ proper x ->
  ((size (seat_change n x T) < 2)%nat -> R) ->
  ends R (fun m' em => em = None /\ represents m' (seat_change n x T) /\
            (seat_change n x T = T \/ (2 <= size (seat_change n x T))%nat) /\
            forall k, k <> mc_key -> ~ table_key k \/ (exists r, k = state_key [ch_R; r]) -> m' !! k = m !! k)
    (fun _ => False) (action_seat e (vote_of ch_S n l x) (Z.of_nat (size T)) m).
Proof.
  intros Hr Hlay Hn Hl Hx Hsize. assert (Ht := proj1 Hr). unfold action_seat. cbn [vt_n vote_of].
  rewrite (previous_member m T n) by done. unfold BUFFER_EQUAL. rewrite vote_new, vote_zero by done.
  assert (Hslice : mem_slice (replicate 12 0 ++ default (replicate 20 0) (T !! n)) 12 20 = default (replicate 20 0) (T !! n)).
  { unfold mem_slice. rewrite drop_app_length' by done. apply take_ge. destruct (T !! n) as [p|] eqn:E; [|done].
    destruct (tb_range m T Ht _ _ E) as [_ (Hp & _)]. unfold default. cbn [from_option id]. by rewrite Hp. }
  rewrite Hslice. case_bool_decide as Hsame.
  - cbn [ends]. rewrite (seat_change_same m T n x) by done. auto.
  - destruct (existing_member m T n x Ht Hl Hx Hsame) as (moving & Hm & Hz & Hex). rewrite Hex.
    assert (Hpr : (if bool_decide (is_Some (T !! n)) then 20 else DOESNT_EXIST) =? 20 = bool_decide (is_Some (T !! n)))
      by (by destruct (bool_decide (is_Some (T !! n)))).
    rewrite Hpr. fold (seat_op T n x moving). cbv zeta. rewrite <- (moved_count T n x moving (state_int m x)) by done.
    assert (Hsc : seat_change n x T = moved_to T n x moving).
    { apply (seat_change_moved m T n x moving (state_int m x)); [done|done|]. destruct Hx; [left; auto|by right]. }
    eapply ends_bind.
    { apply (ends_ASSERT _ _ (fun _ => True)); [|done]. unfold seat_op. destruct (is_zero x).
      - rewrite Hz by done. by destruct (bool_decide (is_Some (T !! n))).
      - by destruct (bool_decide (is_Some (T !! n))), (bool_decide (is_Some moving)). }
    intros _ _. eapply ends_bind.
    { apply (ends_ASSERT _ _ (fun _ => (2 <= size (moved_to T n x moving))%nat)); [|intros ?%Z.ltb_lt; lia].
      intros ?%Z.ltb_ge. apply Hsize. rewrite Hsc. lia. }
    intros ? H2. rewrite Hsc. eapply ends_mono; [by apply change_seat_spec|done| |done]. naive_solver.
Qed.

End Actions.
