(* ===== verification/GovernSteps.v ===== *)
(** * The governance hook: its runs

    A vote, the setup, and what a run does to the table, the votes and the rewards. *)

From Stdlib Require Import SpecFloat.
From S2P Require Import Prelude HookEnum GuardCheck HookMemory HookState Govern GovernFacts GovernVotes GovernActions.

(** ** Thresholds *)

(** The votes a topic needs at a table with [mc] members. *)
Definition votes_needed (is_L1_table : bool) (t l mc : Z) : Z :=
  if is_L1_table || (l =? 2) then (if t =? ch_S then Z.max 2 (4 * mc / 5) else mc) else Z.max 2 (51 * mc / 100).

Lemma quorum_table :
  Forall (fun mc => quorum double_0_8 mc = Ret (Z.max 2 (4 * mc / 5)) /\ quorum double_0_51 mc = Ret (Z.max 2 (51 * mc / 100)))
    (seqZ 0 21).
Proof. repeat (apply Forall_cons; split; [split; by vm_compute|]). by apply Forall_nil. Qed.

Lemma threshold_spec L1 t n l data mc :
  0 <= mc <= 20 -> threshold L1 (vote_of t n l data) mc = Ret (votes_needed L1 t l mc).
Proof.
  intros Hmc. pose proof quorum_table as Hq. rewrite Forall_forall in Hq. destruct (Hq mc) as [H1 H2]; [apply elem_of_seqZ; lia|].
  unfold threshold. by rewrite H1, H2.
Qed.

(** ** A vote *)

(** The rewards stay. *)
Definition same_rewards (m m' : gov_state) : Prop := forall r, m' !! state_key [ch_R; r] = m !! state_key [ch_R; r].

(** The action of a topic. *)
Definition actioned (e : gov_env) (is_L1_table : bool) (t n l : Z) (data : list Z) (T : seats) (m m' : gov_state)
    (em : option emission) : Prop :=
  if (l =? 1) && negb is_L1_table
  then represents m' T /\ same_rewards m m' /\ em = Some (EmitVote (vote_parameters (vote_of t n l data)))
  else if t =? ch_R
  then represents m' T /\ em = None /\ m' !! state_key [ch_R; n] = Some data /\
       (forall r, r <> n -> m' !! state_key [ch_R; r] = m !! state_key [ch_R; r])
  else if t =? ch_H
  then represents m' T /\ same_rewards m m' /\
       (existing_hook e n = Some (fromVoid data) /\ em = None \/
        em = Some (EmitSetHook n (if is_zero data then None else Some data)))
  else represents m' (seat_change n data T) /\ same_rewards m m' /\ em = None /\
       (seat_change n data T = T \/ (2 <= size (seat_change n data T))%nat).

(** A vote is recorded and counted, and actioned with enough votes. *)
Definition voted (e : gov_env) (is_L1_table : bool) (t n l : Z) (data : list Z) (T : seats) (m m' : gov_state)
    (em : option emission) : Prop :=
  let vk := vote_key t n l (gv_account e) in
  let votes := Z.of_nat (voters m' (count_key vk data)) in
  counts_inv m' /\ m' !! vk = Some data /\ (forall k, head k = Some ch_V -> k <> vk -> m' !! k = m !! k) /\
  if votes <? votes_needed is_L1_table t l (Z.of_nat (size T))
  then represents m' T /\ same_rewards m m' /\ em = None
  else actioned e is_L1_table t n l data T m m' em.

(** Why a vote is rolled back. *)
Definition may_fail (e : gov_env) (t n : Z) (data : list Z) (T : seats) : Prop :=
  set_fails e \/ (exists txn, gv_emit e txn <> 32) \/ (t = ch_S /\ (size (seat_change n data T) < 2)%nat) \/
  (t = ch_H /\ is_zero data = false /\ definitions (gv_ledger e) !! fromVoid data = None).

(** Seat topics are about an account or none, hook topics about positions 0 to 9. *)
Definition topic_fine (t n : Z) (data : list Z) : Prop :=
  (t = ch_S -> is_zero data = true \/ proper data) /\ (t = ch_H -> n < HOOK_MAX).

Lemma recorded_table m m' vk d T :
  head vk = Some ch_V -> recorded m m' vk d -> represents m T -> represents m' T.
Proof.
  intros Hv Hr HT. eapply represents_agree; [exact HT|]. intros k Hk. unfold table_key in Hk.
  apply Hr; [intros ->; by rewrite Hv in Hk|by rewrite Hk].
Qed.

Lemma recorded_rewards m m' vk d : head vk = Some ch_V -> recorded m m' vk d -> same_rewards m m'.
Proof. intros Hv Hr r. apply Hr; [|done]. by intros <-. Qed.

Lemma fromVoid_zeros n bs : fromVoid (replicate n 0 ++ bs) = fromVoid bs.
Proof. induction n as [|n IH]; [done|]. cbn [replicate app]. rewrite fromVoid_cons, IH. lia. Qed.

Lemma is_zero_app a b : is_zero (a ++ b) = is_zero a && is_zero b.
Proof. apply forallb_app. Qed.

Lemma table_setting m T r d : table m T -> table (<[state_key [ch_R; r] := d]> m) T.
Proof.
  intros Ht. split.
  - intros s Hs. rewrite lookup_insert_ne; [by apply Ht|]. unfold seat_key, state_key. simpl. intros E. repeat (injection E as E; try done).
  - apply Ht.
  - intros a d' Ha. rewrite lookup_insert_ne; [by apply Ht|]. apply not_eq_sym, proper_short; [done|simpl; lia].
Qed.

Section Vote.
Context (e : gov_env) (L1 : bool) (t n l : Z) (data : list Z) (T : seats) (m : gov_state).
Context (He : env_ok e) (Hr : represents m T) (Hv : valid_vote e L1 t n l data) (Hfine : topic_fine t n data).

Lemma vote_number : 0 <= n.
Proof. assert (Hb := eo_param e He _ _ (vv_topic _ _ _ _ _ _ Hv)). apply Forall_cons in Hb as [_ [Hn _]%Forall_cons]. unfold is_u8 in Hn. lia. Qed.

Lemma vote_data_length : (length data <= 32)%nat.
Proof. apply (valid_length _ _ _ _ _ _ Hv). Qed.

(** The action, which leaves votes and counters. *)
Definition acted (m' : gov_state) (em : option emission) : Prop :=
  actioned e L1 t n l data T m m' em /\ forall k, ~ table_key k -> m' !! k = m !! k.

Lemma action_L1_vote_spec :
  (l =? 1) && negb L1 = true ->
  ends (may_fail e t n data T) acted (fun _ => False) (action_L1_vote e (vote_of t n l data) m).
Proof.
  intros Hl. unfold action_L1_vote, acted, actioned. rewrite Hl. destruct (Z.eqb_spec (gv_emit e (EmitVote (vote_parameters (vote_of t n l data)))) 32) as [E|E].
  - done.
  - right. left. by eexists.
Qed.

Lemma reward_represents r d : represents (<[state_key [ch_R; r] := d]> m) T.
Proof. destruct Hr as [Ht Hc]. split; [by apply table_setting|]. by rewrite lookup_insert_ne. Qed.

Lemma action_reward_spec :
  (l =? 1) && negb L1 = false -> t = ch_R ->
  ends (may_fail e t n data T) acted (fun _ => False) (action_reward e (vote_of t n l data) m).
Proof.
  intros Hl Ht. unfold action_reward, acted, actioned. rewrite Hl. assert (Hlen := valid_length _ _ _ _ _ _ Hv). rewrite vote_of_data by lia.
  eapply ends_bind; [apply ends_set; [done|by left|intros; lia|unfold lenZ; lia]|]. intros m' ->. cbn [ends vt_t vt_n vote_of]. rewrite Ht.
  change (ch_R =? ch_R) with true. cbv iota. destruct data as [|b bs] eqn:Ed; [simpl in Hlen; lia|]. rewrite written_set.
  split; [split; [apply reward_represents|]; split; [done|]; split; [apply lookup_insert_eq|]|].
  - intros r Hne. apply lookup_insert_ne. unfold state_key. simpl. congruence.
  - intros k Hk. apply lookup_insert_ne. intros <-. by apply Hk.
Qed.

Lemma action_hook_spec :
  (l =? 1) && negb L1 = false -> t = ch_H ->
  ends (may_fail e t n data T) acted (fun _ => False) (action_hook e (vote_of t n l data) m).
Proof.
  intros Hl Ht. assert (Hlen := vv_size _ _ _ _ _ _ Hv). rewrite Ht in Hlen. change (size_of ch_H) with 32 in Hlen.
  assert (Hd : state_key data = data) by (apply state_key_full; unfold lenZ in Hlen; lia).
  unfold action_hook, acted, actioned, topic_data_zero. rewrite Hl, vote_of_slice, Hd by (unfold lenZ in Hlen; lia). cbn [vt_n vote_of]. rewrite Ht.
  change (ch_H =? ch_R) with false. change (ch_H =? ch_H) with true. cbv iota zeta.
  case_bool_decide as Hex; [cbn [ends]; split; [|done]; split; [done|]; split; [done|]; by left|].
  destruct (negb (is_zero data) && _) eqn:Edef.
  - cbn [ends]. right. right. right. split; [done|]. apply andb_true_iff in Edef as [Hz Hn].
    apply negb_true_iff in Hz, Hn. split; [done|]. apply bool_decide_eq_false in Hn. by apply eq_None_not_Some.
  - assert (Hn := proj2 Hfine Ht). rewrite (proj2 (Z.leb_gt HOOK_MAX n)) by done.
    destruct (Z.eqb_spec (gv_emit e (EmitSetHook n (if is_zero data then None else Some data))) 32) as [E|E].
    + cbn [ends]. split; [|done]. split; [done|]. split; [done|]. by right.
    + right. left. by eexists.
Qed.

Lemma action_seat_voted :
  (l =? 1) && negb L1 = false -> t = ch_S -> layered m ->
  ends (may_fail e t n data T) acted (fun _ => False) (action_seat e (vote_of t n l data) (Z.of_nat (size T)) m).
Proof.
  intros Hl Ht Hlay. assert (Hlen := vv_size _ _ _ _ _ _ Hv). rewrite Ht in Hlen. change (size_of ch_S) with 20 in Hlen.
  assert (Hn : 0 <= n < SEAT_COUNT).
  { split; [apply vote_number|]. destruct (vv_kind _ _ _ _ _ _ Hv) as [[_ ?]|[[E _]|[E _]]]; [done|by rewrite Ht in E|by rewrite Ht in E]. }
  unfold acted, actioned. rewrite Hl, Ht. change (ch_S =? ch_R) with false. change (ch_S =? ch_H) with false. cbv iota.
  eapply ends_mono; [apply (action_seat_spec e (may_fail e t n data T) He)| | |].
  - by left.
  - exact Hr.
  - done.
  - done.
  - unfold lenZ in Hlen; lia.
  - by apply Hfine.
  - intros Hs. right. right. left. by rewrite Ht.
  - by rewrite Ht.
  - intros m' em (-> & HT & H2 & Hk). split; [split; [done|]; split; [|done]|].
    + intros r. apply Hk; [done|]. right. by exists r.
    + intros k Hnk. apply Hk; [|by left]. intros ->. apply Hnk. by apply short_table_key; simpl; lia.
  - done.
Qed.

End Vote.

Lemma voted_intro e L1 t n l data T m m1 m' em :
  let vk := vote_key t n l (gv_account e) in
  recorded m m1 vk data -> Z.of_nat (voters m1 (count_key vk data)) >= votes_needed L1 t l (Z.of_nat (size T)) ->
  acted e L1 t n l data T m1 m' em -> voted e L1 t n l data T m m' em.
Proof.
  intros vk Hrec Hn [Hact Hk]. assert (Hrw := recorded_rewards m m1 vk data eq_refl Hrec).
  assert (Hvot : voters m' (count_key vk data) = voters m1 (count_key vk data)).
  { apply voters_agree. intros k Hh. apply Hk. unfold table_key. by rewrite Hh. }
  unfold voted. fold vk. split; [|split; [|split]].
  - eapply counts_agree; [apply Hrec|]. intros k Hh. apply Hk. unfold table_key. destruct Hh as [-> | ->]; done.
  - rewrite Hk by done. apply Hrec.
  - intros k Hh Hne. rewrite Hk by (unfold table_key; by rewrite Hh). apply Hrec; [done|]. by rewrite Hh.
  - rewrite Hvot, (proj2 (Z.ltb_ge _ _)) by lia. revert Hact. unfold actioned.
    destruct (_ && _); [intros (? & Hs & ?); split; [done|]; split; [|done]; intros r; by rewrite Hs|].
    destruct (t =? ch_R); [intros (? & ? & ? & Hs); split; [done|]; split; [done|]; split; [done|]; intros r Hne; by rewrite Hs|].
    destruct (t =? ch_H); intros (? & Hs & ?); (split; [done|]; split; [|done]; intros r; by rewrite Hs).
Qed.

Lemma govern_vote_spec e L1 t n l data T m :
  let vk := vote_key t n l (gv_account e) in
  env_ok e -> represents m T -> counts_inv m -> few_votes m -> valid_vote e L1 t n l data -> topic_fine t n data ->
  ends (may_fail e t n data T)
    (fun m' em => m !! vk = Some data /\ m' = m /\ em = None \/ m !! vk <> Some data /\ voted e L1 t n l data T m m' em)
    (fun _ => False) (govern_vote e (replicate 12 0 ++ gv_account e) L1 (Z.of_nat (size T)) m).
Proof.
  intros vk He Hr Hi Hf Hv Hfine. unfold govern_vote. rewrite (read_vote_valid e L1 t n l data He Hv). cbn [obind].
  assert (Hl : l = 1 \/ l = 2) by (assert (Hl := vv_layer _ _ _ _ _ _ Hv); unfold layer_ok in Hl; destruct L1; naive_solver).
  eapply ends_bind.
  { apply (record_vote_spec e _ _ t n l data (gv_account e)); try done; [by left|apply He|apply Hv|]. intros E. left. done. }
  intros [votes m1] (Hnew & Hvotes & Hrec). cbn [fst snd] in *. fold vk in Hrec, Hvotes.
  assert (HT := recorded_table m m1 vk data T eq_refl Hrec Hr). assert (Hsz := table_size m T (proj1 Hr)).
  rewrite threshold_spec by lia. cbn [obind]. rewrite Hvotes. destruct (Z.ltb_spec (Z.of_nat (voters m1 (count_key vk data))) (votes_needed L1 t l (Z.of_nat (size T)))) as [Hlt|Hge].
  - cbn [ends]. right. split; [done|]. unfold voted. fold vk. split; [apply Hrec|]. split; [apply Hrec|]. split.
    + intros k Hh Hne. apply Hrec; [done|]. by rewrite Hh.
    + rewrite (proj2 (Z.ltb_lt _ _)) by done. split; [done|]. split; [exact (recorded_rewards m m1 vk data eq_refl Hrec)|done].
  - cbn [vt_l vt_t vote_of]. assert (Hlay := counts_layered m1 (rc_counts _ _ _ _ Hrec)).
    eapply (ends_mono (may_fail e t n data T) _ (acted e L1 t n l data T m1) _ (fun _ => False)); [|done| |done].
    2:{ intros m' em Ha. right. split; [done|]. exact (voted_intro e L1 t n l data T m m1 m' em Hrec (Z.le_ge _ _ Hge) Ha). }
    destruct ((l =? 1) && negb L1) eqn:Hl1; [by apply action_L1_vote_spec|].
    destruct (Z.eqb_spec t ch_R) as [Et|HtR]; [by apply action_reward_spec|].
    destruct (Z.eqb_spec t ch_H) as [Et|HtH]; [by apply action_hook_spec|].
    destruct (Z.eqb_spec t ch_S) as [Et|HtS]; [by apply action_seat_voted|].
    exfalso. destruct (vv_kind _ _ _ _ _ _ Hv) as [[? _]|[[? _]|[? _]]]; done.
Qed.

(** ** Setup *)

(** The account that the parameters give seat [i]. *)
Definition initial_member (e : gov_env) (i : Z) : option (list Z) := take 20 <$> gv_hook_param e [ch_I; ch_S; i].

(** Initial members are proper accounts, each with one seat. *)
Definition members_ok (e : gov_env) : Prop :=
  (forall i a, initial_member e i = Some a -> length a = 20%nat -> proper a) /\
  (forall i j a, initial_member e i = Some a -> initial_member e j = Some a -> i = j).

Lemma read_member e i :
  match read_hook_param e [ch_I; ch_S; i] (replicate 20 0) with
  | (code, acc) => code = 20 -> initial_member e i = Some acc /\ length acc = 20%nat
  end.
Proof.
  unfold read_hook_param, initial_member. destruct (gv_hook_param e [ch_I; ch_S; i]) as [v|]; [|done].
  destruct (lenZ v =? 0); [done|]. intros Hc. change (lenZ (replicate 20 0)) with 20 in *. rewrite Hc.
  change (Z.to_nat 20) with 20%nat. assert (Hl : length (take 20 v) = 20%nat) by (rewrite length_take; unfold lenZ in Hc; lia).
  unfold mem_set. change (Z.to_nat 0) with 0%nat. rewrite take_0, drop_ge by (rewrite Hl, length_replicate; lia).
  rewrite app_nil_l, app_nil_r. done.
Qed.

Lemma setup_members_spec e R P n : forall i m T,
  env_ok e -> members_ok e -> (set_fails e -> R) -> R -> table m T -> 0 <= i -> i + Z.of_nat n <= SEAT_COUNT ->
  (forall s a, T !! s = Some a -> s < i /\ initial_member e s = Some a) ->
  ends R P (fun m' => exists T', table m' T' /\ size T' = (size T + n)%nat /\ keeps m m') (setup_members e n i m).
Proof.
  induction n as [|n IH]; intros i m T He Hm HR HRR Ht Hi Hn HT; cbn [setup_members].
  { cbn [ends]. exists T. split; [done|]. split; [lia|done]. }
  pose proof (read_member e i) as Hrd. destruct (read_hook_param e [ch_I; ch_S; i] (replicate 20 0)) as [code acc].
  destruct (Z.eqb_spec code 20) as [E|E]; [|done]. cbn [negb]. destruct (Hrd E) as [Hacc Hl]. assert (Ha := proj1 Hm i acc Hacc Hl).
  assert (Hfree : T !! i = None) by (destruct (T !! i) as [a|] eqn:Ei; [destruct (HT i a Ei); lia|done]).
  assert (Hnew : forall r, T !! r <> Some acc).
  { intros r Hr. destruct (HT r acc Hr) as [Hlt Hir]. assert (r = i) by (by eapply (proj2 Hm)). lia. }
  eapply ends_bind; [apply (add_member_spec e R He HR P m T i acc Ht Hfree Hnew Ha); lia|]. intros m1 [Ht1 Hk1].
  eapply ends_mono; [apply (IH (i + 1) m1 (<[i := acc]> T))|done|done|]; try done; [lia|lia| |].
  - intros s a [[<- <-]|[_ Hs]]%lookup_insert_Some; [split; [lia|done]|]. destruct (HT s a Hs). split; [lia|done].
  - intros m' (T' & HT' & Hsz & Hk). exists T'. split; [done|]. split; [|by etrans]. rewrite Hsz, map_size_insert_None by done. lia.
Qed.

Lemma read_setting e c buf : lenZ buf = 8 -> lenZ (read_hook_param e [ch_I; ch_R; c] buf).2 = 8.
Proof.
  intros Hb. unfold read_hook_param. destruct (gv_hook_param e [ch_I; ch_R; c]) as [v|]; [|done].
  destruct (lenZ v =? 0); [done|]. cbn [snd]. rewrite mem_set_length; [done|lia|]. unfold lenZ in *. rewrite length_take. lia.
Qed.

(** The state of a setup before the members have their seats. *)
Record fresh (m : gov_state) (imc : Z) : Prop := {
  fr_table : table m ∅;
  fr_count : m !! mc_key = Some [imc];
  fr_other k : ~ table_key k -> m !! k = None
}.

Lemma fresh_count imc : fresh (<[mc_key := [imc]]> ∅) imc.
Proof.
  split; [split| |].
  - intros s Hs. rewrite lookup_insert_ne; [done|]. apply not_eq_sym, seat_mc.
  - intros s a. by rewrite lookup_empty.
  - intros a d Ha. rewrite lookup_insert_ne by (apply not_eq_sym, proper_short; [done|simpl; lia]). split; [done|]. intros (s & _ & Hs). done.
  - apply lookup_insert_eq.
  - intros k Hk. rewrite lookup_insert_ne; [done|]. intros <-. by apply Hk.
Qed.

Lemma fresh_setting m imc r d : fresh m imc -> fresh (<[state_key [ch_R; r] := d]> m) imc.
Proof.
  intros [Ht Hc Ho]. split; [by apply table_setting|by rewrite lookup_insert_ne|].
  intros k Hk. rewrite lookup_insert_ne; [by apply Ho|]. intros <-. by apply Hk.
Qed.

Lemma no_voters m ck : (forall k, ~ table_key k -> m !! k = None) -> voters m ck = 0%nat.
Proof.
  intros Hm. unfold voters. apply map_size_empty_iff, map_empty. intros k.
  apply eq_None_not_Some. intros [d [Hk [Hh _]]%map_lookup_filter_Some]. simpl in Hh.
  rewrite Hm in Hk; [done|]. unfold table_key. by rewrite Hh.
Qed.

Lemma no_votes m : (forall k, ~ table_key k -> m !! k = None) -> counts_inv m.
Proof.
  intros Hm. split.
  - intros ck Hck. rewrite Hm by (unfold table_key; by rewrite Hck). by rewrite no_voters.
  - intros k d Hk Hh. rewrite Hm in Hk; [done|]. unfold table_key. by rewrite Hh.
Qed.

Lemma settings_spec e P L1 m imc :
  env_ok e -> fresh m imc ->
  ends True P (fun m' => fresh m' imc)
    (if L1 : bool then
       let '(code, irr) := read_hook_param e [ch_I; ch_R; ch_R] (gs_irr (gv_stack e)) in
       if code <? 0 then Exit Rollback
       else
         let '(code, ird) := read_hook_param e [ch_I; ch_R; ch_D] (gs_ird (gv_stack e)) in
         if code <? 0 then Exit Rollback
         else if is_zero ird then Exit Rollback
         else
           let* m := set_or_rollback e (fun c => 0 <? c) irr [ch_R; ch_R] m in
           set_or_rollback e (fun c => 0 <? c) ird [ch_R; ch_D] m
     else Ret m).
Proof.
  intros He Hf. destruct L1; [|done]. rewrite (eo_stack e He). cbn [gs_irr gs_ird zero_stack].
  pose proof (read_setting e ch_R (replicate 8 0) eq_refl) as H1. destruct (read_hook_param _ _ _) as [code irr]. cbn [snd] in H1.
  destruct (code <? 0); [done|].
  pose proof (read_setting e ch_D (replicate 8 0) eq_refl) as H2. destruct (read_hook_param _ _ _) as [code' ird]. cbn [snd] in H2.
  destruct (code' <? 0); [done|]. destruct (is_zero ird); [done|].
  eapply ends_bind; [apply ends_set; [done|done|intros; lia|lia]|]. intros m1 ->.
  eapply ends_mono; [apply ends_set; [done|done|intros; lia|lia]|done|done|]. intros m2 ->.
  destruct irr, ird; try done. rewrite !written_set. by do 2 apply fresh_setting.
Qed.

Lemma imc_byte e : env_ok e -> 0 <= default 0 (head (read_hook_param e [ch_I; ch_M; ch_C] [0]).2).
Proof.
  intros He. unfold read_hook_param. destruct (gv_hook_param e [ch_I; ch_M; ch_C]) as [v|] eqn:E; [|done].
  apply (eo_hook_param e He) in E. destruct v as [|b v]; [done|]. apply Forall_cons in E as [Hb _]. unfold is_u8 in Hb.
  rewrite (proj2 (Z.eqb_neq (lenZ (b :: v)) 0)) by (unfold lenZ; simpl; lia).
  replace (Z.min (lenZ (b :: v)) (lenZ [0])) with 1 by (unfold lenZ; simpl; lia).
  change (0 <= b). lia.
Qed.

(** The setup makes a table of the initial members. *)
Lemma setup_spec e L1 :
  env_ok e -> members_ok e ->
  ends True (fun m' em => em = None /\ counts_inv m' /\ (forall ck, voters m' ck = 0%nat) /\
      exists T, represents m' T /\ (1 <= size T)%nat)
    (fun _ => False) (setup e L1 ∅).
Proof.
  intros He Hm. unfold setup. destruct (read_hook_param e [ch_I; ch_M; ch_C] [0]) as [code imcs] eqn:Eimc. destruct (code <? 0); [done|].
  set (imc := default 0 (head imcs)).
  eapply ends_bind; [apply ends_set; [done|done|intros; lia|done]|]. intros m1 ->. rewrite written_set. fold mc_key.
  destruct (Z.eqb_spec imc 0); [done|]. destruct (Z.ltb_spec SEAT_COUNT imc) as [|Hmax]; [done|].
  eapply ends_bind; [apply settings_spec; [done|apply fresh_count]|]. intros m2 [Ht Hc Ho].
  assert (Hpos := imc_byte e He). rewrite Eimc in Hpos. cbn [snd] in Hpos. fold imc in Hpos.
  eapply ends_bind; [apply (setup_members_spec e True _ (Z.to_nat imc) 0 m2 ∅); try done; lia|].
  intros m' (T & HT & Hsz & Hk). cbn [ends]. assert (Hnone : forall k, ~ table_key k -> m' !! k = None).
  { intros k Hnk. rewrite Hk by auto. by apply Ho. }
  split; [done|]. split; [by apply no_votes|]. split.
  - intros ck. by apply no_voters.
  - rewrite map_size_empty in Hsz. exists T. split; [split; [done|]; rewrite Hk, Hc, Hsz by auto; do 2 f_equal; lia|lia].
Qed.
