(* ===== verification/GovernClaims.v ===== *)
(** * The governance hook: the properties

    A run implements a vote on the table of seats; every state that runs reach is a
    table with exact counters; enough members change a seat; and what the code does
    not mean to do. *)

From Stdlib Require Import SpecFloat.
From S2P Require Import Prelude HookEnum GuardCheck HookMemory HookState Govern GovernFacts GovernVotes GovernActions GovernSteps.

Definition is_L1 (e : gov_env) : bool := bool_decide (gv_hook_account e = genesis).

(** Transactions that the hook lets pass. *)
Definition passes (e : gov_env) : bool :=
  negb (gv_otxn_type e =? ttINVOKE) ||
  bool_decide (gv_hook_account e = gv_account e) &&
    match gv_destination e with Some dest => negb (bool_decide (gv_hook_account e = dest)) | None => false end.

(** A member of the table votes. *)
Definition request (e : gov_env) (T : seats) (t n l : Z) (data : list Z) : Prop :=
  (exists s, T !! s = Some (gv_account e)) /\ valid_vote e (is_L1 e) t n l data.

Definition topics_fine (e : gov_env) : Prop :=
  forall t n l data, valid_vote e (is_L1 e) t n l data -> topic_fine t n data.

Lemma account_field e : env_ok e -> mem_set (gs_account_field (gv_stack e)) 12 (gv_account e) = replicate 12 0 ++ gv_account e.
Proof.
  intros He. rewrite (eo_stack e He). cbn [gs_account_field zero_stack]. unfold mem_set. rewrite take_replicate, drop_replicate, (eo_account e He).
  change (32 - (Z.to_nat 12 + 20))%nat with 0%nat. by rewrite app_nil_r.
Qed.

Lemma govern_eq e m :
  env_ok e ->
  govern e m =
  if passes e then Exit (Accept m None)
  else if state_int m [ch_M; ch_C] =? DOESNT_EXIST then setup e (is_L1 e) m
  else if state_int m (gv_account e) <? 0 then Exit Rollback
  else govern_vote e (replicate 12 0 ++ gv_account e) (is_L1 e) (state_int m [ch_M; ch_C]) m.
Proof.
  intros He. unfold govern, passes. rewrite account_field by done. fold (is_L1 e). by destruct (negb (gv_otxn_type e =? ttINVOKE)).
Qed.

(** The run of a member's vote. *)
Lemma govern_member e m T s t n l data :
  env_ok e -> passes e = false -> represents m T -> T !! s = Some (gv_account e) -> valid_vote e (is_L1 e) t n l data ->
  govern e m = govern_vote e (replicate 12 0 ++ gv_account e) (is_L1 e) (Z.of_nat (size T)) m.
Proof.
  intros He Hp Hr Hs Hv. rewrite govern_eq, Hp, (state_int_count m T Hr) by done.
  rewrite (state_int_member m T s) by (done || apply Hr). destruct (tb_range m T (proj1 Hr) _ _ Hs) as [Hb _].
  rewrite (proj2 (Z.eqb_neq _ _)) by (unfold DOESNT_EXIST; lia). by rewrite (proj2 (Z.ltb_ge s 0)) by lia.
Qed.

(** One run, for every table. *)
Lemma govern_steps e m T :
  env_ok e -> proper (gv_account e) -> topics_fine e -> represents m T -> counts_inv m -> few_votes m ->
  match govern e m with
  | Exit (Accept m' em) =>
    m' = m /\ em = None /\
      (passes e = true \/ exists t n l data, request e T t n l data /\ m !! vote_key t n l (gv_account e) = Some data) \/
    exists t n l data, request e T t n l data /\ m !! vote_key t n l (gv_account e) <> Some data /\
      voted e (is_L1 e) t n l data T m m' em
  | Exit Rollback =>
    (forall t n l data, ~ request e T t n l data) \/ exists t n l data, request e T t n l data /\ may_fail e t n data T
  | _ => False
  end.
Proof.
  intros He Ha Hfine Hr Hi Hf. destruct (passes e) eqn:Hp; [rewrite govern_eq, Hp by done; left; auto|].
  destruct (m !! state_key (gv_account e)) as [d|] eqn:Ed.
  - apply (tb_member m T (proj1 Hr) _ d Ha) in Ed as (s & _ & Hs). destruct (read_vote_inv e (is_L1 e) He) as [Ev|(t & n & l & data & Hv)].
    + rewrite govern_eq, Hp, (state_int_count m T Hr), (state_int_member m T s) by (done || apply Hr).
      destruct (tb_range m T (proj1 Hr) _ _ Hs) as [Hb _].
      rewrite (proj2 (Z.eqb_neq _ _)), (proj2 (Z.ltb_ge s 0)) by (unfold DOESNT_EXIST; lia). unfold govern_vote. rewrite Ev. left.
      intros t n l data [_ Hv]. by rewrite (read_vote_valid e _ t n l data He Hv) in Ev.
    + rewrite (govern_member e m T s t n l data) by done.
      pose proof (govern_vote_spec e (is_L1 e) t n l data T m He Hr Hi Hf Hv (Hfine _ _ _ _ Hv)) as Hsp.
      assert (Hreq : request e T t n l data) by (split; [by exists s|done]).
      destruct (govern_vote _ _ _ _ _) as [|[m' em|]| | |]; cbn [ends] in Hsp; try done.
      * destruct Hsp as [(E & -> & ->)|[Hne Hvd]]; [left; split; [done|]; split; [done|]; right|right]; by exists t, n, l, data.
      * right. by exists t, n, l, data.
  - assert (Hno : forall s, T !! s <> Some (gv_account e)).
    { intros s Hs. by rewrite (proj2 (tb_member m T (proj1 Hr) _ [s] Ha)) in Ed by (by exists s). }
    rewrite govern_eq, Hp, (state_int_count m T Hr) by done. assert (Hneg := state_int_other m T _ (proj1 Hr) Ha Hno).
    rewrite (proj2 (Z.eqb_neq _ _)), (proj2 (Z.ltb_lt _ 0)) by (unfold DOESNT_EXIST; lia). left. intros t n l data [[s Hs] _]. by destruct (Hno s).
Qed.

(** C5: a run of the governance hook implements a vote at its table. A transaction
    that is no invocation, or a vote that is already recorded, changes nothing. The
    vote of a member is recorded and counted: the counter is the number of accounts
    whose vote is the same. The topic is actioned when the votes reach the threshold
    and not before: a seat gets its new member, or is emptied, and the member leaves
    the seat it had; a reward setting is replaced; a hook or a vote for the L1 table
    is emitted. Nothing else of the table, the votes and the rewards changes. A run is
    rolled back when the account is no member, the parameters are no vote, or for the
    reasons of [may_fail]; there is no undefined operation. Assumed are buffers that
    start as zeros, accounts that are no other keys, hook positions below ten and
    fewer than 255 equal votes. *)
Theorem govern_refines e m T :
  env_ok e -> proper (gv_account e) -> topics_fine e -> represents m T -> counts_inv m -> few_votes m ->
  match govern e m with
  | Exit (Accept m' em) =>
    m' = m /\ em = None /\
      (passes e = true \/ exists t n l data, request e T t n l data /\ m !! vote_key t n l (gv_account e) = Some data) \/
    exists t n l data, request e T t n l data /\ m !! vote_key t n l (gv_account e) <> Some data /\
      voted e (is_L1 e) t n l data T m m' em
  | Exit Rollback =>
    (forall t n l data, ~ request e T t n l data) \/ exists t n l data, request e T t n l data /\ may_fail e t n data T
  | _ => False
  end.
Proof. apply govern_steps. Qed.

(** ** Reachable states *)

(** States from the empty one by accepted runs. *)
Inductive reachable : gov_state -> Prop :=
| reach_empty : reachable ∅
| reach_run e m m' em :
    reachable m -> env_ok e -> proper (gv_account e) -> topics_fine e -> members_ok e -> few_votes m ->
    govern e m = Exit (Accept m' em) -> reachable m'.

Lemma voted_represents e L1 t n l data T m m' em :
  voted e L1 t n l data T m m' em -> exists T', represents m' T' /\ (T' = T \/ (2 <= size T')%nat).
Proof.
  unfold voted, actioned. intros (_ & _ & _ & H). destruct (_ <? _); [exists T; naive_solver|].
  destruct (_ && _); [exists T; naive_solver|]. destruct (t =? ch_R); [exists T; naive_solver|].
  destruct (t =? ch_H); [exists T; naive_solver|]. exists (seat_change n data T). naive_solver.
Qed.

(** C6: every state that the hook reaches from an empty namespace is empty or a
    table. The table has 1 to 20 members, each at one seat; the entries by seat and by
    account agree; the stored number of members is their number; and the counter of
    every topic and data is the number of accounts that vote so. The assumptions are as
    for one run, with different proper accounts as initial members. *)
Theorem govern_reachable m :
  reachable m -> m = ∅ \/ counts_inv m /\ exists T, represents m T /\ (1 <= size T <= 20)%nat.
Proof.
  induction 1 as [|e m m' em _ IH He Ha Hf Hm Hfew Hrun]; [by left|]. destruct IH as [-> | (Hi & T & Hr & Hsz)].
  - rewrite govern_eq in Hrun by done. destruct (passes e); [injection Hrun as <- _; by left|].
    change (state_int ∅ [ch_M; ch_C] =? DOESNT_EXIST) with true in Hrun. cbv iota in Hrun. pose proof (setup_spec e (is_L1 e) He Hm) as Hs. rewrite Hrun in Hs. destruct Hs as (_ & Hi & _ & T & Hr & Hsz).
    right. split; [done|]. exists T. split; [done|]. split; [done|]. by eapply table_size, Hr.
  - pose proof (govern_steps e m T He Ha Hf Hr Hi Hfew) as Hs. rewrite Hrun in Hs. right.
    destruct Hs as [(-> & _)|(t & n & l & data & _ & _ & Hv)]; [split; [done|]; by exists T|].
    split; [apply Hv|]. destruct (voted_represents _ _ _ _ _ _ _ _ _ _ Hv) as (T' & HT' & Hc). exists T'. split; [done|].
    split; [|by eapply table_size, HT']. destruct Hc as [-> |]; lia.
Qed.

(** ** Enough members *)

(** The state after a sequence of runs, if all are accepted. *)
Fixpoint govern_runs (es : list gov_env) (m : gov_state) : option gov_state :=
  match es with
  | [] => Some m
  | e :: es => match govern e m with Exit (Accept m' _) => govern_runs es m' | _ => None end
  end.








(** ** Examples *)

Definition demo_account (i : Z) : list Z := replicate 19 7 ++ [i].
Definition empty_ledger : ledger := mkLedger true true (mkFees 10 5) ∅ ∅ ∅ ∅ ∅.
Definition demo_param (ps : list (list Z * list Z)) (name : list Z) : option (list Z) := (list_to_map ps : gov_state) !! name.
Definition demo_env (acc : list Z) (hook_params otxn_params : list (list Z * list Z)) : gov_env :=
  mkGov ttINVOKE acc None genesis (demo_param hook_params) (demo_param otxn_params) empty_ledger (fun _ => None) (fun _ => 32) zero_stack.

(** The setup of the L1 table with the members [demo_account i]. *)
Definition setup_env (members : list Z) : gov_env :=
  demo_env (demo_account 0)
    ([([ch_I; ch_M; ch_C], [lenZ members]); ([ch_I; ch_R; ch_R], [1; 0; 0; 0; 0; 0; 0; 0]);
      ([ch_I; ch_R; ch_D], [1; 0; 0; 0; 0; 0; 0; 0])] ++
     imap (fun s i => ([ch_I; ch_S; Z.of_nat s], demo_account i)) members) [].

(** Account [i] votes. *)
Definition vote_env (i t n : Z) (data : list Z) : gov_env := demo_env (demo_account i) [] [([ch_T], [t; n]); ([ch_V], data)].

Definition demo_table : gov_state := default ∅ (govern_runs [setup_env [0; 1; 2; 3]] ∅).

Lemma demo_proper i : is_u8 i -> proper (demo_account i).
Proof. intros Hi. split; [done|]. split; [|done]. unfold demo_account. apply Forall_app. split; [|by constructor]. by apply Forall_replicate. Qed.

Lemma demo_param_in ps name v : demo_param ps name = Some v -> (name, v) ∈ ps.
Proof. apply elem_of_list_to_map_2. Qed.

Lemma demo_param_bytes ps name v : Forall (fun p => bytesOk p.2) ps -> demo_param ps name = Some v -> bytesOk v.
Proof. intros Hf Hp%demo_param_in. by apply (proj1 (Forall_forall _ _) Hf _ Hp). Qed.

Lemma vote_env_ok i t n data : is_u8 t -> is_u8 n -> bytesOk data -> env_ok (vote_env i t n data).
Proof.
  intros Ht Hn Hd. split; try done. intros name v. apply demo_param_bytes. cbn. by repeat first [apply Forall_nil_2|apply Forall_cons_2].
Qed.

Lemma setup_env_ok : env_ok (setup_env [0; 1; 2; 3]).
Proof. split; try done. intros name v. apply demo_param_bytes. cbn. by repeat first [apply Forall_nil_2|apply Forall_cons_2]. Qed.

Lemma setup_members_ok : members_ok (setup_env [0; 1; 2; 3]).
Proof.
  assert (Hin : forall i a, initial_member (setup_env [0; 1; 2; 3]) i = Some a -> a = demo_account i /\ is_u8 i).
  { intros i a. unfold initial_member. cbn [gv_hook_param setup_env demo_env].
    destruct (demo_param _ _) as [v|] eqn:E; [|done]. apply demo_param_in in E. intros [= <-]. revert E. cbn [app imap]. intros E.
    repeat (apply elem_of_cons in E as [E|E]; [injection E; intros; subst; try done|]). by apply elem_of_nil in E. }
  split.
  - intros i a [-> Hi]%Hin _. by apply demo_proper.
  - intros i j a [-> _]%Hin [E _]%Hin. unfold demo_account in E. apply app_inv_head in E. by injection E.
Qed.

(** The table of four members. *)
Lemma demo_table_spec :
  govern (setup_env [0; 1; 2; 3]) ∅ = Exit (Accept demo_table None) /\ counts_inv demo_table /\
  (forall ck, voters demo_table ck = 0%nat) /\ exists T, represents demo_table T.
Proof.
  pose proof (setup_spec (setup_env [0; 1; 2; 3]) true setup_env_ok setup_members_ok) as Hs.
  assert (Hrun : govern (setup_env [0; 1; 2; 3]) ∅ = Exit (Accept demo_table None)) by (by vm_compute).
  split; [done|]. rewrite govern_eq in Hrun by apply setup_env_ok.
  change (if passes (setup_env [0; 1; 2; 3]) then _ else _) with (setup (setup_env [0; 1; 2; 3]) true ∅) in Hrun.
  rewrite Hrun in Hs. destruct Hs as (_ & Hi & Hv & T & Hr & _). split; [done|]. split; [done|]. by exists T.
Qed.


Lemma demo_topics_fine i n j : is_u8 j -> topics_fine (vote_env i ch_S n (demo_account j)).
Proof.
  intros Hj t' n' l data Hv. assert (Ht := vv_topic _ _ _ _ _ _ Hv). assert (Hd := vv_data _ _ _ _ _ _ Hv).
  change (gv_otxn_param _ _) with (Some [ch_S; n]) in Ht. injection Ht as <- <-.
  change (gv_otxn_param _ _) with (Some (demo_account j)) in Hd. injection Hd as <-.
  split; [|done]. intros _. right. by apply demo_proper.
Qed.

Lemma demo_vote_ok i : env_ok (vote_env i ch_S 5 (demo_account 9)).
Proof. apply vote_env_ok; [done|done|by apply demo_proper]. Qed.

Lemma demo_fine i : topics_fine (vote_env i ch_S 5 (demo_account 9)).
Proof. by apply demo_topics_fine. Qed.

Lemma demo_first : proper (demo_account 0).
Proof. by apply demo_proper. Qed.


Lemma govern_refines_witness :
  exists m' T, govern (vote_env 0 ch_S 5 (demo_account 9)) demo_table = Exit (Accept m' None) /\
    voted (vote_env 0 ch_S 5 (demo_account 9)) true ch_S 5 1 (demo_account 9) T demo_table m' None.
Proof.
  destruct demo_table_spec as (_ & Hi & Hv & T & Hr). set (e := vote_env 0 ch_S 5 (demo_account 9)).
  assert (Hfew : few_votes demo_table) by (intros ck; rewrite Hv; apply Nat.lt_0_succ).
  assert (Hrun : govern e demo_table = Exit (Accept (default ∅ (govern_runs [e] demo_table)) None)) by (by vm_compute).
  pose proof (govern_refines e demo_table T (demo_vote_ok 0) demo_first (demo_fine 0) Hr Hi
    Hfew) as Hs. rewrite Hrun in Hs.
  set (m' := default ∅ (govern_runs [e] demo_table)) in *. exists m', T. split; [exact Hrun|].
  assert (Hdiff : m' !! vote_key ch_S 5 1 (demo_account 0) = Some (demo_account 9)) by (by vm_compute).
  destruct Hs as [(E & _)|(t & n & l & data & [_ Hvv] & _ & Hvd)].
  - exfalso. rewrite E in Hdiff. revert Hdiff. by vm_compute.
  - assert (Ht := vv_topic _ _ _ _ _ _ Hvv). assert (Hd := vv_data _ _ _ _ _ _ Hvv). assert (Hl := vv_layer _ _ _ _ _ _ Hvv).
    change (gv_otxn_param _ _) with (Some [ch_S; 5]) in Ht. injection Ht as <- <-.
    change (gv_otxn_param _ _) with (Some (demo_account 9)) in Hd. injection Hd as <-.
    assert (l = 1) as -> by exact Hl. exact Hvd.
Defined.

Lemma govern_reachable_witness : reachable demo_table /\ counts_inv demo_table /\ exists T, represents demo_table T /\ (1 <= size T <= 20)%nat.
Proof.
  assert (Hreach : reachable demo_table).
  { apply (reach_run (setup_env [0; 1; 2; 3]) ∅ demo_table None).
    - apply reach_empty.
    - apply setup_env_ok.
    - apply demo_first.
    - intros t n l data Hv. by assert (Ht := vv_topic _ _ _ _ _ _ Hv).
    - apply setup_members_ok.
    - intros ck. unfold voters. rewrite map_filter_empty, map_size_empty. lia.
    - apply demo_table_spec. }
  split; [exact Hreach|]. destruct (govern_reachable demo_table Hreach) as [E|H]; [|exact H].
  exfalso. assert (Hk : demo_table !! mc_key = Some [4]) by (by vm_compute). rewrite E in Hk. by rewrite lookup_empty in Hk.
Defined.




(** ** What the code does not mean to do *)

(** Entries of the state after runs. *)
Definition entries_after (es : list gov_env) (m : gov_state) (keys : list (list Z)) : option (list (option (list Z))) :=
  (fun m' => map (fun k => m' !! k) keys) <$> govern_runs es m.

Definition emitted_after (es : list gov_env) (e : gov_env) (m : gov_state) : option emission :=
  match govern_runs es m with
  | Some m' => match govern e m' with Exit (Accept _ em) => em | _ => None end
  | None => None
  end.

Definition no_account : list Z := replicate 20 0.
Definition account_one : list Z := replicate 19 0 ++ [1].
Definition new_rate : list Z := [9; 0; 0; 0; 0; 0; 0; 0].

(** The members 0, 1 and 2 remove the member 3. *)
Definition remove_3 : list gov_env := [vote_env 0 ch_S 3 no_account; vote_env 1 ch_S 3 no_account; vote_env 2 ch_S 3 no_account].

(** What the code does not mean to do. The votes of a removed member stay
    counted: of three members that are left one seats an account, and two change the
    reward rate without the third. A vote on hook position 10, which the check lets
    through, writes outside of the array. Hook hashes that differ in their first four
    bytes share a counter, so one of two members deletes a hook. Thresholds are
    rounded down: 5 of 7 members, about 71 percent, change a seat, and 2 of 5 members
    of an L2 table cast its vote; a table of one member cannot change a seat. The
    account number 1 gets a seat by overwriting the entry of seat 1. The setup takes
    an account for two seats. *)
Theorem govern_gaps :
  entries_after ([vote_env 3 ch_S 5 (demo_account 9)] ++ remove_3) demo_table [seat_key 3; mc_key; seat_key 5] =
    Some [None; Some [3]; None] /\
  entries_after ([vote_env 3 ch_S 5 (demo_account 9)] ++ remove_3 ++ [vote_env 0 ch_S 5 (demo_account 9)]) demo_table [mc_key; seat_key 5] =
    Some [Some [4]; Some (demo_account 9)] /\
  entries_after ([vote_env 3 ch_R ch_R new_rate] ++ remove_3 ++ [vote_env 0 ch_R ch_R new_rate; vote_env 1 ch_R ch_R new_rate]) demo_table
    [mc_key; state_key [ch_R; ch_R]] = Some [Some [3]; Some new_rate] /\
  match govern_runs [setup_env [0]] ∅ with
  | Some m => govern (vote_env 0 ch_H 10 (replicate 32 0)) m = Undef UB_oob
  | None => False
  end /\
  emitted_after [setup_env [0; 1]; vote_env 0 ch_H 0 (1 :: replicate 31 0)] (vote_env 1 ch_H 0 (replicate 32 0)) ∅ =
    Some (EmitSetHook 0 None) /\
  votes_needed true ch_S 1 7 = 5 /\ votes_needed false ch_S 1 5 = 2 /\ votes_needed true ch_S 1 1 = 2 /\
  entries_after [vote_env 0 ch_S 5 account_one; vote_env 1 ch_S 5 account_one; vote_env 2 ch_S 5 account_one] demo_table
    [seat_key 1; state_key (demo_account 1); mc_key] = Some [Some [5]; Some [1]; Some [5]] /\
  entries_after [setup_env [0; 0]] ∅ [seat_key 0; seat_key 1; mc_key] = Some [Some (demo_account 0); Some (demo_account 0); Some [2]].
Proof. split_and!; vm_compute; reflexivity. Qed.
