(* ===== verification/Stakeholders.v ===== *)
(** * Transactional stakeholders (src/src/ripple/app/hook/impl/applyHook.cpp)

    [getTransactionalStakeHolders]: the accounts whose hooks a transaction runs
    besides those of its sender, in the order of the calls of [ADD_TSH], each with
    whether its hooks may roll the transaction back (strong). The fields of the
    transaction are optional; ledger objects are found by key in a map per type. *)

From S2P Require Import Prelude HookEnum HookState.

(** The types of transactions that the function tells apart. *)
Inductive TxType :=
| ttREMIT | ttIMPORT | ttURITOKEN_BURN | ttURITOKEN_BUY | ttURITOKEN_MINT | ttURITOKEN_CANCEL_SELL_OFFER
| ttURITOKEN_CREATE_SELL_OFFER | ttNFTOKEN_MINT | ttCLAIM_REWARD | ttNFTOKEN_BURN | ttNFTOKEN_CREATE_OFFER
| ttNFTOKEN_ACCEPT_OFFER | ttNFTOKEN_CANCEL_OFFER | ttACCOUNT_SET | ttOFFER_CANCEL | ttTICKET_CREATE | ttHOOK_SET
| ttOFFER_CREATE | ttREGULAR_KEY_SET | ttDEPOSIT_PREAUTH | ttPAYMENT | ttESCROW_CREATE | ttCHECK_CREATE
| ttACCOUNT_DELETE | ttPAYCHAN_CREATE | ttINVOKE | ttTRUST_SET | ttESCROW_CANCEL | ttESCROW_FINISH | ttPAYCHAN_FUND
| ttPAYCHAN_CLAIM | ttCHECK_CASH | ttCHECK_CANCEL | ttSIGNER_LIST_SET | ttGENESIS_MINT | tt_other.
#[global] Instance TxType_eq_dec : EqDecision TxType.
Proof. solve_decision. Defined.

(** The fields of the transaction that the function reads. [st_LimitIssuer] is the
    issuer of the limit; signer entries and mints have an optional account. *)
Record tsh_tx := mkTshTx {
  st_type : TxType;
  st_Account : option Z;
  st_Destination : option Z;
  st_Inform : option Z;
  st_Issuer : option Z;
  st_Owner : option Z;
  st_RegularKey : option Z;
  st_Authorize : option Z;
  st_LimitIssuer : option Z;
  st_URITokenIDs : option (list Z);
  st_URITokenID : Z;
  st_NFTokenID : option Z;
  st_NFTokenBuyOffer : option Z;
  st_NFTokenSellOffer : option Z;
  st_NFTokenOffers : option (list Z);
  st_OfferSequence : option Z;
  st_EscrowID : option Z;
  st_Channel : option Z;
  st_CheckID : option Z;
  st_SignerEntries : list (option Z);
  st_GenesisMints : option (list (option Z))
}.

(** Ledger objects: a URI token; an offer for an NFT; an escrow, a payment channel or
    a check, which have a source and a destination. *)
Record uri_token := mkUri { ut_Owner : Z; ut_Issuer : Z; ut_Flags : Z; ut_Destination : option Z }.
Record nft_offer := mkOffer { no_Owner : Z; no_Destination : option Z; no_NFTokenID : Z }.
Record transfer := mkTransfer { tr_Account : Z; tr_Destination : Z }.

(** What the function reads of the ledger: amendments, accounts and objects.
    [keylet_escrow] is the key of an escrow by owner and sequence, [findToken] says
    whether an account holds an NFT. *)
Record tsh_view := mkTshView {
  tv_featureHooks : bool;
  tv_fixV1 : bool;
  tv_fixV2 : bool;
  tv_accounts : Z -> bool;
  tv_uritokens : gmap Z uri_token;
  tv_nftoffers : gmap Z nft_offer;
  tv_escrows : gmap Z transfer;
  tv_paychans : gmap Z transfer;
  tv_checks : gmap Z transfer;
  keylet_escrow : Z -> Z -> Z;
  findToken : Z -> Z -> bool
}.

Definition lsfBurnable : Z := 1.
Definition tfStrongTSH : Z := 0x8000.
Definition tshSTRONG : bool := true.
Definition tshWEAK : bool := false.

(** [nft::getFlags], [nft::getIssuer]: parts of the 256 bits of an NFT id. *)
Definition nft_getFlags (id : Z) : Z := Z.shiftr id 240.
Definition nft_getIssuer (id : Z) : Z := Z.land (Z.shiftr id 64) (2 ^ 160 - 1).

Definition has_bit (flags flag : Z) : bool := negb (Z.land flags flag =? 0).
Definition burnable (ut : uri_token) : bool := has_bit (ut_Flags ut) lsfBurnable.
Definition issuerCanRollback (nid : Z) : bool := has_bit (nft_getFlags nid) tfStrongTSH.

(** A zero or absent id is no offer. *)
Definition getNFTOffer (v : tsh_view) (id : option Z) : option nft_offer :=
  match id with Some i => if i =? 0 then None else tv_nftoffers v !! i | None => None end.

(** ** The calls *)

(** The calls of [ADD_TSH] in order; [None] is [return {}]. *)
Definition tsh_calls : Type := option (list (Z * bool)).

Definition add_if (acc : option Z) (rb : bool) : list (Z * bool) := match acc with Some a => [(a, rb)] | None => [] end.

(** [*destAcc] *)
Definition deref_acc (acc : option Z) : outcome unit Z := match acc with Some a => Ret a | None => Undef UB_null end.

(** The issuers of the tokens of a Remit. *)
Fixpoint remit_issuers (v : tsh_view) (destAcc : option Z) (ids : list Z) : outcome unit (list (Z * bool)) :=
  match ids with
  | [] => Ret []
  | id :: ids =>
    let* calls :=
      match tv_uritokens v !! id with
      | None => Ret []
      | Some ut =>
        if ut_Issuer ut =? ut_Owner ut then Ret []
        else let* dest := deref_acc destAcc in
             Ret (if ut_Issuer ut =? dest then [] else [(ut_Issuer ut, if burnable ut then tshSTRONG else tshWEAK)])
      end in
    let* rest := remit_issuers v destAcc ids in
    Ret (calls ++ rest)
  end.

Definition remit_calls (v : tsh_view) (tx : tsh_tx) (otxnAcc : Z) : outcome unit (list (Z * bool)) :=
  let destAcc := st_Destination tx in
  let* inform :=
    match st_Inform tx with
    | None => Ret []
    | Some inform =>
      if otxnAcc =? inform then Ret []
      else let* dest := deref_acc destAcc in Ret (if dest =? inform then [] else [(inform, tshWEAK)])
    end in
  let* issuers := remit_issuers v destAcc (default [] (st_URITokenIDs tx)) in
  Ret (add_if destAcc tshSTRONG ++ inform ++ issuers).

Definition burn_calls (v : tsh_view) (otxnAcc : Z) (ut : uri_token) : list (Z * bool) :=
  let owner := ut_Owner ut in
  let issuer := ut_Issuer ut in
  if issuer =? owner then []
  else if tv_fixV1 v then
    if (otxnAcc =? owner) && tv_accounts v issuer then [(issuer, tshWEAK)]
    else if tv_accounts v owner then [(owner, tshWEAK)]
    else []
  else if otxnAcc =? owner then [(issuer, tshSTRONG)]
  else [(owner, tshSTRONG)].

Definition accept_calls (bo so : option nft_offer) : tsh_calls :=
  let parties o := match o with
    | Some o => (no_Owner o, tshSTRONG) :: add_if (no_Destination o) tshSTRONG
    | None => []
    end in
  match (match bo with Some o => Some o | None => so end) with
  | None => None
  | Some o => Some ((nft_getIssuer (no_NFTokenID o), issuerCanRollback (no_NFTokenID o)) :: parties bo ++ parties so)
  end.

Definition cancel_calls (v : tsh_view) (id : Z) : list (Z * bool) :=
  match getNFTOffer v (Some id) with
  | None => []
  | Some o => (no_Owner o, tshWEAK) :: add_if (no_Destination o) tshWEAK ++ [(nft_getIssuer (no_NFTokenID o), tshWEAK)]
  end.

Definition escrow_calls (v : tsh_view) (tx : tsh_tx) : tsh_calls :=
  let dst_flag := if bool_decide (st_type tx = ttESCROW_FINISH) then tshSTRONG else tshWEAK in
  if tv_fixV1 v then
    owner ← st_Owner tx;
    kl ← match st_OfferSequence tx with Some seq => Some (keylet_escrow v owner seq) | None => st_EscrowID tx end;
    escrow ← tv_escrows v !! kl;
    Some ((tr_Account escrow, tshSTRONG) ::
          if tr_Account escrow =? tr_Destination escrow then [] else [(tr_Destination escrow, dst_flag)])
  else
    owner ← st_Owner tx;
    seq ← st_OfferSequence tx;
    escrow ← tv_escrows v !! keylet_escrow v owner seq;
    Some [(tr_Account escrow, tshSTRONG); (tr_Destination escrow, dst_flag)].

(** A payment channel or a check. *)
Definition transfer_calls (objects : gmap Z transfer) (key : option Z) : tsh_calls :=
  k ← key; t ← objects !! k; Some [(tr_Account t, tshSTRONG); (tr_Destination t, tshWEAK)].

(** The switch. *)
Definition stakeholder_calls (v : tsh_view) (tx : tsh_tx) (otxnAcc : Z) : outcome unit tsh_calls :=
  let token := tv_uritokens v !! st_URITokenID tx in
  match st_type tx with
  | ttREMIT => let* calls := remit_calls v tx otxnAcc in Ret (Some calls)
  | ttIMPORT => Ret (Some (add_if (st_Issuer tx) (if tv_fixV2 v then tshWEAK else tshSTRONG)))
  | ttURITOKEN_BURN => Ret (burn_calls v otxnAcc <$> token)
  | ttURITOKEN_BUY =>
    Ret ((fun ut => (if ut_Owner ut =? otxnAcc then [] else [(ut_Owner ut, tshSTRONG)]) ++
                    (if ut_Issuer ut =? ut_Owner ut then [] else [(ut_Issuer ut, if burnable ut then tshSTRONG else tshWEAK)]))
         <$> token)
  | ttURITOKEN_MINT => Ret (Some (if tv_fixV2 v then add_if (st_Destination tx) tshSTRONG else []))
  | ttURITOKEN_CANCEL_SELL_OFFER =>
    Ret (if tv_fixV2 v then (fun ut => add_if (ut_Destination ut) tshWEAK) <$> token else Some [])
  | ttURITOKEN_CREATE_SELL_OFFER =>
    Ret ((fun ut => (if ut_Issuer ut =? ut_Owner ut then [] else [(ut_Issuer ut, if burnable ut then tshSTRONG else tshWEAK)]) ++
                    add_if (st_Destination tx) tshSTRONG) <$> token)
  | ttNFTOKEN_MINT | ttCLAIM_REWARD => Ret (Some (add_if (st_Issuer tx) tshSTRONG))
  | ttNFTOKEN_BURN | ttNFTOKEN_CREATE_OFFER =>
    Ret (nid ← st_NFTokenID tx;
         if findToken v (default otxnAcc (st_Owner tx)) nid
         then Some ((nft_getIssuer nid, issuerCanRollback nid) :: add_if (st_Owner tx) tshWEAK) else None)
  | ttNFTOKEN_ACCEPT_OFFER => Ret (accept_calls (getNFTOffer v (st_NFTokenBuyOffer tx)) (getNFTOffer v (st_NFTokenSellOffer tx)))
  | ttNFTOKEN_CANCEL_OFFER => Ret (flat_map (cancel_calls v) <$> st_NFTokenOffers tx)
  | ttACCOUNT_SET | ttOFFER_CANCEL | ttTICKET_CREATE | ttHOOK_SET | ttOFFER_CREATE => Ret (Some [])
  | ttREGULAR_KEY_SET => Ret ((fun a => [(a, tshSTRONG)]) <$> st_RegularKey tx)
  | ttDEPOSIT_PREAUTH => Ret ((fun a => [(a, tshSTRONG)]) <$> st_Authorize tx)
  | ttPAYMENT | ttESCROW_CREATE | ttCHECK_CREATE | ttACCOUNT_DELETE | ttPAYCHAN_CREATE | ttINVOKE =>
    Ret (Some (add_if (st_Destination tx) tshSTRONG))
  | ttTRUST_SET => Ret ((fun a => [(a, tshWEAK)]) <$> st_LimitIssuer tx)
  | ttESCROW_CANCEL | ttESCROW_FINISH => Ret (escrow_calls v tx)
  | ttPAYCHAN_FUND | ttPAYCHAN_CLAIM => Ret (transfer_calls (tv_paychans v) (st_Channel tx))
  | ttCHECK_CASH | ttCHECK_CANCEL => Ret (transfer_calls (tv_checks v) (st_CheckID tx))
  | ttSIGNER_LIST_SET => Ret (Some (flat_map (fun a => add_if a tshSTRONG) (st_SignerEntries tx)))
  | ttGENESIS_MINT => Ret (Some (flat_map (fun a => add_if a tshWEAK) (default [] (st_GenesisMints tx))))
  | tt_other => Ret None
  end.

(** ** The entries *)

(** [tshEntries] and [upto]: the position and flag of each account. *)
Definition ADD_TSH (otxnAcc : Z) (s : gmap Z (Z * bool) * Z) (call : Z * bool) : gmap Z (Z * bool) * Z :=
  let '(tshEntries, upto) := s in
  let '(acc_r, rb) := call in
  if acc_r =? otxnAcc then s
  else
    match tshEntries !! acc_r with
    | Some (pos, flag) => (<[acc_r := (pos, flag || rb)]> tshEntries, upto)
    | None => (<[acc_r := (upto, rb)]> tshEntries, upto + 1)
    end.

(** [ret] has as many elements as there are entries; an assignment outside of it is
    undefined. *)
Fixpoint fill (ret : list (Z * bool)) (entries : list (Z * (Z * bool))) : outcome unit (list (Z * bool)) :=
  match entries with
  | [] => Ret ret
  | (a, (pos, flag)) :: entries =>
    if (0 <=? pos) && (pos <? lenZ ret) then fill (<[Z.to_nat pos := (a, flag)]> ret) entries else Undef UB_oob
  end.

Definition getTransactionalStakeHolders (v : tsh_view) (tx : tsh_tx) : outcome unit (list (Z * bool)) :=
  if negb (tv_featureHooks v) then Ret []
  else
    match st_Account tx with
    | None => Ret []
    | Some otxnAcc =>
      let* calls := stakeholder_calls v tx otxnAcc in
      match calls with
      | None => Ret []
      | Some calls =>
        let '(tshEntries, _) := foldl (ADD_TSH otxnAcc) (∅, 0) calls in
        fill (replicate (size tshEntries) (0, false)) (map_to_list tshEntries)
      end
    end.
