(* ===== verification/StakeholderFacts.v ===== *)
(** * Transactional stakeholders: properties

    The entries by position are the accounts in the order of their first call, each
    strong if one of its calls is; and the hooks that run before a transaction belong
    to its sender and to its strong stakeholders. *)

From S2P Require Import Prelude HookEnum LedgerDir HookState StateCache Emission HookContext HookChain HookChainFacts HookPhases Stakeholders.
From S2P Require Import StateClaims HookPhaseClaims.

(** ** The reference *)

(** First occurrences, in order. *)
Fixpoint nub (l : list Z) : list Z :=
  match l with [] => [] | a :: l => a :: filter (fun b => b <> a) (nub l) end.

(** A call for the account is strong. *)
Definition strong_in (calls : list (Z * bool)) (a : Z) : bool := existsb (fun c => (c.1 =? a) && c.2) calls.

(** The stakeholders of a list of calls. *)
Definition stakeholders_of (otxnAcc : Z) (calls : list (Z * bool)) : list (Z * bool) :=
  let others := filter (fun c => c.1 <> otxnAcc) calls in
  map (fun a => (a, strong_in others a)) (nub (map fst others)).

Lemma elem_of_nub l a : a ∈ nub l <-> a ∈ l.
Proof.
  induction l as [|b l IH]; [done|]. cbn [nub]. rewrite !elem_of_cons, list_elem_of_filter, IH.
  destruct (decide (a = b)); naive_solver.
Qed.

Lemma NoDup_nub l : NoDup (nub l).
Proof.
  induction l as [|b l IH]; [constructor|]. cbn [nub]. apply NoDup_cons. split; [|by apply NoDup_filter].
  rewrite list_elem_of_filter. naive_solver.
Qed.

Lemma nub_snoc l a : nub (l ++ [a]) = nub l ++ (if decide (a ∈ l) then [] else [a]).
Proof.
  induction l as [|b l IH]; [done|]. cbn [nub app]. rewrite IH, filter_app. f_equal. f_equal.
  destruct (decide (a ∈ l)) as [Hin|Hni].
  - rewrite decide_True by (by right). done.
  - destruct (decide (a = b)) as [->|Hne].
    + rewrite decide_True by (by left). rewrite filter_cons, decide_False by auto. done.
    + rewrite decide_False by (by intros [?|?]%elem_of_cons). by rewrite filter_cons, decide_True.
Qed.

Lemma strong_in_snoc calls a rb b : strong_in (calls ++ [(a, rb)]) b = strong_in calls b || ((a =? b) && rb).
Proof. unfold strong_in. rewrite existsb_app. cbn. by rewrite orb_false_r. Qed.

Lemma strong_in_absent calls a : a ∉ map fst calls -> strong_in calls a = false.
Proof.
  induction calls as [|[b rb] calls IH]; [done|]. cbn [map]. intros Hn. apply not_elem_of_cons in Hn as [Hne Hn].
  unfold strong_in. cbn. rewrite (proj2 (Z.eqb_neq b a)) by auto. by apply IH.
Qed.

(** ** The entries *)

(** The entries after the calls [cs] of others. *)
Record entries_ok (cs : list (Z * bool)) (s : gmap Z (Z * bool) * Z) : Prop := {
  en_upto : s.2 = lenZ (nub (map fst cs));
  en_lookup a pos flag :
    s.1 !! a = Some (pos, flag) <-> 0 <= pos /\ nub (map fst cs) !! Z.to_nat pos = Some a /\ flag = strong_in cs a
}.

Lemma entries_known cs s a : entries_ok cs s -> is_Some (s.1 !! a) <-> a ∈ map fst cs.
Proof.
  intros [_ Hl]. rewrite <- elem_of_nub. split.
  - intros [[pos flag] H]. apply Hl in H as (_ & H & _). by eapply list_elem_of_lookup_2.
  - intros [i Hi]%list_elem_of_lookup. exists (Z.of_nat i, strong_in cs a). apply Hl. rewrite Nat2Z.id. split; [lia|done].
Qed.

Lemma ADD_TSH_ok otxnAcc cs s a rb :
  entries_ok cs s -> a <> otxnAcc -> entries_ok (cs ++ [(a, rb)]) (ADD_TSH otxnAcc s (a, rb)).
Proof.
  intros Hok Ha. assert (Hkn := entries_known cs s a Hok). destruct Hok as [Hu Hl]. destruct s as [entries upto]. cbn [fst snd] in *.
  unfold ADD_TSH. rewrite (proj2 (Z.eqb_neq a otxnAcc)) by done.
  assert (Hmap : map fst (cs ++ [(a, rb)]) = map fst cs ++ [a]) by (by rewrite map_app).
  destruct (entries !! a) as [[pos0 flag0]|] eqn:Ea.
  - assert (Hin : a ∈ map fst cs) by (by apply Hkn). split; cbn [fst snd]; rewrite Hmap, nub_snoc, decide_True, app_nil_r by done; [done|].
    intros b pos flag. rewrite strong_in_snoc. destruct (decide (b = a)) as [->|Hne].
    + rewrite lookup_insert_eq, Z.eqb_refl. assert (H0 := proj1 (Hl a pos0 flag0) Ea). split.
      * intros [= <- <-]. destruct H0 as (? & ? & ->). done.
      * intros (Hp & Hn & ->). destruct H0 as (Hp0 & Hn0 & ->). cbn [andb]. do 2 f_equal.
        assert (Z.to_nat pos0 = Z.to_nat pos) by (eapply NoDup_lookup; [apply NoDup_nub|done|done]). lia.
    + rewrite lookup_insert_ne, (proj2 (Z.eqb_neq a b)) by auto. cbn [andb]. rewrite orb_false_r. apply Hl.
  - assert (Hni : a ∉ map fst cs) by (rewrite <- Hkn; by intros []). split; cbn [fst snd]; rewrite Hmap, nub_snoc, decide_False by done.
    { rewrite Hu. unfold lenZ. rewrite length_app. cbn. lia. }
    intros b pos flag. rewrite strong_in_snoc. destruct (decide (b = a)) as [->|Hne].
    + rewrite lookup_insert_eq, Z.eqb_refl, strong_in_absent by done. cbn [andb orb]. rewrite Hu. unfold lenZ. split.
      * intros [= <- <-]. split; [lia|]. rewrite Nat2Z.id, lookup_app_r by lia. by rewrite Nat.sub_diag.
      * intros (Hp & Hn & ->). do 2 f_equal. rewrite lookup_app_Some in Hn. destruct Hn as [Hn|[Hge Hn]].
        -- destruct Hni. apply elem_of_nub. by eapply list_elem_of_lookup_2.
        -- apply list_lookup_singleton_Some in Hn as [Hn _]. lia.
    + rewrite lookup_insert_ne, (proj2 (Z.eqb_neq a b)) by auto. cbn [andb]. rewrite orb_false_r, Hl. split.
      * intros (Hp & Hn & ->). split; [done|]. split; [by apply lookup_app_l_Some|done].
      * intros (Hp & Hn & ->). split; [done|]. split; [|done]. rewrite lookup_app_Some in Hn. destruct Hn as [Hn|[Hge Hn]]; [done|].
        apply list_lookup_singleton_Some in Hn as [_ ->]. done.
Qed.

Lemma calls_ok otxnAcc calls : forall cs s,
  entries_ok cs s -> entries_ok (cs ++ filter (fun c => c.1 <> otxnAcc) calls) (foldl (ADD_TSH otxnAcc) s calls).
Proof.
  induction calls as [|[a rb] calls IH]; intros cs s Hok; [by rewrite app_nil_r|]. cbn [foldl].
  destruct (decide (a = otxnAcc)) as [->|Hne].
  - rewrite filter_cons, decide_False by (by intros []). replace (ADD_TSH otxnAcc s (otxnAcc, rb)) with s; [by apply IH|].
    unfold ADD_TSH. destruct s. by rewrite Z.eqb_refl.
  - rewrite filter_cons, decide_True by done. replace (cs ++ (a, rb) :: filter _ calls) with ((cs ++ [(a, rb)]) ++ filter (fun c => c.1 <> otxnAcc) calls)
      by (by rewrite <- app_assoc). apply IH. by apply ADD_TSH_ok.
Qed.

Lemma entries_none : entries_ok [] (∅, 0).
Proof. split; [done|]. intros a pos flag. cbn. rewrite lookup_empty. split; [done|]. intros (_ & H & _). done. Qed.

(** ** The vector *)

Lemma fill_spec L entries : forall ret,
  length ret = length L -> (forall a pos flag, (a, (pos, flag)) ∈ entries -> 0 <= pos /\ L !! Z.to_nat pos = Some (a, flag)) ->
  (forall i x, L !! i = Some x -> ret !! i = Some x \/ exists a flag, (a, (Z.of_nat i, flag)) ∈ entries) ->
  fill ret entries = Ret L.
Proof.
  induction entries as [|[a [pos flag]] entries IH]; intros ret Hl Hin Hcov; cbn [fill].
  - f_equal. apply list_eq_same_length with (length L); [done|done|]. intros i x y Hi Hx Hy.
    destruct (Hcov i y Hy) as [E|(? & ? & []%elem_of_nil)]. congruence.
  - destruct (Hin a pos flag) as [Hp HL]; [by left|]. assert (Hlt := lookup_lt_Some _ _ _ HL).
    rewrite (proj2 (Z.leb_le 0 pos)), (proj2 (Z.ltb_lt pos (lenZ ret))) by (unfold lenZ; lia). cbn [andb]. apply IH.
    + by rewrite length_insert.
    + intros. apply Hin. by right.
    + intros i x Hx. destruct (decide (i = Z.to_nat pos)) as [->|Hne].
      * left. rewrite list_lookup_insert_eq by lia. congruence.
      * rewrite list_lookup_insert_ne by done. destruct (Hcov i x Hx) as [E|(a' & flag' & [[= -> Hi ->]|E]%elem_of_cons)]; [by left| |].
        -- destruct Hne. lia.
        -- right. eauto.
Qed.

Lemma fill_entries otxnAcc calls :
  let '(entries, _) := foldl (ADD_TSH otxnAcc) (∅, 0) calls in
  fill (replicate (size entries) (0, false)) (map_to_list entries) = Ret (stakeholders_of otxnAcc calls).
Proof.
  pose proof (calls_ok otxnAcc calls [] _ entries_none) as Hok. cbn [app] in Hok. unfold stakeholders_of.
  set (cs := filter (fun c => c.1 <> otxnAcc) calls) in *. destruct (foldl _ _ _) as [entries upto].
  assert (Hdom : dom entries = list_to_set (nub (map fst cs))).
  { apply set_eq. intros a. rewrite elem_of_dom, elem_of_list_to_set, elem_of_nub. apply (entries_known cs (entries, upto) a Hok). }
  assert (Hsize : size entries = length (nub (map fst cs))) by (rewrite <- size_dom, Hdom; apply size_list_to_set, NoDup_nub).
  destruct Hok as [_ Hl]. cbn [fst] in Hl. apply fill_spec.
  - by rewrite length_replicate, length_map.
  - intros a pos flag Hin%elem_of_map_to_list. apply Hl in Hin as (Hp & Hn & ->). split; [done|].
    by rewrite list_lookup_fmap, Hn.
  - intros i x Hx. right. apply list_lookup_fmap_Some_1 in Hx as (a & -> & Hn). exists a, (strong_in cs a).
    apply elem_of_map_to_list, Hl. rewrite Nat2Z.id. split; [lia|done].
Qed.

Lemma remit_issuers_run v dest ids : exists calls, remit_issuers v (Some dest) ids = Ret calls.
Proof.
  induction ids as [|id ids [rest IH]]; [by eexists|]. cbn [remit_issuers]. rewrite IH.
  destruct (tv_uritokens v !! id) as [ut|]; [|by eexists]. destruct (_ =? _); by eexists.
Qed.

Lemma stakeholder_calls_run v tx otxnAcc :
  (st_type tx = ttREMIT -> is_Some (st_Destination tx)) -> exists calls, stakeholder_calls v tx otxnAcc = Ret calls.
Proof.
  intros Hd. unfold stakeholder_calls. destruct (st_type tx) eqn:Et; try by eexists.
  destruct (Hd eq_refl) as [dest Edest]. unfold remit_calls. rewrite Edest.
  destruct (remit_issuers_run v dest (default [] (st_URITokenIDs tx))) as [rest Hrest].
  destruct (st_Inform tx) as [inform|]; [destruct (otxnAcc =? inform)|]; cbn; rewrite Hrest; by eexists.
Qed.

Lemma strong_in_true calls a : strong_in calls a = true <-> (a, true) ∈ calls.
Proof.
  unfold strong_in. rewrite existsb_exists. split.
  - intros ([b rb] & Hin & [E%Z.eqb_eq Erb]%andb_true_iff). cbn in *. subst. by apply list_elem_of_In.
  - intros Hin. exists (a, true). split; [by apply list_elem_of_In|]. cbn. by rewrite Z.eqb_refl.
Qed.

Lemma elem_of_stakeholders otxnAcc calls a rb :
  (a, rb) ∈ stakeholders_of otxnAcc calls <->
  a <> otxnAcc /\ (exists rb', (a, rb') ∈ calls) /\ (rb = true <-> (a, true) ∈ calls).
Proof.
  unfold stakeholders_of. set (cs := filter (fun c => c.1 <> otxnAcc) calls).
  assert (Hcs : forall b f, (b, f) ∈ cs <-> b <> otxnAcc /\ (b, f) ∈ calls) by (intros b f; unfold cs; by rewrite list_elem_of_filter).
  rewrite list_elem_of_fmap. split.
  - intros (b & [= -> ->] & Hb). apply elem_of_nub, list_elem_of_fmap in Hb as ([c f] & -> & Hf). cbn [fst].
    apply Hcs in Hf as [Hne Hf]. split; [done|]. split; [by exists f|]. rewrite strong_in_true, Hcs. naive_solver.
  - intros (Hne & [f Hf] & Hrb). exists a. split.
    + f_equal. destruct rb; symmetry; [apply strong_in_true, Hcs; split; [done|by apply Hrb]|].
      apply not_true_is_false. rewrite strong_in_true, Hcs. intros [_ Ht]. by apply Hrb in Ht.
    + apply elem_of_nub, list_elem_of_fmap. exists (a, f). by rewrite Hcs.
Qed.

Lemma stakeholders_NoDup otxnAcc calls : NoDup (map fst (stakeholders_of otxnAcc calls)).
Proof. unfold stakeholders_of. rewrite map_map. cbn [fst]. rewrite map_id. apply NoDup_nub. Qed.

Lemma stakeholders_run v tx otxnAcc calls :
  tv_featureHooks v = true -> st_Account tx = Some otxnAcc -> stakeholder_calls v tx otxnAcc = Ret calls ->
  getTransactionalStakeHolders v tx = Ret (stakeholders_of otxnAcc (default [] calls)).
Proof.
  intros Hf Ha Hc. unfold getTransactionalStakeHolders. rewrite Hf, Ha, Hc. cbn [negb obind]. destruct calls as [calls|]; [|done].
  pose proof (fill_entries otxnAcc calls) as Hfill. by destruct (foldl _ _ _).
Qed.

(** C26: [getTransactionalStakeHolders] is equivalent to its reference. With the
    destination that a Remit must have, the function returns without an undefined
    operation; its result, built from a map of positions, lists the accounts other
    than the sender in the order of their first call of [ADD_TSH], each once, and an
    account is strong exactly when one of its calls is. *)
Theorem stakeholders_reference v tx otxnAcc :
  tv_featureHooks v = true -> st_Account tx = Some otxnAcc -> (st_type tx = ttREMIT -> is_Some (st_Destination tx)) ->
  exists calls, stakeholder_calls v tx otxnAcc = Ret calls /\
    getTransactionalStakeHolders v tx = Ret (stakeholders_of otxnAcc (default [] calls)) /\
    NoDup (map fst (stakeholders_of otxnAcc (default [] calls))) /\
    forall a rb, (a, rb) ∈ stakeholders_of otxnAcc (default [] calls) <->
      a <> otxnAcc /\ (exists rb', (a, rb') ∈ default [] calls) /\ (rb = true <-> (a, true) ∈ default [] calls).
Proof.
  intros Hf Ha Hd. destruct (stakeholder_calls_run v tx otxnAcc Hd) as [calls Hc]. exists calls. split; [done|].
  split; [by apply stakeholders_run|]. split; [apply stakeholders_NoDup|]. intros a rb. apply elem_of_stakeholders.
Qed.

(** ** The hooks before a transaction *)

Section Parties.
Context `{Keylets} (wasm : ledger -> hook_args -> HookStateMap -> list api_call * wasm_end).

(** Results of hooks of the accounts [A]. *)
Definition hooks_of (A : Z -> Prop) (results : list hook_context) : Prop := Forall (fun r => A (arg_account (ctx_args r))) results.

(** An account of [A] has hooks. *)
Definition vetoer (A : Z -> Prop) (led : ledger) : Prop := exists a, A a /\ is_Some (hooks led !! a).

Lemma chain_parties (A : Z -> Prop) v3 led txType hs m results acc strong meta :
  lenZ hs <= 255 -> A acc -> hooks_of A results ->
  hooks_of A (executeHookChain wasm v3 led txType hs m results acc strong meta).2.
Proof.
  intros Hl Ha Hr. pose proof (executeHookChain_results wasm v3 led txType hs m results acc strong meta ∅ Hl ltac:(set_solver)) as Hc.
  destruct (executeHookChain _ _ _ _ _ _ _ _ _ _) as [[t m'] results']. destruct Hc as (new & -> & _ & _ & Hacc).
  apply Forall_app. split; [done|]. eapply Forall_impl; [done|]. simpl. by intros r ->.
Qed.

Lemma touch_hooks v acc : hooks (v_ledger (touchAccount v acc)) = hooks (v_ledger v).
Proof. unfold touchAccount. destruct (negb _); [done|]. by destruct (accounts _ !! acc). Qed.

Lemma tsh_loop_parties (A : Z -> Prop) tx meta tsh : forall v S m results,
  (forall a, (a, true) ∈ tsh -> A a) -> chains_short (v_ledger v) -> hooks_of A results ->
  let '(t, _, _, results') := tsh_loop wasm tx true meta v S m results tsh in
  hooks_of A results' /\ (isTesSuccess t = false -> vetoer A (v_ledger v)).
Proof.
  induction tsh as [|[acc canRollback] tsh IH]; intros v S m results HA Hs Hr; [done|]. cbn [tsh_loop]. cbv zeta.
  assert (HA' : forall a, (a, true) ∈ tsh -> A a) by (intros a Ha; apply HA; by right).
  assert (Hskip : forall v1 S1 m1 results1, hooks (v_ledger v1) = hooks (v_ledger v) -> hooks_of A results1 ->
    let '(t, _, _, results') := tsh_loop wasm tx true meta v1 S1 m1 results1 tsh in
    hooks_of A results' /\ (isTesSuccess t = false -> vetoer A (v_ledger v))).
  { intros v1 S1 m1 results1 Hh Hr1. specialize (IH v1 S1 m1 results1 HA' ltac:(intros a hs E; rewrite Hh in E; by eapply Hs) Hr1).
    unfold vetoer in *. by rewrite Hh in IH. }
  destruct (acc =? tx_account tx); [by apply Hskip|]. destruct (bool_decide _); [by apply Hskip|].
  destruct canRollback; cbn [negb andb orb]; [|by apply Hskip].
  destruct (hooks _ !! acc) as [hs|] eqn:Eh; [|apply Hskip; [apply touch_hooks|done]].
  destruct (accounts _ !! acc) as [x|]; [|apply Hskip; [apply touch_hooks|done]].
  unfold tsh_fee. destruct (_ =? 0); [apply Hskip; [apply touch_hooks|done]|]. rewrite touch_hooks in Eh.
  pose proof (chain_parties A (fixXahauV3 (v_rules (touchAccount v acc))) (v_ledger (touchAccount v acc)) (tx_type tx) hs m results acc true meta
    ltac:(by eapply Hs) ltac:(apply HA; by left) Hr) as Hc.
  destruct (executeHookChain _ _ _ _ _ _ _ _ _ _) as [[t m1] results1]. cbn [snd] in Hc. destruct (isTesSuccess t); cbn [negb].
  - apply Hskip; [apply touch_hooks|done].
  - split; [done|]. intros _. exists acc. split; [apply HA; by left|by exists hs].
Qed.

(** The stakeholders that the phases use. *)
Definition stakeholders_at (view : ledger -> tsh_view) (stx : tsh_tx) (led : ledger) : list (Z * bool) :=
  match getTransactionalStakeHolders (view led) stx with Ret l => l | _ => [] end.

(** The accounts that may stop a transaction: its sender, unless it was emitted, and
    those with a strong call. *)
Definition party (tx : otxn) (calls : list (Z * bool)) (a : Z) : Prop :=
  a = tx_account tx /\ tx_emit tx = None \/ a <> tx_account tx /\ (a, true) ∈ calls.

(** C25: who can stop a transaction. Every hook that runs before the transaction is
    applied belongs to the sender, unless the transaction was emitted, or to another
    account for which [getTransactionalStakeHolders] makes a strong call; and if the
    result is not a success, one of these accounts has hooks. *)
Theorem strong_hooks_parties view stx tx v calls :
  tv_featureHooks (view (v_ledger v)) = true -> st_Account stx = Some (tx_account tx) -> chains_short (v_ledger v) ->
  stakeholder_calls (view (v_ledger v)) stx (tx_account tx) = Ret calls ->
  let '(t, _, _, results) := run_strong wasm (stakeholders_at view stx) tx v in
  hooks_of (party tx (default [] calls)) results /\
  (isTesSuccess t = false -> vetoer (party tx (default [] calls)) (v_ledger v)).
Proof.
  intros Hf Ha Hs Hc. set (A := party tx (default [] calls)). unfold run_strong.
  assert (Htsh : stakeholders_at view stx (v_ledger v) = stakeholders_of (tx_account tx) (default [] calls))
    by (unfold stakeholders_at; by rewrite (stakeholders_run _ _ _ _ Hf Ha Hc)).
  assert (HA : forall a, (a, true) ∈ stakeholders_of (tx_account tx) (default [] calls) -> A a).
  { intros a (Hne & _ & Hstrong)%elem_of_stakeholders. right. split; [done|by apply Hstrong]. }
  assert (Hnext : forall m results, hooks_of A results ->
    let '(t, _, _, results') := doTSH wasm (stakeholders_at view stx) ∅ tx true false v m results in
    hooks_of A results' /\ (isTesSuccess t = false -> vetoer A (v_ledger v))).
  { intros m results Hr. unfold doTSH. rewrite Htsh. by apply tsh_loop_parties. }
  destruct (hooks (v_ledger v) !! tx_account tx) as [hs|] eqn:Eh; [|apply Hnext; constructor].
  destruct (tx_emit tx) eqn:Ee; [apply Hnext; constructor|].
  pose proof (chain_parties A (fixXahauV3 (v_rules v)) (v_ledger v) (tx_type tx) hs empty_state_map [] (tx_account tx) true false
    ltac:(by eapply Hs) ltac:(by left) ltac:(constructor)) as Hch.
  destruct (executeHookChain _ _ _ _ _ _ _ _ _ _) as [[t m] results]. cbn [snd] in Hch. destruct (isTesSuccess t) eqn:Et; [by apply Hnext|].
  split; [done|]. intros _. exists (tx_account tx). split; [by left|by exists hs].
Qed.

End Parties.

(** ** Examples *)

Definition plain_view (led : ledger) : tsh_view :=
  mkTshView true true true (fun a => bool_decide (is_Some (accounts led !! a))) ∅ ∅ ∅ ∅ ∅ (fun _ _ => 0) (fun _ _ => false).

(** Account 1 pays to account 2. *)
Definition payment : tsh_tx :=
  mkTshTx ttPAYMENT (Some 1) (Some 2) None None None None None None None 0 None None None None None None None None [] None.

Definition no_ledger : ledger := mkLedger true true (mkFees 10 5) ∅ ∅ ∅ ∅ ∅.

Lemma stakeholders_reference_witness :
  exists calls, stakeholder_calls (plain_view no_ledger) payment 1 = Ret calls /\
    getTransactionalStakeHolders (plain_view no_ledger) payment = Ret (stakeholders_of 1 (default [] calls)).
Proof.
  destruct (stakeholders_reference (plain_view no_ledger) payment 1) as (calls & Hc & Hg & _); [done|done|done|].
  exists calls. split; [exact Hc|exact Hg].
Defined.

Section Demo.
#[local] Existing Instance demo_keylets.

(** The hooks of both parties run, and each may stop the payment. *)
Lemma strong_hooks_parties_witness :
  Forall (fun r => party (demo_otxn 1) [(2, true)] (arg_account (ctx_args r)))
    (run_strong accepts (stakeholders_at plain_view payment) (demo_otxn 1) (phase_view 100)).2 /\
  map (fun r => arg_account (ctx_args r)) (run_strong accepts (stakeholders_at plain_view payment) (demo_otxn 1) (phase_view 100)).2 = [1; 2].
Proof.
  pose proof (strong_hooks_parties accepts plain_view payment (demo_otxn 1) (phase_view 100) (Some [(2, true)]) eq_refl eq_refl
    (phase_chains 100) eq_refl) as Hp.
  split; [|by vm_compute]. destruct (run_strong _ _ _ _) as [[[t v'] m] results]. exact (proj1 Hp).
Defined.

End Demo.
