(* ===== verification/Rewards.v ===== *)
(** * Balance rewards in the ledger

    An account that has claimed once accumulates its balance over the ledgers that
    pass. [ClaimReward] (src/src/ripple/app/tx/impl/ClaimReward.cpp) resets the
    counters; after every transaction [Transactor::operator()]
    (src/src/ripple/app/tx/impl/Transactor.cpp) adds the balances of the accounts that
    the metadata list, and then the stakeholders of weak hooks pay their fees
    ([doTSH]); [GenesisMint] (src/src/ripple/app/tx/impl/GenesisMint.cpp)
    creates the coins that the reward hook of the genesis account emits. The key of an
    account root is a hash of the account and stands for it here. *)

From S2P Require Import Prelude HookState.

(** ** The ledger *)

(** The account root: the fields of rewards and minting. *)
Record acct := mkAcct {
  ac_Balance : Z;
  ac_Sequence : Z;
  RewardLgrFirst : option Z;
  RewardLgrLast : option Z;
  RewardAccumulator : option Z;
  RewardTime : option Z;
  GovernanceFlags : option Z;
  GovernanceMarks : option Z
}.
#[global] Instance acct_eq_dec : EqDecision acct.
Proof. solve_decision. Defined.

(** The amendments. *)
Record reward_rules := mkRules {
  rl_featureHooks : bool;
  rl_featureXahauGenesis : bool;
  rl_featureBalanceRewards : bool;
  rl_fixRewardClaimFlags : bool;
  rl_fixXahauV1 : bool;
  rl_fix240819 : bool;
  rl_fix240911 : bool
}.

(** An amount is a number of drops or an issued currency. *)
Inductive mint_amount := Drops (d : Z) | Issued.

(** The fee object: the reserves as amounts, and those of the old format. *)
Record fee_object := mkFeeObject { fo_ReserveDrops : option (mint_amount * mint_amount); fo_Reserve : option (Z * Z) }.

(** The view: account roots, the coins in the header, the sequence number of the
    ledger, the close time of its parent, that of the parent of the last validated
    ledger, and the fee object. *)
Record coin_view := mkCoins {
  cv_accounts : gmap Z acct;
  cv_drops : Z;
  cv_seq : Z;
  cv_parentCloseTime : Z;
  cv_validatedTime : Z;
  cv_fee_object : option fee_object
}.

Definition set_cv_accounts (m : gmap Z acct) (v : coin_view) : coin_view :=
  mkCoins m (cv_drops v) (cv_seq v) (cv_parentCloseTime v) (cv_validatedTime v) (cv_fee_object v).

(** [rawDestroyXRP] *)
Definition rawDestroyXRP (fee : Z) (v : coin_view) : coin_view :=
  mkCoins (cv_accounts v) (cv_drops v - fee) (cv_seq v) (cv_parentCloseTime v) (cv_validatedTime v) (cv_fee_object v).

Definition set_rewards (first last accum time : option Z) (a : acct) : acct :=
  mkAcct (ac_Balance a) (ac_Sequence a) first last accum time (GovernanceFlags a) (GovernanceMarks a).
Definition set_ac_Balance (b : Z) (a : acct) : acct :=
  mkAcct b (ac_Sequence a) (RewardLgrFirst a) (RewardLgrLast a) (RewardAccumulator a) (RewardTime a)
    (GovernanceFlags a) (GovernanceMarks a).

(** ** ClaimReward *)

Definition tfOptOut : Z := 1.
(** [~(tfUniversal | tfOptOut)], where [tfUniversal] is the highest bit. *)
Definition tfClaimRewardMask : Z := 0x7FFFFFFE.

Record claim_tx := mkClaim { cl_Account : Z; cl_Flags : option Z; cl_Issuer : option Z }.

(** [p1] and [p2] are the results of [preflight1] and [preflight2]. *)
Definition claim_preflight (p1 p2 : ter) (r : reward_rules) (tx : claim_tx) : ter :=
  if negb (rl_featureBalanceRewards r) then temDISABLED
  else if negb (isTesSuccess p1) then p1
  else
    let invalidFlags :=
      if rl_fixRewardClaimFlags r then negb (Z.land (default 0 (cl_Flags tx)) tfClaimRewardMask =? 0)
      else match cl_Flags tx with Some flags => tfOptOut <? flags | None => false end in
    if invalidFlags then temINVALID_FLAG
    else if bool_decide (cl_Issuer tx = Some (cl_Account tx)) then temMALFORMED
    else p2.

Definition isOptOut (tx : claim_tx) : bool := bool_decide (cl_Flags tx = Some tfOptOut).

Definition claim_preclaim (r : reward_rules) (v : coin_view) (tx : claim_tx) : ter :=
  if negb (rl_featureBalanceRewards r) then temDISABLED
  else
    match cv_accounts v !! cl_Account tx with
    | None => terNO_ACCOUNT
    | Some _ =>
      match cl_Issuer tx with
      | Some issuer =>
        if isOptOut tx then temMALFORMED
        else if bool_decide (is_Some (cv_accounts v !! issuer)) then tesSUCCESS else tecNO_ISSUER
      | None => if isOptOut tx then tesSUCCESS else temMALFORMED
      end
    end.

Definition claim_doApply (v : coin_view) (tx : claim_tx) : ter * coin_view :=
  match cv_accounts v !! cl_Account tx with
  | None => (tefINTERNAL, v)
  | Some sle =>
    let sle :=
      if isOptOut tx then set_rewards None None None None sle
      else
        let lgrCur := cv_seq v in
        set_rewards (Some lgrCur) (Some lgrCur) (Some 0) (Some (u32 (cv_validatedTime v))) sle in
    (tesSUCCESS, set_cv_accounts (<[cl_Account tx := sle]> (cv_accounts v)) v)
  end.

(** ** The accumulator *)

Inductive meta_type := CreatedNode | ModifiedNode | DeletedNode.
#[global] Instance meta_type_eq_dec : EqDecision meta_type.
Proof. solve_decision. Defined.

(** A node of the metadata: the balance in the previous and in the final fields. *)
Record affected_node := mkNode {
  nd_type : meta_type;
  nd_account_root : bool;
  nd_PreviousFields : option (option Z);
  nd_FinalFields : option (option Z);
  nd_LedgerIndex : option Z
}.

(** The fields besides the balance, in any order. *)
Definition other_fields (a : acct) : list (option Z) :=
  [Some (ac_Sequence a); RewardLgrFirst a; RewardLgrLast a; RewardAccumulator a; RewardTime a; GovernanceFlags a; GovernanceMarks a].

(** A field of the original node that the current one does not have: [hasMatchingEntry]. *)
Definition unmatched (p : option Z * option Z) : bool :=
  match p.1 with Some x => negb (bool_decide (p.2 = Some x)) | None => false end.

(** [generateTxMeta] on an account root that was [orig] and is [cur]. Nothing reads the
    fields of a deleted node. *)
Definition account_node (id : Z) (orig cur : option acct) : option affected_node :=
  match orig, cur with
  | Some o, Some c =>
    if bool_decide (c = o) then None
    else
      let prevs :=
        if negb (ac_Balance c =? ac_Balance o) then Some (Some (ac_Balance o))
        else if existsb unmatched (zip (other_fields o) (other_fields c)) then Some None else None in
      Some (mkNode ModifiedNode true prevs (Some (Some (ac_Balance c))) (Some id))
  | None, Some _ => Some (mkNode CreatedNode true None None (Some id))
  | Some o, None => Some (mkNode DeletedNode true None (Some (Some (ac_Balance o))) (Some id))
  | None, None => None
  end.

Definition affected_nodes (orig cur : gmap Z acct) : list affected_node :=
  omap (fun id => account_node id (orig !! id) (cur !! id)) (elements (dom orig ∪ dom cur)).

(** The new counters of an account, from the balance that its node shows. *)
Definition accumulate (r : reward_rules) (lgrCur : Z) (drops : Z) (sle : acct) : acct :=
  match RewardLgrFirst sle, RewardLgrLast sle, RewardAccumulator sle with
  | Some _, Some lgrLast, Some accum =>
    let bal := u64 (Z.quot drops 1000000) in
    if bal =? 0 then sle
    else
      let lgrElapsed := u32 (lgrCur - lgrLast) in
      if negb (rl_fix240911 r) && ((lgrCur <? lgrElapsed) || (lgrLast <? lgrElapsed) || (lgrElapsed =? 0)) then sle
      else if rl_fix240911 r && ((lgrCur <? lgrElapsed) || (lgrElapsed =? 0)) then sle
      else
        let accumNew := u64 (accum + u64 (bal * lgrElapsed)) in
        if accumNew <? accum then sle
        else set_rewards (RewardLgrFirst sle) (Some lgrCur) (Some accumNew) (RewardTime sle) sle
  | _, _, _ => sle
  end.

(** One node of the loop over the metadata. *)
Definition reward_node (r : reward_rules) (lgrCur : Z) (m : gmap Z acct) (node : affected_node) : gmap Z acct :=
  if negb (nd_account_root node) || bool_decide (nd_type node = DeletedNode) then m
  else
    match (if rl_fix240819 r then nd_PreviousFields node else nd_FinalFields node), nd_LedgerIndex node with
    | Some fields, Some index =>
      match m !! index, fields with
      | Some sle, Some drops => <[index := accumulate r lgrCur drops sle]> m
      | _, _ => m
      end
    | _, _ => m
    end.

(** The counters after a transaction that took the ledger from [orig] to [v]. *)
Definition update_rewards (r : reward_rules) (orig : gmap Z acct) (v : coin_view) : coin_view :=
  if rl_featureBalanceRewards r
  then set_cv_accounts (foldl (reward_node r (cv_seq v)) (cv_accounts v) (affected_nodes orig (cv_accounts v))) v
  else v.

(** ** The fees after the accumulator *)

(** The fee of one stakeholder in [doTSH]: an account and what its chain costs. The
    phase after the transaction runs when the counters are updated already. *)
Definition charge_tsh (v : coin_view) (charge : Z * Z) : coin_view :=
  let '(tshAccountID, tshFeeDrops) := charge in
  match cv_accounts v !! tshAccountID with
  | None => v
  | Some tshAcc =>
    if 0 <? tshFeeDrops then
      let finalBalance := ac_Balance tshAcc - tshFeeDrops in
      rawDestroyXRP tshFeeDrops (set_cv_accounts (<[tshAccountID := set_ac_Balance finalBalance tshAcc]> (cv_accounts v)) v)
    else v
  end.

(** The accounts that [doTSH(false)] charges, in order. *)
Definition weak_fees (v : coin_view) (charges : list (Z * Z)) : coin_view := foldl charge_tsh v charges.

(** ** GenesisMint *)

(** An entry of [sfGenesisMints]; [md_is_mint] says that the object is an
    [sfGenesisMint]. *)
Record mint_dest := mkDest {
  md_is_mint : bool;
  md_Destination : option Z;
  md_Amount : option mint_amount;
  md_GovernanceFlags : option Z;
  md_GovernanceMarks : option Z
}.

Record mint_tx := mkMint { mt_Account : Z; mt_EmitDetails : bool; mt_GenesisMints : list mint_dest }.

Definition xrpAccount : Z := 0.
Definition noAccount : Z := 1.

(** The checks of one entry but the last. *)
Definition dest_ok (d : mint_dest) : bool :=
  md_is_mint d &&
  match md_Destination d with
  | None => false
  | Some accid =>
    (bool_decide (is_Some (md_Amount d)) || bool_decide (is_Some (md_GovernanceMarks d)) ||
     bool_decide (is_Some (md_GovernanceFlags d))) &&
    match md_Amount d with
    | Some (Drops amt) => negb (amt <? 0) && negb (10000000000000 <? amt)
    | Some Issued => false
    | None => true
    end &&
    negb ((accid =? noAccount) || (accid =? xrpAccount))
  end.

Fixpoint dests_ok (allowDuplicates : bool) (alreadySeen : gset Z) (dests : list mint_dest) : bool :=
  match dests with
  | [] => true
  | d :: dests =>
    dest_ok d &&
    (if allowDuplicates then dests_ok allowDuplicates alreadySeen dests
     else
       let accid := default 0 (md_Destination d) in
       negb (bool_decide (accid ∈ alreadySeen)) && dests_ok allowDuplicates ({[accid]} ∪ alreadySeen) dests)
  end.

Definition mint_preflight (genesisAccountId : Z) (p1 p2 : ter) (r : reward_rules) (tx : mint_tx) : ter :=
  if negb (rl_featureHooks r) then temDISABLED
  else if negb (rl_featureXahauGenesis r) then temDISABLED
  else if negb (isTesSuccess p1) then p1
  else if negb (mt_Account tx =? genesisAccountId) || negb (mt_EmitDetails tx) then temMALFORMED
  else if lenZ (mt_GenesisMints tx) =? 0 then temMALFORMED
  else if 512 <? lenZ (mt_GenesisMints tx) then temMALFORMED
  else if negb (dests_ok (rl_fixXahauV1 r) ∅ (mt_GenesisMints tx)) then temMALFORMED
  else p2.

Definition mint_preclaim (r : reward_rules) : ter :=
  if negb (rl_featureHooks r) then temDISABLED
  else if negb (rl_featureXahauGenesis r) then temDISABLED
  else tesSUCCESS.

(** The sum of drops; the overflow of an [int64_t] is undefined. *)
Definition drops_add {E} (a b : Z) : outcome E Z :=
  if (- 2 ^ 63 <=? a + b) && (a + b <? 2 ^ 63) then Ret (a + b) else Undef UB_signed.

Definition computeStartingBonus (v : coin_view) : Z :=
  let '(b, i) :=
    match cv_fee_object v with
    | Some fees =>
      match fo_Reserve fees, fo_ReserveDrops fees with
      | Some old, _ => old
      | None, Some (Drops base, Drops incr) => (u64 base, u64 incr)
      | None, _ => (1000000, 200000)
      end
    | None => (1000000, 200000)
    end in
  let x := u64 (b + u64 (i * 5)) in
  if (i <? x) && (b <? x) then s64 x else 2 * 1000000.

(** [if (flags) ..., if (marks) ...] *)
Definition set_governance (flags marks : option Z) (a : acct) : acct :=
  mkAcct (ac_Balance a) (ac_Sequence a) (RewardLgrFirst a) (RewardLgrLast a) (RewardAccumulator a) (RewardTime a)
    (match flags with Some _ => flags | None => GovernanceFlags a end)
    (match marks with Some _ => marks | None => GovernanceMarks a end).

Definition new_acct (seqno balance : Z) : acct := mkAcct balance seqno None None None None None None.

(** [tecINTERNAL] for an amount that is not native. *)
Definition native_amount (amt : option mint_amount) : outcome ter (option Z) :=
  match amt with
  | None => Ret None
  | Some (Drops d) => Ret (Some d)
  | Some Issued => Exit tecINTERNAL
  end.

(** Credit to an existing account. *)
Definition credit (sle : acct) (amt : Z) : outcome ter acct :=
  let startBal := ac_Balance sle in
  let* finalBal := drops_add startBal amt in
  if finalBal <=? startBal then Exit tecINTERNAL else Ret (set_ac_Balance finalBal sle).

(** One entry before [fixXahauV1]. *)
Definition mint_one (v : coin_view) (s : gmap Z acct * Z) (d : mint_dest) : outcome ter (gmap Z acct * Z) :=
  let '(accounts, dropsAdded) := s in
  let* amt := native_amount (md_Amount d) in
  let id := default 0 (md_Destination d) in
  let* '(sle, dropsAdded) :=
    match accounts !! id with
    | None =>
      let initial := match amt with Some a => a | None => computeStartingBonus v end in
      let* dropsAdded := drops_add dropsAdded initial in
      Ret (new_acct (u32 (cv_parentCloseTime v)) initial, dropsAdded)
    | Some sle =>
      match amt with
      | Some a =>
        let* sle := credit sle a in
        let* dropsAdded := drops_add dropsAdded a in
        Ret (sle, dropsAdded)
      | None => Ret (sle, dropsAdded)
      end
    end in
  Ret (<[id := set_governance (md_GovernanceFlags d) (md_GovernanceMarks d) sle]> accounts, dropsAdded).

Fixpoint mint_each (v : coin_view) (s : gmap Z acct * Z) (dests : list mint_dest) : outcome ter (gmap Z acct * Z) :=
  match dests with
  | [] => Ret s
  | d :: dests => let* s := mint_one v s d in mint_each v s dests
  end.

(** The check of the header, and the coins that are added to it. *)
Definition header_check (v : coin_view) (dropsAdded : Z) : outcome ter unit :=
  if dropsAdded <? 0 then Exit tecINTERNAL
  else
    let* total := drops_add dropsAdded (cv_drops v) in
    if total <? cv_drops v then Exit tecINTERNAL else Ret tt.

Definition add_coins (dropsAdded : Z) (v : coin_view) : coin_view :=
  if 0 <? dropsAdded then rawDestroyXRP (- dropsAdded) v else v.

(** The sum loop: what each account gets. Flags and marks are those of the first entry. *)
Definition mint_sum (s : gmap Z (Z * option Z * option Z) * Z) (d : mint_dest)
    : outcome ter (gmap Z (Z * option Z * option Z) * Z) :=
  let '(mints, dropsAdded) := s in
  let* amt := native_amount (md_Amount d) in
  let toCredit := default 0 amt in
  let id := default 0 (md_Destination d) in
  let* dropsAdded := drops_add dropsAdded toCredit in
  match mints !! id with
  | None => Ret (<[id := (toCredit, md_GovernanceFlags d, md_GovernanceMarks d)]> mints, dropsAdded)
  | Some (accTotal, f, m) =>
    let* sum := drops_add accTotal toCredit in
    if sum <? accTotal then Exit tecINTERNAL else Ret (<[id := (sum, f, m)]> mints, dropsAdded)
  end.

Fixpoint mint_sums (s : gmap Z (Z * option Z * option Z) * Z) (dests : list mint_dest)
    : outcome ter (gmap Z (Z * option Z * option Z) * Z) :=
  match dests with
  | [] => Ret s
  | d :: dests => let* s := mint_sum s d in mint_sums s dests
  end.

(** The action loop. *)
Definition mint_action (v : coin_view) (accounts : gmap Z acct) (mint : Z * (Z * option Z * option Z)) : outcome ter (gmap Z acct) :=
  let '(id, (amt, flags, marks)) := mint in
  let* sle :=
    match accounts !! id with
    | None => Ret (new_acct (u32 (cv_parentCloseTime v)) amt)
    | Some sle => if 0 <? amt then credit sle amt else Ret sle
    end in
  Ret (<[id := set_governance flags marks sle]> accounts).

Fixpoint mint_actions (v : coin_view) (accounts : gmap Z acct) (mints : list (Z * (Z * option Z * option Z)))
    : outcome ter (gmap Z acct) :=
  match mints with
  | [] => Ret accounts
  | mint :: mints => let* accounts := mint_action v accounts mint in mint_actions v accounts mints
  end.

Definition mint_doApply (r : reward_rules) (v : coin_view) (tx : mint_tx) : outcome ter coin_view :=
  if negb (rl_fixXahauV1 r) then
    let* '(accounts, dropsAdded) := mint_each v (cv_accounts v, 0) (mt_GenesisMints tx) in
    let* _ := header_check v dropsAdded in
    Ret (add_coins dropsAdded (set_cv_accounts accounts v))
  else
    let* '(mints, dropsAdded) := mint_sums (∅, 0) (mt_GenesisMints tx) in
    let* _ := header_check v dropsAdded in
    let* accounts := mint_actions v (cv_accounts v) (map_to_list mints) in
    Ret (add_coins dropsAdded (set_cv_accounts accounts v)).
