(* ===== verification/RewardFacts.v ===== *)
(** * Balance rewards: the accumulator and minting

    The effect of the loop over the metadata on one account, the accumulator as the
    sum of the balance over the ledgers that passed, and the conservation of coins by
    [GenesisMint]. *)

From S2P Require Import Prelude HookState Rewards.

(** ** The loop over the metadata *)

(** The account after a transaction that took it from [orig] to [cur]. *)
Definition rewarded (r : reward_rules) (lgrCur : Z) (orig cur : option acct) : option acct :=
  match orig, cur with
  | Some o, Some c =>
    if bool_decide (c = o) then Some c
    else if negb (rl_fix240819 r) then Some (accumulate r lgrCur (ac_Balance c) c)
    else if ac_Balance c =? ac_Balance o then Some c
    else Some (accumulate r lgrCur (ac_Balance o) c)
  | _, _ => cur
  end.

Lemma reward_node_other r lgrCur m n a :
  nd_LedgerIndex n <> Some a -> reward_node r lgrCur m n !! a = m !! a.
Proof.
  intros Hn. unfold reward_node. destruct (_ || _); [done|]. repeat case_match; try done.
  all: rewrite lookup_insert_ne; congruence.
Qed.

Lemma account_node_index id o c n : account_node id o c = Some n -> nd_LedgerIndex n = Some id.
Proof. unfold account_node. repeat case_match; naive_solver. Qed.

(** The node of an account has the effect of [rewarded] on it. *)
Lemma reward_node_same r lgrCur m id o n :
  account_node id o (m !! id) = Some n -> reward_node r lgrCur m n !! id = rewarded r lgrCur o (m !! id).
Proof.
  unfold account_node, rewarded. destruct o as [o|], (m !! id) as [c|] eqn:Ec; [|intros [= <-]; unfold reward_node; cbn; by destruct (rl_fix240819 r); rewrite ?Ec..|done].
  case_bool_decide as Hco; [done|]. generalize (existsb unmatched (zip (other_fields o) (other_fields c))). intros u [= <-].
  unfold reward_node. cbn [nd_account_root nd_type nd_PreviousFields nd_FinalFields nd_LedgerIndex negb orb].
  rewrite bool_decide_eq_false_2 by done. destruct (rl_fix240819 r); cbn [negb]; [|by rewrite Ec, lookup_insert_eq].
  destruct (ac_Balance c =? ac_Balance o); cbn [negb]; [by destruct u; rewrite ?Ec|by rewrite Ec, lookup_insert_eq].
Qed.

Lemma no_node_same r lgrCur id o c : account_node id o c = None -> rewarded r lgrCur o c = c.
Proof. unfold account_node, rewarded. repeat case_match; naive_solver. Qed.

Lemma reward_fold r lgrCur (orig cur : gmap Z acct) a ks : forall m : gmap Z acct,
  NoDup ks -> (a ∈ ks -> m !! a = cur !! a) ->
  foldl (reward_node r lgrCur) m (omap (fun id => account_node id (orig !! id) (cur !! id)) ks) !! a =
    if decide (a ∈ ks) then rewarded r lgrCur (orig !! a) (cur !! a) else m !! a.
Proof.
  induction ks as [|k ks IH]; intros m Hnd Hm; [done|]. apply NoDup_cons in Hnd as [Hk Hnd]. cbn [omap list_omap].
  set (m' := match account_node k (orig !! k) (cur !! k) with Some n => reward_node r lgrCur m n | None => m end).
  trans (foldl (reward_node r lgrCur) m' (omap (fun id => account_node id (orig !! id) (cur !! id)) ks) !! a).
  { unfold m'. by destruct (account_node k _ _). }
  destruct (decide (a = k)) as [->|Hne].
  - rewrite IH by done. rewrite decide_False by done. rewrite decide_True by set_solver.
    specialize (Hm ltac:(set_solver)). unfold m'. destruct (account_node k _ _) as [n|] eqn:En.
    + rewrite <- Hm in En |- *. by apply reward_node_same.
    + rewrite Hm. symmetry. by eapply no_node_same.
  - assert (m' !! a = m !! a) as Ha.
    { unfold m'. destruct (account_node k _ _) as [n|] eqn:En; [|done]. apply reward_node_other.
      rewrite (account_node_index _ _ _ _ En). congruence. }
    rewrite IH by (done || (intros; rewrite Ha; apply Hm; set_solver)). rewrite Ha.
    destruct (decide (a ∈ ks)); [by rewrite decide_True by set_solver|by rewrite decide_False by set_solver].
Qed.

Lemma update_rewards_lookup r orig v a :
  rl_featureBalanceRewards r = true ->
  cv_accounts (update_rewards r orig v) !! a = rewarded r (cv_seq v) (orig !! a) (cv_accounts v !! a).
Proof.
  intros Hf. unfold update_rewards. rewrite Hf. cbn [set_cv_accounts cv_accounts]. unfold affected_nodes.
  rewrite reward_fold by (done || apply NoDup_elements). case_decide as Hd; [done|].
  assert (cv_accounts v !! a = None) as ->.
  { apply not_elem_of_dom. intros ?. apply Hd. set_solver. }
  by destruct (orig !! a).
Qed.

(** ** The accumulator is the sum of the balance over the ledgers *)

(** The balance at the end of ledger [k], from the balance [b] at the start and the
    changes [evs], pairs of a ledger and the balance after the change. *)
Fixpoint balance_at (b : Z) (evs : list (Z * Z)) (k : Z) : Z :=
  match evs with
  | [] => b
  | (s, b') :: evs => balance_at (if s <=? k then b' else b) evs k
  end.

(** The sum of whole coins at the end of the ledgers from [first] to [cur - 1]. *)
Definition weighted (b : Z) (evs : list (Z * Z)) (first cur : Z) : Z :=
  foldr Z.add 0 (map (fun k => balance_at b evs k / 1000000) (seqZ first (cur - first))).

(** A transaction on an account: its ledger, the balance when the counters are updated,
    and the fee for weak hooks that is taken after that. *)
Record event := mkEvent { ev_seq : Z; ev_balance : Z; ev_fee : Z }.

(** The balance that it leaves. *)
Definition after (ev : event) : Z * Z := (ev_seq ev, ev_balance ev - ev_fee ev).

(** What account [a] pays of the charges. *)
Definition fee_charged (a : Z) (charges : list (Z * Z)) : Z :=
  foldr (fun c s => (if (c.1 =? a) && (0 <? c.2) then c.2 else 0) + s) 0 charges.

(** Transactions, in ledgers that do not go back: each takes the ledger from the one
    before it to one with the same reward counters of [a], the counters are updated,
    and then fees for weak hooks are charged. The list has the events of account [a]. *)
Inductive txs (r : reward_rules) (a : Z) : list event -> coin_view -> coin_view -> Prop :=
| txs_none v : txs r a [] v v
| txs_tx evs v v1 w x y charges :
    txs r a evs v v1 -> cv_seq v1 <= cv_seq w < 2 ^ 32 ->
    cv_accounts v1 !! a = Some x -> cv_accounts w !! a = Some y ->
    RewardLgrFirst y = RewardLgrFirst x -> RewardLgrLast y = RewardLgrLast x ->
    RewardAccumulator y = RewardAccumulator x ->
    txs r a (evs ++ [mkEvent (cv_seq w) (ac_Balance y) (fee_charged a charges)]) v
      (weak_fees (update_rewards r (cv_accounts v1) w) charges).

(** A fee that is taken after the counters are updated counts from the ledger in which
    the balance was last recorded, not from its own: that ledger, the balance, and the
    coins that are lost so, over the events of an account. *)
Definition lost_step (st : Z * Z * Z) (ev : event) : Z * Z * Z :=
  let '(last, b, sum) := st in
  let last := if ev_balance ev =? b then last else ev_seq ev in
  (last, ev_balance ev - ev_fee ev,
   sum + (ev_seq ev - last) * (ev_balance ev / 1000000 - (ev_balance ev - ev_fee ev) / 1000000)).
Definition losses (first b : Z) (evs : list event) : Z * Z * Z := foldl lost_step (first, b, 0) evs.
Definition lost (first b : Z) (evs : list event) : Z := (losses first b evs).2.

(** Nothing is lost without such fees. *)
Lemma lost_none first b evs : Forall (fun ev => ev_fee ev = 0) evs -> lost first b evs = 0.
Proof.
  intros H. assert (forall st, (foldl lost_step st evs).2 = st.2) as Hst; [|apply (Hst (first, b, 0))].
  induction H as [|ev evs He _ IH]; intros [[l b'] t]; [done|]. cbn [foldl]. rewrite IH. cbn [lost_step snd]. rewrite He, Z.sub_0_r. lia.
Qed.

Lemma fee_charged_nonneg a charges : 0 <= fee_charged a charges.
Proof. unfold fee_charged. induction charges as [|c charges IH]; [done|]. cbn [foldr]. destruct (c.1 =? a), (Z.ltb_spec 0 c.2); cbn [andb]; lia. Qed.

(** One charge, and all of them: the fee goes from the balance, the counters stay. *)
Lemma charge_tsh_lookup v b fee a x :
  cv_accounts v !! a = Some x ->
  cv_accounts (charge_tsh v (b, fee)) !! a = Some (set_ac_Balance (ac_Balance x - (if (b =? a) && (0 <? fee) then fee else 0)) x).
Proof.
  intros Hx. assert (Some x = Some (set_ac_Balance (ac_Balance x - 0) x)) as Hsame by (rewrite Z.sub_0_r; by destruct x).
  unfold charge_tsh. destruct (Z.eqb_spec b a) as [->|Hne]; cbn [andb].
  - rewrite Hx. destruct (0 <? fee); [|by rewrite Hx]. cbn. by rewrite lookup_insert_eq.
  - destruct (cv_accounts v !! b); [|by rewrite Hx]. destruct (0 <? fee); [|by rewrite Hx]. cbn. by rewrite lookup_insert_ne, Hx by done.
Qed.

Lemma weak_fees_lookup charges a : forall v x,
  cv_accounts v !! a = Some x ->
  cv_accounts (weak_fees v charges) !! a = Some (set_ac_Balance (ac_Balance x - fee_charged a charges) x).
Proof.
  unfold weak_fees, fee_charged. induction charges as [|[b fee] charges IH]; intros v x Hx; cbn [foldl foldr].
  { rewrite Hx, Z.sub_0_r. by destruct x. }
  rewrite (IH _ _ (charge_tsh_lookup v b fee a x Hx)). f_equal. unfold set_ac_Balance. cbn -[Z.sub]. f_equal. lia.
Qed.

Lemma weak_fees_seq charges v : cv_seq (weak_fees v charges) = cv_seq v.
Proof.
  unfold weak_fees. revert v. induction charges as [|[b fee] charges IH]; intros v; [done|]. cbn [foldl]. rewrite IH.
  unfold charge_tsh. destruct (cv_accounts v !! b); [|done]. by destruct (0 <? fee).
Qed.

Lemma balance_at_app b evs s b' k :
  balance_at b (evs ++ [(s, b')]) k = if s <=? k then b' else balance_at b evs k.
Proof. revert b. induction evs as [|[s0 b0] evs IH]; intros b; cbn; [done|apply IH]. Qed.

Lemma weighted_step b evs first cur :
  first <= cur -> weighted b evs first (cur + 1) = weighted b evs first cur + balance_at b evs cur / 1000000.
Proof.
  intros Hc. unfold weighted. replace (cur + 1 - first) with (cur - first + 1) by lia.
  rewrite seqZ_app by lia. rewrite map_app, foldr_app. replace (first + (cur - first)) with cur by lia.
  change (seqZ cur 1) with [0 + cur]. rewrite Z.add_0_l. cbn [map foldr]. rewrite Z.add_0_r.
  generalize (balance_at b evs cur / 1000000). intros x. induction (map _ _) as [|y l IH]; cbn [foldr]; lia.
Qed.

Lemma weighted_nil b evs first : weighted b evs first first = 0.
Proof. unfold weighted. by rewrite Z.sub_diag. Qed.

(** A change in ledger [s] counts from there on. *)
Lemma weighted_app b evs s b' first cur :
  first <= s <= cur ->
  weighted b (evs ++ [(s, b')]) first cur = weighted b evs first s + (cur - s) * (b' / 1000000).
Proof.
  intros H. replace cur with (s + Z.of_nat (Z.to_nat (cur - s))) by lia. generalize (Z.to_nat (cur - s)). intros n.
  induction n as [|n IH].
  - rewrite Z.add_0_r, Z.sub_diag, Z.mul_0_l, Z.add_0_r. unfold weighted. f_equal. apply map_ext_in.
    intros k Hk%list_elem_of_In%elem_of_seqZ. rewrite balance_at_app. by replace (s <=? k) with false by lia.
  - replace (s + Z.of_nat (S n)) with (s + Z.of_nat n + 1) by lia. rewrite weighted_step by lia. rewrite IH.
    rewrite balance_at_app. replace (s <=? s + Z.of_nat n) with true by lia. lia.
Qed.

Lemma weighted_nonneg b evs first cur : 0 <= b -> Forall (fun p => 0 <= p.2) evs -> 0 <= weighted b evs first cur.
Proof.
  intros Hb He. unfold weighted. assert (forall k, 0 <= balance_at b evs k) as H.
  { intros k. revert b Hb. induction He as [|[s b'] evs Hx _ IH]; intros b Hb; cbn; [done|]. apply IH. by destruct (s <=? k). }
  induction (seqZ first (cur - first)) as [|k l IH]; cbn; [done|]. specialize (H k).
  pose proof (Z.div_pos (balance_at b evs k) 1000000 H ltac:(lia)). lia.
Qed.

(** One addition without the old rules: nothing is lost unless the sum overflows. *)
Lemma accumulate_adds r lgrCur drops x first last accum :
  rl_fix240911 r = true -> RewardLgrFirst x = Some first -> RewardLgrLast x = Some last ->
  RewardAccumulator x = Some accum -> 1000000 <= drops < 2 ^ 63 -> 0 <= last <= lgrCur -> lgrCur < 2 ^ 32 ->
  0 <= accum -> accum + drops / 1000000 * (lgrCur - last) < 2 ^ 64 ->
  accumulate r lgrCur drops x =
    set_rewards (Some first) (Some lgrCur) (Some (accum + drops / 1000000 * (lgrCur - last))) (RewardTime x) x.
Proof.
  intros Hr Hf Hl Ha Hd Hc Hc32 Hac Hov. unfold accumulate. rewrite Hf, Hl, Ha, Hr. cbn [negb andb].
  rewrite Z.quot_div_nonneg by lia. assert (1 <= drops / 1000000) by (apply Z.div_le_lower_bound; lia).
  assert (drops / 1000000 < 2 ^ 63) by (apply Z.div_lt_upper_bound; lia).
  rewrite (u64_small (drops / 1000000)) by lia. replace (drops / 1000000 =? 0) with false by lia.
  rewrite u32_small by lia. replace (lgrCur <? lgrCur - last) with false by lia. cbn [orb].
  destruct (Z.eqb_spec (lgrCur - last) 0) as [E|E].
  - rewrite E, Z.mul_0_r, Z.add_0_r. replace lgrCur with last by lia. rewrite <- Hf, <- Hl, <- Ha. by destruct x.
  - rewrite (u64_small (_ * _)) by nia. rewrite u64_small by nia. replace (_ <? accum) with false by nia. done.
Qed.

Lemma weighted_mono b evs first c c' :
  0 <= b -> Forall (fun p => 0 <= p.2) evs -> first <= c <= c' -> weighted b evs first c <= weighted b evs first c'.
Proof.
  intros Hb He H. replace c' with (c + Z.of_nat (Z.to_nat (c' - c))) by lia. generalize (Z.to_nat (c' - c)). intros n.
  induction n as [|n IH]; [by rewrite Z.add_0_r|]. replace (c + Z.of_nat (S n)) with (c + Z.of_nat n + 1) by lia.
  rewrite weighted_step by lia. assert (0 <= balance_at b evs (c + Z.of_nat n)) as Hk.
  { clear IH. revert b Hb. induction He as [|[s b'] evs Hx _ IH]; intros b Hb; cbn; [done|]. apply IH. by destruct (s <=? _). }
  pose proof (Z.div_pos _ 1000000 Hk ltac:(lia)). lia.
Qed.

(** The counters of an account that has claimed in ledger [first] with balance [b0]
    and had the events [evs] since. *)
Definition counters (b0 : Z) (evs : list event) (first now : Z) (x : acct) : Prop :=
  exists last accum,
    RewardLgrFirst x = Some first /\ RewardLgrLast x = Some last /\ RewardAccumulator x = Some accum /\
    first <= last <= now /\ 0 <= accum /\ 1000000 <= ac_Balance x < 2 ^ 63 /\
    (losses first b0 evs).1 = (last, ac_Balance x) /\ 0 <= lost first b0 evs /\
    forall cur, now <= cur -> accum + ac_Balance x / 1000000 * (cur - last) = weighted b0 (map after evs) first cur - lost first b0 evs.

(** The counters when a transaction has been recorded, before its late fee. *)
Lemma recorded_step r b0 evs first now s x y z :
  rl_fix240819 r = true -> rl_fix240911 r = true -> 0 <= first -> now <= s < 2 ^ 32 ->
  weighted b0 (map after evs) first s < 2 ^ 64 ->
  RewardLgrFirst y = RewardLgrFirst x -> RewardLgrLast y = RewardLgrLast x -> RewardAccumulator y = RewardAccumulator x ->
  counters b0 evs first now x -> rewarded r s (Some x) (Some y) = Some z ->
  exists last accum,
    RewardLgrFirst z = Some first /\ RewardLgrLast z = Some last /\ RewardAccumulator z = Some accum /\
    first <= last <= s /\ 0 <= accum /\ ac_Balance z = ac_Balance y /\
    last = (if ac_Balance y =? ac_Balance x then (losses first b0 evs).1.1 else s) /\
    accum + ac_Balance y / 1000000 * (s - last) = weighted b0 (map after evs) first s - lost first b0 evs.
Proof.
  intros H1 H2 H0 Hs Hw Ef El Ea (last & accum & Hf & Hl & Ha & Hn & Hpos & Hb & Hst & Hlost & Heq) Hz. unfold rewarded in Hz. rewrite H1 in Hz.
  pose proof (Heq s ltac:(lia)) as Hsum. rewrite Hst. cbn [fst]. destruct (decide (ac_Balance y = ac_Balance x)) as [Eb|Nb].
  - assert (z = y) as ->.
    { case_bool_decide; [congruence|]. cbn [negb] in Hz. rewrite Eb, Z.eqb_refl in Hz. congruence. }
    exists last, accum. rewrite Ef, El, Ea, Eb, Z.eqb_refl. split_and!; try done; lia.
  - rewrite bool_decide_eq_false_2 in Hz by congruence. cbn [negb] in Hz. rewrite (proj2 (Z.eqb_neq _ _) Nb) in Hz |- *.
    rewrite (accumulate_adds r s (ac_Balance x) y first last accum) in Hz by (congruence || lia).
    injection Hz as <-. exists s, (accum + ac_Balance x / 1000000 * (s - last)).
    pose proof (Z.div_pos (ac_Balance x) 1000000 ltac:(lia) ltac:(lia)).
    split_and!; try done; [lia|nia|]. rewrite Z.sub_diag, Z.mul_0_r. lia.
Qed.

(** A transaction and its late fee keep the counters. *)
Lemma counters_step r b0 evs first now s x y z fee :
  rl_fix240819 r = true -> rl_fix240911 r = true -> 0 <= first -> now <= s < 2 ^ 32 -> 0 <= fee ->
  1000000 <= ac_Balance y - fee -> ac_Balance y < 2 ^ 63 -> weighted b0 (map after evs) first s < 2 ^ 64 ->
  RewardLgrFirst y = RewardLgrFirst x -> RewardLgrLast y = RewardLgrLast x -> RewardAccumulator y = RewardAccumulator x ->
  counters b0 evs first now x -> rewarded r s (Some x) (Some y) = Some z ->
  counters b0 (evs ++ [mkEvent s (ac_Balance y) fee]) first s (set_ac_Balance (ac_Balance z - fee) z).
Proof.
  intros H1 H2 H0 Hs Hfee Hy1 Hy2 Hw Ef El Ea Hc Hz. pose proof Hc as (last0 & accum0 & _ & _ & _ & Hn0 & _ & _ & Hst & Hlost & _).
  destruct (recorded_step r b0 evs first now s x y z H1 H2 H0 Hs Hw Ef El Ea Hc Hz) as (last & accum & Hf & Hl & Ha & Hn & Hpos & Hb & Elast & Hsum).
  set (c1 := ac_Balance y / 1000000) in *. set (c2 := (ac_Balance y - fee) / 1000000).
  assert (c2 <= c1) as Hc21 by (apply Z.div_le_mono; lia).
  assert (losses first b0 (evs ++ [mkEvent s (ac_Balance y) fee]) = (last, ac_Balance y - fee, lost first b0 evs + (s - last) * (c1 - c2))) as Hls.
  { unfold losses. rewrite foldl_app. fold (losses first b0 evs). cbn [foldl]. unfold lost. destruct (losses first b0 evs) as [[l b] t] eqn:E.
    cbn [fst] in Hst, Elast. injection Hst as -> ->. cbn [lost_step ev_balance ev_fee ev_seq snd]. by rewrite <- Elast. }
  exists last, accum. unfold lost at 1 2. rewrite Hls. cbn [set_ac_Balance RewardLgrFirst RewardLgrLast RewardAccumulator ac_Balance fst snd]. rewrite Hb.
  split_and!; try done; try lia; [nia|]. intros cur Hcur. rewrite map_app. change (map after [mkEvent s (ac_Balance y) fee]) with [(s, ac_Balance y - fee)].
  rewrite weighted_app by lia. fold c2. nia.
Qed.

Lemma txs_seq r a evs v v' : txs r a evs v v' -> cv_seq v <= cv_seq v'.
Proof.
  induction 1 as [|evs v v1 w x y charges _ IH Hs _ _ _ _ _]; [done|]. rewrite weak_fees_seq. unfold update_rewards. destruct (rl_featureBalanceRewards r); cbn; lia.
Qed.

Lemma txs_counters r a evs v v' x0 :
  rl_featureBalanceRewards r = true -> rl_fix240819 r = true -> rl_fix240911 r = true ->
  txs r a evs v v' -> cv_accounts v !! a = Some x0 -> counters (ac_Balance x0) [] (cv_seq v) (cv_seq v) x0 -> 0 <= cv_seq v ->
  Forall (fun ev => 1000000 <= ev_balance ev - ev_fee ev /\ ev_balance ev < 2 ^ 63) evs ->
  weighted (ac_Balance x0) (map after evs) (cv_seq v) (cv_seq v') < 2 ^ 64 ->
  exists x, cv_accounts v' !! a = Some x /\ counters (ac_Balance x0) evs (cv_seq v) (cv_seq v') x.
Proof.
  intros Hr H1 H2 Ht Hx0 Hc0 H0. induction Ht as [v|evs v v1 w x y charges Ht IH Hs Hx Hy Ef El Ea]; intros Hall Hw; [by exists x0|].
  assert (cv_seq (weak_fees (update_rewards r (cv_accounts v1) w) charges) = cv_seq w) as Hseq
    by (rewrite weak_fees_seq; unfold update_rewards; by rewrite Hr).
  rewrite Hseq in *. apply Forall_app in Hall as [Hall [[Hy1 Hy2] _]%Forall_cons]. cbn [ev_balance ev_fee] in Hy1, Hy2. pose proof (txs_seq _ _ _ _ _ Ht).
  pose proof Hc0 as (l0 & a0 & _ & _ & _ & _ & _ & Hb0 & _).
  assert (Forall (fun p : Z * Z => 0 <= p.2) (map after evs)) as Hnn by (apply Forall_map; eapply Forall_impl; [exact Hall|cbn; lia]).
  rewrite map_app in Hw. cbn [map] in Hw. unfold after at 2 in Hw. cbn [ev_seq ev_balance ev_fee] in Hw.
  rewrite weighted_app in Hw by lia. rewrite Z.sub_diag, Z.mul_0_l, Z.add_0_r in Hw.
  destruct IH as (x' & Hx' & Hcx); [done..| |].
  { pose proof (weighted_mono (ac_Balance x0) (map after evs) (cv_seq v) (cv_seq v1) (cv_seq w) ltac:(lia) Hnn ltac:(lia)). lia. }
  rewrite Hx in Hx'. injection Hx' as <-.
  destruct (rewarded r (cv_seq w) (Some x) (Some y)) as [z|] eqn:Hz.
  - exists (set_ac_Balance (ac_Balance z - fee_charged a charges) z). split.
    + apply weak_fees_lookup. by rewrite update_rewards_lookup, Hx, Hy by done.
    + eapply counters_step; try done. apply fee_charged_nonneg.
  - exfalso. revert Hz. unfold rewarded. repeat case_match; done.
Qed.
