(* ===== verification/MintFacts.v ===== *)
(** * GenesisMint: coins are conserved

    Sums over the account roots, the two versions of [GenesisMint::doApply], and the
    amount that each account gets. *)

From S2P Require Import Prelude HookState Rewards.

(** ** Sums over maps *)

Definition map_sum {A : Type} (f : A -> Z) (m : gmap Z A) : Z := map_fold (fun _ x s => f x + s) 0 m.

Lemma map_sum_new {A : Type} (f : A -> Z) (m : gmap Z A) k x : m !! k = None -> map_sum f (<[k := x]> m) = f x + map_sum f m.
Proof. intros Hk. unfold map_sum. rewrite map_fold_insert_L; [done| |done]. intros. lia. Qed.

Lemma map_sum_insert {A : Type} (f : A -> Z) (m : gmap Z A) k x :
  map_sum f (<[k := x]> m) = map_sum f m + f x - match m !! k with Some y => f y | None => 0 end.
Proof.
  destruct (m !! k) as [y|] eqn:Hk; [|rewrite map_sum_new by done; lia].
  rewrite <- (insert_id m k y Hk) at 2. rewrite <- !(insert_delete_eq m k), !map_sum_new by apply lookup_delete_eq. lia.
Qed.

Lemma map_sum_list {A : Type} (f : A -> Z) (m : gmap Z A) : map_sum f m = foldr (fun p s => f p.2 + s) 0 (map_to_list m).
Proof. unfold map_sum. rewrite map_fold_foldr. induction (map_to_list m) as [|[k x] l IH]; cbn; [done|]. by rewrite IH. Qed.

(** All coins of the accounts. *)
Definition coins (m : gmap Z acct) : Z := map_sum ac_Balance m.

(** ** The entries *)

Definition amount (d : mint_dest) : Z := match md_Amount d with Some (Drops x) => x | _ => 0 end.
Definition dest (d : mint_dest) : Z := default 0 (md_Destination d).
Definition minted (ds : list mint_dest) : Z := foldr (fun d s => amount d + s) 0 ds.
Definition given_to (id : Z) (ds : list mint_dest) : Z := minted (filter (fun d => dest d = id) ds).

Lemma dest_ok_amount d : dest_ok d = true -> 0 <= amount d <= 10 ^ 13 /\ md_Amount d <> Some Issued.
Proof.
  unfold dest_ok, amount. intros [_ H]%andb_true_iff. destruct (md_Destination d); [|done].
  apply andb_true_iff in H as [[_ H]%andb_true_iff _]. destruct (md_Amount d) as [[x|]|]; [|done|by split; [lia|]].
  split; [lia|done].
Qed.

Lemma dests_ok_each dup seen ds : dests_ok dup seen ds = true -> Forall (fun d => dest_ok d = true) ds.
Proof.
  revert seen. induction ds as [|d ds IH]; intros seen; [by constructor|]. cbn. intros [Hd H]%andb_true_iff. constructor; [done|].
  destruct dup; [by eapply IH|]. apply andb_true_iff in H as [_ H]. by eapply IH.
Qed.

Lemma native_ok d : md_Amount d <> Some Issued ->
  exists amt, native_amount (md_Amount d) = Ret amt /\ default 0 amt = amount d /\ (amt = None <-> md_Amount d = None).
Proof. unfold native_amount, amount. destruct (md_Amount d) as [[x|]|]; naive_solver. Qed.

Lemma minted_range ds : Forall (fun d => dest_ok d = true) ds -> 0 <= minted ds <= lenZ ds * 10 ^ 13.
Proof.
  induction 1 as [|d ds Hd _ IH]; [done|]. apply dest_ok_amount in Hd as [Hd _]. unfold minted in *. cbn. unfold lenZ in *. cbn [length]. lia.
Qed.

Lemma drops_add_ret {E} a b : - 2 ^ 63 <= a + b < 2 ^ 63 -> drops_add (E := E) a b = Ret (a + b).
Proof. intros. unfold drops_add. by replace (_ && _) with true by lia. Qed.

Lemma drops_add_inv {E} a b c : drops_add (E := E) a b = Ret c -> c = a + b.
Proof. unfold drops_add. destruct (_ && _); congruence. Qed.

Lemma set_governance_balance f g a : ac_Balance (set_governance f g a) = ac_Balance a.
Proof. done. Qed.

Lemma credit_balance sle amt sle' : credit sle amt = Ret sle' -> ac_Balance sle' = ac_Balance sle + amt.
Proof.
  unfold credit. intros (b & ->%drops_add_inv & H)%obind_ret. destruct (_ <=? _); [done|]. by injection H as <-.
Qed.

(** ** Before [fixXahauV1] *)

Lemma mint_one_coins v s d s' : mint_one v s d = Ret s' -> coins s'.1 - s'.2 = coins s.1 - s.2.
Proof.
  destruct s as [m added]. unfold mint_one. intros (amt & _ & ([sle added'] & H & [= <-])%obind_ret)%obind_ret. cbn [fst snd].
  unfold coins. rewrite map_sum_insert, set_governance_balance. fold (dest d) in *. destruct (m !! dest d) as [x|].
  - destruct amt as [a|]; [|injection H as -> ->; lia].
    apply obind_ret in H as (y & Hy%credit_balance & (z & Hz%drops_add_inv & [= -> ->])%obind_ret). lia.
  - apply obind_ret in H as (z & Hz%drops_add_inv & [= <- ->]). cbn. lia.
Qed.

Lemma mint_each_coins v ds : forall s s', mint_each v s ds = Ret s' -> coins s'.1 - s'.2 = coins s.1 - s.2.
Proof.
  induction ds as [|d ds IH]; intros s s'; cbn; [by intros [= ->]|]. intros (s1 & H1%mint_one_coins & H2%IH)%obind_ret. lia.
Qed.

(** ** Since [fixXahauV1] *)

Lemma mint_sum_sum s d s' :
  mint_sum s d = Ret s' -> map_sum (fun p => p.1.1) s'.1 - s'.2 = map_sum (fun p => p.1.1) s.1 - s.2.
Proof.
  destruct s as [m added]. unfold mint_sum.
  intros (amt & _ & (added' & ->%drops_add_inv & H)%obind_ret)%obind_ret. fold (dest d) in *. destruct (m !! dest d) as [[[t f] g]|] eqn:Hm.
  - apply obind_ret in H as (y & ->%drops_add_inv & H). destruct (_ <? _); [done|]. injection H as <-. cbn [fst snd].
    rewrite map_sum_insert, Hm. cbn. lia.
  - injection H as <-. cbn [fst snd]. rewrite map_sum_insert, Hm. cbn. lia.
Qed.

Lemma mint_sums_sum ds : forall s s',
  mint_sums s ds = Ret s' -> map_sum (fun p => p.1.1) s'.1 - s'.2 = map_sum (fun p => p.1.1) s.1 - s.2.
Proof.
  induction ds as [|d ds IH]; intros s s'; cbn; [by intros [= ->]|]. intros (s1 & H1%mint_sum_sum & H2%IH)%obind_ret. lia.
Qed.

(** What the sum loop records for an account. *)
Definition mint_upd (o : option (Z * option Z * option Z)) (d : mint_dest) : option (Z * option Z * option Z) :=
  match o with
  | None => Some (amount d, md_GovernanceFlags d, md_GovernanceMarks d)
  | Some (t, f, g) => Some (t + amount d, f, g)
  end.

Definition sums_ok (m : gmap Z (Z * option Z * option Z)) (added : Z) : Prop :=
  0 <= added /\ forall id p, m !! id = Some p -> 0 <= p.1.1 <= added.

Lemma mint_sum_run m added d :
  dest_ok d = true -> sums_ok m added -> added + amount d < 2 ^ 62 ->
  exists p, mint_upd (m !! dest d) d = Some p /\
    mint_sum (m, added) d = Ret (<[dest d := p]> m, added + amount d) /\ sums_ok (<[dest d := p]> m) (added + amount d).
Proof.
  intros [Ha Hi]%dest_ok_amount [H0 Hm] Hb. destruct (native_ok d Hi) as (amt & Hn & Hd & _).
  assert (forall p, 0 <= p.1.1 <= added + amount d -> sums_ok (<[dest d := p]> m) (added + amount d)) as Hok.
  { intros p Hp. split; [lia|]. intros id q [[_ <-]|[_ H]]%lookup_insert_Some; [done|]. specialize (Hm _ _ H). lia. }
  unfold mint_sum. rewrite Hn. cbn [obind]. rewrite Hd. fold (dest d). rewrite drops_add_ret by lia. cbn [obind].
  destruct (m !! dest d) as [[[t f] g]|] eqn:E; cbn [mint_upd].
  - specialize (Hm _ _ E). cbn in Hm. rewrite drops_add_ret by lia. cbn [obind]. replace (_ <? t) with false by lia.
    eexists. split; [done|]. split; [done|]. apply Hok. cbn. lia.
  - eexists. split; [done|]. split; [done|]. apply Hok. cbn. lia.
Qed.

Lemma mint_sums_run ds : forall m added,
  Forall (fun d => dest_ok d = true) ds -> sums_ok m added -> added + minted ds < 2 ^ 62 ->
  exists m', mint_sums (m, added) ds = Ret (m', added + minted ds) /\ sums_ok m' (added + minted ds) /\
    forall id, m' !! id = foldl mint_upd (m !! id) (filter (fun d => dest d = id) ds).
Proof.
  induction ds as [|d ds IH]; intros m added Hds Hm Hb.
  { exists m. unfold minted. cbn. rewrite Z.add_0_r. done. }
  apply Forall_cons in Hds as [Hd Hds]. pose proof (minted_range ds Hds). change (minted (d :: ds)) with (amount d + minted ds) in *.
  destruct (mint_sum_run m added d Hd Hm ltac:(lia)) as (p & Hp & Hs & Hok).
  destruct (IH (<[dest d := p]> m) (added + amount d) Hds Hok ltac:(lia)) as (m' & Hm' & Hok' & Hl).
  exists m'. cbn [mint_sums]. rewrite Hs. cbn [obind]. rewrite Hm', Z.add_assoc. split_and!; [done|done|].
  intros id. rewrite Hl, filter_cons. destruct (decide (dest d = id)) as [<-|Hne].
  - by rewrite lookup_insert_eq, <- Hp.
  - by rewrite lookup_insert_ne.
Qed.

Lemma mint_upd_sum ds t f g : foldl mint_upd (Some (t, f, g)) ds = Some (t + minted ds, f, g).
Proof. revert t. induction ds as [|d ds IH]; intros t; cbn; [by rewrite Z.add_0_r|]. rewrite IH. change (minted (d :: ds)) with (amount d + minted ds). by rewrite Z.add_assoc. Qed.

(** The action on an account. *)
Definition mint_result (v : coin_view) (old : option acct) (p : Z * option Z * option Z) : acct :=
  set_governance p.1.2 p.2
    match old with
    | Some sle => set_ac_Balance (ac_Balance sle + p.1.1) sle
    | None => new_acct (u32 (cv_parentCloseTime v)) p.1.1
    end.

Definition balances_ok (m : gmap Z acct) : Prop := forall id x, m !! id = Some x -> 0 <= ac_Balance x < 2 ^ 62.

Lemma mint_action_run v m id p :
  (forall x, m !! id = Some x -> 0 <= ac_Balance x < 2 ^ 62) -> 0 <= p.1.1 < 2 ^ 62 ->
  mint_action v m (id, p) = Ret (<[id := mint_result v (m !! id) p]> m).
Proof.
  destruct p as [[amt f] g]. cbn [fst snd]. intros Hm Ha. unfold mint_action, mint_result. destruct (m !! id) as [x|]; [|done]. specialize (Hm x eq_refl).
  destruct (Z.ltb_spec 0 amt).
  - unfold credit. rewrite drops_add_ret by lia. cbn [obind]. by replace (_ <=? ac_Balance x) with false by lia.
  - replace amt with 0 by lia. cbn. rewrite Z.add_0_r. by destruct x.
Qed.

Lemma mint_actions_run v l : forall m,
  NoDup l.*1 -> (forall id x, id ∈ l.*1 -> m !! id = Some x -> 0 <= ac_Balance x < 2 ^ 62) ->
  Forall (fun q => 0 <= q.2.1.1 < 2 ^ 62) l ->
  exists m', mint_actions v m l = Ret m' /\
    (forall id p, (id, p) ∈ l -> m' !! id = Some (mint_result v (m !! id) p)) /\
    (forall id, id ∉ l.*1 -> m' !! id = m !! id) /\
    coins m' = coins m + foldr (fun q s => q.2.1.1 + s) 0 l.
Proof.
  induction l as [|[k p] l IH]; intros m Hnd Hm Hl.
  { exists m. cbn. split_and!; [done|set_solver|done|lia]. }
  cbn in Hnd. apply NoDup_cons in Hnd as [Hk Hnd]. apply Forall_cons in Hl as [Hp Hl]. cbn in Hp.
  destruct (IH (<[k := mint_result v (m !! k) p]> m)) as (m' & H1 & H2 & H3 & H4); [done| |done|].
  { intros id x Hid. rewrite lookup_insert_ne by (intros ->; done). apply Hm. cbn. set_solver. }
  exists m'. cbn [mint_actions]. rewrite mint_action_run by (done || (intros x Hx; apply (Hm k x); [cbn; set_solver|done])). cbn [obind].
  split_and!; [done| | |].
  - intros id q [[= -> ->]|Hq]%elem_of_cons; [by rewrite H3, lookup_insert_eq|]. rewrite (H2 _ _ Hq), lookup_insert_ne; [done|].
    intros ->. apply Hk, list_elem_of_fmap. by exists (id, q).
  - intros id [Hne Hn]%not_elem_of_cons. cbn in Hne. by rewrite H3, lookup_insert_ne.
  - rewrite H4. cbn [foldr snd]. unfold coins. rewrite map_sum_insert. unfold mint_result. rewrite set_governance_balance.
    destruct (m !! k); cbn; lia.
Qed.

(** ** The transaction *)

(** The account [id] after the entries [ds]. *)
Definition minted_acct (v : coin_view) (ds : list mint_dest) (id : Z) : option acct :=
  match filter (fun d => dest d = id) ds with
  | [] => cv_accounts v !! id
  | d :: _ => Some (mint_result v (cv_accounts v !! id) (given_to id ds, md_GovernanceFlags d, md_GovernanceMarks d))
  end.

Lemma header_check_run v added : 0 <= added -> 0 <= cv_drops v -> added + cv_drops v < 2 ^ 63 -> header_check v added = Ret tt.
Proof.
  intros. unfold header_check. replace (added <? 0) with false by lia. rewrite drops_add_ret by lia. cbn [obind].
  by replace (_ <? cv_drops v) with false by lia.
Qed.

Lemma header_check_inv v added u : header_check v added = Ret u -> 0 <= added.
Proof. unfold header_check. by destruct (Z.ltb_spec added 0). Qed.

Lemma add_coins_fields added v : 0 <= added ->
  cv_drops (add_coins added v) = cv_drops v + added /\ cv_accounts (add_coins added v) = cv_accounts v.
Proof. intros. unfold add_coins. destruct (Z.ltb_spec 0 added); cbn; split; (done || lia). Qed.

(** Since [fixXahauV1] every transaction that [preflight] accepts succeeds. *)
Lemma mint_doApply_exact r v tx :
  rl_fixXahauV1 r = true -> Forall (fun d => dest_ok d = true) (mt_GenesisMints tx) -> lenZ (mt_GenesisMints tx) <= 512 ->
  balances_ok (cv_accounts v) -> 0 <= cv_drops v < 2 ^ 62 ->
  exists v', mint_doApply r v tx = Ret v' /\
    (forall id, cv_accounts v' !! id = minted_acct v (mt_GenesisMints tx) id) /\
    cv_drops v' = cv_drops v + minted (mt_GenesisMints tx) /\
    coins (cv_accounts v') = coins (cv_accounts v) + minted (mt_GenesisMints tx).
Proof.
  intros Hr Hds Hlen Hb Hdr. set (ds := mt_GenesisMints tx) in *. pose proof (minted_range ds Hds).
  assert (minted ds < 2 ^ 62) as Hlt by (assert (lenZ ds * 10 ^ 13 <= 512 * 10 ^ 13) by lia; lia).
  destruct (mint_sums_run ds ∅ 0 Hds) as (m & Hm & [_ Hok] & Hl); [split; [lia|]; intros id p; by rewrite lookup_empty|lia|].
  rewrite Z.add_0_l in *. destruct (mint_actions_run v (map_to_list m) (cv_accounts v)) as (accs & Ha & Hin & Hout & Hc).
  { apply NoDup_fst_map_to_list. } { intros id x _. apply Hb. }
  { apply Forall_forall. intros [id p] Hp%elem_of_map_to_list. specialize (Hok _ _ Hp). cbn. lia. }
  exists (add_coins (minted ds) (set_cv_accounts accs v)). unfold mint_doApply. rewrite Hr. cbn [negb]. fold ds. rewrite Hm. cbn [obind].
  rewrite header_check_run by lia. cbn [obind]. rewrite Ha. cbn [obind].
  destruct (add_coins_fields (minted ds) (set_cv_accounts accs v) ltac:(lia)) as [-> ->]. cbn [set_cv_accounts cv_accounts cv_drops].
  split_and!; [done| |done|].
  - intros id. specialize (Hl id). rewrite lookup_empty in Hl. unfold minted_acct, given_to. destruct (filter _ ds) as [|d l] eqn:Ef.
    + apply Hout. cbn in Hl. intros ([k p] & E & Hp%elem_of_map_to_list)%list_elem_of_fmap. cbn in E. subst. congruence.
    + cbn in Hl. rewrite mint_upd_sum in Hl. apply Hin. by apply elem_of_map_to_list.
  - rewrite Hc. f_equal. pose proof (mint_sums_sum ds _ _ Hm) as Hs. cbn [fst snd] in Hs. rewrite (map_sum_list (fun p => p.1.1) m) in Hs.
    change (map_sum (fun p : Z * option Z * option Z => p.1.1) ∅) with 0 in Hs. lia.
Qed.

(** Both versions create exactly the coins they add to the header. *)
Lemma mint_doApply_conserves r v tx v' :
  Forall (fun d => dest_ok d = true) (mt_GenesisMints tx) -> lenZ (mt_GenesisMints tx) <= 512 ->
  balances_ok (cv_accounts v) -> 0 <= cv_drops v < 2 ^ 62 -> mint_doApply r v tx = Ret v' ->
  coins (cv_accounts v') - coins (cv_accounts v) = cv_drops v' - cv_drops v.
Proof.
  intros Hds Hlen Hb Hdr Hrun. destruct (rl_fixXahauV1 r) eqn:Hr.
  - destruct (mint_doApply_exact r v tx) as (v2 & H2 & _ & H3 & H4); try done. rewrite H2 in Hrun. injection Hrun as <-. lia.
  - unfold mint_doApply in Hrun. rewrite Hr in Hrun. cbn [negb] in Hrun.
    apply obind_ret in Hrun as ([m added] & Hm%mint_each_coins & (u & H0%header_check_inv & [= <-])%obind_ret).
    destruct (add_coins_fields added (set_cv_accounts m v) H0) as [-> ->]. cbn in *. lia.
Qed.
