(* ===== verification/RewardHook.v ===== *)
(** * The reward hook (src/hook/genesis/reward.c)

    The hook of the genesis account that pays rewards. It runs before a ClaimReward
    that names the account as issuer: it computes the reward from the counters of
    the claimant and emits a GenesisMint for the claimant and for the active
    validators at the governance table. What it asks of its surroundings are the
    fields of [reward_env]; the governance state is the map of [Govern]. The text of
    messages and traces are left out. *)

From S2P Require Import Prelude HookEnum HookMemory HookState Xfl Number IOUAmount XflApi Emission Govern Rewards.

Definition DEFAULT_REWARD_DELAY : Z := 6199553087261802496.
Definition DEFAULT_REWARD_RATE : Z := 6038156834009797973.
Definition L1SEATS : Z := 20.
Definition MAXUNL : Z := 128.

(** ** Surroundings *)

(** [re_unl] are the bytes of the active validators in the UNL report and their
    number, [None] when there is no report; [re_details] is what [etxn_details]
    writes; [re_can_reward] is the memory of the local array before it is written;
    [re_log10], [re_sw], [re_mode] and [re_hasFix] are those of the float functions. *)
Record reward_env := mkReward {
  re_otxn_type : Z;
  re_otxn_acc : list Z;
  re_hook_acc : list Z;
  re_state : gov_state;
  re_root : option acct;
  re_fee : Z;
  re_ledger_seq : Z;
  re_ledger_last_time : Z;
  re_unl : option (list Z * Z);
  re_details : list Z;
  re_fee_base : list Z -> Z;
  re_emit : list Z -> Z;
  re_can_reward : list Z;
  re_log10 : Z -> Z;
  re_sw : bool;
  re_mode : rounding_mode;
  re_hasFix : bool
}.

(** How a run ends: the transaction it emits, if any. *)
Inductive reward_end :=
| RAccept (txn : option (list Z))
| RRollback.

Definition reward_assert (b : bool) : outcome reward_end unit := if b then Ret tt else Exit RRollback.

Definition of_compare (o : outcome unit Z) : outcome reward_end Z :=
  match o with
  | Ret c => Ret c
  | Exit _ => Exit RRollback
  | Throw x => Throw x
  | Undef u => Undef u
  | Timeout => Timeout
  end.

(** ** The rate and the delay *)

(** An [int64_t] in memory, in little-endian order. *)
Fixpoint le_value (bs : list Z) : Z := match bs with [] => 0 | b :: bs => b + 256 * le_value bs end.
Fixpoint le_bytes (n : nat) (x : Z) : list Z :=
  match n with O => [] | S n => x mod 256 :: le_bytes n (x / 256) end.

(** [int64_t x = dflt; state(&x, 8, key)] *)
Definition state_xfl (e : reward_env) (key : list Z) (dflt : Z) : Z :=
  s64 (le_value (hook_state_read (re_state e) key (le_bytes 8 dflt) 0 8).2).

(** The rate and the delay in seconds. *)
Definition reward_config (e : reward_env) : outcome reward_end (Z * Z) :=
  let xfl_rr := state_xfl e [ch_R; ch_R] DEFAULT_REWARD_RATE in
  let xfl_rd := state_xfl e [ch_R; ch_D] DEFAULT_REWARD_DELAY in
  if (xfl_rr <=? 0) || (xfl_rd <=? 0) then Exit RRollback
  else
    let required_delay := float_int xfl_rd 0 0 in
    let* gt := of_compare (float_compare (re_sw e) (re_mode e) xfl_rr float_one GREATER) in
    let* lt := of_compare (float_compare (re_sw e) (re_mode e) xfl_rd float_one LESS) in
    if (required_delay <? 0) || negb (float_sign xfl_rr =? 0) || negb (gt =? 0) || negb (lt =? 0) then Exit RRollback
    else Ret (xfl_rr, required_delay).

(** ** The amounts *)

(** [slot(0, 0, n)] for a field of [w] bytes. *)
Definition slot_int (w : nat) (field : option Z) : Z :=
  match field with Some x => data_as_int64 (be_bytes w x) | None => DOESNT_EXIST end.

(** The serialized native amount. *)
Definition native_bits (drops : Z) : Z := 2 ^ 62 + drops.

(** The accumulator with the ledgers since its last update, and the ledgers since
    the claim. *)
Definition reward_counters (e : reward_env) (root : acct) : outcome reward_end (Z * Z) :=
  let accumulator := slot_int 8 (RewardAccumulator root) in
  let first := slot_int 4 (RewardLgrFirst root) in
  let last := slot_int 4 (RewardLgrLast root) in
  let bal := slot_int 8 (Some (native_bits (ac_Balance root))) in
  let* _ := reward_assert ((0 <? first) && (0 <? last)) in
  let cur := re_ledger_seq e in
  let elapsed := cur - first in
  let* _ := reward_assert (0 <? elapsed) in
  let elapsed_since_last := re_ledger_seq e - last in
  let bal := Z.quot (s64 (Z.land (u64 bal) (Z.lnot 0xE000000000000000))) 1000000 in
  let* accumulator :=
    if (0 <? bal) && (0 <? elapsed_since_last) then
      let* p := drops_add 0 (bal * elapsed_since_last) in drops_add accumulator p
    else Ret accumulator in
  Ret (accumulator, elapsed).

(** The reward in drops, without the fee. *)
Definition reward_drops (e : reward_env) (xfl_rr accumulator elapsed : Z) : outcome reward_end Z :=
  let xfl_accum := float_set (re_log10 e) 0 accumulator in
  let* _ := reward_assert (0 <? xfl_accum) in
  let xfl_elapsed := float_set (re_log10 e) 0 elapsed in
  let* _ := reward_assert (0 <? xfl_elapsed) in
  match float_divide (re_log10 e) (re_hasFix e) xfl_accum xfl_elapsed with
  | None => Timeout
  | Some xfl_reward => Ret (u64 (float_int (float_multiply (re_log10 e) xfl_rr xfl_reward) 6 1))
  end.

(** [slot_float] of the fee of the transaction. *)
Definition fee_xfl (e : reward_env) : Z :=
  let normalized := (normalize_xfl (re_log10 e) true (re_fee e) (-6) false).1.1 in
  if normalized =? EXPONENT_UNDERSIZED then 0 else normalized.

(** The claimant gets the fee back. *)
Definition with_fee (e : reward_env) (drops : Z) : Z :=
  let xfl_fee := fee_xfl e in
  if 0 <? xfl_fee then u64 (drops + u64 (float_int xfl_fee 6 1)) else drops.

(** ** The transaction *)

Definition txn_mint : list Z :=
  [0x12; 0x00; 0x60] ++ [0x22; 0x80; 0; 0; 0] ++ (0x24 :: replicate 4 0) ++
  (0x20 :: 0x1A :: replicate 4 0) ++ (0x20 :: 0x1B :: replicate 4 0) ++ (0x68 :: 0x40 :: replicate 7 0) ++
  (0x73 :: 0x21 :: replicate 33 0) ++ (0x81 :: 0x14 :: genesis) ++ replicate 116 0 ++ [0xF0; 0x60] ++ replicate 719 0.

(** [BE_DROPS], and the part of [TEMPLATE_DROPS] that is written. *)
Definition drops_bytes (drops : Z) : list Z := (0x40 + Z.land (Z.shiftr drops 56) 0x3F) :: be_bytes 7 drops.

(** [template] after [TEMPLATE_DROPS]. *)
Definition template (drops : Z) : list Z :=
  [0xE0; 0x60; 0x61] ++ drops_bytes drops ++ [0x83; 0x14] ++ replicate 20 0 ++ [0xE1] ++ replicate 6 0.

(** The copy of an entry: the words 0, 1 and 4 of the template. *)
Definition copy_template (txn : list Z) (upto : Z) (tmpl : list Z) : outcome reward_end (list Z) :=
  if upto + 40 <=? lenZ txn
  then Ret (mem_set (mem_set txn upto (mem_slice tmpl 0 16)) (upto + 32) (mem_slice tmpl 32 8))
  else Undef UB_oob.

(** The seats of the active validators. *)
Fixpoint active_seats (e : reward_env) (av_array : list Z) (n : nat) (av_upto seat : Z) (can_reward : list Z)
    : outcome reward_end (list Z) :=
  match n with
  | O => Ret can_reward
  | S n =>
    let '(code, bytes) := hook_state_read (re_state e) (mem_slice av_array av_upto 20) [seat] 0 1 in
    let seat := default 0 (head bytes) in
    if negb (code =? 1) || (L1SEATS <? seat) then active_seats e av_array n (av_upto + 60) seat can_reward
    else if seat <? L1SEATS then active_seats e av_array n (av_upto + 60) seat (<[Z.to_nat seat := 1]> can_reward)
    else Undef UB_oob
  end.

(** The entries of the seats that get a reward. *)
Fixpoint reward_seats (e : reward_env) (tmpl can_reward : list Z) (seats : list Z) (txn : list Z) (upto : Z)
    : outcome reward_end (list Z * Z) :=
  match seats with
  | [] => Ret (txn, upto)
  | l1_seat :: seats =>
    if negb (upto <? 209 + 34 * (L1SEATS + 1)) then Ret (txn, upto)
    else
      let* can := vget can_reward l1_seat in
      if can =? 0 then reward_seats e tmpl can_reward seats txn upto
      else
        let* txn := copy_template txn upto tmpl in
        let '(code, txn) := hook_state_read (re_state e) [l1_seat] txn (upto + 13) 20 in
        reward_seats e tmpl can_reward seats txn (if code =? 20 then upto + 34 else upto)
  end.

(** The entries of the transaction, with the end of the array. *)
Definition reward_entries (e : reward_env) (reward_drops l1_drops : Z) : outcome reward_end (list Z * Z) :=
  let upto := 209 in
  let* txn := copy_template txn_mint upto (template reward_drops) in
  let txn := mem_set txn (upto + 13) (re_otxn_acc e) in
  let upto := upto + 34 in
  let* '(txn, upto) :=
    match re_unl e with
    | Some (bytes, count) =>
      if (0 <? lenZ bytes) && (lenZ bytes <=? 60 * MAXUNL + 4) then
        let* can_reward := active_seats e bytes (Z.to_nat (Z.min count MAXUNL)) 39 0 (re_can_reward e) in
        reward_seats e (template l1_drops) can_reward (seqZ 0 L1SEATS) txn upto
      else Ret (txn, upto)
    | None => Ret (txn, upto)
    end in
  if upto <? lenZ txn then Ret (mem_set txn upto [0xF1], upto + 1) else Undef UB_oob.

(** The other fields. *)
Definition reward_txn (e : reward_env) (txn : list Z) (upto : Z) : list Z :=
  let txn := mem_set txn 91 (re_details e) in
  let fee := re_fee_base e (take (Z.to_nat upto) txn) in
  let txn := mem_set txn 26 (drops_bytes (u64 fee)) in
  let seq := re_ledger_seq e + 1 in
  let txn := mem_set txn 15 (be_bytes 4 seq) in
  let txn := mem_set txn 21 (be_bytes 4 (seq + 4)) in
  take (Z.to_nat upto) txn.

(** ** The hook *)

Definition reward (e : reward_env) : outcome reward_end unit :=
  if negb (re_otxn_type e =? 98) then Exit (RAccept None)
  else if bool_decide (re_hook_acc e = re_otxn_acc e) then Exit (RAccept None)
  else
    let* '(xfl_rr, required_delay) := reward_config e in
    match re_root e with
    | Some root =>
      match RewardAccumulator root with
      | None => Exit (RAccept None)
      | Some _ =>
        let time := slot_int 4 (RewardTime root) in
        let time_elapsed := re_ledger_last_time e - time in
        if time_elapsed <? required_delay then Exit RRollback
        else
          let* '(accumulator, elapsed) := reward_counters e root in
          let* drops := reward_drops e xfl_rr accumulator elapsed in
          let l1_drops := drops / L1SEATS in
          let* '(txn, upto) := reward_entries e (with_fee e drops) l1_drops in
          let blob := reward_txn e txn upto in
          if re_emit e blob <? 0 then Exit RRollback else Exit (RAccept (Some blob))
      end
    | None => Exit (RAccept None)
    end.
