(* ===== verification/RewardEntries.v ===== *)
(** * The reward hook: the transaction it emits

    The bytes of the entries, the seats of the active validators, and the array of
    mints as a list of accounts and amounts. *)

From S2P Require Import Prelude HookEnum HookMemory HookState Emission EmissionFacts EmissionClaims Govern GovernFacts Rewards RewardHook.

(** ** Entries *)

(** The object of one mint. *)
Definition entry (drops : Z) (acc : list Z) : list Z :=
  [0xE0; 0x60; 0x61] ++ drops_bytes drops ++ [0x83; 0x14] ++ acc ++ [0xE1].

Lemma entry_length drops acc : length acc = 20%nat -> length (entry drops acc) = 34%nat.
Proof. intros H. unfold entry. rewrite !length_app, H. done. Qed.

Lemma mem_set_skip (p q : list Z) k bs : 0 <= k -> mem_set (p ++ q) (lenZ p + k) bs = p ++ mem_set q k bs.
Proof.
  intros Hk. unfold mem_set, lenZ. rewrite Z2Nat.inj_add, Nat2Z.id by lia. rewrite take_app_add, <- Nat.add_assoc, drop_app_add.
  by rewrite <- app_assoc.
Qed.

(** The copy of the template with the account is the entry. *)
Lemma copy_entry (p q : list Z) drops acc :
  (40 <= length q)%nat -> length acc = 20%nat ->
  exists q1 q2, copy_template (p ++ q) (lenZ p) (template drops) = Ret (p ++ q1) /\
    mem_set (p ++ q1) (lenZ p + 13) acc = p ++ entry drops acc ++ q2 /\
    length q1 = length q /\ (length q2 + 34 = length q)%nat.
Proof.
  intros Hq Ha. unfold copy_template. rewrite (proj2 (Z.leb_le _ _)) by (unfold lenZ; rewrite length_app; lia).
  replace (mem_set (p ++ q) (lenZ p)) with (mem_set (p ++ q) (lenZ p + 0)) by (by rewrite Z.add_0_r).
  rewrite !mem_set_skip by lia.
  do 40 (destruct q as [|? q]; [cbn in Hq; lia|]). do 20 (destruct acc as [|? acc]; [done|]). destruct acc; [|done].
  eexists _, (replicate 6 0 ++ q). split; [reflexivity|]. rewrite mem_set_skip by lia. split; [reflexivity|]. split; [reflexivity|cbn; lia].
Qed.

(** ** The seats *)

(** The accounts at the seats of [ss] that get a reward. *)
Definition winners (T : seats) (can : list Z) (ss : list Z) : list (list Z) :=
  omap (fun s => match can !! Z.to_nat s with Some c => if c =? 0 then None else T !! s | None => None end) ss.

Lemma read_seat m T s a (buf : list Z) off :
  table m T -> T !! s = Some a -> hook_state_read m [s] buf off 20 = (20, mem_set buf off a).
Proof.
  intros Ht Hs. destruct (tb_range m T Ht _ _ Hs) as [Hr (Hl & _)]. unfold hook_state_read. fold (seat_key s).
  rewrite (tb_seat m T Ht s Hr), Hs. assert (lenZ a = 20) as -> by (unfold lenZ; lia). done.
Qed.

(** At most 19 entries fit behind that of the claimant. *)
Lemma reward_seats_run e T drops can ss : forall p q k,
  table (re_state e) T -> length can = 20%nat -> Forall (fun s => 0 <= s < 20) ss ->
  Forall (fun s => forall c, can !! Z.to_nat s = Some c -> c <> 0 -> is_Some (T !! s)) ss ->
  (length p = 243 + 34 * k)%nat -> (length p + length q = 928)%nat -> (k + length (winners T can ss) <= 19)%nat ->
  exists q', reward_seats e (template drops) can ss (p ++ q) (lenZ p) =
    Ret (p ++ concat (map (entry drops) (winners T can ss)) ++ q', lenZ p + 34 * lenZ (winners T can ss)) /\
    (length p + 34 * length (winners T can ss) + length q' = 928)%nat.
Proof.
  intros p q k Ht Hcan. revert p q k. induction ss as [|s ss IH]; intros p q k Hss Hm Hp Hq Hk.
  { exists q. cbn. rewrite Z.add_0_r. split; [done|lia]. }
  apply Forall_cons in Hss as [Hs Hss]. apply Forall_cons in Hm as [Hms Hm]. cbn [reward_seats].
  assert (lenZ p <? 209 + 34 * (L1SEATS + 1) = true) as -> by (unfold lenZ, L1SEATS; lia). cbn [negb].
  destruct (lookup_lt_is_Some_2 can (Z.to_nat s) ltac:(lia)) as [c Hc].
  unfold vget. replace ((0 <=? s) && (s <? lenZ can)) with true by (unfold lenZ; lia). rewrite Hc. cbn [obind].
  unfold winners in *. cbn [omap list_omap] in *. rewrite Hc in Hk |- *. destruct (Z.eqb_spec c 0) as [Ec|Hc0].
  { by apply (IH p q k). }
  destruct (Hms c Hc Hc0) as [a Ha]. rewrite Ha in Hk |- *. cbn [length] in Hk.
  destruct (tb_range _ _ Ht _ _ Ha) as [_ (Hla & _)]. destruct (copy_entry p q drops a ltac:(lia) Hla) as (q1 & q2 & -> & Hset & Hl1 & Hl2).
  cbn [obind]. rewrite (read_seat _ T s a _ _ Ht Ha), Hset. change (20 =? 20) with true. cbv iota.
  pose proof (entry_length drops a Hla) as He.
  destruct (IH (p ++ entry drops a) q2 (S k)) as (q' & Hrun & Hlen); try done; [rewrite length_app, He; lia..|lia|].
  exists q'. rewrite <- app_assoc in Hrun.
  assert (lenZ (p ++ entry drops a) = lenZ p + 34) as Hz by (unfold lenZ; rewrite length_app, He; lia). rewrite Hz in Hrun. rewrite Hrun.
  cbn [map concat length]. rewrite <- !app_assoc. rewrite length_app, He in Hlen. split; [f_equal; f_equal; unfold lenZ; cbn [length]; lia|lia].
Qed.

(** The array after the active validators [accs]. *)
Definition seat_flag (T : seats) (accs : list (list Z)) (old : option Z) (s : Z) : option Z :=
  match T !! s with Some a => if decide (a ∈ accs) then Some 1 else old | None => old end.

Lemma read_validator m T a seat :
  table m T -> proper a ->
  (exists s, T !! s = Some a /\ hook_state_read m a [seat] 0 1 = (1, [s])) \/
  ((forall s, T !! s <> Some a) /\ hook_state_read m a [seat] 0 1 = (DOESNT_EXIST, [seat])).
Proof.
  intros Ht Ha. unfold hook_state_read. destruct (m !! state_key a) as [d|] eqn:E.
  - apply (tb_member m T Ht a d Ha) in E as (s & -> & Hs). left. by exists s.
  - right. split; [|done]. intros s Hs. by rewrite (proj2 (tb_member m T Ht a [s] Ha) ltac:(by exists s)) in E.
Qed.

Lemma active_seats_run e T bytes accs : forall av_upto seat can,
  table (re_state e) T -> Forall proper accs -> length can = 20%nat ->
  (forall (i : nat) a, accs !! i = Some a -> mem_slice bytes (av_upto + 60 * Z.of_nat i) 20 = a) ->
  exists can', active_seats e bytes (length accs) av_upto seat can = Ret can' /\ length can' = 20%nat /\
    forall s, 0 <= s < 20 -> can' !! Z.to_nat s = seat_flag T accs (can !! Z.to_nat s) s.
Proof.
  induction accs as [|a accs IH]; intros av_upto seat can Ht Hp Hl Hb.
  { exists can. split_and!; [done|done|]. intros s _. unfold seat_flag. destruct (T !! s); [|done]. by rewrite decide_False by set_solver. }
  apply Forall_cons in Hp as [Ha Hp]. cbn [active_seats length].
  pose proof (Hb 0%nat a eq_refl) as H0. rewrite Z.mul_0_r, Z.add_0_r in H0. rewrite H0.
  assert (forall (i : nat) b, accs !! i = Some b -> mem_slice bytes (av_upto + 60 + 60 * Z.of_nat i) 20 = b) as Hb'.
  { intros i b Hi. rewrite <- (Hb (S i) b Hi). f_equal. lia. }
  destruct (read_validator (re_state e) T a seat Ht Ha) as [(s0 & Hs0 & ->)|[Hno ->]]; cbn [default head from_option].
  - destruct (tb_range _ _ Ht _ _ Hs0) as [Hr _]. unfold SEAT_COUNT in Hr. unfold id.
    replace (negb (1 =? 1) || (L1SEATS <? s0)) with false by (unfold L1SEATS; lia). replace (s0 <? L1SEATS) with true by (unfold L1SEATS; lia).
    destruct (IH (av_upto + 60) s0 (<[Z.to_nat s0 := 1]> can) Ht Hp ltac:(by rewrite length_insert) Hb') as (can' & -> & Hl' & Hc).
    exists can'. split_and!; [done|done|]. intros s Hs. rewrite (Hc s Hs). unfold seat_flag. destruct (T !! s) as [b|] eqn:Eb.
    + destruct (decide (b ∈ accs)); [by rewrite decide_True by set_solver|]. destruct (decide (b = a)) as [->|Hne].
      * rewrite decide_True by set_solver. replace s with s0 by (by eapply table_inj). rewrite list_lookup_insert_eq; [done|lia].
      * rewrite decide_False by set_solver. rewrite list_lookup_insert_ne; [done|]. intros E. apply Hne. replace s with s0 in Eb by lia. congruence.
    + rewrite list_lookup_insert_ne; [done|]. intros E. replace s with s0 in Eb by lia. congruence.
  - change (negb (DOESNT_EXIST =? 1)) with true. cbn [orb].
    destruct (IH (av_upto + 60) (default 0 (Some seat)) can Ht Hp Hl Hb') as (can' & Hrun & Hl' & Hc).
    exists can'. split_and!; [exact Hrun|done|]. intros s Hs. rewrite (Hc s Hs). unfold seat_flag. destruct (T !! s) as [b|] eqn:Eb; [|done].
    assert (b <> a) by (intros ->; by apply (Hno s)). destruct (decide (b ∈ accs)); [by rewrite decide_True by set_solver|by rewrite decide_False by set_solver].
Qed.

(** The members that are active validators, in the order of their seats. *)
Definition active_members (T : seats) (accs : list (list Z)) : list (list Z) :=
  omap (fun s => match T !! s with Some a => if decide (a ∈ accs) then Some a else None | None => None end) (seqZ 0 20).

Lemma winners_active T accs can :
  (forall s, 0 <= s < 20 -> can !! Z.to_nat s = seat_flag T accs (Some 0) s) ->
  winners T can (seqZ 0 L1SEATS) = active_members T accs.
Proof.
  intros Hc. apply list_omap_ext, Forall_Forall2_diag, Forall_forall. intros s Hs%elem_of_seqZ.
  rewrite (Hc s) by lia. unfold seat_flag. destruct (T !! s) as [a|]; [|done]. by destruct (decide (a ∈ accs)).
Qed.

(** ** The transaction *)

(** The report lists the accounts [accs], in objects of 60 bytes with the account at
    offset 39. *)
Definition unl_report (e : reward_env) (accs : list (list Z)) : Prop :=
  match re_unl e with
  | None => accs = []
  | Some (bytes, count) =>
    count = lenZ accs /\ lenZ bytes = 60 * count /\ count <= MAXUNL /\
    forall (i : nat) a, accs !! i = Some a -> mem_slice bytes (39 + 60 * Z.of_nat i) 20 = a
  end.

Definition txn_head : list Z := take 209 txn_mint.

Lemma active_members_nil T : active_members T [] = [].
Proof.
  unfold active_members. induction (seqZ 0 20) as [|s ss IH]; [done|]. cbn [omap list_omap]. destruct (T !! s); [|done].
  by rewrite decide_False by set_solver.
Qed.

Lemma seats_from_report e T accs drops p q :
  table (re_state e) T -> Forall proper accs -> unl_report e accs -> re_can_reward e = replicate 20 0 ->
  (length (active_members T accs) <= 19)%nat -> length p = 243%nat -> length q = 685%nat ->
  exists q',
    match re_unl e with
    | Some (bytes, count) =>
      if (0 <? lenZ bytes) && (lenZ bytes <=? 60 * MAXUNL + 4) then
        let* can_reward := active_seats e bytes (Z.to_nat (Z.min count MAXUNL)) 39 0 (re_can_reward e) in
        reward_seats e (template drops) can_reward (seqZ 0 L1SEATS) (p ++ q) (lenZ p)
      else Ret (p ++ q, lenZ p)
    | None => Ret (p ++ q, lenZ p)
    end = Ret (p ++ concat (map (entry drops) (active_members T accs)) ++ q', lenZ p + 34 * lenZ (active_members T accs)) /\
    (243 + 34 * length (active_members T accs) + length q' = 928)%nat.
Proof.
  intros Ht Hp Hu Hz Hk Hlp Hlq. unfold unl_report in Hu.
  assert (accs = [] -> exists q', Ret (E := reward_end) (p ++ q, lenZ p) =
    Ret (p ++ concat (map (entry drops) (active_members T accs)) ++ q', lenZ p + 34 * lenZ (active_members T accs)) /\
    (243 + 34 * length (active_members T accs) + length q' = 928)%nat) as Hnil.
  { intros ->. rewrite active_members_nil. exists q. cbn. rewrite Z.add_0_r. split; [done|lia]. }
  destruct (re_unl e) as [[bytes count]|]; [|by apply Hnil]. destruct Hu as (-> & Hb & Hm & Hs). unfold MAXUNL in *.
  destruct (decide (accs = [])) as [Ea|Ea]; [rewrite Hb, Ea in *; by apply Hnil|].
  assert (0 < lenZ accs) by (destruct accs; [done|unfold lenZ; cbn; lia]).
  replace ((0 <? lenZ bytes) && (lenZ bytes <=? 60 * 128 + 4)) with true by lia. rewrite Hz, Z.min_l by lia.
  replace (Z.to_nat (lenZ accs)) with (length accs) by (unfold lenZ; lia).
  destruct (active_seats_run e T bytes accs 39 0 (replicate 20 0) Ht Hp eq_refl Hs) as (can & -> & Hlc & Hc). cbn [obind].
  assert (forall s, 0 <= s < 20 -> can !! Z.to_nat s = seat_flag T accs (Some 0) s) as Hflag.
  { intros s Hs'. rewrite (Hc s Hs'). by rewrite lookup_replicate_2 by lia. }
  pose proof (winners_active T accs can Hflag) as Hw. rewrite <- Hw in Hk |- *.
  destruct (reward_seats_run e T drops can (seqZ 0 L1SEATS) p q 0) as (q' & -> & Hl); try done; try lia; [| |exists q'; split; [done|lia]].
  - apply Forall_forall. intros s Hs'%elem_of_seqZ. unfold L1SEATS in Hs'. lia.
  - apply Forall_forall. intros s Hs'%elem_of_seqZ c Hc' Hne. unfold L1SEATS in Hs'. rewrite Hflag in Hc' by lia. unfold seat_flag in Hc'.
    destruct (T !! s); [done|congruence].
Qed.

Lemma reward_entries_run e T accs d l1 :
  table (re_state e) T -> Forall proper accs -> unl_report e accs -> re_can_reward e = replicate 20 0 ->
  (length (active_members T accs) <= 19)%nat -> length (re_otxn_acc e) = 20%nat ->
  let es := entry d (re_otxn_acc e) ++ concat (map (entry l1) (active_members T accs)) in
  exists q, reward_entries e d l1 = Ret (txn_head ++ es ++ [0xF1] ++ q, 209 + lenZ es + 1).
Proof.
  intros Ht Hp Hu Hz Hk Ha. unfold reward_entries. change txn_mint with (txn_head ++ replicate 719 0) at 1.
  cbv zeta. change 209 with (lenZ txn_head) at 1 2 3 4 5 6 7. destruct (copy_entry txn_head (replicate 719 0) d (re_otxn_acc e)) as (q1 & q2 & -> & Hset & Hl1 & Hl2); [rewrite length_replicate; lia|done|].
  cbn [obind]. rewrite Hset. rewrite app_assoc. set (p := txn_head ++ entry d (re_otxn_acc e)).
  assert (length p = 243%nat) as Hlp by (unfold p; rewrite length_app, (entry_length d _ Ha); done).
  rewrite length_replicate in Hl2. replace (lenZ txn_head + 34) with (lenZ p) by (unfold lenZ; rewrite Hlp; done).
  destruct (seats_from_report e T accs l1 p q2 Ht Hp Hu Hz Hk Hlp ltac:(lia)) as (q' & -> & Hlen). cbn [obind].
  set (es := concat (map (entry l1) (active_members T accs))) in *.
  assert (lenZ es = 34 * lenZ (active_members T accs)) as Hes.
  { unfold es. assert (Forall (fun a => length a = 20%nat) (active_members T accs)) as Hall.
    { apply Forall_forall. intros a (s & _ & Hs)%list_elem_of_omap. destruct (T !! s) as [b|] eqn:Eb; [|done].
      destruct (tb_range _ _ Ht _ _ Eb) as [_ (Hb & _)]. destruct (decide _); congruence. }
    clear -Hall. unfold lenZ. induction Hall as [|a l Ha _ IH]; [done|]. cbn [map concat length]. rewrite length_app, (entry_length l1 a Ha). lia. }
  rewrite <- Hes. destruct q' as [|x q']; [exfalso; unfold lenZ in Hes; cbn in Hlen; lia|]. cbn [length] in Hlen.
  assert (lenZ p + lenZ es = lenZ (p ++ es)) as Hpe by (unfold lenZ; rewrite length_app; lia).
  rewrite app_assoc, Hpe. rewrite (proj2 (Z.ltb_lt _ _)) by (unfold lenZ; rewrite (length_app (p ++ es)); cbn; lia).
  exists q'. replace (lenZ (p ++ es)) with (lenZ (p ++ es) + 0) at 1 by lia. rewrite mem_set_skip by lia.
  change (mem_set (x :: q') 0 [0xF1]) with ([0xF1] ++ q'). f_equal. f_equal.
  rewrite <- Hpe. unfold p, lenZ. rewrite !length_app. change (length txn_head) with 209%nat. lia.
Qed.

(** ** The fields before the entries *)

Definition reward_header (e : reward_env) (fee : Z) : list Z :=
  [0x12; 0x00; 0x60] ++ [0x22; 0x80; 0; 0; 0] ++ (0x24 :: replicate 4 0) ++
  (0x20 :: 0x1A :: be_bytes 4 (re_ledger_seq e + 1)) ++ (0x20 :: 0x1B :: be_bytes 4 (re_ledger_seq e + 5)) ++
  (0x68 :: drops_bytes (u64 fee)) ++ (0x73 :: 0x21 :: replicate 33 0) ++ (0x81 :: 0x14 :: genesis) ++ re_details e ++ [0xF0; 0x60].

Lemma mem_set_front (p q : list Z) k bs : 0 <= k -> k + lenZ bs <= lenZ p -> mem_set (p ++ q) k bs = mem_set p k bs ++ q.
Proof.
  unfold lenZ. intros Hk Hl. unfold mem_set. rewrite take_app_le, drop_app_le by lia. by rewrite <- !app_assoc.
Qed.

(** The head has the details in the middle. *)
Lemma head_details (bs : list Z) : length bs = 116%nat -> mem_set txn_head 91 bs = take 91 txn_head ++ bs ++ [0xF0; 0x60].
Proof. intros Hl. unfold mem_set. rewrite Hl. reflexivity. Qed.

Lemma reward_txn_bytes e (es q : list Z) :
  length (re_details e) = 116%nat ->
  exists fee, reward_txn e (txn_head ++ es ++ [0xF1] ++ q) (209 + lenZ es + 1) = reward_header e fee ++ es ++ [0xF1].
Proof.
  intros Hd. unfold reward_txn. cbv zeta. set (fee := re_fee_base e _). exists fee. clearbody fee. set (r := es ++ [0xF1] ++ q).
  assert (lenZ (re_details e) = 116) as Hd' by (unfold lenZ; lia).
  rewrite (mem_set_front txn_head) by (rewrite ?Hd'; done). rewrite (head_details _ Hd).
  rewrite <- (app_assoc (take 91 txn_head)). rewrite !(mem_set_front (take 91 txn_head)), !mem_set_front by done.
  replace (Z.to_nat (209 + lenZ es + 1)) with (209 + (length es + 1))%nat by (unfold lenZ; lia).
  match goal with |- take _ (mem_set ?a 21 ?b ++ _) = _ =>
    assert (mem_set a 21 b ++ re_details e ++ [0xF0; 0x60] = reward_header e fee) as Hh end.
  { unfold reward_header. replace (re_ledger_seq e + 5) with (re_ledger_seq e + 1 + 4) by lia. rewrite !app_assoc. by f_equal. }
  assert (length (reward_header e fee) = 209%nat) as Hl by (rewrite <- Hh, !length_app, Hd; reflexivity).
  rewrite <- (app_assoc (re_details e)) in *. rewrite (app_assoc (re_details e)), (app_assoc (mem_set _ 21 _)), Hh.
  unfold r. rewrite (app_assoc es), (app_assoc (reward_header e fee)). apply take_app_length'. rewrite !length_app, Hl. done.
Qed.
