(* ===== verification/RewardValue.v ===== *)
(** * The reward hook: the value of the reward

    The reward is the rate times the average balance since the last claim, up to the
    precision of the float functions and one drop. Two numbers are close when they
    differ by [k] parts in 10^14. *)

From S2P Require Import Prelude HookEnum HookMemory HookState Xfl XflFacts Emission EmissionFacts EmissionClaims Rewards MintFacts RewardHook.

(** ** Relative errors *)

Definition close (k a b : Z) : Prop := Z.abs (a - b) * 10 ^ 14 <= k * b.

Lemma close_scale k c a b : 0 <= c -> close k a b -> close k (c * a) (c * b).
Proof. unfold close. intros Hc H. rewrite <- Z.mul_sub_distr_l, Z.abs_mul, (Z.abs_eq c) by done. nia. Qed.

Lemma close_unscale k c a b : 0 < c -> close k (c * a) (c * b) -> close k a b.
Proof.
  unfold close. intros Hc H. rewrite <- Z.mul_sub_distr_l, Z.abs_mul, (Z.abs_eq c) in H by lia.
  apply (Z.mul_le_mono_pos_l _ _ c Hc). lia.
Qed.

Lemma close_trans k l a b c : 0 <= k <= 1000 -> 0 <= l <= 1000 -> 0 <= c -> close k a b -> close l b c -> close (k + l + 1) a c.
Proof.
  unfold close. intros Hk Hl Hc H1 H2. assert (b * 10 ^ 14 <= (10 ^ 14 + l) * c) as Hb by lia.
  assert (k * b * 10 ^ 14 <= k * ((10 ^ 14 + l) * c)) by nia. assert (k * l * c <= 10 ^ 6 * c) by nia.
  assert (Z.abs (a - c) <= Z.abs (a - b) + Z.abs (b - c)) by lia. nia.
Qed.

Lemma close_sym k a b : 0 <= k <= 1000 -> 0 <= b -> close k a b -> close (k + 1) b a.
Proof.
  unfold close. intros Hk Hb H. assert (b * (10 ^ 14 - k) <= a * 10 ^ 14) by lia. replace (Z.abs (b - a)) with (Z.abs (a - b)) by lia.
  assert (k * b * (10 ^ 14 - k) <= k * (a * 10 ^ 14)) by nia. assert (0 <= a) by nia. nia.
Qed.

(** [near], where the mantissa has sixteen digits. *)
Lemma near_close m M s : 10 ^ 15 <= M -> 0 <= s + 16 -> near m M s -> close 1 (m * 10 ^ 16) (M * 10 ^ (s + 16)).
Proof. unfold near, close. intros HM Hs H. assert (0 < 10 ^ (s + 16)) by (apply Z.pow_pos_nonneg; lia). nia. Qed.

(** ** The steps of the computation *)

Local Ltac bounds := unfold wf, minMantissa, maxMantissa, minExponent, maxExponent in *.

Lemma pow10 a b : 0 <= a -> 0 <= b -> 10 ^ (a + b) = 10 ^ a * 10 ^ b.
Proof. intros. by rewrite Z.pow_add_r. Qed.

Lemma float_set_close log10 n :
  log10_ok log10 -> 0 < n < 2 ^ 63 ->
  exists M s, wf M s /\ -16 <= s <= 4 /\ float_set log10 0 n = pack M s false /\ close 1 (n * 10 ^ 16) (M * 10 ^ (s + 16)).
Proof.
  intros Hlog Hn. pose proof (float_set_pair log10 0 n Hlog ltac:(lia) ltac:(lia)) as Hf. cbv zeta in Hf.
  replace (Z.abs n) with n in Hf by lia. pose proof (norm_pair_range log10 Hlog n ltac:(lia)) as [HM Hs].
  pose proof (norm_pair_near log10 Hlog n ltac:(lia)) as Hnear.
  exists (norm_pair log10 n).1, (norm_pair log10 n).2. split_and!; [bounds; lia|bounds; lia|bounds; lia..| |].
  - rewrite Hf, Z.add_0_l. replace (n <? 0) with false by lia. by replace (_ && _) with true by (bounds; lia).
  - apply near_close; [bounds; lia|lia|done].
Qed.

Lemma pack_inj M e M' e' : wf M e -> wf M' e' -> pack M e false = pack M' e' false -> M = M' /\ e = e'.
Proof.
  intros H H' E. split; [by rewrite <- (get_mantissa_pack M e false), <- (get_mantissa_pack M' e' false), E|].
  by rewrite <- (get_exponent_pack M e false), <- (get_exponent_pack M' e' false), E.
Qed.

(** The quotient of mantissas gives the quotient of the numbers. *)
Lemma quotient_close A L MA sA ML sL M E :
  0 < A -> wf MA sA -> -16 <= sA <= 4 -> -16 <= sL <= 4 -> wf M E -> -37 <= E <= 20 -> 0 <= sA - sL - E ->
  close 1 (A * 10 ^ 16) (MA * 10 ^ (sA + 16)) -> close 1 (L * 10 ^ 16) (ML * 10 ^ (sL + 16)) ->
  close 43 (M * ML) (MA * 10 ^ (sA - sL - E)) -> close 48 (M * L * 10 ^ (E + 100)) (A * 10 ^ 100).
Proof.
  intros HA HwA HsA HsL HwM HE Hk HcA HcL H1.
  assert (0 <= MA * 10 ^ (sA + 100)) as H0 by (pose proof (Z.pow_pos_nonneg 10 (sA + 100)); bounds; nia).
  apply close_sym in HcA; [|lia|pose proof (Z.pow_pos_nonneg 10 (sA + 16)); bounds; nia].
  apply (close_scale _ (10 ^ 84)) in HcA; [|lia].
  replace (10 ^ 84 * (MA * 10 ^ (sA + 16))) with (MA * 10 ^ (sA + 100)) in HcA
    by (replace (sA + 100) with (84 + (sA + 16)) by lia; rewrite (pow10 84) by lia; ring).
  replace (10 ^ 84 * (A * 10 ^ 16)) with (A * 10 ^ 100) in HcA by (change (10 ^ 100) with (10 ^ 84 * 10 ^ 16); ring).
  apply (close_scale _ (10 ^ (E + 100 + sL))) in H1; [|apply Z.pow_nonneg; lia].
  replace (10 ^ (E + 100 + sL) * (MA * 10 ^ (sA - sL - E))) with (MA * 10 ^ (sA + 100)) in H1
    by (replace (sA + 100) with (E + 100 + sL + (sA - sL - E)) by lia; rewrite (pow10 (E + 100 + sL)) by lia; ring).
  apply (close_scale _ (M * 10 ^ (E + 84))) in HcL; [|pose proof (Z.pow_pos_nonneg 10 (E + 84)); bounds; nia].
  replace (M * 10 ^ (E + 84) * (ML * 10 ^ (sL + 16))) with (10 ^ (E + 100 + sL) * (M * ML)) in HcL
    by (replace (E + 100 + sL) with (E + 84 + (sL + 16)) by lia; rewrite (pow10 (E + 84)) by lia; ring).
  replace (M * 10 ^ (E + 84) * (L * 10 ^ 16)) with (M * L * 10 ^ (E + 100)) in HcL
    by (replace (E + 100) with (E + 84 + 16) by lia; rewrite (pow10 (E + 84)) by lia; ring).
  pose proof (close_trans 1 43 _ _ _ ltac:(lia) ltac:(lia) H0 HcL H1) as H2.
  assert (0 <= A * 10 ^ 100) as H3 by lia. exact (close_trans 45 2 _ _ _ ltac:(lia) ltac:(lia) H3 H2 HcA).
Qed.

(** The average is close to the quotient. *)
Lemma float_divide_close log10 hasFix A L MA sA ML sL :
  log10_ok log10 -> 0 < A -> wf MA sA -> -16 <= sA <= 4 -> wf ML sL -> -16 <= sL <= 4 ->
  close 1 (A * 10 ^ 16) (MA * 10 ^ (sA + 16)) -> close 1 (L * 10 ^ 16) (ML * 10 ^ (sL + 16)) ->
  exists M E, wf M E /\ -37 <= E <= 20 /\
    float_divide log10 hasFix (pack MA sA false) (pack ML sL false) = Some (pack M E false) /\
    close 48 (M * L * 10 ^ (E + 100)) (A * 10 ^ 100).
Proof.
  intros Hlog HA HwA HsA HwL HsL HcA HcL. destruct (decide (pack ML sL false = float_one_internal)) as [Hone|Hone].
  - exists MA, sA. split; [done|]. split; [lia|]. split.
    { unfold float_divide, float_divide_internal. rewrite Hone. rewrite (invalid_float_pack MA sA false HwA).
      change (invalid_float float_one_internal) with false. change (float_one_internal =? 0) with false. rewrite Z.eqb_refl.
      by rewrite (proj2 (Z.eqb_neq (pack MA sA false) 0)) by (pose proof (pack_range MA sA false HwA); lia). }
    change float_one_internal with (pack (10 ^ 15) (-15) false) in Hone. apply pack_inj in Hone as [-> ->]; [|done|bounds; lia].
    apply (quotient_close A L MA sA (10 ^ 15) (-15)); try done; [lia..|]. replace (sA - -15 - sA) with 15 by lia.
    unfold close. rewrite Z.sub_diag. bounds. lia.
  - destruct (float_divide_correct log10 hasFix MA sA false ML sL false Hlog) as (M & E & HM & Hk & Hd & Hrun); [bounds; lia..| |].
    { by rewrite make_float_pack. }
    rewrite !make_float_pack in Hrun by done. assert (sA - sL - E <= 17) as Hk17.
    { destruct (Z_le_gt_dec (sA - sL - E) 17); [done|]. pose proof (Z.pow_le_mono_r 10 18 (sA - sL - E) ltac:(lia) ltac:(lia)). bounds.
      assert (MA * 10 ^ 18 <= MA * 10 ^ (sA - sL - E)) by nia. assert (M * ML <= 10 ^ 16 * 10 ^ 16) by nia. lia. }
    assert (wf M E) as HwM by (bounds; lia). exists M, E. split; [done|]. split; [lia|]. split.
    { rewrite Hrun. replace (E <? minExponent) with false by (bounds; lia). replace (maxExponent <? E) with false by (bounds; lia).
      by rewrite make_float_pack. }
    apply (quotient_close A L MA sA ML sL); try done; lia.
Qed.

(** The product with the rate. *)
Lemma float_multiply_close log10 r er A L M E :
  log10_ok log10 -> 0 < A -> 0 < L -> wf r er -> -60 <= er <= -15 -> wf M E -> -37 <= E <= 20 ->
  close 48 (M * L * 10 ^ (E + 100)) (A * 10 ^ 100) ->
  exists M4 E4, wf M4 E4 /\ float_multiply log10 (pack r er false) (pack M E false) = pack M4 E4 false /\
    close 52 (M4 * L * 10 ^ (E4 + 200)) (r * A * 10 ^ (er + 200)).
Proof.
  intros Hlog HA HL Hr Her HM HE Hc. destruct (float_multiply_correct log10 r er false M E false Hlog Hr HM) as (M4 & s & HM4 & Hs & Herr & Hrun).
  cbv zeta in Hrun. set (E4 := er + E + 15 + s) in *. assert (wf M4 E4) as Hw4 by (bounds; lia). exists M4, E4. split; [done|]. split.
  { rewrite !make_float_pack in Hrun by done. rewrite Hrun. replace (E4 <? minExponent) with false by (bounds; lia).
    by replace (maxExponent <? E4) with false by (bounds; lia). }
  assert (0 < 10 ^ (15 + s)) as Hp by (apply Z.pow_pos_nonneg; lia).
  assert (close 2 (r * M) (M4 * 10 ^ (15 + s))) as H1 by (unfold close; bounds; nia).
  apply close_sym in H1; [|lia|bounds; nia]. assert (0 < 10 ^ (er + E + 200)) by (apply Z.pow_pos_nonneg; lia).
  apply (close_scale _ (L * 10 ^ (er + E + 200))) in H1; [|nia].
  replace (L * 10 ^ (er + E + 200) * (M4 * 10 ^ (15 + s))) with (M4 * L * 10 ^ (E4 + 200)) in H1
    by (replace (E4 + 200) with (er + E + 200 + (15 + s)) by lia; rewrite (pow10 (er + E + 200)) by lia; ring).
  assert (0 < 10 ^ (er + 100)) by (apply Z.pow_pos_nonneg; lia). apply (close_scale _ (r * 10 ^ (er + 100))) in Hc; [|bounds; nia].
  replace (r * 10 ^ (er + 100) * (M * L * 10 ^ (E + 100))) with (L * 10 ^ (er + E + 200) * (r * M)) in Hc
    by (replace (er + E + 200) with (er + 100 + (E + 100)) by lia; rewrite (pow10 (er + 100)) by lia; ring).
  replace (r * 10 ^ (er + 100) * (A * 10 ^ 100)) with (r * A * 10 ^ (er + 200)) in Hc
    by (replace (er + 200) with (er + 100 + 100) by lia; rewrite (pow10 (er + 100) 100) by lia; ring).
  assert (0 <= r * A * 10 ^ (er + 200)) as Hpos by (pose proof (Z.pow_pos_nonneg 10 (er + 200)); bounds; nia).
  exact (close_trans 3 48 _ _ _ ltac:(lia) ltac:(lia) Hpos H1 Hc).
Qed.

(** [float_int] of a number with a fraction. *)
Lemma float_int_pack M e dp a :
  wf M e -> 0 <= dp <= 15 -> e + dp <= 0 -> float_int (pack M e false) dp a = M / 10 ^ (- (e + dp)).
Proof.
  intros Hw Hdp He. pose proof (pack_range M e false Hw). unfold float_int.
  rewrite invalid_float_pack, get_mantissa_pack, get_exponent_pack, is_negative_pack by done.
  rewrite (proj2 (Z.eqb_neq _ 0)) by lia. replace (15 <? dp) with false by lia. cbn [andb]. cbv zeta. bounds. rewrite u64_small by lia.
  assert (s32 (- u32 (e + dp)) = - (e + dp)) as ->.
  { unfold u32, s32. destruct (Z.eq_dec (e + dp) 0) as [->|]; [done|].
    rewrite <- (Z.mod_unique_pos (e + dp) (2 ^ 32) (-1) (e + dp + 2 ^ 32)) by lia.
    rewrite <- (Z.mod_unique_pos _ (2 ^ 32) (-1) (- (e + dp) + 2 ^ 31)); lia. }
  replace (- (e + dp) <? 0) with false by lia. unfold power_of_ten. destruct (Z.ltb_spec 15 (- (e + dp))) as [Hb|Hb].
  - symmetry. apply Z.div_small. pose proof (Z.pow_le_mono_r 10 16 (- (e + dp)) ltac:(lia) ltac:(lia)). lia.
  - destruct (Z.ltb_spec 0 (- (e + dp))).
    + assert (0 < 10 ^ (- (e + dp))) by (apply Z.pow_pos_nonneg; lia). apply s64_small.
      split; [transitivity 0; [lia|apply Z.div_pos; lia]|apply Z.div_lt_upper_bound; nia].
    + replace (- (e + dp)) with 0 by lia. rewrite Z.div_1_r. apply s64_small. lia.
Qed.

(** ** The reward *)

(** [D] drops are the share [r * 10 ^ er] of the average of [A] coins over [L]
    ledgers, up to 52 parts in 10^14 and one drop. *)
Definition reward_bound (r er A L D : Z) : Prop :=
  Z.abs (D * L * 10 ^ (- er) - r * A * 10 ^ 6) * 10 ^ 14 <= 52 * (r * A * 10 ^ 6) + L * 10 ^ (- er) * 10 ^ 14.

(** A product that is at most 10^9 coins has a fraction of a drop. *)
Lemma product_exponent r er A L M4 E4 :
  0 < L -> -60 <= er <= -15 -> wf M4 E4 -> r * A <= L * 10 ^ (9 - er) ->
  close 52 (M4 * L * 10 ^ (E4 + 200)) (r * A * 10 ^ (er + 200)) -> E4 <= -6.
Proof.
  intros HL Her Hw Hmax Hc. destruct (Z_le_gt_dec E4 (-6)); [done|]. exfalso. unfold close in Hc.
  assert (0 < 10 ^ (er + 200)) by (apply Z.pow_pos_nonneg; lia).
  assert (r * A * 10 ^ (er + 200) <= L * 10 ^ 209) as H1.
  { transitivity (L * 10 ^ (9 - er) * 10 ^ (er + 200)); [nia|]. rewrite <- Z.mul_assoc, <- pow10 by lia.
    replace (9 - er + (er + 200)) with 209 by lia. lia. }
  assert (10 ^ 195 <= 10 ^ (E4 + 200)) by (apply Z.pow_le_mono_r; lia).
  assert (10 ^ 15 * L * 10 ^ 195 <= M4 * L * 10 ^ (E4 + 200)) by (bounds; apply Z.mul_le_mono_nonneg; nia).
  assert (10 ^ 15 * L * 10 ^ 195 = 10 * (L * 10 ^ 209)) by (change (10 ^ 209) with (10 ^ 14 * 10 ^ 195); ring). nia.
Qed.

Lemma product_bound r er A L M4 E4 :
  0 < L -> -60 <= er <= -15 -> wf M4 E4 -> E4 <= -6 -> 0 <= r * A ->
  close 52 (M4 * L * 10 ^ (E4 + 200)) (r * A * 10 ^ (er + 200)) ->
  reward_bound r er A L (M4 / 10 ^ (- (E4 + 6))).
Proof.
  intros HL Her Hw HE Hr Hc. set (V := 10 ^ (- (E4 + 6))). assert (0 < V) as HV by (apply Z.pow_pos_nonneg; lia).
  assert (0 < 10 ^ (- er)) as HU by (apply Z.pow_pos_nonneg; lia).
  assert (close 52 (M4 * L * 10 ^ (- er)) (r * A * 10 ^ 6 * V)) as H1.
  { apply (close_unscale _ (10 ^ 194)); [lia|]. apply (close_scale _ (V * 10 ^ (- er))) in Hc; [|nia].
    replace (10 ^ 194 * (M4 * L * 10 ^ (- er))) with (V * 10 ^ (- er) * (M4 * L * 10 ^ (E4 + 200))).
    - replace (10 ^ 194 * (r * A * 10 ^ 6 * V)) with (V * 10 ^ (- er) * (r * A * 10 ^ (er + 200))); [done|].
      replace (10 ^ 194 * (r * A * 10 ^ 6 * V)) with (V * (r * A) * 10 ^ 200) by (change (10 ^ 200) with (10 ^ 194 * 10 ^ 6); ring).
      replace 200 with (- er + (er + 200)) at 2 by lia. rewrite (pow10 (- er)) by lia. ring.
    - replace (10 ^ 194) with (V * 10 ^ (E4 + 200)) by (unfold V; rewrite <- pow10 by (bounds; lia); f_equal; lia). ring. }
  unfold reward_bound. pose proof (Z.div_mod M4 V ltac:(lia)) as Hdm. pose proof (Z.mod_pos_bound M4 V HV) as Hm.
  set (D := M4 / V) in *. set (t := M4 mod V) in *. unfold close in H1. set (U := 10 ^ (- er)) in *. set (X := r * A * 10 ^ 6) in *.
  apply (Z.mul_le_mono_pos_l _ _ V HV).
  assert (Z.abs (V * (D * L * U - X)) <= Z.abs (M4 * L * U - X * V) + t * (L * U)) as Ht.
  { replace (V * (D * L * U - X)) with (M4 * L * U - X * V - t * (L * U)) by (rewrite Hdm; ring). nia. }
  rewrite Z.abs_mul, (Z.abs_eq V) in Ht by lia. assert (t * (L * U) <= V * (L * U)) by nia. nia.
Qed.

Lemma reward_drops_run e r er A L :
  log10_ok (re_log10 e) -> wf r er -> -60 <= er <= -15 -> 0 < A < 2 ^ 63 -> 0 < L < 2 ^ 63 -> r * A <= L * 10 ^ (9 - er) ->
  exists D, reward_drops e (pack r er false) A L = Ret D /\ 0 <= D < 10 ^ 16 /\ reward_bound r er A L D.
Proof.
  intros Hlog Hr Her HA HL Hmax. destruct (float_set_close _ A Hlog HA) as (MA & sA & HwA & HsA & HfA & HcA).
  destruct (float_set_close _ L Hlog HL) as (ML & sL & HwL & HsL & HfL & HcL).
  destruct (float_divide_close _ (re_hasFix e) A L MA sA ML sL Hlog ltac:(lia) HwA HsA HwL HsL HcA HcL) as (M & E & HwM & HE & Hdiv & Hc).
  destruct (float_multiply_close _ r er A L M E Hlog ltac:(lia) ltac:(lia) Hr Her HwM HE Hc) as (M4 & E4 & Hw4 & Hmul & Hc4).
  pose proof (product_exponent r er A L M4 E4 ltac:(lia) Her Hw4 Hmax Hc4) as HE4.
  exists (M4 / 10 ^ (- (E4 + 6))). unfold reward_drops. rewrite HfA, HfL.
  rewrite !(proj2 (Z.ltb_lt 0 (pack _ _ _))) by (by apply pack_range). cbn [reward_assert obind]. rewrite Hdiv, Hmul.
  rewrite float_int_pack by (done || lia). assert (0 < 10 ^ (- (E4 + 6))) by (apply Z.pow_pos_nonneg; lia).
  assert (0 <= M4 / 10 ^ (- (E4 + 6)) < 10 ^ 16) as HD.
  { bounds. split; [apply Z.div_pos; lia|apply Z.div_lt_upper_bound; nia]. }
  split; [by rewrite u64_small by lia|]. split; [done|]. apply product_bound; try done; [lia|bounds; nia].
Qed.

(** The fee comes back exactly. *)
Lemma with_fee_exact e D :
  log10_ok (re_log10 e) -> 0 <= re_fee e < 10 ^ 15 - 1 -> 0 <= D < 10 ^ 16 -> with_fee e D = D + re_fee e.
Proof.
  intros Hlog Hf HD. unfold with_fee, fee_xfl. destruct (Z.eq_dec (re_fee e) 0) as [E|E].
  { rewrite E. cbn. lia. }
  pose proof (float_set_pair (re_log10 e) (-6) (re_fee e) Hlog ltac:(lia) ltac:(lia)) as Hp. cbv zeta in Hp.
  replace (Z.abs (re_fee e)) with (re_fee e) in Hp by lia. destruct (norm_pair_integer (re_log10 e) (re_fee e) Hlog ltac:(lia)) as [Hs HM].
  pose proof (norm_pair_range (re_log10 e) Hlog (re_fee e) ltac:(lia)) as [HMr _]. set (p := norm_pair (re_log10 e) (re_fee e)) in *.
  replace (_ && _) with true in Hp by (bounds; lia). replace (re_fee e <? 0) with false in Hp by lia.
  assert (wf p.1 (-6 + p.2)) as Hw by (bounds; lia). pose proof (pack_range p.1 (-6 + p.2) false Hw) as Hpk.
  unfold float_set in Hp. rewrite (proj2 (Z.eqb_neq _ 0) E) in Hp.
  destruct (normalize_xfl (re_log10 e) true (re_fee e) (-6) false) as [[nx x] y]. cbv beta iota in Hp. cbn [fst].
  destruct ((nx =? 0) || (nx =? XFL_OVERFLOW)); [unfold INVALID_FLOAT in Hp; lia|]. rewrite Hp.
  replace (pack p.1 (-6 + p.2) false =? EXPONENT_UNDERSIZED) with false by (unfold EXPONENT_UNDERSIZED; lia).
  rewrite (proj2 (Z.ltb_lt 0 _)) by lia. rewrite float_int_pack by (done || lia). replace (- (-6 + p.2 + 6)) with (- p.2) by lia.
  rewrite HM, Z.div_mul by (apply Z.pow_nonzero; lia). rewrite (u64_small (re_fee e)) by lia. apply u64_small. lia.
Qed.

(** ** The counters *)

Lemma slot_int_some (w : nat) x : (w <= 8)%nat -> 0 <= x < 2 ^ (8 * Z.of_nat w) -> x < 2 ^ 63 -> slot_int w (Some x) = x.
Proof.
  intros Hw Hx H63. unfold slot_int. rewrite data_as_int64_spec by apply be_bytes_ok. rewrite be_bytes_value, lenZ_be_bytes, Z.mod_small by done.
  by replace (_ && _) with true by lia.
Qed.

Lemma balance_bits b : 0 <= b < 2 ^ 61 -> s64 (Z.land (u64 (2 ^ 62 + b)) (Z.lnot 0xE000000000000000)) = b.
Proof.
  intros Hb. rewrite u64_small by lia. replace (Z.land _ _) with (Z.land (2 ^ 62 + b) (Z.ones 61)).
  { rewrite Z.land_ones by lia. replace (2 ^ 62 + b) with (b + 2 * 2 ^ 61) by lia. rewrite Z.mod_add, Z.mod_small by lia. apply s64_small. lia. }
  apply Z.bits_inj'. intros n Hn. rewrite !Z.land_spec, Z.lnot_spec by done. change 0xE000000000000000 with (Z.shiftl 7 61).
  rewrite Z.shiftl_spec, Z.testbit_ones_nonneg by lia. destruct (Z_lt_le_dec n 61) as [Hlt|Hge].
  { rewrite (Z.testbit_neg_r 7) by lia. by replace (n <? 61) with true by lia. }
  replace (n <? 61) with false by lia. destruct (Z_lt_le_dec n 64) as [H64|H64].
  - assert (n - 61 = 0 \/ n - 61 = 1 \/ n - 61 = 2) as [-> | [-> | ->]] by lia; by rewrite !andb_false_r.
  - rewrite (Z.bits_above_log2 (2 ^ 62 + b)); [done|lia|]. apply Z.log2_lt_pow2; [lia|]. pose proof (Z.pow_le_mono_r 2 64 n). lia.
Qed.

(** The counters of an account with all the fields. *)
Definition claimant (root : acct) (first last accum time : Z) : Prop :=
  RewardLgrFirst root = Some first /\ RewardLgrLast root = Some last /\ RewardAccumulator root = Some accum /\
  RewardTime root = Some time /\ 0 < first <= last /\ 0 <= time < 2 ^ 32 /\ 0 <= accum < 2 ^ 63 /\ 0 <= ac_Balance root < 2 ^ 61.

Lemma reward_counters_run e root first last accum time :
  claimant root first last accum time -> last <= re_ledger_seq e < 2 ^ 32 -> first < re_ledger_seq e ->
  accum + ac_Balance root / 1000000 * (re_ledger_seq e - last) < 2 ^ 63 ->
  reward_counters e root =
    Ret (accum + ac_Balance root / 1000000 * (re_ledger_seq e - last), re_ledger_seq e - first).
Proof.
  intros (Hf & Hl & Ha & _ & Hfl & _ & Hac & Hb) Hs Hfs Hov. unfold reward_counters. rewrite Hf, Hl, Ha. unfold native_bits.
  rewrite (slot_int_some 8 accum), (slot_int_some 4 first), (slot_int_some 4 last), (slot_int_some 8 (2 ^ 62 + _)) by (simpl; lia).
  replace ((0 <? first) && (0 <? last)) with true by lia. cbn [reward_assert obind]. replace (0 <? re_ledger_seq e - first) with true by lia.
  cbn [reward_assert obind]. rewrite balance_bits by done. rewrite Z.quot_div_nonneg by lia.
  pose proof (Z.div_pos (ac_Balance root) 1000000 ltac:(lia) ltac:(lia)). set (q := ac_Balance root / 1000000) in *.
  destruct ((0 <? q) && (0 <? re_ledger_seq e - last)) eqn:Eq.
  - rewrite drops_add_ret by nia. cbn [obind]. rewrite drops_add_ret by nia. cbn [obind]. done.
  - cbn [obind]. do 2 f_equal. apply andb_false_iff in Eq as [E|E]; [replace q with 0 by lia|replace (re_ledger_seq e - last) with 0 by lia]; lia.
Qed.
