(* ===== verification/RewardRun.v ===== *)
(** * The reward hook: its runs

    The rate that the hook accepts, the run of the hook for a claimant, and the mints
    of the transaction it emits. *)

From S2P Require Import Prelude HookEnum HookMemory HookState Xfl XflFacts Number IOUAmount XflApi XflApiFacts Emission EmissionFacts EmissionClaims.
From S2P Require Import Govern GovernFacts Rewards RewardFacts MintFacts RewardHook RewardEntries RewardValue.

(** ** The rate *)

(** The hook goes on only with a positive rate of at most one and a delay. *)
Lemma config_rate e rr delay :
  reward_config e = Ret (rr, delay) ->
  exists r er, wf r er /\ er <= -15 /\ rr = pack r er false /\ 0 <= delay.
Proof.
  unfold reward_config. set (x := state_xfl e [ch_R; ch_R] DEFAULT_REWARD_RATE). set (y := state_xfl e [ch_R; ch_D] DEFAULT_REWARD_DELAY).
  assert (is_s64 x) as Hx by apply s64_range.
  destruct (_ || _) eqn:Epos; [done|]. intros (gt & Hgt & (lt & Hlt & H)%obind_ret)%obind_ret.
  destruct (_ || _) eqn:Eok in H; [done|]. injection H as Hxr <-. apply orb_false_iff in Epos as [Epos _].
  apply orb_false_iff in Eok as [[[Ed Es]%orb_false_iff Eg]%orb_false_iff _]. apply negb_false_iff, Z.eqb_eq in Es, Eg. subst gt rr.
  assert (invalid_float x = false) as Hv.
  { unfold float_sign in Es. by destruct (invalid_float x). }
  destruct (valid_pack x Hx Hv ltac:(lia)) as (r & er & neg & Hw & Ex). rewrite Ex in *.
  assert (neg = false) as ->.
  { unfold float_sign in Es. rewrite invalid_float_pack, is_negative_pack in Es by done. pose proof (pack_range r er neg Hw).
    rewrite (proj2 (Z.eqb_neq _ 0)) in Es by lia. by destruct neg. }
  exists r, er. split_and!; [done| |done|lia].
  rewrite float_compare_correct in Hgt; [|exact Hx|exact Hv|by vm_compute|reflexivity|by vm_compute]. change (Z.testbit GREATER 0) with false in Hgt.
  change (Z.testbit GREATER 1) with false in Hgt. change (Z.testbit GREATER 2) with true in Hgt. cbn [andb orb of_compare] in Hgt.
  destruct (Z.ltb_spec (xfl_value float_one) (xfl_value (pack r er false))) as [|Hle]; [discriminate Hgt|].
  unfold xfl_value in Hle at 1. pose proof (pack_range r er false Hw). rewrite (proj2 (Z.eqb_neq _ 0)) in Hle by lia.
  unfold signed_mantissa in Hle. rewrite get_mantissa_pack, get_exponent_pack, is_negative_pack in Hle by done.
  destruct (Z_le_gt_dec er (-15)); [done|]. exfalso. change (xfl_value float_one) with (10 ^ 96) in Hle.
  pose proof (Z.pow_le_mono_r 10 82 (er + 96) ltac:(lia) ltac:(lia)). destruct Hw as [Hm _]. unfold minMantissa in Hm.
  assert (10 ^ 15 * 10 ^ 82 <= r * 10 ^ (er + 96)) by nia. lia.
Qed.

(** ** A run *)

(** Account [root] claims: the table of the governance hook is [T] and the active
    validators are [accs]. *)
Record claim_env (e : reward_env) (root : acct) (T : seats) (accs : list (list Z)) (first last accum time : Z) : Prop := {
  ce_type : re_otxn_type e = 98;
  ce_other : re_hook_acc e <> re_otxn_acc e;
  ce_acc : proper (re_otxn_acc e);
  ce_root : re_root e = Some root;
  ce_claimant : claimant root first last accum time;
  ce_seq : last <= re_ledger_seq e < 2 ^ 32 /\ first < re_ledger_seq e;
  ce_table : table (re_state e) T;
  ce_accs : Forall proper accs;
  ce_report : unl_report e accs;
  ce_few : (length (active_members T accs) <= 19)%nat;
  ce_memory : re_can_reward e = replicate 20 0;
  ce_details : length (re_details e) = 116%nat;
  ce_fee : 0 <= re_fee e < 10 ^ 15 - 1;
  ce_log10 : log10_ok (re_log10 e)
}.

(** The transaction of a reward of [D] drops. *)
Definition reward_blob (e : reward_env) (T : seats) (accs : list (list Z)) (D fee : Z) : list Z :=
  reward_header e fee ++
  (entry (D + re_fee e) (re_otxn_acc e) ++ concat (map (entry (D / 20)) (active_members T accs))) ++ [0xF1].

Lemma reward_early e root T accs first last accum time rr delay :
  claim_env e root T accs first last accum time -> reward_config e = Ret (rr, delay) ->
  re_ledger_last_time e - time < delay -> reward e = Exit RRollback.
Proof.
  intros [Hty Hne _ Hro (Hf & Hl & Ha & Ht & Hfl & Htm & _) _ _ _ _ _ _ _ _ _] Hcfg He. unfold reward. rewrite Hty, Hcfg, Hro, Ha, Ht.
  rewrite bool_decide_eq_false_2 by done. cbn [Z.eqb Pos.eqb negb obind]. rewrite (slot_int_some 4 time) by (simpl; lia).
  by rewrite (proj2 (Z.ltb_lt _ _)) by done.
Qed.

Lemma reward_run e root T accs first last accum time rr delay :
  let A := accum + ac_Balance root / 1000000 * (re_ledger_seq e - last) in
  let L := re_ledger_seq e - first in
  claim_env e root T accs first last accum time -> reward_config e = Ret (rr, delay) -> delay <= re_ledger_last_time e - time ->
  -60 <= get_exponent rr -> 0 < A < 2 ^ 63 -> get_mantissa rr * A <= L * 10 ^ (9 - get_exponent rr) ->
  exists D fee, 0 <= D < 10 ^ 16 /\ reward_bound (get_mantissa rr) (get_exponent rr) A L D /\
    reward e = Exit (if re_emit e (reward_blob e T accs D fee) <? 0 then RRollback else RAccept (Some (reward_blob e T accs D fee))).
Proof.
  intros A L [Hty Hne Hac Hro Hcl Hseq Htab Haccs Hrep Hfew Hmem Hdet Hfee Hlog] Hcfg Hlate Hexp HA Hmax.
  destruct (config_rate e rr delay Hcfg) as (r & er & Hw & Her & -> & _). rewrite get_mantissa_pack, get_exponent_pack in * by done.
  destruct (reward_drops_run e r er A L Hlog Hw ltac:(lia) HA ltac:(unfold L; pose proof Hcl as (_ & _ & _ & _ & ? & _); lia) Hmax) as (D & HD & HDr & Hb).
  destruct (reward_entries_run e T accs (D + re_fee e) (D / 20) Htab Haccs Hrep Hmem Hfew (proj1 Hac)) as (q & Hent).
  destruct (reward_txn_bytes e (entry (D + re_fee e) (re_otxn_acc e) ++ concat (map (entry (D / 20)) (active_members T accs))) q Hdet) as (fee & Htxn).
  exists D, fee. split; [done|]. split; [done|]. unfold reward_blob. rewrite <- Htxn. unfold reward. rewrite Hty, Hcfg, Hro.
  rewrite bool_decide_eq_false_2 by done. cbn [Z.eqb Pos.eqb negb obind]. pose proof Hcl as (_ & _ & Ha & Ht & _ & Htm & _). rewrite Ha, Ht.
  rewrite (slot_int_some 4 time) by (simpl; lia). rewrite (proj2 (Z.ltb_ge _ _)) by done.
  rewrite (reward_counters_run e root first last accum time Hcl) by (try apply Hseq; apply HA). cbn [obind]. fold A L. rewrite HD. cbn [obind].
  rewrite with_fee_exact by done. unfold L1SEATS. rewrite Hent. cbn [obind]. by destruct (_ <? 0).
Qed.

(** ** The mints of the transaction *)

(** The array of mints in its serialized form: objects of an amount and a
    destination, and the end of the array. *)
Fixpoint parse_mints (fuel : nat) (bs : list Z) : option (list mint_dest) :=
  match fuel with
  | O => None
  | S fuel =>
    if bool_decide (bs = [0xF1]) then Some []
    else if bool_decide (mem_slice bs 0 3 = [0xE0; 0x60; 0x61]) && bool_decide (mem_slice bs 11 2 = [0x83; 0x14]) &&
            bool_decide (mem_slice bs 33 1 = [0xE1])
    then
      ms ← parse_mints fuel (drop 34 bs);
      Some (mkDest true (Some (fromVoid (mem_slice bs 13 20))) (Some (Drops (fromVoid (mem_slice bs 3 8) - 2 ^ 62))) None None :: ms)
    else None
  end.

Definition mint_of (drops : Z) (acc : list Z) : mint_dest := mkDest true (Some (fromVoid acc)) (Some (Drops drops)) None None.

Definition reward_mints (e : reward_env) (T : seats) (accs : list (list Z)) (D : Z) : list mint_dest :=
  mint_of (D + re_fee e) (re_otxn_acc e) :: map (mint_of (D / 20)) (active_members T accs).

Lemma drops_bytes_value d : 0 <= d < 2 ^ 62 -> fromVoid (drops_bytes d) - 2 ^ 62 = d.
Proof.
  intros Hd. unfold drops_bytes. rewrite fromVoid_cons, be_bytes_value, lenZ_be_bytes. rewrite Z.shiftr_div_pow2 by lia.
  change 0x3F with (Z.ones 6). rewrite Z.land_ones by lia. change (2 ^ (8 * Z.of_nat 7)) with (2 ^ 56). change (256 ^ Z.of_nat 7) with (2 ^ 56).
  rewrite (Z.mod_small (d / 2 ^ 56)) by (split; [apply Z.div_pos; lia|apply Z.div_lt_upper_bound; lia]).
  pose proof (Z.div_mod d (2 ^ 56) ltac:(lia)). lia.
Qed.

Lemma parse_entry n d acc (rest : list Z) ms :
  length acc = 20%nat -> 0 <= d < 2 ^ 62 -> parse_mints n rest = Some ms -> parse_mints (S n) (entry d acc ++ rest) = Some (mint_of d acc :: ms).
Proof.
  intros Ha Hd Hp. cbn [parse_mints]. rewrite bool_decide_eq_false_2 by (by intros [=]).
  replace (drop 34 (entry d acc ++ rest)) with rest by (by rewrite drop_app_length' by (by rewrite entry_length)).
  rewrite Hp. do 20 (destruct acc as [|? acc]; [done|]). destruct acc; [|done].
  rewrite !bool_decide_eq_true_2 by reflexivity. cbn [andb mbind option_bind]. unfold mint_of. do 3 f_equal. f_equal. f_equal.
  change (mem_slice _ 3 8) with (drops_bytes d). by apply drops_bytes_value.
Qed.

Lemma parse_entries d l : Forall (fun a => length a = 20%nat) l -> 0 <= d < 2 ^ 62 ->
  parse_mints (S (length l)) (concat (map (entry d) l) ++ [0xF1]) = Some (map (mint_of d) l).
Proof.
  intros Hl Hd. induction Hl as [|a l Ha _ IH]; [done|]. cbn [map concat length]. rewrite <- app_assoc. by apply parse_entry.
Qed.

Lemma active_member_proper e T accs a : table (re_state e) T -> a ∈ active_members T accs -> proper a.
Proof.
  intros Ht (s & _ & Hs)%list_elem_of_omap. destruct (T !! s) as [b|] eqn:Eb; [|done].
  destruct (tb_range _ _ Ht _ _ Eb) as [_ Hb]. destruct (decide _); congruence.
Qed.

Lemma fromVoid_zero bs : bytesOk bs -> fromVoid bs = 0 -> bs = replicate (length bs) 0.
Proof.
  induction 1 as [|b bs Hb Hbs IH]; [done|]. rewrite fromVoid_cons. pose proof (fromVoid_range bs Hbs). unfold is_u8 in Hb.
  assert (0 < 256 ^ lenZ bs) by (apply Z.pow_pos_nonneg; [lia|unfold lenZ; lia]). intros E. assert (b = 0) by nia. subst b.
  cbn [length replicate]. f_equal. apply IH. lia.
Qed.

Lemma proper_id a : proper a -> 1 < fromVoid a.
Proof.
  intros (Hl & Hb & Hne). rewrite <- (take_drop 18 a) in Hb |- *. apply Forall_app in Hb as [Hb1 Hb2]. rewrite fromVoid_app.
  assert (lenZ (drop 18 a) = 2) as -> by (unfold lenZ; rewrite length_drop, Hl; done).
  pose proof (fromVoid_range _ Hb1). pose proof (fromVoid_range _ Hb2).
  destruct (Z.eq_dec (fromVoid (take 18 a)) 0) as [E|E]; [|lia]. apply fromVoid_zero in E; [|done]. rewrite length_take, Hl in E. done.
Qed.

Lemma mint_of_ok d a : proper a -> 0 <= d <= 10 ^ 13 -> dest_ok (mint_of d a) = true.
Proof.
  intros Ha%proper_id Hd. unfold dest_ok, mint_of, noAccount, xrpAccount. cbn [md_is_mint md_Destination md_Amount md_GovernanceMarks md_GovernanceFlags].
  rewrite bool_decide_eq_true_2 by done. cbn [andb orb]. lia.
Qed.

Lemma reward_header_length e fee : length (re_details e) = 116%nat -> length (reward_header e fee) = 209%nat.
Proof. intros H. unfold reward_header. rewrite !length_app, H. reflexivity. Qed.

(** The blob has the mints of the claimant and of the active members. *)
Lemma parse_blob e root T accs first last accum time D fee :
  claim_env e root T accs first last accum time -> 0 <= D < 10 ^ 16 ->
  parse_mints (2 + length (active_members T accs)) (drop 209 (reward_blob e T accs D fee)) = Some (reward_mints e T accs D).
Proof.
  intros H HD. pose proof (ce_fee _ _ _ _ _ _ _ _ H) as Hfee. unfold reward_blob.
  rewrite drop_app_length' by (by rewrite reward_header_length by apply (ce_details _ _ _ _ _ _ _ _ H)). rewrite <- app_assoc.
  apply parse_entry; [apply (ce_acc _ _ _ _ _ _ _ _ H)|lia|]. apply parse_entries.
  - apply Forall_forall. intros a Ha. eapply active_member_proper in Ha as [? _]; [done|apply H].
  - pose proof (Z.div_pos D 20). pose proof (Z.div_le_upper_bound D 20 D). lia.
Qed.

(** Rewards of at most ten million coins pass the checks of [GenesisMint]. *)
Lemma reward_mints_ok e root T accs first last accum time D :
  claim_env e root T accs first last accum time -> 0 <= D -> D + re_fee e <= 10 ^ 13 ->
  Forall (fun d => dest_ok d = true) (reward_mints e T accs D).
Proof.
  intros H HD Hmax. pose proof (ce_fee _ _ _ _ _ _ _ _ H) as Hfee. constructor; [apply mint_of_ok; [apply H|lia]|].
  apply Forall_map, Forall_forall. intros a Ha. apply mint_of_ok; [eapply active_member_proper; [apply H|done]|].
  pose proof (Z.div_pos D 20). pose proof (Z.div_le_upper_bound D 20 D). lia.
Qed.

Lemma dests_ok_all ds seen : Forall (fun d => dest_ok d = true) ds -> dests_ok true seen ds = true.
Proof. intros H. revert seen. induction H as [|d ds Hd _ IH]; intros seen; cbn [dests_ok]; [done|]. by rewrite Hd, IH. Qed.

Lemma reward_mints_preflight e root T accs first last accum time D r gid :
  claim_env e root T accs first last accum time -> 0 <= D -> D + re_fee e <= 10 ^ 13 ->
  rl_featureHooks r = true -> rl_featureXahauGenesis r = true -> rl_fixXahauV1 r = true ->
  mint_preflight gid tesSUCCESS tesSUCCESS r (mkMint gid true (reward_mints e T accs D)) = tesSUCCESS.
Proof.
  intros H HD Hmax H1 H2 H3. unfold mint_preflight. rewrite H1, H2, H3. cbn [mt_Account mt_EmitDetails mt_GenesisMints negb isTesSuccess].
  rewrite Z.eqb_refl. cbn [negb orb]. pose proof (ce_few _ _ _ _ _ _ _ _ H). assert (1 <= lenZ (reward_mints e T accs D) <= 20).
  { unfold lenZ, reward_mints. cbn [length]. rewrite length_map. lia. }
  replace (_ =? 0) with false by lia. replace (512 <? _) with false by lia.
  rewrite dests_ok_all by (by eapply reward_mints_ok). done.
Qed.

(** ** What the mints give *)

Lemma minted_map d l : minted (map (mint_of d) l) = lenZ l * d.
Proof. unfold lenZ. induction l as [|a l IH]; cbn [map minted foldr length]; [done|]. fold (minted (map (mint_of d) l)). rewrite IH. cbn. lia. Qed.

Lemma fromVoid_inj a b : length a = length b -> bytesOk a -> bytesOk b -> fromVoid a = fromVoid b -> a = b.
Proof.
  intros Hl Ha. revert b Hl. induction Ha as [|x a Hx Ha IH]; intros [|y b] Hl Hb; try done. injection Hl as Hl.
  apply Forall_cons in Hb as [Hy Hb]. rewrite !fromVoid_cons. replace (lenZ b) with (lenZ a) by (unfold lenZ; lia).
  pose proof (fromVoid_range a Ha) as Ra. pose proof (fromVoid_range b Hb) as Rb. replace (lenZ b) with (lenZ a) in Rb by (unfold lenZ; lia).
  intros E. assert (x = y) by nia. subst. f_equal. apply IH; [done|done|lia].
Qed.

Lemma NoDup_omap_inj {A B} (f : A -> option B) l :
  (forall x y b, f x = Some b -> f y = Some b -> x = y) -> NoDup l -> NoDup (omap f l).
Proof.
  intros Hf. induction 1 as [|x l Hx Hl IH]; [constructor|]. cbn. destruct (f x) as [b|] eqn:E; [|done]. constructor; [|done].
  intros (y & Hy & Eb)%list_elem_of_omap. apply Hx. by rewrite (Hf x y b E Eb).
Qed.

Lemma active_members_NoDup m T accs : table m T -> NoDup (active_members T accs).
Proof.
  intros Ht. apply NoDup_omap_inj; [|apply NoDup_seqZ]. intros s1 s2 a. cbn.
  destruct (T !! s1) as [a1|] eqn:E1; [|done]. destruct (T !! s2) as [a2|] eqn:E2; [|done]. repeat case_decide; try done.
  intros [= ->] [= ->]. by eapply table_inj.
Qed.

Lemma given_members d l a : Forall proper l -> NoDup l -> proper a ->
  given_to (fromVoid a) (map (mint_of d) l) = if decide (a ∈ l) then d else 0.
Proof.
  intros Hl Hnd Ha. induction Hl as [|b l Hb Hl IH]; [by rewrite decide_False by set_solver|].
  apply NoDup_cons in Hnd as [Hbl Hnd]. specialize (IH Hnd). unfold given_to in *. cbn [map]. rewrite filter_cons.
  change (dest (mint_of d b)) with (fromVoid b). destruct (decide (fromVoid b = fromVoid a)) as [E|E].
  - apply fromVoid_inj in E as ->; [|destruct Hb as [-> _]; by destruct Ha as [-> _]|apply Hb|apply Ha].
    rewrite decide_False in IH by done. rewrite decide_True by set_solver. cbn [minted foldr]. fold (minted (filter (fun d => dest d = fromVoid a) (map (mint_of d) l))).
    rewrite IH. cbn. lia.
  - rewrite IH. assert (b <> a) by congruence. destruct (decide (a ∈ l)); [by rewrite decide_True by set_solver|by rewrite decide_False by set_solver].
Qed.

(** What an account gets from the mints of a claim. *)
Lemma given_reward e T accs D a :
  table (re_state e) T -> proper (re_otxn_acc e) -> proper a ->
  given_to (fromVoid a) (reward_mints e T accs D) =
    (if decide (a = re_otxn_acc e) then D + re_fee e else 0) + (if decide (a ∈ active_members T accs) then D / 20 else 0).
Proof.
  intros Ht Ho Ha. rewrite <- given_members; [|apply Forall_forall; intros; by eapply active_member_proper|by eapply active_members_NoDup|done].
  unfold given_to, reward_mints. rewrite filter_cons. change (dest (mint_of _ (re_otxn_acc e))) with (fromVoid (re_otxn_acc e)).
  destruct (decide (a = re_otxn_acc e)) as [->|Hne]; [by rewrite decide_True by done|]. rewrite decide_False; [done|].
  intros E. apply Hne. symmetry. apply fromVoid_inj; [by rewrite (proj1 Ho), (proj1 Ha)|apply Ho|apply Ha|done].
Qed.
