(* ===== verification/RewardClaims.v ===== *)
(** * Balance rewards: what a claim pays

    From the transactions on an account since its claim to the coins that its next
    claim creates: the counters are the sum of the balance over the ledgers, the hook
    computes the reward from them and emits the mints, and these credit the claimant
    and the active members of the governance table. The rest is what the code does
    beside its intent. *)

From S2P Require Import Prelude HookEnum HookMemory HookState Xfl XflFacts Number IOUAmount XflApi Emission EmissionFacts EmissionClaims Govern GovernFacts GovernClaims Rewards RewardFacts MintFacts RewardHook RewardEntries RewardValue RewardRun.

(** ** The claim and the transactions after it *)

(** Account [x0] claims, with fees of other accounts after it; then it has the events
    [evs], and one coin at least. *)
Record claim_history (r : reward_rules) (orig : gmap Z acct) (v0 : coin_view) (tx : claim_tx) (x0 : acct) (evs : list event) (v : coin_view) : Prop := {
  ch_rewards : rl_featureBalanceRewards r = true;
  ch_240819 : rl_fix240819 r = true;
  ch_240911 : rl_fix240911 r = true;
  ch_in : isOptOut tx = false;
  ch_account : cv_accounts v0 !! cl_Account tx = Some x0;
  ch_start : 1000000 <= ac_Balance x0 < 2 ^ 63;
  ch_seq : 0 <= cv_seq v0;
  ch_txs : exists charges, fee_charged (cl_Account tx) charges = 0 /\
    txs r (cl_Account tx) evs (weak_fees (update_rewards r orig (claim_doApply v0 tx).2) charges) v;
  ch_balances : Forall (fun ev => 1000000 <= ev_balance ev - ev_fee ev /\ ev_balance ev < 2 ^ 63) evs;
  ch_sum : weighted (ac_Balance x0) (map after evs) (cv_seq v0) (cv_seq v) < 2 ^ 64
}.

Lemma accumulate_again r cur drops x : RewardLgrLast x = Some cur -> accumulate r cur drops x = x.
Proof.
  intros Hl. unfold accumulate. rewrite Hl, Z.sub_diag. change (u32 0) with 0. rewrite Z.eqb_refl, !orb_true_r, !andb_true_r.
  destruct (RewardLgrFirst x), (RewardAccumulator x), (rl_fix240911 r); try done; by destruct (_ =? 0).
Qed.

(** The claim sets the counters, and its own metadata change nothing. *)
Lemma claim_counters r orig v0 tx x0 :
  rl_featureBalanceRewards r = true -> isOptOut tx = false -> cv_accounts v0 !! cl_Account tx = Some x0 ->
  cv_seq (update_rewards r orig (claim_doApply v0 tx).2) = cv_seq v0 /\
  cv_accounts (update_rewards r orig (claim_doApply v0 tx).2) !! cl_Account tx =
    Some (set_rewards (Some (cv_seq v0)) (Some (cv_seq v0)) (Some 0) (Some (u32 (cv_validatedTime v0))) x0).
Proof.
  intros Hr Ho Hx. rewrite update_rewards_lookup by done. unfold update_rewards, claim_doApply. rewrite Hr, Hx, Ho.
  cbn [snd cv_accounts cv_seq set_cv_accounts]. split; [done|]. rewrite lookup_insert_eq. unfold rewarded.
  destruct (orig !! _) as [o|]; [|done]. rewrite !accumulate_again by done. by repeat case_match.
Qed.

Lemma history_counters r orig v0 tx x0 evs v :
  claim_history r orig v0 tx x0 evs v ->
  exists x, cv_accounts v !! cl_Account tx = Some x /\ counters (ac_Balance x0) evs (cv_seq v0) (cv_seq v) x.
Proof.
  intros [Hr H1 H2 Ho Hx Hs H0 (charges & Hfee & Ht) Hb Hw]. destruct (claim_counters r orig v0 tx x0 Hr Ho Hx) as [Hq Ha].
  apply (weak_fees_lookup charges) in Ha. rewrite Hfee, Z.sub_0_r in Ha. rewrite <- (weak_fees_seq charges) in Hq. rewrite <- Hq in Hw |- *.
  eapply (txs_counters r _ _ _ _ _ Hr H1 H2 Ht Ha); [|by rewrite Hq|done|done].
  exists (cv_seq v0), 0. rewrite Hq. do 3 (split; [done|]). split; [lia|]. split; [lia|]. split; [done|]. split; [done|]. split; [done|].
  intros cur Hc. rewrite Z.add_0_l. change (lost _ _ []) with 0. rewrite Z.sub_0_r. change (map after []) with (@nil (Z * Z)).
  change (ac_Balance (set_ac_Balance _ _)) with (ac_Balance x0).
  clear -Hc. replace cur with (cv_seq v0 + Z.of_nat (Z.to_nat (cur - cv_seq v0))) by lia. generalize (Z.to_nat (cur - cv_seq v0)). intros n.
  induction n as [|n IH]; [rewrite Z.add_0_r, weighted_nil; lia|].
  replace (cv_seq v0 + Z.of_nat (S n)) with (cv_seq v0 + Z.of_nat n + 1) by lia. rewrite weighted_step by lia. rewrite <- IH. cbn [balance_at]. lia.
Qed.

(** ** Balances after a mint *)



(** ** The claims *)

(** C8: An account that has claimed and keeps one coin at least, with the amendments
    fix240819 and fix240911 and sums below 2^64: after any transactions, each with the
    fees for weak hooks that are taken after the counters are updated, the counters
    tell the sum of its whole coins over the ledgers since the claim, less what those
    late fees lose. In every later ledger [cur] the accumulator and the balance since
    its last update add up to the sum over the ledgers from the claim to [cur] minus
    [lost]: a late fee counts from the ledger in which the balance was last recorded,
    not from its own. Nothing is lost if the account pays no late fee. *)
Theorem reward_accumulator r orig v0 tx x0 evs v :
  claim_history r orig v0 tx x0 evs v ->
  exists x last accum, cv_accounts v !! cl_Account tx = Some x /\
    RewardLgrFirst x = Some (cv_seq v0) /\ RewardLgrLast x = Some last /\ RewardAccumulator x = Some accum /\
    cv_seq v0 <= last <= cv_seq v /\
    0 <= lost (cv_seq v0) (ac_Balance x0) evs /\
    (Forall (fun ev => ev_fee ev = 0) evs -> lost (cv_seq v0) (ac_Balance x0) evs = 0) /\
    forall cur, cv_seq v <= cur ->
      accum + ac_Balance x / 1000000 * (cur - last) =
        weighted (ac_Balance x0) (map after evs) (cv_seq v0) cur - lost (cv_seq v0) (ac_Balance x0) evs.
Proof.
  intros (x & Hx & last & accum & Hf & Hl & Ha & Hr & _ & _ & _ & Hlost & Hc)%history_counters. exists x, last, accum.
  split_and!; try done; [lia..|apply lost_none].
Qed.


(** C10: GenesisMint creates the coins it says. With fixXahauV1 a transaction that
    passes the checks always succeeds: each account gets the sum of its entries, new
    accounts are created, and the header grows by the sum of all. With and without the
    amendment the accounts and the header grow by the same number of coins. *)
Theorem genesis_mint_correct gid p1 p2 r v tx :
  mint_preflight gid p1 p2 r tx = tesSUCCESS -> balances_ok (cv_accounts v) -> 0 <= cv_drops v < 2 ^ 62 ->
  (rl_fixXahauV1 r = true ->
     exists v', mint_doApply r v tx = Ret v' /\ cv_drops v' = cv_drops v + minted (mt_GenesisMints tx) /\
       forall id, cv_accounts v' !! id = minted_acct v (mt_GenesisMints tx) id) /\
  (forall v', mint_doApply r v tx = Ret v' -> coins (cv_accounts v') - coins (cv_accounts v) = cv_drops v' - cv_drops v).
Proof.
  unfold mint_preflight. intros Hp Hb Hd.
  destruct (rl_featureHooks r), (rl_featureXahauGenesis r); cbn [negb] in Hp; try discriminate.
  destruct (isTesSuccess p1) eqn:E1; cbn [negb] in Hp; [|subst p1; discriminate E1]. destruct (_ || _); [discriminate|]. destruct (_ =? 0); [discriminate|].
  destruct (Z.ltb_spec 512 (lenZ (mt_GenesisMints tx))); [discriminate|]. destruct (dests_ok _ _ _) eqn:Ho; [|discriminate].
  apply dests_ok_each in Ho. split.
  - intros Hr. destruct (mint_doApply_exact r v tx Hr Ho) as (v' & H1 & H2 & H3 & _); [done..|]. by exists v'.
  - intros v' Hrun. by eapply mint_doApply_conserves.
Qed.


(** ** An example *)

Definition all_rules : reward_rules := mkRules true true true true true true true.
Definition demo_id : Z := fromVoid (demo_account 9).
Definition demo_root (coins : Z) : acct := mkAcct (coins * 1000000) 1 None None None None None None.

(** A claim in ledger 1000 with 5000 coins, 3000 more in ledger 2000, and a late fee of
    ten drops in ledger 2500. *)
Definition demo_before : coin_view := mkCoins {[demo_id := demo_root 5000]} (10 ^ 17) 1000 0 5000 None.
Definition demo_claim : claim_tx := mkClaim demo_id None (Some (fromVoid genesis)).
Definition demo_claimed : coin_view := update_rewards all_rules ∅ (claim_doApply demo_before demo_claim).2.
Definition demo_counted (coins : Z) (accum last : Z) : acct :=
  mkAcct (coins * 1000000) 1 (Some 1000) (Some last) (Some accum) (Some 5000) None None.
Definition demo_paid : coin_view := mkCoins {[demo_id := demo_counted 8000 0 1000]} (10 ^ 17) 2000 0 0 None.
Definition demo_then : coin_view := update_rewards all_rules (cv_accounts demo_claimed) demo_paid.
Definition demo_later : coin_view := mkCoins (cv_accounts demo_then) (10 ^ 17) 2500 0 0 None.
Definition demo_view : coin_view := weak_fees (update_rewards all_rules (cv_accounts demo_then) demo_later) [(demo_id, 10)].
Definition demo_events : list event := [mkEvent 2000 8000000000 0; mkEvent 2500 8000000000 10].
Definition demo_claimant : acct := set_ac_Balance 7999999990 (demo_counted 8000 5000000 2000).


Lemma demo_then_root : cv_accounts demo_then !! demo_id = Some (demo_counted 8000 5000000 2000).
Proof. by vm_compute. Qed.

Lemma demo_history : claim_history all_rules ∅ demo_before demo_claim (demo_root 5000) demo_events demo_view.
Proof.
  split; [done|done|done|done|by vm_compute|cbn; lia|by vm_compute| |repeat constructor; cbn; lia|by vm_compute].
  exists []. split; [done|].
  apply (txs_tx all_rules demo_id [mkEvent 2000 8000000000 0] demo_claimed demo_then demo_later (demo_counted 8000 5000000 2000) (demo_counted 8000 5000000 2000) [(demo_id, 10)]);
    [|by vm_compute|apply demo_then_root|apply demo_then_root|done|done|done].
  apply (txs_tx all_rules demo_id [] demo_claimed demo_claimed demo_paid (demo_counted 5000 0 1000) (demo_counted 8000 0 1000) []); try done.
  apply txs_none.
Qed.

Definition demo_state : gov_state := <[state_key (demo_account 0) := [0]]> (<[seat_key 0 := demo_account 0]> ∅).
Definition demo_reward (ledger_time : Z) : reward_env :=
  mkReward 98 (demo_account 9) genesis demo_state (Some demo_claimant) 10 3000 ledger_time
    (Some (replicate 39 0 ++ demo_account 0 ++ [0], 1)) (replicate 116 0) (fun _ => 10) (fun _ => 32) (replicate 20 0) ilog10 true to_nearest true.




Lemma reward_accumulator_witness :
  exists x last accum, cv_accounts demo_view !! demo_id = Some x /\ RewardLgrLast x = Some last /\ RewardAccumulator x = Some accum /\
    weighted 5000000000 [(2000, 8000000000); (2500, 7999999990)] 1000 3000 = 12999500 /\ lost 1000 5000000000 demo_events = 500 /\
    accum + ac_Balance x / 1000000 * (3000 - last) = 12999500 - 500.
Proof.
  destruct (reward_accumulator all_rules ∅ demo_before demo_claim (demo_root 5000) demo_events demo_view demo_history)
    as (x & last & accum & H1 & _ & H3 & H4 & _ & _ & _ & Hc).
  exists x, last, accum. split_and!; [exact H1|exact H3|exact H4|by vm_compute|by vm_compute|].
  rewrite Hc by (vm_compute; discriminate). by vm_compute.
Defined.


Definition demo_mint : mint_tx := mkMint 5 true [mint_of 7 (demo_account 9); mint_of 3 (demo_account 9); mint_of 4 (demo_account 0)].

Lemma demo_balances : balances_ok (cv_accounts demo_before).
Proof. intros id x. unfold demo_before. cbn [cv_accounts]. intros [<- <-]%lookup_singleton_Some. cbn. lia. Qed.

Lemma genesis_mint_correct_witness :
  exists v', mint_doApply all_rules demo_before demo_mint = Ret v' /\ cv_drops v' = 10 ^ 17 + 14 /\
    cv_accounts v' !! demo_id = Some (mkAcct 5000000010 1 None None None None None None).
Proof.
  destruct (genesis_mint_correct 5 tesSUCCESS tesSUCCESS all_rules demo_before demo_mint) as [H _].
  { by vm_compute. } { exact demo_balances. } { cbn. lia. }
  destruct (H eq_refl) as (v' & Hr & Hd & Ha). exists v'. split; [exact Hr|]. split; [exact Hd|]. rewrite Ha. by vm_compute.
Defined.


(** ** Beside the intent *)

Definition old_rules : reward_rules := mkRules true true true true false false false.

(** The hook with other memory in its local array and other validators in the report. *)
Definition demo_hook (memory : list Z) (accs : list (list Z)) (m : gov_state) : reward_env :=
  mkReward 98 (demo_account 9) genesis m (Some (demo_counted 8000 5000000 2000)) 10 3000 3000000
    (Some (concat (map (fun a => replicate 39 0 ++ a ++ [0]) accs), lenZ accs)) (replicate 116 0) (fun _ => 10) (fun _ => 32) memory
    ilog10 true to_nearest true.

(** A table of members at the seats of [ss]. *)
Definition demo_members (ss : list Z) : gov_state :=
  foldr (fun s m => <[state_key (demo_account s) := [s]]> (<[seat_key s := demo_account s]> m)) ∅ ss.

(** The destinations of the mints of a run. *)
Definition reward_dests (e : reward_env) : option (list Z) :=
  match reward e with
  | Exit (RAccept (Some blob)) => map dest <$> parse_mints 30 (drop 209 blob)
  | _ => None
  end.

Definition undefined {E A} (o : outcome E A) : bool := match o with Undef _ => true | _ => false end.

(** What the code does beside its intent. Without fix240819 the balance after a
    transaction counts for the ledgers before it. With all amendments an account
    that had less than a coin counts its next balance for that time too. An opt-out
    with the flag for canonical signatures passes preflight and is refused by
    preclaim. Without fixXahauV1 a mint of zero drops to an account fails, and a
    claimant who is an active member makes the mint malformed. The hook reads an
    array it has not written: with other memory it pays members that are not active.
    With twenty active members, or a member at seat 20, it writes out of bounds; with
    nineteen it pays all. An error code of the conversion becomes a number of drops. *)
Theorem reward_gaps :
  RewardAccumulator <$> cv_accounts (update_rewards old_rules {[1 := demo_counted 5000 0 1000]} (mkCoins {[1 := demo_counted 8000 0 1000]} 0 2000 0 0 None)) !! 1 = Some (Some 8000000) /\
  RewardAccumulator <$> cv_accounts (update_rewards all_rules {[1 := demo_counted 5000 0 1000]} (mkCoins {[1 := demo_counted 8000 0 1000]} 0 2000 0 0 None)) !! 1 = Some (Some 5000000) /\
  RewardAccumulator (accumulate all_rules 2001 8000000000 (accumulate all_rules 2000 500000 (demo_counted 8000 0 1000))) = Some 8008000 /\
  weighted 500000 [(2000, 8000000000)] 1000 2001 = 8000 /\
  claim_preflight tesSUCCESS tesSUCCESS all_rules (mkClaim demo_id (Some 0x80000001) None) = tesSUCCESS /\
  claim_preclaim all_rules demo_before (mkClaim demo_id (Some 0x80000001) None) = temMALFORMED /\
  claim_preclaim all_rules demo_before (mkClaim demo_id (Some tfOptOut) None) = tesSUCCESS /\
  mint_preflight 5 tesSUCCESS tesSUCCESS old_rules (mkMint 5 true [mint_of 0 (demo_account 9)]) = tesSUCCESS /\
  mint_doApply old_rules demo_before (mkMint 5 true [mint_of 0 (demo_account 9)]) = Exit tecINTERNAL /\
  mint_preflight 5 tesSUCCESS tesSUCCESS old_rules (mkMint 5 true (reward_mints (demo_reward 0) {[0 := demo_account 9]} [demo_account 9] 20)) = temMALFORMED /\
  reward_dests (demo_hook (replicate 20 0) [demo_account 5] (demo_members [0; 1])) = Some [demo_id] /\
  reward_dests (demo_hook (replicate 20 1) [demo_account 5] (demo_members [0; 1])) = Some (map (fun i => fromVoid (demo_account i)) [9; 0; 1]) /\
  undefined (reward (demo_hook (replicate 20 0) (map demo_account (seqZ 0 20)) (demo_members (seqZ 0 20)))) = true /\
  reward_dests (demo_hook (replicate 20 0) (map demo_account (seqZ 0 19)) (demo_members (seqZ 0 20))) =
    Some (map (fun i => fromVoid (demo_account i)) (9 :: seqZ 0 19)) /\
  undefined (reward (demo_hook (replicate 20 0) [demo_account 20] (demo_members [20]))) = true /\
  reward_drops (demo_reward 0) float_one (10 ^ 10) 1 = Ret (2 ^ 64 + TOO_BIG).
Proof. split_and!; by vm_compute. Qed.
