(* ===== verification/Utf8.v ===== *)
(** * UTF-8 (src/src/ripple/app/tx/impl/URIToken.h)

    [validateUTF8] on the bytes of a URI: it accepts exactly the encodings of Unicode
    scalar values other than U+FFFE and U+FFFF. The code reads the bytes that the
    first one announces without comparing with the end: at the end of the vector the
    read is outside of it. *)

From S2P Require Import Prelude.

Definition validateUTF8_4 {E} (s0 s1 s3 : Z) (next : outcome E bool) : outcome E bool :=
  if negb (Z.land s3 0xc0 =? 0x80) || ((s0 =? 0xf0) && (Z.land s1 0xf0 =? 0x80)) || ((s0 =? 0xf4) && (0x8f <? s1)) || (0xf4 <? s0)
  then Ret false else next.

Definition validateUTF8_3 {E} (s0 s1 s2 : Z) (next : outcome E bool) : outcome E bool :=
  if negb (Z.land s2 0xc0 =? 0x80) || ((s0 =? 0xe0) && (Z.land s1 0xe0 =? 0x80)) || ((s0 =? 0xed) && (Z.land s1 0xe0 =? 0xa0)) ||
     ((s0 =? 0xef) && (s1 =? 0xbf) && (Z.land s2 0xfe =? 0xbe))
  then Ret false else next.

(** The loop from the byte [s]. A condition ends at its first true part, before later
    bytes are read. *)
Fixpoint validateUTF8 {E} (s : list Z) : outcome E bool :=
  match s with
  | [] => Ret true
  | s0 :: t =>
    if s0 <? 0x80 then validateUTF8 t
    else if Z.land s0 0xe0 =? 0xc0 then
      match t with
      | [] => Undef UB_oob
      | s1 :: t => if negb (Z.land s1 0xc0 =? 0x80) || (Z.land s0 0xfe =? 0xc0) then Ret false else validateUTF8 t
      end
    else if Z.land s0 0xf0 =? 0xe0 then
      match t with
      | [] => Undef UB_oob
      | s1 :: t =>
        if negb (Z.land s1 0xc0 =? 0x80) then Ret false
        else
          match t with
          | [] => Undef UB_oob
          | s2 :: t => validateUTF8_3 s0 s1 s2 (validateUTF8 t)
          end
      end
    else if Z.land s0 0xf8 =? 0xf0 then
      match t with
      | [] => Undef UB_oob
      | s1 :: t =>
        if negb (Z.land s1 0xc0 =? 0x80) then Ret false
        else
          match t with
          | [] => Undef UB_oob
          | s2 :: t =>
            if negb (Z.land s2 0xc0 =? 0x80) then Ret false
            else
              match t with
              | [] => Undef UB_oob
              | s3 :: t => validateUTF8_4 s0 s1 s3 (validateUTF8 t)
              end
          end
      end
    else Ret false
  end.

(** ** The encoding *)

Definition scalar (c : Z) : bool :=
  (0 <=? c) && (c <=? 0x10FFFF) && negb ((0xD800 <=? c) && (c <=? 0xDFFF)) && negb ((c =? 0xFFFE) || (c =? 0xFFFF)).

Definition utf8_encode (c : Z) : list Z :=
  if c <? 0x80 then [c]
  else if c <? 0x800 then [0xC0 + c / 64; 0x80 + c mod 64]
  else if c <? 0x10000 then [0xE0 + c / 4096; 0x80 + c / 64 mod 64; 0x80 + c mod 64]
  else [0xF0 + c / 262144; 0x80 + c / 4096 mod 64; 0x80 + c / 64 mod 64; 0x80 + c mod 64].

Definition utf8 (cs : list Z) : list Z := concat (map utf8_encode cs).

(** ** The masks are ranges *)

Lemma masks b : is_u8 b ->
  (Z.land b 0xe0 =? 0xc0) = ((0xc0 <=? b) && (b <? 0xe0)) /\ (Z.land b 0xf0 =? 0xe0) = ((0xe0 <=? b) && (b <? 0xf0)) /\
  (Z.land b 0xf8 =? 0xf0) = ((0xf0 <=? b) && (b <? 0xf8)) /\ (Z.land b 0xc0 =? 0x80) = ((0x80 <=? b) && (b <? 0xc0)) /\
  (Z.land b 0xfe =? 0xc0) = ((0xc0 <=? b) && (b <? 0xc2)) /\ (Z.land b 0xe0 =? 0x80) = ((0x80 <=? b) && (b <? 0xa0)) /\
  (Z.land b 0xe0 =? 0xa0) = ((0xa0 <=? b) && (b <? 0xc0)) /\ (Z.land b 0xfe =? 0xbe) = ((0xbe <=? b) && (b <? 0xc0)) /\
  (Z.land b 0xf0 =? 0x80) = ((0x80 <=? b) && (b <? 0x90)).
Proof.
  intros Hb. assert (forallb (fun b =>
    Bool.eqb (Z.land b 0xe0 =? 0xc0) ((0xc0 <=? b) && (b <? 0xe0)) && Bool.eqb (Z.land b 0xf0 =? 0xe0) ((0xe0 <=? b) && (b <? 0xf0)) &&
    Bool.eqb (Z.land b 0xf8 =? 0xf0) ((0xf0 <=? b) && (b <? 0xf8)) && Bool.eqb (Z.land b 0xc0 =? 0x80) ((0x80 <=? b) && (b <? 0xc0)) &&
    Bool.eqb (Z.land b 0xfe =? 0xc0) ((0xc0 <=? b) && (b <? 0xc2)) && Bool.eqb (Z.land b 0xe0 =? 0x80) ((0x80 <=? b) && (b <? 0xa0)) &&
    Bool.eqb (Z.land b 0xe0 =? 0xa0) ((0xa0 <=? b) && (b <? 0xc0)) && Bool.eqb (Z.land b 0xfe =? 0xbe) ((0xbe <=? b) && (b <? 0xc0)) &&
    Bool.eqb (Z.land b 0xf0 =? 0x80) ((0x80 <=? b) && (b <? 0x90))) (seqZ 0 256) = true) as Hall by (by vm_compute).
  rewrite forallb_forall in Hall. specialize (Hall b ltac:(apply list_elem_of_In, elem_of_seqZ; unfold is_u8 in Hb; lia)).
  rewrite !andb_true_iff, !Bool.eqb_true_iff in Hall. tauto.
Qed.

Ltac ranges H :=
  let e := fresh "e" in pose proof (masks _ H) as e;
  destruct e as (?e & ?e & ?e & ?e & ?e & ?e & ?e & ?e & ?e);
  repeat match goal with e : (Z.land _ _ =? _) = _ |- _ => rewrite ?e in *; clear e end.

(** The tests of a lead byte. *)
Lemma lead2 {E} s0 s1 (t : list Z) : is_u8 s0 -> is_u8 s1 ->
  0xc2 <= s0 < 0xe0 -> 0x80 <= s1 < 0xc0 -> @validateUTF8 E (s0 :: s1 :: t) = validateUTF8 t.
Proof.
  intros H0 H1 R0 R1. cbn [validateUTF8]. ranges H0. ranges H1.
  replace (s0 <? 0x80) with false by lia. replace ((0xc0 <=? s0) && (s0 <? 0xe0)) with true by lia.
  by replace (negb ((0x80 <=? s1) && (s1 <? 0xc0)) || ((0xc0 <=? s0) && (s0 <? 0xc2))) with false by lia.
Qed.

Lemma lead3 {E} s0 s1 s2 (t : list Z) : is_u8 s0 -> is_u8 s1 -> is_u8 s2 ->
  0xe0 <= s0 < 0xf0 -> 0x80 <= s1 < 0xc0 -> 0x80 <= s2 < 0xc0 -> ~ (s0 = 0xe0 /\ s1 < 0xa0) -> ~ (s0 = 0xed /\ 0xa0 <= s1) ->
  ~ (s0 = 0xef /\ s1 = 0xbf /\ 0xbe <= s2) -> @validateUTF8 E (s0 :: s1 :: s2 :: t) = validateUTF8 t.
Proof.
  intros H0 H1 H2 R0 R1 R2 N1 N2 N3. cbn [validateUTF8]. unfold validateUTF8_3. ranges H0. ranges H1. ranges H2.
  replace (s0 <? 0x80) with false by lia. replace ((0xc0 <=? s0) && (s0 <? 0xe0)) with false by lia.
  replace ((0xe0 <=? s0) && (s0 <? 0xf0)) with true by lia. replace ((0x80 <=? s1) && (s1 <? 0xc0)) with true by lia. cbn [negb].
  match goal with |- (if ?b then _ else _) = _ => by replace b with false by lia end.
Qed.

Lemma lead4 {E} s0 s1 s2 s3 (t : list Z) : is_u8 s0 -> is_u8 s1 -> is_u8 s2 -> is_u8 s3 ->
  0xf0 <= s0 <= 0xf4 -> 0x80 <= s1 < 0xc0 -> 0x80 <= s2 < 0xc0 -> 0x80 <= s3 < 0xc0 -> ~ (s0 = 0xf0 /\ s1 < 0x90) -> ~ (s0 = 0xf4 /\ 0x8f < s1) ->
  @validateUTF8 E (s0 :: s1 :: s2 :: s3 :: t) = validateUTF8 t.
Proof.
  intros H0 H1 H2 H3 R0 R1 R2 R3 N1 N2. cbn [validateUTF8]. unfold validateUTF8_4. ranges H0. ranges H1. ranges H2. ranges H3.
  replace (s0 <? 0x80) with false by lia. replace ((0xc0 <=? s0) && (s0 <? 0xe0)) with false by lia.
  replace ((0xe0 <=? s0) && (s0 <? 0xf0)) with false by lia. replace ((0xf0 <=? s0) && (s0 <? 0xf8)) with true by lia.
  replace ((0x80 <=? s1) && (s1 <? 0xc0)) with true by lia. replace ((0x80 <=? s2) && (s2 <? 0xc0)) with true by lia. cbn [negb].
  match goal with |- (if ?b then _ else _) = _ => by replace b with false by lia end.
Qed.

(** One character of a valid text is read. *)
Lemma validate_char {E} c (t : list Z) : scalar c = true -> @validateUTF8 E (utf8_encode c ++ t) = validateUTF8 t.
Proof.
  unfold scalar. intros Hs. unfold utf8_encode.
  pose proof (Z.div_mod c 64 ltac:(lia)). pose proof (Z.mod_pos_bound c 64 ltac:(lia)). 
  assert (c / 4096 = c / 64 / 64) as E1 by (by rewrite Z.div_div by lia). assert (c / 262144 = c / 64 / 64 / 64) as E2 by (by rewrite !Z.div_div by lia).
  rewrite E1, E2. pose proof (Z.div_mod (c / 64) 64 ltac:(lia)). pose proof (Z.mod_pos_bound (c / 64) 64 ltac:(lia)).
  pose proof (Z.div_mod (c / 64 / 64) 64 ltac:(lia)). pose proof (Z.mod_pos_bound (c / 64 / 64) 64 ltac:(lia)).
  set (q1 := c / 64) in *. set (q2 := q1 / 64) in *. set (q3 := q2 / 64) in *. set (r1 := c mod 64) in *. set (r2 := q1 mod 64) in *. set (r3 := q2 mod 64) in *.
  clearbody q1 q2 q3 r1 r2 r3. destruct (Z.ltb_spec c 0x80).
  - cbn. by replace (c <? 128) with true by lia.
  - destruct (Z.ltb_spec c 0x800); [|destruct (Z.ltb_spec c 0x10000)]; cbn [app].
    + apply lead2; unfold is_u8; lia.
    + apply lead3; unfold is_u8; lia.
    + apply lead4; unfold is_u8; lia.
Qed.

Lemma validate_utf8 {E} cs : Forall (fun c => scalar c = true) cs -> @validateUTF8 E (utf8 cs) = Ret true.
Proof. induction 1 as [|c cs Hc _ IH]; [done|]. unfold utf8. cbn [map concat]. rewrite validate_char by done. exact IH. Qed.

(** ** What is accepted is an encoding *)

Lemma div_mod_64 a b : 0 <= b < 64 -> (a * 64 + b) / 64 = a /\ (a * 64 + b) mod 64 = b.
Proof. intros Hb. split; [symmetry; by apply (Z.div_unique_pos _ 64 a b); lia|symmetry; by apply (Z.mod_unique_pos _ 64 a b); lia]. Qed.

Lemma encode2 s0 s1 : 0xc2 <= s0 < 0xe0 -> 0x80 <= s1 < 0xc0 ->
  exists c, scalar c = true /\ utf8_encode c = [s0; s1].
Proof.
  intros R0 R1. exists ((s0 - 0xc0) * 64 + (s1 - 0x80)). split; [unfold scalar; lia|]. unfold utf8_encode.
  destruct (div_mod_64 (s0 - 0xc0) (s1 - 0x80) ltac:(lia)) as [-> ->].
  replace (_ <? 0x80) with false by lia. replace (_ <? 0x800) with true by lia. do 2 f_equal; [|f_equal]; lia.
Qed.

Lemma encode3 s0 s1 s2 : 0xe0 <= s0 < 0xf0 -> 0x80 <= s1 < 0xc0 -> 0x80 <= s2 < 0xc0 -> ~ (s0 = 0xe0 /\ s1 < 0xa0) ->
  ~ (s0 = 0xed /\ 0xa0 <= s1) -> ~ (s0 = 0xef /\ s1 = 0xbf /\ 0xbe <= s2) ->
  exists c, scalar c = true /\ utf8_encode c = [s0; s1; s2].
Proof.
  intros R0 R1 R2 N1 N2 N3. set (q := (s0 - 0xe0) * 64 + (s1 - 0x80)). exists (q * 64 + (s2 - 0x80)). split; [unfold scalar, q; lia|]. unfold utf8_encode.
  replace ((q * 64 + (s2 - 0x80)) / 4096) with ((q * 64 + (s2 - 0x80)) / 64 / 64) by (by rewrite Z.div_div by lia).
  destruct (div_mod_64 q (s2 - 0x80) ltac:(lia)) as [-> ->]. replace (q * 64 + (s2 - 128) <? 0x80) with false by (unfold q; lia).
  replace (_ <? 0x800) with false by (unfold q; lia). replace (_ <? 0x10000) with true by (unfold q; lia).
  unfold q. destruct (div_mod_64 (s0 - 0xe0) (s1 - 0x80) ltac:(lia)) as [-> ->]. f_equal; [lia|]. f_equal; [lia|]. f_equal. lia.
Qed.

Lemma encode4 s0 s1 s2 s3 : 0xf0 <= s0 <= 0xf4 -> 0x80 <= s1 < 0xc0 -> 0x80 <= s2 < 0xc0 -> 0x80 <= s3 < 0xc0 -> ~ (s0 = 0xf0 /\ s1 < 0x90) ->
  ~ (s0 = 0xf4 /\ 0x8f < s1) -> exists c, scalar c = true /\ utf8_encode c = [s0; s1; s2; s3].
Proof.
  intros R0 R1 R2 R3 N1 N2. set (p := (s0 - 0xf0) * 64 + (s1 - 0x80)). set (q := p * 64 + (s2 - 0x80)).
  exists (q * 64 + (s3 - 0x80)). split; [unfold scalar, q, p; lia|]. unfold utf8_encode.
  replace ((q * 64 + (s3 - 0x80)) / 4096) with ((q * 64 + (s3 - 0x80)) / 64 / 64) by (by rewrite Z.div_div by lia).
  replace ((q * 64 + (s3 - 0x80)) / 262144) with ((q * 64 + (s3 - 0x80)) / 64 / 64 / 64) by (by rewrite !Z.div_div by lia).
  destruct (div_mod_64 q (s3 - 0x80) ltac:(lia)) as [-> ->]. replace (q * 64 + (s3 - 128) <? 0x80) with false by (unfold q, p; lia).
  replace (_ <? 0x800) with false by (unfold q, p; lia). replace (_ <? 0x10000) with false by (unfold q, p; lia).
  unfold q. destruct (div_mod_64 p (s2 - 0x80) ltac:(lia)) as [-> ->]. unfold p.
  destruct (div_mod_64 (s0 - 0xf0) (s1 - 0x80) ltac:(lia)) as [-> ->]. f_equal; [lia|]. f_equal; [lia|]. f_equal; [lia|]. f_equal. lia.
Qed.

Definition valid_utf8 (u : list Z) : Prop := exists cs, Forall (fun c => scalar c = true) cs /\ u = utf8 cs.

Lemma valid_cons c l u : scalar c = true /\ utf8_encode c = l -> valid_utf8 u -> valid_utf8 (l ++ u).
Proof. intros [Hc <-] (cs & Hcs & ->). exists (c :: cs). split; [by constructor|done]. Qed.

Lemma valid_char l u : (exists c, scalar c = true /\ utf8_encode c = l) -> valid_utf8 u -> valid_utf8 (l ++ u).
Proof. intros [c Hc]. by apply (valid_cons c). Qed.

(** The outcome: an encoding is accepted, and a read outside of the vector happens in
    the last three bytes. *)
Definition utf8_outcome {E} (u : list Z) (o : outcome E bool) : Prop :=
  match o with
  | Ret true => valid_utf8 u
  | Ret false => True
  | Undef UB_oob => exists v l, valid_utf8 v /\ u = v ++ l /\ (1 <= length l <= 3)%nat
  | _ => False
  end.

Lemma outcome_char {E} l u (o : outcome E bool) : (exists c, scalar c = true /\ utf8_encode c = l) -> utf8_outcome u o -> utf8_outcome (l ++ u) o.
Proof.
  intros Hl. destruct o as [[]| | |[]|]; cbn; try done; [by apply valid_char|].
  intros (v & r & Hv & -> & Hr). exists (l ++ v), r. rewrite app_assoc. split; [by apply valid_char|done].
Qed.

Lemma outcome_end {E} u : (1 <= length u <= 3)%nat -> utf8_outcome u (@Undef E bool UB_oob).
Proof. intros Hu. exists [], u. split; [by exists []|done]. Qed.

Ltac case_if E := match goal with |- context [if ?b then _ else _] => destruct b eqn:E end.

Lemma validate_decode {E} n : forall u, (length u <= n)%nat -> bytesOk u -> utf8_outcome u (@validateUTF8 E u).
Proof.
  induction n as [|n IH]; intros [|s0 t] Hn Hu; try (by exists []); [cbn in Hn; lia|]. cbn [length] in Hn.
  apply Forall_cons in Hu as [H0 Ht]. cbn [validateUTF8]. destruct (Z.ltb_spec s0 0x80).
  { apply (outcome_char [s0]); [exists s0|apply IH; [lia|done]]. unfold is_u8 in H0. split; [unfold scalar; lia|]. unfold utf8_encode. by replace (s0 <? 0x80) with true by lia. }
  ranges H0. case_if E2.
  { destruct t as [|s1 t]; [by apply outcome_end; cbn; lia|]. apply Forall_cons in Ht as [H1 Ht]. ranges H1. case_if Eb; [done|].
    apply (outcome_char [s0; s1]); [apply encode2; lia|apply IH; [cbn in Hn; lia|done]]. }
  case_if E3.
  { destruct t as [|s1 t]; [by apply outcome_end; cbn; lia|]. apply Forall_cons in Ht as [H1 Ht]. ranges H1. case_if Eb; [done|].
    destruct t as [|s2 t]; [by apply outcome_end; cbn; lia|]. apply Forall_cons in Ht as [H2 Ht]. unfold validateUTF8_3. ranges H1. ranges H2. case_if Ec; [done|].
    apply (outcome_char [s0; s1; s2]); [apply encode3; lia|apply IH; [cbn in Hn; lia|done]]. }
  case_if E4; [|done].
  destruct t as [|s1 t]; [by apply outcome_end; cbn; lia|]. apply Forall_cons in Ht as [H1 Ht]. ranges H1. case_if Eb; [done|].
  destruct t as [|s2 t]; [by apply outcome_end; cbn; lia|]. apply Forall_cons in Ht as [H2 Ht]. ranges H2. case_if Ec; [done|].
  destruct t as [|s3 t]; [by apply outcome_end; cbn; lia|]. apply Forall_cons in Ht as [H3 Ht]. unfold validateUTF8_4. ranges H1. ranges H3. case_if Ed; [done|].
  apply (outcome_char [s0; s1; s2; s3]); [apply encode4; lia|apply IH; [cbn in Hn; lia|done]].
Qed.

(** C14: The check of a URI accepts exactly the UTF-8 encodings of Unicode scalar
    values other than U+FFFE and U+FFFF. On other bytes it answers false or reads
    outside of the vector, and the latter only if what is left after a valid part are
    at most three bytes. *)
Theorem validateUTF8_correct u : bytesOk u ->
  (@validateUTF8 unit u = Ret true <-> valid_utf8 u) /\ utf8_outcome u (@validateUTF8 unit u).
Proof.
  intros Hu. pose proof (@validate_decode unit (length u) u (le_n _) Hu) as Ho. split; [|done]. split.
  - intros E. by rewrite E in Ho.
  - intros (cs & Hcs & ->). by apply validate_utf8.
Qed.

Lemma validateUTF8_correct_witness : valid_utf8 [0xE2; 0x82; 0xAC; 0x31] /\ @validateUTF8 unit [0x31; 0xE2] = Undef UB_oob.
Proof.
  split; [|reflexivity].
  exact (proj1 (proj1 (validateUTF8_correct [0xE2; 0x82; 0xAC; 0x31] ltac:(repeat constructor; discriminate))) eq_refl).
Defined.
