(* ===== verification/StAmount.v ===== *)
(** * Ledger amounts (src/src/ripple/protocol/STAmount.h, impl/STAmount.cpp, impl/Rate2.cpp)

    An [STAmount] is a number of drops or an amount of an issued currency. This file
    has the comparison, the sum and the product with a transfer rate. [sw] is
    [getSTNumberSwitchover()]: with it the arithmetic of issued currencies is that of
    [IOUAmount] on [Number], without it the older code truncates. *)

From S2P Require Import Prelude HookEnum Number IOUAmount Rewards.

(** [STAmount]: drops, or an issued currency. *)
Inductive st_amount :=
| Native (drops : Z)
| Iou (negative : bool) (mantissa exponent currency issuer : Z).
#[global] Instance st_amount_eq_dec : EqDecision st_amount.
Proof. solve_decision. Defined.

Definition am_native (a : st_amount) : bool := match a with Native _ => true | Iou _ _ _ _ _ => false end.
Definition am_negative (a : st_amount) : bool := match a with Native d => d <? 0 | Iou n _ _ _ _ => n end.
Definition am_mantissa (a : st_amount) : Z := match a with Native d => Z.abs d | Iou _ m _ _ _ => m end.
Definition am_exponent (a : st_amount) : Z := match a with Native _ => 0 | Iou _ _ e _ _ => e end.
Definition am_currency (a : st_amount) : Z := match a with Native _ => 0 | Iou _ _ _ c _ => c end.
Definition am_issuer (a : st_amount) : Z := match a with Native _ => 0 | Iou _ _ _ _ i => i end.

(** [issue()]: the issuer does not matter for the native currency. *)
Definition same_issue (a b : st_amount) : bool :=
  match a, b with
  | Native _, Native _ => true
  | Iou _ _ _ c i, Iou _ _ _ c' i' => (c =? c') && (i =? i')
  | _, _ => false
  end.

Definition areComparable (a b : st_amount) : bool :=
  Bool.eqb (am_native a) (am_native b) && (am_currency a =? am_currency b).

(** [operator<] *)
Definition amount_lt {E} (lhs rhs : st_amount) : outcome E bool :=
  if negb (areComparable lhs rhs) then Throw runtime_error
  else if negb (Bool.eqb (am_negative lhs) (am_negative rhs)) then Ret (am_negative lhs)
  else if am_mantissa lhs =? 0 then Ret (if am_negative rhs then false else negb (am_mantissa rhs =? 0))
  else if am_mantissa rhs =? 0 then Ret false
  else if am_exponent rhs <? am_exponent lhs then Ret (am_negative lhs)
  else if am_exponent lhs <? am_exponent rhs then Ret (negb (am_negative lhs))
  else if am_mantissa rhs <? am_mantissa lhs then Ret (am_negative lhs)
  else if am_mantissa lhs <? am_mantissa rhs then Ret (negb (am_negative lhs))
  else Ret false.

Definition cMaxNativeN : Z := 100000000000000000.
Definition isLegalNet (a : st_amount) : bool := negb (am_native a) || (am_mantissa a <=? cMaxNativeN).
Definition signum (a : st_amount) : Z := if am_mantissa a =? 0 then 0 else if am_negative a then -1 else 1.

(** ** Sums *)

(** [zeroed()] *)
Definition zeroed (a : st_amount) : st_amount :=
  match a with Native _ => Native 0 | Iou _ _ _ c i => Iou false 0 (-100) c i end.

(** [mValue /= 10] until it fits. *)
Fixpoint amount_down {E} (fuel : nat) (m e : Z) : outcome E (Z * Z) :=
  if IOU_maxMantissa <? m then
    match fuel with
    | O => Timeout
    | S fuel => if IOU_maxExponent <=? e then Throw runtime_error else amount_down fuel (m / 10) (e + 1)
    end
  else Ret (m, e).

(** [operator=(IOUAmount)] on an amount of the currency [c] of the issuer [i]. *)
Definition of_iou (c i : Z) (x : IOUAmount) : st_amount :=
  Iou (iou_mantissa x <? 0) (Z.abs (iou_mantissa x)) (iou_exponent x) c i.

(** The constructor of an issued amount, with [canonicalize]. *)
Definition issued {E} (sw : bool) (c i mantissa exponent : Z) (negative : bool) : outcome E st_amount :=
  if sw then
    let* x := IOU_make sw to_nearest (if negative then - s64 mantissa else s64 mantissa) exponent in
    Ret (of_iou c i x)
  else if mantissa =? 0 then Ret (Iou false 0 (-100) c i)
  else
    let* '(m, e) := iou_up 20 mantissa exponent in
    let* '(m, e) := amount_down 20 m e in
    if (e <? IOU_minExponent) || (m <? IOU_minMantissa) then Ret (Iou false 0 (-100) c i)
    else if IOU_maxExponent <? e then Throw runtime_error
    else Ret (Iou negative m e c i).

(** [iou()] of an issued amount. *)
Definition am_signed (a : st_amount) : Z := if am_negative a then - am_mantissa a else am_mantissa a.
Definition iou {E} (sw : bool) (a : st_amount) : outcome E IOUAmount := IOU_make sw to_nearest (am_signed a) (am_exponent a).

(** [operator-] of one amount. *)
Definition amount_neg (a : st_amount) : st_amount :=
  match a with
  | Native d => Native (- d)
  | Iou n m e c i => if m =? 0 then a else Iou (negb n) m e c i
  end.

(** The sum of issued amounts other than zero before [Number]. *)
Definition old_sum {E} (v1 v2 : st_amount) : outcome E st_amount :=
  let vv1 := quot10 (Z.to_nat (am_exponent v2 - am_exponent v1)) (am_signed v1) in
  let vv2 := quot10 (Z.to_nat (am_exponent v1 - am_exponent v2)) (am_signed v2) in
  let ov1 := Z.max (am_exponent v1) (am_exponent v2) in
  let fv := vv1 + vv2 in
  if (-10 <=? fv) && (fv <=? 10) then Ret (zeroed v1)
  else issued false (am_currency v1) (am_issuer v1) (Z.abs fv) ov1 (fv <? 0).

(** [operator+] and [operator-] *)
Definition amount_add {E} (sw : bool) (v1 v2 : st_amount) : outcome E st_amount :=
  if negb (areComparable v1 v2) then Throw runtime_error
  else if signum v2 =? 0 then Ret v1
  else
    match v1, v2 with
    | Native d1, Native d2 => let* s := drops_add d1 d2 in Ret (Native s)
    | _, _ =>
      if signum v1 =? 0 then issued sw (am_currency v1) (am_issuer v1) (am_mantissa v2) (am_exponent v2) (am_negative v2)
      else if sw then
        let* x := iou sw v1 in
        let* y := iou sw v2 in
        let* z := IOU_add sw to_nearest x y in
        Ret (of_iou (am_currency v1) (am_issuer v1) z)
      else old_sum v1 v2
    end.
Definition amount_sub {E} (sw : bool) (v1 v2 : st_amount) : outcome E st_amount := amount_add sw v1 (amount_neg v2).

(** ** Products *)

Definition tenTo14 : Z := 100000000000000.

Definition muldiv_round {E} (multiplier multiplicand divisor rounding : Z) : outcome E Z :=
  let ret := u128 (multiplier * multiplicand + rounding) / divisor in
  if 2 ^ 64 - 1 <? ret then Throw overflow_error else Ret ret.

(** [canonicalizeRound] of an issued amount. *)
Fixpoint shrink_above {E} (fuel : nat) (value offset : Z) : outcome E (Z * Z) :=
  if 10 * IOU_maxMantissa <? value then
    match fuel with O => Timeout | S fuel => shrink_above fuel (value / 10) (offset + 1) end
  else Ret (value, offset).
Definition canonicalizeRound {E} (value offset : Z) : outcome E (Z * Z) :=
  if IOU_maxMantissa <? value then
    let* '(value, offset) := shrink_above 20 value offset in
    Ret ((value + 9) / 10, offset + 1)
  else Ret (value, offset).

(** [mulRound] of issued amounts, for the currency [c] of the issuer [i]. *)
Definition mulRound {E} (sw : bool) (v1 v2 : st_amount) (c i : Z) (roundUp : bool) : outcome E st_amount :=
  if (signum v1 =? 0) || (signum v2 =? 0) then Ret (Iou false 0 (-100) c i)
  else
    let resultNegative := negb (Bool.eqb (am_negative v1) (am_negative v2)) in
    let away := negb (Bool.eqb resultNegative roundUp) in
    let* amount := muldiv_round (am_mantissa v1) (am_mantissa v2) tenTo14 (if away then tenTo14 - 1 else 0) in
    let offset := am_exponent v1 + am_exponent v2 + 14 in
    let* '(amount, offset) := if away then canonicalizeRound amount offset else Ret (amount, offset) in
    let* result := issued sw c i amount offset resultNegative in
    if roundUp && negb resultNegative && (signum result =? 0) then issued sw c i IOU_minMantissa IOU_minExponent resultNegative
    else Ret result.

Definition QUALITY_ONE : Z := 1000000000.

(** [multiplyRound]: the rate as an amount of no currency ([noIssue()] has currency 1 and issuer 1). *)
Definition multiplyRound {E} (sw : bool) (amount : st_amount) (rate : Z) (roundUp : bool) : outcome E st_amount :=
  if rate =? QUALITY_ONE then Ret amount
  else
    let* r := issued sw 1 1 rate (-9) false in
    mulRound sw amount r (am_currency amount) (am_issuer amount) roundUp.
