(* ===== verification/UriToken.v ===== *)
(** * URI tokens (src/src/ripple/app/tx/impl/URIToken.cpp)

    The transactor of the five transactions on URI tokens: minting, burning, offers
    and sales. A token is an object of the ledger in the directory of its owner. The
    balances of issued currencies are trust lines: what the transactor asks of them is
    the class [IouOps] on a type [Lines]. The key of a
    token is a hash of issuer and URI, the class [UriKeylets]. [doApply] works on a
    sandbox: [Exit] is a result after which the ledger is as before, [Ret] the ledger
    after [tesSUCCESS]. *)

From S2P Require Import Prelude HookEnum LedgerDir HookState Rewards Utf8 StAmount.

(** ** Currencies *)

Definition badCurrencies : list Z :=
  [0x7861680000000000; 0x7861480000000000; 0x7841680000000000; 0x7841480000000000;
   0x5861680000000000; 0x5861480000000000; 0x5841680000000000; 0x5841480000000000].
Definition isBadCurrency (c : Z) : bool := bool_decide (c ∈ badCurrencies).

(** ** Transactions *)

(** The fields of each type, as the formats require them. *)
Inductive uri_op :=
| URITOKEN_MINT (URI : list Z) (Digest : option Z) (Amount : option st_amount) (Destination : option Z)
| URITOKEN_BURN (URITokenID : Z)
| URITOKEN_BUY (URITokenID : Z) (Amount : st_amount)
| URITOKEN_CREATE_SELL_OFFER (URITokenID : Z) (Amount : st_amount) (Destination : option Z)
| URITOKEN_CANCEL_SELL_OFFER (URITokenID : Z).

Record uri_tx := mkUriTx { uo_Account : Z; uo_Flags : Z; uo_Fee : Z; uo_op : uri_op }.

Definition op_Amount (o : uri_op) : option st_amount :=
  match o with
  | URITOKEN_MINT _ _ a _ => a
  | URITOKEN_BUY _ a | URITOKEN_CREATE_SELL_OFFER _ a _ => Some a
  | _ => None
  end.
Definition op_Destination (o : uri_op) : option Z :=
  match o with URITOKEN_MINT _ _ _ d | URITOKEN_CREATE_SELL_OFFER _ _ d => d | _ => None end.
Definition op_URI (o : uri_op) : option (list Z) := match o with URITOKEN_MINT u _ _ _ => Some u | _ => None end.
Definition op_URITokenID (o : uri_op) : option Z :=
  match o with
  | URITOKEN_MINT _ _ _ _ => None
  | URITOKEN_BURN id | URITOKEN_BUY id _ | URITOKEN_CREATE_SELL_OFFER id _ _ | URITOKEN_CANCEL_SELL_OFFER id => Some id
  end.
Definition is_buy (o : uri_op) : bool := match o with URITOKEN_BUY _ _ => true | _ => false end.
Definition is_mint (o : uri_op) : bool := match o with URITOKEN_MINT _ _ _ _ => true | _ => false end.

Definition tfBurnable : Z := 1.
Definition lsfBurnable : Z := 1.
(** [~(tfUniversal | tfBurnable)] and [~tfUniversal], where [tfUniversal] is the highest bit. *)
Definition tfURITokenMintMask : Z := 0x7FFFFFFE.
Definition tfURITokenNonMintMask : Z := 0x7FFFFFFF.

(** ** preflight *)

(** The checks of the amount. *)
Definition amount_ok (o : uri_op) : ter :=
  match op_Amount o with
  | None => tesSUCCESS
  | Some amt =>
    if negb (isLegalNet amt) || (signum amt <? 0) then temBAD_AMOUNT
    else if isBadCurrency (am_currency amt) then temBAD_CURRENCY
    else if (signum amt =? 0) && bool_decide (op_Destination o = None) && negb (is_buy o) then temMALFORMED
    else tesSUCCESS
  end.

(** The checks of the URI. *)
Definition uri_ok {E} (o : uri_op) : outcome E bool :=
  match op_URI o with
  | None => Ret true
  | Some uri => if (lenZ uri <? 1) || (256 <? lenZ uri) then Ret false else validateUTF8 uri
  end.

(** [p1] and [p2] are the results of [preflight1] and [preflight2]. *)
Definition uri_preflight (featureURIToken fixV1 : bool) (p1 p2 : ter) (tx : uri_tx) : outcome ter unit :=
  let o := uo_op tx in
  if negb featureURIToken then Exit temDISABLED
  else if negb (isTesSuccess p1) then Exit p1
  else if negb (isTesSuccess (amount_ok o)) then Exit (amount_ok o)
  else if fixV1 && bool_decide (is_Some (op_Destination o)) && bool_decide (op_Amount o = None) then Exit temMALFORMED
  else
    let* ok := uri_ok o in
    if negb ok then Exit temMALFORMED
    else if negb (Z.land (uo_Flags tx) (if is_mint o then tfURITokenMintMask else tfURITokenNonMintMask) =? 0) then Exit temINVALID_FLAG
    else if bool_decide (op_Destination o = Some (uo_Account tx)) then Exit temREDUNDANT
    else if isTesSuccess p2 then Ret tt else Exit p2.

(** ** The ledger *)

(** [ltURI_TOKEN] *)
Record token_sle := mkToken {
  tk_Owner : Z;
  tk_Issuer : Z;
  tk_URI : list Z;
  tk_Digest : option Z;
  tk_Flags : Z;
  tk_Amount : option st_amount;
  tk_Destination : option Z;
  tk_OwnerNode : Z
}.

Definition set_offer (amount : option st_amount) (dest : option Z) (t : token_sle) : token_sle :=
  mkToken (tk_Owner t) (tk_Issuer t) (tk_URI t) (tk_Digest t) (tk_Flags t) amount dest (tk_OwnerNode t).
Definition set_owner (owner node : Z) (t : token_sle) : token_sle :=
  mkToken owner (tk_Issuer t) (tk_URI t) (tk_Digest t) (tk_Flags t) (tk_Amount t) (tk_Destination t) node.

(** The view: amendments, whether the ledger is open, fees, account roots, tokens,
    the directory of each owner, and the trust lines. *)
Record token_view (Lines : Type) := mkTView {
  tw_fixXahauV1 : bool;
  tw_fixPageCap : bool;
  tw_open : bool;
  tw_fees : Fees;
  tw_accounts : gmap Z account_root;
  tw_tokens : gmap Z token_sle;
  tw_ownerDirs : gmap Z directory;
  tw_lines : Lines
}.
Arguments mkTView {_}.
Arguments tw_fixXahauV1 {_}.
Arguments tw_fixPageCap {_}.
Arguments tw_open {_}.
Arguments tw_fees {_}.
Arguments tw_accounts {_}.
Arguments tw_tokens {_}.
Arguments tw_ownerDirs {_}.
Arguments tw_lines {_}.

(** What the transactor asks of trust lines: the funds of an account in the currency
    of an amount, whether two parties may exchange a currency, the transfer of an
    amount; and, for the sales before [fixXahauV1], the balance of the line between an
    account and an issuer, the creation of a line, the transfer rate of an issuer and
    the switch of the arithmetic. *)
Class IouOps (Lines : Type) := {
  accountFunds : token_view Lines -> Z -> st_amount -> st_amount;
  trustTransferAllowed : token_view Lines -> Z -> Z -> st_amount -> ter;
  rippleSend : token_view Lines -> Z -> Z -> st_amount -> ter * token_view Lines;
  (** account, issuer, currency *)
  line_Balance : token_view Lines -> Z -> Z -> Z -> option st_amount;
  set_line_Balance : token_view Lines -> Z -> Z -> Z -> st_amount -> token_view Lines;
  (** is the destination low, issuer, destination, no ripple, balance *)
  trustCreate : token_view Lines -> bool -> Z -> Z -> bool -> st_amount -> ter * token_view Lines;
  transferRate : token_view Lines -> Z -> Z;
  getSTNumberSwitchover : bool
}.

(** The hash of issuer and URI. *)
Class UriKeylets := { keylet_uritoken : Z -> list Z -> Z }.

Definition lsfURITokenIssuer : Z := 0x40000000.

Definition set_AccountFlags (f : Z) (r : account_root) : account_root :=
  mkAccount (Balance r) (OwnerCount r) (HookStateCount r) (HookNamespaces r) f (TouchCount r).
Definition with_Balance (b : Z) (r : account_root) : account_root :=
  mkAccount b (OwnerCount r) (HookStateCount r) (HookNamespaces r) (AccountFlags r) (TouchCount r).

Section Transactor.
Context {Lines : Type} `{IouOps Lines} `{UriKeylets}.
Abbreviation view := (token_view Lines).

Definition set_tw_accounts (m : gmap Z account_root) (v : view) : view :=
  mkTView (tw_fixXahauV1 v) (tw_fixPageCap v) (tw_open v) (tw_fees v) m (tw_tokens v) (tw_ownerDirs v) (tw_lines v).
Definition set_tw_tokens (m : gmap Z token_sle) (v : view) : view :=
  mkTView (tw_fixXahauV1 v) (tw_fixPageCap v) (tw_open v) (tw_fees v) (tw_accounts v) m (tw_ownerDirs v) (tw_lines v).
Definition set_ownerDir (a : Z) (d : directory) (v : view) : view :=
  mkTView (tw_fixXahauV1 v) (tw_fixPageCap v) (tw_open v) (tw_fees v) (tw_accounts v) (tw_tokens v) (<[a := d]> (tw_ownerDirs v)) (tw_lines v).
Definition ownerDir (v : view) (a : Z) : directory := default ∅ (tw_ownerDirs v !! a).

(** A change of the account root [a]. *)
Definition update_account (a : Z) (f : account_root -> account_root) (v : view) : view :=
  set_tw_accounts (alter f a (tw_accounts v)) v.

(** [dirInsert] and [dirRemove] on the directory of an owner. *)
Definition insert_entry (a id : Z) (v : view) : outcome ter (Z * view) :=
  let* '(page, d) := dirInsert (tw_fixPageCap v) (ownerDir v a) id in
  match page with
  | None => Exit tecDIR_FULL
  | Some page => Ret (page, set_ownerDir a d v)
  end.
Definition remove_entry (a page id : Z) (v : view) : outcome ter (bool * view) :=
  let* '(ok, d) := dirRemove (ownerDir v a) page id true in
  Ret (ok, set_ownerDir a d v).

(** [accountSend]; an account with number zero is none. *)
Definition accountSend (v : view) (from to : Z) (amount : st_amount) : outcome ter (ter * view) :=
  if (signum amount =? 0) || (from =? to) then Ret (tesSUCCESS, v)
  else
    match amount with
    | Iou _ _ _ _ _ => Ret (rippleSend v from to amount)
    | Native drops =>
      let sender := if from =? 0 then None else tw_accounts v !! from in
      let* '(terResult, v) :=
        match sender with
        | Some s =>
          if Balance s <? drops then Ret (if tw_open v then telFAILED_PROCESSING else tecFAILED_PROCESSING, v)
          else
            let* b := drops_add (Balance s) (- drops) in
            Ret (tesSUCCESS, update_account from (with_Balance b) v)
        | None => Ret (tesSUCCESS, v)
        end in
      let receiver := if to =? 0 then None else tw_accounts v !! to in
      match isTesSuccess terResult, receiver with
      | true, Some r =>
        let* b := drops_add (Balance r) drops in
        Ret (terResult, update_account to (with_Balance b) v)
      | _, _ => Ret (terResult, v)
      end
    end.

(** ** preclaim *)

(** The reserve, the fee and the price must be covered by [balance]. *)
Definition covers_price (v : view) (sle : account_root) (fee price balance : Z) : outcome ter unit :=
  let needed := accountReserve (tw_fees v) (u32 (OwnerCount sle + 1)) in
  let* s := drops_add needed fee in
  if s <? needed then Exit tecINTERNAL
  else
    let needed := s in
    let* s := drops_add needed price in
    if s <? needed then Exit tecINTERNAL
    else if balance <? s then Exit tecINSUFFICIENT_FUNDS
    else Ret tt.

(** [purchaseAmount > availableFunds] *)
Definition funds_ok (v : view) (acc : Z) (purchaseAmount : st_amount) : outcome ter unit :=
  let* less := amount_lt (accountFunds v acc purchaseAmount) purchaseAmount in
  if less then Exit tecINSUFFICIENT_FUNDS else Ret tt.

(** The checks of a purchase. *)
Definition preclaim_buy (v : view) (tx : uri_tx) (sle sleOwner : account_root) (t : token_sle) (purchaseAmount : st_amount) : outcome ter unit :=
  let acc := uo_Account tx in
  if acc =? tk_Owner t then Exit tecCANT_ACCEPT_OWN_NFTOKEN_OFFER
  else
    match tk_Amount t with
    | None => Exit tecNO_PERMISSION
    | Some saleAmount =>
      if match tk_Destination t with Some dest => negb (dest =? acc) | None => false end then Exit tecNO_PERMISSION
      else if negb (same_issue purchaseAmount saleAmount) then Exit temBAD_CURRENCY
      else
        let* less := amount_lt purchaseAmount saleAmount in
        if less then Exit tecINSUFFICIENT_PAYMENT
        else if tw_fixXahauV1 v then
          match purchaseAmount, saleAmount with
          | Native price, Native _ => covers_price v sle (uo_Fee tx) price (Balance sle)
          | Iou _ _ _ _ _, Iou _ _ _ _ _ => funds_ok v acc purchaseAmount
          | _, _ => Exit tecINTERNAL
          end
        else
          match purchaseAmount, saleAmount with
          | Native price, Native _ =>
            let* s := drops_add (Balance sleOwner) (- uo_Fee tx) in
            if s <? price then Exit tecINSUFFICIENT_FUNDS else Ret tt
          | _, _ => funds_ok v acc purchaseAmount
          end
    end.

Definition uri_preclaim (v : view) (tx : uri_tx) : outcome ter unit :=
  let acc := uo_Account tx in
  let* token :=
    match op_URITokenID (uo_op tx) with
    | None => Ret None
    | Some id =>
      match tw_tokens v !! id with
      | None => Exit tecNO_ENTRY
      | Some t =>
        match tw_accounts v !! tk_Owner t with
        | None => Exit tecNO_ENTRY
        | Some sleOwner => Ret (Some (t, sleOwner))
        end
      end
    end in
  match tw_accounts v !! acc with
  | None => Exit tefINTERNAL
  | Some sle =>
    match uo_op tx, token with
    | URITOKEN_MINT uri _ _ _, _ =>
      if bool_decide (is_Some (tw_tokens v !! keylet_uritoken acc uri)) then Exit tecDUPLICATE else Ret tt
    | URITOKEN_BURN _, Some (t, _) =>
      if (tk_Flags t =? lsfBurnable) && (acc =? tk_Issuer t) then Ret tt
      else if acc =? tk_Owner t then Ret tt
      else Exit tecNO_PERMISSION
    | URITOKEN_BUY _ purchaseAmount, Some (t, sleOwner) => preclaim_buy v tx sle sleOwner t purchaseAmount
    | URITOKEN_CANCEL_SELL_OFFER _, Some (t, _) => if acc =? tk_Owner t then Ret tt else Exit tecNO_PERMISSION
    | URITOKEN_CREATE_SELL_OFFER _ amount _, Some (t, _) =>
      if negb (acc =? tk_Owner t) then Exit tecNO_PERMISSION
      else if negb (am_native amount) && negb (bool_decide (is_Some (tw_accounts v !! am_issuer amount))) then Exit tecNO_ISSUER
      else Ret tt
    | _, None => Undef UB_null
    end
  end.

(** ** doApply *)

(** The offer is gone and [acc] owns the token. *)
Definition sold (acc page : Z) (t : token_sle) : token_sle := set_owner acc page (set_offer None None t).

Definition hasSufficientReserve (v : view) (a : Z) : bool :=
  match tw_accounts v !! a with
  | Some sle => accountReserve (tw_fees v) (OwnerCount sle) <=? Balance sle
  | None => false
  end.

Definition apply_mint (v : view) (tx : uri_tx) (uri : list Z) (digest : option Z) (saleAmount : option st_amount) (dest : option Z)
    : outcome ter view :=
  let acc := uo_Account tx in
  let kl := keylet_uritoken acc uri in
  if bool_decide (is_Some (tw_tokens v !! kl)) then Exit tecDUPLICATE
  else if bool_decide (is_Some dest) && bool_decide (saleAmount = None) then Exit tefINTERNAL
  else
    let flags := if negb (Z.land (uo_Flags tx) tfBurnable =? 0) then tfBurnable else 0 in
    let* '(page, v) := insert_entry acc kl v in
    let v := set_tw_tokens (<[kl := mkToken acc acc uri digest flags saleAmount dest page]> (tw_tokens v)) v in
    let v := update_account acc (fun sle => set_AccountFlags (Z.lor (AccountFlags sle) lsfURITokenIssuer) sle) v in
    Ret (update_account acc (fun sle => adjustOwnerCount sle 1) v).

(** The sale with [fixXahauV1]. *)
Definition apply_buy (prior : Z) (v : view) (tx : uri_tx) (sle : account_root) (id : Z) (t : token_sle) (purchaseAmount saleAmount : st_amount)
    : outcome ter view :=
  let acc := uo_Account tx in
  let owner := tk_Owner t in
  let* less := amount_lt purchaseAmount saleAmount in
  if less then Exit tecINSUFFICIENT_PAYMENT
  else
    let* _ :=
      match purchaseAmount with
      | Native price => covers_price v sle (uo_Fee tx) price prior
      | Iou _ _ _ _ _ =>
        let result := trustTransferAllowed v acc owner purchaseAmount in
        if negb (isTesSuccess result) then Exit result else funds_ok v acc purchaseAmount
      end in
    let* '(result, v) := accountSend v acc owner purchaseAmount in
    if negb (isTesSuccess result) then Exit result
    else
      let* '(newPage, v) := insert_entry acc id v in
      let* '(ok, v) := remove_entry owner (tk_OwnerNode t) id v in
      if negb ok then Exit tefBAD_LEDGER
      else
        let v := update_account owner (fun sle => adjustOwnerCount sle (-1)) v in
        let v := update_account acc (fun sle => adjustOwnerCount sle 1) v in
        let v := set_tw_tokens (<[id := sold acc newPage t]> (tw_tokens v)) v in
        if negb (hasSufficientReserve v acc) then Exit tecINSUFFICIENT_RESERVE
        else if negb (hasSufficientReserve v owner) then Exit tecINSUF_RESERVE_SELLER
        else Ret v.

(** The sale without it. First the balances of both sides, before and after, and for
    an issued currency the amount for the seller and the balances of the lines. *)
Record old_balances := mkOld {
  ob_dstAmt : st_amount;
  ob_initSeller : st_amount;
  ob_finSeller : st_amount;
  ob_initBuyer : st_amount;
  ob_finBuyer : st_amount;
  ob_sleDstLine : option st_amount;
  ob_sleSrcLine : option st_amount
}.

Definition old_native_balances (tx : uri_tx) (sle sleOwner : account_root) (price : Z) (saleAmount : st_amount) : outcome ter old_balances :=
  let* less := amount_lt (Native price) saleAmount in
  if less then Exit tecINSUFFICIENT_PAYMENT
  else
    let* s := drops_add (Balance sleOwner) (- uo_Fee tx) in
    if s <? price then Exit tecINSUFFICIENT_FUNDS
    else
      let* finSellerBal := drops_add (Balance sleOwner) price in
      let* finBuyerBal := drops_add (Balance sle) (- price) in
      Ret (mkOld (Native price) (Native (Balance sleOwner)) (Native finSellerBal) (Native (Balance sle)) (Native finBuyerBal) None None).

(** The balance of a line as its account sees it. *)
Definition oriented (low : bool) (a : st_amount) : st_amount := if low then a else amount_neg a.

(** What the seller receives. *)
Definition old_dstAmt (v : view) (buyer seller : Z) (purchaseAmount : st_amount) : outcome ter st_amount :=
  let issuer := am_issuer purchaseAmount in
  let xferRate := transferRate v issuer in
  if negb (issuer =? seller) && negb (issuer =? buyer) && negb (xferRate =? QUALITY_ONE)
  then multiplyRound getSTNumberSwitchover purchaseAmount xferRate true
  else Ret purchaseAmount.

Definition old_iou_balances (v : view) (acc owner : Z) (sleOwner : account_root) (purchaseAmount : st_amount) : outcome ter old_balances :=
  let issuer := am_issuer purchaseAmount in
  let currency := am_currency purchaseAmount in
  let result := if issuer =? acc then tesSUCCESS else trustTransferAllowed v acc owner purchaseAmount in
  if negb (isTesSuccess result) then Exit result
  else
    let* _ := funds_ok v acc purchaseAmount in
    let sleDstLine := line_Balance v owner issuer currency in
    let sleSrcLine := line_Balance v acc issuer currency in
    if negb (issuer =? owner) && bool_decide (sleDstLine = None) && (Balance sleOwner <? accountReserve (tw_fees v) (u32 (OwnerCount sleOwner + 1)))
    then Exit tecNO_LINE_INSUF_RESERVE
    else
      let* '(initBuyerBal, finBuyerBal) :=
        if issuer =? acc then Ret (zeroed purchaseAmount, zeroed purchaseAmount)
        else
          match sleSrcLine with
          | None => Undef UB_null
          | Some b =>
            let init := oriented (acc <? issuer) b in
            let* fin := amount_sub getSTNumberSwitchover init purchaseAmount in
            Ret (init, fin)
          end in
      let* dstAmt := old_dstAmt v acc owner purchaseAmount in
      let initSellerBal := match sleDstLine with None => zeroed purchaseAmount | Some b => oriented (owner <? issuer) b end in
      let* finSellerBal := amount_add getSTNumberSwitchover initSellerBal dstAmt in
      Ret (mkOld dstAmt initSellerBal finSellerBal initBuyerBal finBuyerBal sleDstLine sleSrcLine).

(** The sanity checks of the balances. *)
Definition old_sane (b : old_balances) : outcome ter unit :=
  let* less := amount_lt (ob_finSeller b) (ob_initSeller b) in
  if less then Exit tecINTERNAL
  else
    let* more := amount_lt (ob_initBuyer b) (ob_finBuyer b) in
    if more then Exit tecINTERNAL
    else if signum (ob_finBuyer b) <? 0 then Exit tecINTERNAL
    else if signum (ob_finSeller b) <? 0 then Exit tecINTERNAL
    else Ret tt.

Definition lsfDefaultRipple : Z := 0x00800000.

(** The line of the seller, if one is needed; the entry of the buyer is taken back
    when it cannot be created. *)
Definition old_line (v : view) (acc owner id newPage : Z) (sleOwner : account_root) (purchaseAmount : st_amount) (b : old_balances)
    : outcome ter (bool * view) :=
  let issuer := am_issuer purchaseAmount in
  if am_native purchaseAmount || bool_decide (is_Some (ob_sleDstLine b)) || (issuer =? owner) then Ret (false, v)
  else
    let '(ter, v) := trustCreate v (owner <? issuer) issuer owner (Z.land (AccountFlags sleOwner) lsfDefaultRipple =? 0) (ob_dstAmt b) in
    if isTesSuccess ter then Ret (true, v)
    else
      let* '(ok, _) := remove_entry acc newPage id v in
      Exit (if ok then ter else tefBAD_LEDGER).

(** The new balance of a party: its coins, or its line if it has one. *)
Definition old_settle (a : Z) (purchaseAmount fin : st_amount) (line : option st_amount) (without : bool) (v : view) : outcome ter view :=
  match fin with
  | Native drops => Ret (update_account a (with_Balance drops) v)
  | Iou _ _ _ _ _ =>
    let issuer := am_issuer purchaseAmount in
    match line with
    | Some _ => Ret (set_line_Balance v a issuer (am_currency purchaseAmount) (oriented (a <? issuer) fin))
    | None => if without then Ret v else Exit tecINTERNAL
    end
  end.

Definition old_sale (v : view) (tx : uri_tx) (sle sleOwner : account_root) (id : Z) (t : token_sle) (purchaseAmount saleAmount : st_amount)
    : outcome ter view :=
  let acc := uo_Account tx in
  let owner := tk_Owner t in
  let issuer := am_issuer purchaseAmount in
  let* b :=
    match purchaseAmount with
    | Native price => old_native_balances tx sle sleOwner price saleAmount
    | Iou _ _ _ _ _ => old_iou_balances v acc owner sleOwner purchaseAmount
    end in
  let* _ := old_sane b in
  let* '(newPage, v) := insert_entry acc id v in
  let* '(lineCreated, v) := old_line v acc owner id newPage sleOwner purchaseAmount b in
  let* '(ok, v) := remove_entry owner (tk_OwnerNode t) id v in
  if negb ok then let* _ := remove_entry acc newPage id v in Exit tefBAD_LEDGER
  else
    let v := if negb lineCreated && negb (am_native purchaseAmount) then update_account owner (fun sle => adjustOwnerCount sle (-1)) v else v in
    let v := update_account acc (fun sle => adjustOwnerCount sle 1) v in
    let v := set_tw_tokens (<[id := sold acc newPage t]> (tw_tokens v)) v in
    let* v := old_settle acc purchaseAmount (ob_finBuyer b) (ob_sleSrcLine b) (issuer =? acc) v in
    old_settle owner purchaseAmount (ob_finSeller b) (ob_sleDstLine b) (lineCreated || (issuer =? owner)) v.

Definition apply_burn (v : view) (tx : uri_tx) (id : Z) (t : token_sle) : outcome ter view :=
  let acc := uo_Account tx in
  if negb (tk_Owner t =? acc) && negb ((tk_Issuer t =? acc) && negb (Z.land (tk_Flags t) lsfBurnable =? 0)) then Exit tecNO_PERMISSION
  else
    let* '(ok, v) := remove_entry (tk_Owner t) (tk_OwnerNode t) id v in
    if negb ok then Exit tefBAD_LEDGER
    else
      let v := set_tw_tokens (delete id (tw_tokens v)) v in
      Ret (update_account (if tw_fixXahauV1 v then tk_Owner t else acc) (fun sle => adjustOwnerCount sle (-1)) v).

(** The reserve for another object. *)
Definition reserve_ok (prior : Z) (v : view) (tx : uri_tx) (sle : account_root) : outcome ter unit :=
  if is_mint (uo_op tx) || is_buy (uo_op tx) then
    let reserve := accountReserve (tw_fees v) (u32 (OwnerCount sle + 1)) in
    let* afterFee := drops_add prior (- uo_Fee tx) in
    if (prior <? afterFee) || (afterFee <? reserve) then Exit tecINSUFFICIENT_RESERVE else Ret tt
  else Ret tt.

(** [prior] is [mPriorBalance], the balance before the fee. *)
Definition uri_doApply (prior : Z) (v : view) (tx : uri_tx) : outcome ter view :=
  let acc := uo_Account tx in
  match tw_accounts v !! acc with
  | None => Exit tefINTERNAL
  | Some sle =>
    let* _ := reserve_ok prior v tx sle in
    let* token :=
      match op_URITokenID (uo_op tx) with
      | None => Ret None
      | Some id =>
        match tw_tokens v !! id with
        | None => Exit tecNO_ENTRY
        | Some t =>
          match tw_accounts v !! tk_Owner t with
          | None => Exit tecNO_ENTRY
          | Some sleOwner => Ret (Some (t, sleOwner))
          end
        end
      end in
    match uo_op tx, token with
    | URITOKEN_MINT uri digest amount dest, _ => apply_mint v tx uri digest amount dest
    | URITOKEN_CANCEL_SELL_OFFER id, Some (t, _) => Ret (set_tw_tokens (<[id := set_offer None None t]> (tw_tokens v)) v)
    | URITOKEN_BUY id purchaseAmount, Some (t, sleOwner) =>
      match tk_Amount t with
      | None => Exit tecNO_PERMISSION
      | Some saleAmount =>
        if match tk_Destination t with Some dest => negb (dest =? acc) | None => false end then Exit tecNO_PERMISSION
        else if negb (same_issue purchaseAmount saleAmount) then Exit temBAD_CURRENCY
        else if tw_fixXahauV1 v then apply_buy prior v tx sle id t purchaseAmount saleAmount
        else old_sale v tx sle sleOwner id t purchaseAmount saleAmount
      end
    | URITOKEN_BURN id, Some (t, _) => apply_burn v tx id t
    | URITOKEN_CREATE_SELL_OFFER id amount txDest, Some (t, _) =>
      if negb (acc =? tk_Owner t) then Exit tecNO_PERMISSION
      else Ret (set_tw_tokens (<[id := set_offer (Some amount) txDest t]> (tw_tokens v)) v)
    | _, None => Undef UB_null
    end
  end.

(** ** The transaction *)

(** [payFee] *)
Definition payFee (v : view) (tx : uri_tx) : view := update_account (uo_Account tx) (fun sle => with_Balance (Balance sle - uo_Fee tx) sle) v.

(** The three stages; the fee is paid between the last two. *)
Definition uri_apply (featureURIToken : bool) (p1 p2 : ter) (v : view) (tx : uri_tx) : outcome ter view :=
  let* _ := uri_preflight featureURIToken (tw_fixXahauV1 v) p1 p2 tx in
  let* _ := uri_preclaim v tx in
  match tw_accounts v !! uo_Account tx with
  | None => Exit terNO_ACCOUNT
  | Some sle => uri_doApply (Balance sle) (payFee v tx) tx
  end.

End Transactor.
