(* ===== verification/UriFacts.v ===== *)
(** * URI tokens: directories and owner counts

    Every token is in the directory of its owner, at the page it remembers, and
    nowhere else; the owner count of an account counts its tokens. The steps of the
    transactor keep this, without undefined behaviour or exceptions. *)

From S2P Require Import Prelude HookEnum LedgerDir LedgerDirFacts HookState HookStateFacts Rewards MintFacts Utf8 StAmount UriToken.

(** ** Outcomes *)

(** No exception and no undefined behaviour; the value is in [Q]. *)
Definition fine {A : Type} (Q : A -> Prop) (o : outcome ter A) : Prop :=
  match o with Ret a => Q a | Exit _ => True | _ => False end.

Lemma fine_bind {A B : Type} (P : A -> Prop) (Q : B -> Prop) m k :
  fine P m -> (forall a, P a -> fine Q (k a)) -> fine Q (obind m k).
Proof. destruct m; cbn; auto. Qed.

Lemma fine_weaken {A : Type} (P Q : A -> Prop) m : fine P m -> (forall a, P a -> Q a) -> fine Q m.
Proof. destruct m; cbn; auto. Qed.

Lemma amount_lt_native {E} a b : @amount_lt E (Native a) (Native b) = Ret (a <? b).
Proof.
  unfold amount_lt, areComparable. cbn [am_native am_currency am_negative am_mantissa am_exponent Bool.eqb negb andb Z.eqb]. 
  rewrite !Z.ltb_irrefl. destruct (Z.ltb_spec a 0), (Z.ltb_spec b 0); cbn [Bool.eqb negb].
  - destruct (Z.eqb_spec (Z.abs a) 0); [lia|]. destruct (Z.eqb_spec (Z.abs b) 0); [lia|].
    destruct (Z.ltb_spec (Z.abs b) (Z.abs a)); [f_equal; lia|]. destruct (Z.ltb_spec (Z.abs a) (Z.abs b)); f_equal; lia.
  - f_equal. lia.
  - f_equal. lia.
  - destruct (Z.eqb_spec (Z.abs a) 0); [destruct (Z.eqb_spec (Z.abs b) 0); cbn; f_equal; lia|]. destruct (Z.eqb_spec (Z.abs b) 0); [f_equal; lia|].
    destruct (Z.ltb_spec (Z.abs b) (Z.abs a)); [f_equal; lia|]. destruct (Z.ltb_spec (Z.abs a) (Z.abs b)); cbn; f_equal; lia.
Qed.

(** ** Sums *)

Lemma map_sum_delete {A : Type} (f : A -> Z) (m : gmap Z A) k x : m !! k = Some x -> map_sum f (delete k m) = map_sum f m - f x.
Proof. intros Hk. rewrite <- (insert_delete_id m k x Hk) at 2. rewrite map_sum_new by apply lookup_delete_eq. lia. Qed.

Lemma map_sum_nonneg {A : Type} (f : A -> Z) (m : gmap Z A) : (forall x, 0 <= f x) -> 0 <= map_sum f m.
Proof. intros Hf. rewrite map_sum_list. induction (map_to_list m) as [|[k x] l IH]; cbn; [done|]. specialize (Hf x). lia. Qed.

(** The tokens of [a]. *)
Definition owned (T : gmap Z token_sle) (a : Z) : Z := map_sum (fun t => if decide (tk_Owner t = a) then 1 else 0) T.

Lemma owned_nonneg T a : 0 <= owned T a.
Proof. apply map_sum_nonneg. intros t. by case_decide. Qed.

Lemma owned_new T k t a : T !! k = None -> owned (<[k := t]> T) a = (if decide (tk_Owner t = a) then 1 else 0) + owned T a.
Proof. apply map_sum_new. Qed.

Lemma owned_delete T k t a : T !! k = Some t -> owned (delete k T) a = owned T a - (if decide (tk_Owner t = a) then 1 else 0).
Proof. apply map_sum_delete. Qed.

Lemma owned_insert T k t t' a : T !! k = Some t ->
  owned (<[k := t']> T) a = owned T a - (if decide (tk_Owner t = a) then 1 else 0) + (if decide (tk_Owner t' = a) then 1 else 0).
Proof. intros Hk. unfold owned. rewrite map_sum_insert, Hk. lia. Qed.

Lemma owned_pos T k t : T !! k = Some t -> 1 <= owned T (tk_Owner t).
Proof. intros Hk. pose proof (owned_delete T k t (tk_Owner t) Hk) as E. rewrite decide_True in E by done. pose proof (owned_nonneg (delete k T) (tk_Owner t)). lia. Qed.

(** ** Tokens in directories *)

(** The keys of other objects are different from those of tokens. *)
Class UriKeyletsOk `{UriKeylets} := {
  other_key : Z -> Prop;
  uritoken_other a u : ~ other_key (keylet_uritoken a u)
}.

Section Invariant.
Context {Lines : Type} `{HI : IouOps Lines} `{HK : UriKeyletsOk}.
Abbreviation view := (token_view Lines).

Record placed (D : Z -> directory) (T : gmap Z token_sle) : Prop := {
  pl_wf a : dir_wf (D a);
  pl_token id t : T !! id = Some t -> in_page (D (tk_Owner t)) (tk_OwnerNode t) id /\ ~ other_key id;
  pl_entry a p k : in_page (D a) p k -> other_key k \/ exists t, T !! k = Some t /\ tk_Owner t = a /\ tk_OwnerNode t = p
}.

Lemma placed_ext D D' T : (forall a, D' a = D a) -> placed D T -> placed D' T.
Proof.
  intros He [Ha Hb Hc]. split; [intros a; by rewrite He|intros id t; rewrite He; apply Hb|intros a p k; rewrite He; apply Hc].
Qed.

Definition dir_set (a : Z) (d : directory) (D : Z -> directory) (b : Z) : directory := if decide (b = a) then d else D b.

Lemma placed_absent D T a k : placed D T -> ~ other_key k -> (forall t, T !! k = Some t -> tk_Owner t <> a) -> forall q, ~ in_page (D a) q k.
Proof. intros Hp Hk Hn q Hin. destruct (pl_entry D T Hp a q k Hin) as [?|(t & Ht & Ho & _)]; [done|by eapply Hn]. Qed.

Lemma placed_insert D T a p k d t :
  placed D T -> T !! k = None -> ~ other_key k -> dir_wf d -> (forall q x, in_page d q x <-> in_page (D a) q x \/ (q = p /\ x = k)) ->
  tk_Owner t = a -> tk_OwnerNode t = p -> placed (dir_set a d D) (<[k := t]> T).
Proof.
  intros Hp Hk Ho Hwf Hin Ha Hn. split.
  - intros b. unfold dir_set. case_decide; [done|apply Hp].
  - intros id t' [[<- <-]|[Hne Ht]]%lookup_insert_Some.
    + split; [|done]. unfold dir_set. rewrite decide_True by done. apply Hin. by right.
    + destruct (pl_token D T Hp id t' Ht) as [Hi ?]. split; [|done]. unfold dir_set. case_decide as E; [|done]. apply Hin. left. by rewrite <- E.
  - intros b q x. unfold dir_set. destruct (decide (b = a)) as [->|Hb].
    + intros [Hx|[-> ->]]%Hin; [|right; exists t; by rewrite lookup_insert_eq].
      destruct (pl_entry D T Hp a q x Hx) as [?|(t' & Ht & ? & ?)]; [by left|]. right. exists t'. by rewrite lookup_insert_ne by congruence.
    + intros Hx. destruct (pl_entry D T Hp b q x Hx) as [?|(t' & Ht & ? & ?)]; [by left|]. right. exists t'. by rewrite lookup_insert_ne by congruence.
Qed.

Lemma placed_delete D T k t d :
  placed D T -> T !! k = Some t -> dir_wf d -> (forall q x, in_page d q x <-> in_page (D (tk_Owner t)) q x /\ x <> k) ->
  placed (dir_set (tk_Owner t) d D) (delete k T).
Proof.
  intros Hp Hk Hwf Hin. split.
  - intros b. unfold dir_set. case_decide; [done|apply Hp].
  - intros id t' [Hne Ht]%lookup_delete_Some. destruct (pl_token D T Hp id t' Ht) as [Hi ?]. split; [|done].
    unfold dir_set. case_decide as E; [|done]. apply Hin. by rewrite <- E.
  - intros b q x. unfold dir_set. destruct (decide (b = tk_Owner t)) as [->|Hb].
    + intros [Hx Hne]%Hin. destruct (pl_entry D T Hp _ q x Hx) as [?|(t' & Ht & ? & ?)]; [by left|]. right. exists t'. by rewrite lookup_delete_ne.
    + intros Hx. destruct (pl_entry D T Hp b q x Hx) as [?|(t' & Ht & Ho & ?)]; [by left|]. right. exists t'.
      rewrite lookup_delete_ne; [done|]. intros ->. rewrite Hk in Ht. by injection Ht as ->.
Qed.

(** A change of the offer. *)
Lemma placed_offer D T k t t' :
  placed D T -> T !! k = Some t -> tk_Owner t' = tk_Owner t -> tk_OwnerNode t' = tk_OwnerNode t -> placed D (<[k := t']> T).
Proof.
  intros Hp Hk Ho Hn. split; [apply Hp| |].
  - intros id u [[<- <-]|[Hne Hu]]%lookup_insert_Some; [rewrite Ho, Hn|]; by apply (pl_token D T Hp).
  - intros a p x Hx. destruct (pl_entry D T Hp a p x Hx) as [?|(u & Hu & ? & ?)]; [by left|]. right.
    destruct (decide (x = k)) as [->|]; [|exists u; by rewrite lookup_insert_ne].
    rewrite Hk in Hu. injection Hu as <-. exists t'. rewrite lookup_insert_eq. split; [done|]. split; congruence.
Qed.

(** ** The invariant *)

(** [others] counts the objects of an account that are no tokens. *)
Record tokens_inv (others : Z -> Z) (v : view) : Prop := {
  ti_placed : placed (ownerDir v) (tw_tokens v);
  ti_owner id t : tw_tokens v !! id = Some t -> is_Some (tw_accounts v !! tk_Owner t);
  ti_count a x : tw_accounts v !! a = Some x -> OwnerCount x = others a + owned (tw_tokens v) a;
  ti_others a : 0 <= others a
}.

(** Balances, counts and pages are in their ranges. *)
Record room (v : view) : Prop := {
  rm_balance a x : tw_accounts v !! a = Some x -> 0 <= Balance x <= 2 ^ 61;
  rm_count a x : tw_accounts v !! a = Some x -> 0 <= OwnerCount x /\ OwnerCount x + 1 < 2 ^ 32;
  rm_pages a p : is_Some (ownerDir v a !! p) -> p + 1 < 2 ^ 64;
  rm_fees : 0 <= reserve (tw_fees v) <= 2 ^ 60 /\ 0 <= increment (tw_fees v) <= 2 ^ 28;
  rm_zero : tw_accounts v !! 0 = None
}.

Lemma reserve_range v x : room v -> 0 <= OwnerCount x /\ OwnerCount x + 1 < 2 ^ 32 ->
  0 <= accountReserve (tw_fees v) (u32 (OwnerCount x + 1)) <= 2 ^ 61.
Proof. intros Hr Hx. destruct (rm_fees v Hr). unfold accountReserve. rewrite u32_small by lia. nia. Qed.

Lemma ownerDir_set a d (v : view) b : ownerDir (set_ownerDir a d v) b = dir_set a d (ownerDir v) b.
Proof. unfold ownerDir, dir_set. cbn [tw_ownerDirs set_ownerDir]. case_decide; subst; [by rewrite lookup_insert_eq|by rewrite lookup_insert_ne]. Qed.

(** Changes of balances and flags. *)
Lemma inv_accounts others (v v' : view) :
  tokens_inv others v -> tw_tokens v' = tw_tokens v -> tw_ownerDirs v' = tw_ownerDirs v ->
  (forall a, OwnerCount <$> tw_accounts v' !! a = OwnerCount <$> tw_accounts v !! a) -> tokens_inv others v'.
Proof.
  intros [Hp Ho Hc Hot] Ht Hd Ha. split; [|intros id t|intros a x|done]; rewrite ?Ht.
  - apply (placed_ext (ownerDir v)); [intros a; unfold ownerDir; by rewrite Hd|done].
  - intros Hid%Ho. apply (fmap_is_Some OwnerCount). rewrite Ha. by apply fmap_is_Some.
  - intros Hx. specialize (Ha a). rewrite Hx in Ha. destruct (tw_accounts v !! a) as [y|] eqn:Hy; [|done]. injection Ha as ->. by apply Hc.
Qed.

Lemma update_count a f (v : view) b : (forall x, OwnerCount (f x) = OwnerCount x) ->
  OwnerCount <$> tw_accounts (update_account a f v) !! b = OwnerCount <$> tw_accounts v !! b.
Proof.
  intros Hf. cbn [update_account set_tw_accounts tw_accounts]. destruct (decide (a = b)) as [->|]; [|by rewrite lookup_alter_ne].
  rewrite lookup_alter_eq. destruct (tw_accounts v !! b); cbn; [by rewrite Hf|done].
Qed.

(** ** The steps *)

Lemma insert_entry_fine a id (v : view) :
  room v -> dir_wf (ownerDir v a) -> (forall q, ~ in_page (ownerDir v a) q id) ->
  fine (fun r => exists d, r.2 = set_ownerDir a d v /\ dir_wf d /\
    forall q x, in_page d q x <-> in_page (ownerDir v a) q x \/ (q = r.1 /\ x = id)) (insert_entry a id v).
Proof.
  intros Hr Hwf Hn. unfold insert_entry, dirInsert.
  destruct (dirAdd_spec (E := ter) (tw_fixPageCap v) false _ id Hwf Hn (rm_pages v Hr a)) as [(p & d & -> & Hd & Hin & _)|(-> & _)]; cbn; [|done].
  by exists d.
Qed.

Lemma remove_entry_fine a page id (v : view) :
  dir_wf (ownerDir v a) -> in_page (ownerDir v a) page id ->
  fine (fun r => exists d, r = (true, set_ownerDir a d v) /\ dir_wf d /\
    forall q x, in_page d q x <-> in_page (ownerDir v a) q x /\ x <> id) (remove_entry a page id v).
Proof.
  intros Hwf Hin. unfold remove_entry. destruct (dirRemove_spec (E := ter) _ page id true Hwf Hin) as (d & -> & Hd & Hi & _). cbn. by exists d.
Qed.

Lemma covers_fine (v : view) x fee price balance :
  room v -> 0 <= OwnerCount x /\ OwnerCount x + 1 < 2 ^ 32 -> 0 <= fee <= 2 ^ 60 -> 0 <= price <= 2 ^ 60 ->
  fine (fun _ => accountReserve (tw_fees v) (u32 (OwnerCount x + 1)) + fee + price <= balance) (covers_price v x fee price balance).
Proof.
  intros Hr Hx Hf Hp. pose proof (reserve_range v x Hr Hx). unfold covers_price. rewrite !drops_add_ret by lia. cbn [obind].
  destruct (_ <? _); [done|]. rewrite drops_add_ret by lia. cbn [obind]. destruct (_ <? _); [done|]. destruct (Z.ltb_spec balance (accountReserve (tw_fees v) (u32 (OwnerCount x + 1)) + fee + price)); [done|]. cbn. lia.
Qed.

Definition add_balance (d : Z) (x : account_root) : account_root := with_Balance (Balance x + d) x.

(** The native transfer between two accounts. *)
Definition transferred (from to price : Z) (v : view) : view :=
  set_tw_accounts (alter (add_balance price) to (alter (add_balance (- price)) from (tw_accounts v))) v.

Lemma add_balance_0 x : add_balance 0 x = x.
Proof. unfold add_balance. rewrite Z.add_0_r. by destruct x. Qed.

Lemma set_accounts_id (v : view) : set_tw_accounts (tw_accounts v) v = v.
Proof. by destruct v. Qed.

Lemma set_accounts_twice m m' (v : view) : set_tw_accounts m (set_tw_accounts m' v) = set_tw_accounts m v.
Proof. done. Qed.

Lemma accountSend_native (v : view) from to price x y :
  room v -> from <> to -> tw_accounts v !! from = Some x -> tw_accounts v !! to = Some y -> 0 <= price <= 2 ^ 60 ->
  fine (fun r => isTesSuccess r.1 = true -> r.2 = transferred from to price v) (accountSend v from to (Native price)).
Proof.
  intros Hr Hne Hx Hy Hp. unfold accountSend, signum. cbn [am_mantissa am_negative]. destruct (Z.eqb_spec (Z.abs price) 0) as [E|E].
  { cbn [orb Z.eqb]. intros _. assert (price = 0) as -> by lia. unfold transferred. cbn.
    rewrite !alter_id by (intros; apply add_balance_0). by rewrite set_accounts_id. }
  replace (price <? 0) with false by lia. cbn [Z.eqb orb]. replace (from =? to) with false by lia.
  assert (from <> 0 /\ to <> 0) as [Hf Ht] by (split; intros ->; by rewrite (rm_zero v Hr) in *).
  replace (from =? 0) with false by lia. rewrite Hx. destruct (Z.ltb_spec (Balance x) price).
  { cbn [obind]. by destruct (tw_open v). }
  pose proof (rm_balance v Hr _ _ Hx). pose proof (rm_balance v Hr _ _ Hy). rewrite drops_add_ret by lia. cbn [obind isTesSuccess].
  replace (to =? 0) with false by lia. cbn [update_account set_tw_accounts tw_accounts]. rewrite lookup_alter_ne, Hy by done.
  rewrite drops_add_ret by lia. cbn. intros _. unfold transferred, update_account. cbn [set_tw_accounts tw_accounts]. rewrite set_accounts_twice. f_equal.
  rewrite (alter_ext (with_Balance (Balance x + - price)) (add_balance (- price))) by (intros z Hz; rewrite Hx in Hz; by injection Hz as <-).
  apply alter_ext. intros z. rewrite lookup_alter_ne, Hy by done. by intros [= <-].
Qed.

(** ** The operations *)

Lemma count_alter (m : gmap Z account_root) a b x d :
  alter (fun sle => adjustOwnerCount sle d) a m !! b = Some x ->
  exists y, m !! b = Some y /\ OwnerCount x = if decide (a = b) then confineOwnerCount (OwnerCount y) d else OwnerCount y.
Proof.
  destruct (decide (a = b)) as [->|].
  - rewrite lookup_alter_eq. intros (y & Hy & ->)%fmap_Some. by exists y.
  - rewrite lookup_alter_ne by done. by exists x.
Qed.

Lemma apply_mint_fine others (v : view) tx uri digest amount dest :
  tokens_inv others v -> room v -> is_Some (tw_accounts v !! uo_Account tx) ->
  fine (tokens_inv others) (apply_mint v tx uri digest amount dest).
Proof.
  intros Hi Hr Hacc. unfold apply_mint. set (acc := uo_Account tx) in *. set (kl := keylet_uritoken acc uri). case_bool_decide as Hk; [done|].
  apply eq_None_not_Some in Hk. destruct (_ && _); [done|]. set (flags := if negb _ then _ else _). clearbody flags.
  eapply fine_bind; [apply insert_entry_fine; [done|apply Hi|]|].
  { eapply placed_absent; [apply Hi|apply uritoken_other|]. intros t Ht. by rewrite Hk in Ht. }
  intros [page v1] (d & Hv & Hd & Hin). cbn [fst snd] in Hv, Hin. subst v1. cbn [fine]. split.
  - apply (placed_ext (dir_set acc d (ownerDir v))); [intros b; apply (ownerDir_set acc d v b)|].
    apply (placed_insert (ownerDir v) (tw_tokens v) acc page kl); try done; [apply Hi|apply uritoken_other].
  - cbn. intros id t. rewrite !lookup_alter_is_Some. intros [[<- <-]|[_ Ht]]%lookup_insert_Some; [done|]. by apply (ti_owner _ _ Hi id).
  - cbn. intros b x (y & Hy & ->)%count_alter. rewrite owned_new by done. cbn [tk_Owner].
    assert (exists z, tw_accounts v !! b = Some z /\ OwnerCount y = OwnerCount z) as (z & Hz & ->).
    { destruct (decide (acc = b)) as [<-|]; [|rewrite lookup_alter_ne in Hy by done; by exists y].
      rewrite lookup_alter_eq in Hy. apply fmap_Some in Hy as (z & Hz & ->). by exists z. }
    pose proof (rm_count v Hr _ _ Hz). rewrite (ti_count _ _ Hi b z Hz) in *. destruct (decide (acc = b)); [|lia].
    rewrite confineOwnerCount_inc by lia. lia.
  - apply Hi.
Qed.

Lemma apply_burn_fine others (v : view) tx id t :
  tokens_inv others v -> room v -> tw_fixXahauV1 v = true -> tw_tokens v !! id = Some t -> fine (tokens_inv others) (apply_burn v tx id t).
Proof.
  intros Hi Hr Hv1 Ht. unfold apply_burn. destruct (_ && _); [done|]. destruct (pl_token _ _ (ti_placed _ _ Hi) id t Ht) as [Hin _].
  eapply fine_bind; [apply remove_entry_fine; [apply Hi|exact Hin]|]. intros r (d & -> & Hd & Hd'). cbn [negb].
  change (tw_fixXahauV1 (set_tw_tokens _ _)) with (tw_fixXahauV1 v). rewrite Hv1. cbn [fine]. split.
  - apply (placed_ext (dir_set (tk_Owner t) d (ownerDir v))); [intros b; apply (ownerDir_set (tk_Owner t) d v b)|]. by apply placed_delete; [apply Hi|..].
  - cbn. intros id' t'. rewrite lookup_alter_is_Some. intros [_ Ht']%lookup_delete_Some. by apply (ti_owner _ _ Hi id').
  - cbn. intros b x (y & Hy & ->)%count_alter. rewrite (owned_delete _ _ t) by done. pose proof (rm_count v Hr _ _ Hy).
    rewrite (ti_count _ _ Hi b y Hy) in *. destruct (decide (tk_Owner t = b)) as [<-|]; [|lia].
    pose proof (owned_pos _ _ _ Ht). pose proof (ti_others _ _ Hi (tk_Owner t)). rewrite confineOwnerCount_dec by lia. lia.
  - apply Hi.
Qed.

Lemma inv_offer others (v : view) id t amount dest :
  tokens_inv others v -> tw_tokens v !! id = Some t -> tokens_inv others (set_tw_tokens (<[id := set_offer amount dest t]> (tw_tokens v)) v).
Proof.
  intros Hi Ht. split.
  - by apply (placed_offer _ _ id t); [apply Hi|..].
  - cbn. intros id' t' [[<- <-]|[_ Ht']]%lookup_insert_Some; [exact (ti_owner _ _ Hi id t Ht)|by apply (ti_owner _ _ Hi id')].
  - cbn. intros a x Hx. rewrite (owned_insert _ _ t) by done. cbn [tk_Owner set_offer]. rewrite (ti_count _ _ Hi a x Hx). lia.
  - apply Hi.
Qed.

(** ** A sale *)

(** The token goes from its owner to [acc] without an offer, the price the other way;
    the owner counts follow, and both keep their reserves. *)
Record sale (acc id : Z) (t : token_sle) (price : Z) (v v' : view) : Prop := {
  sl_tokens : exists page, tw_tokens v' = <[id := sold acc page t]> (tw_tokens v);
  sl_accounts : tw_accounts v' =
    alter (fun sle => adjustOwnerCount sle 1) acc (alter (fun sle => adjustOwnerCount sle (-1)) (tk_Owner t)
      (alter (add_balance price) (tk_Owner t) (alter (add_balance (- price)) acc (tw_accounts v))));
  sl_reserve : hasSufficientReserve v' acc = true /\ hasSufficientReserve v' (tk_Owner t) = true
}.

Lemma count_add (m : gmap Z account_root) a d b x : alter (add_balance d) a m !! b = Some x -> exists y, m !! b = Some y /\ OwnerCount x = OwnerCount y.
Proof.
  destruct (decide (a = b)) as [->|]; [|rewrite lookup_alter_ne by done; by exists x].
  rewrite lookup_alter_eq. intros (y & Hy & ->)%fmap_Some. by exists y.
Qed.

(** The directories, tokens and counts after a sale. *)
Lemma inv_sale others (v v' : view) acc id t price page d1 d2 :
  tokens_inv others v -> room v -> tw_tokens v !! id = Some t -> acc <> tk_Owner t -> is_Some (tw_accounts v !! acc) ->
  dir_wf d1 -> (forall q x, in_page d1 q x <-> in_page (ownerDir v acc) q x \/ (q = page /\ x = id)) ->
  dir_wf d2 -> (forall q x, in_page d2 q x <-> in_page (ownerDir v (tk_Owner t)) q x /\ x <> id) ->
  (forall b, ownerDir v' b = dir_set (tk_Owner t) d2 (dir_set acc d1 (ownerDir v)) b) ->
  tw_tokens v' = <[id := sold acc page t]> (tw_tokens v) ->
  tw_accounts v' = alter (fun sle => adjustOwnerCount sle 1) acc (alter (fun sle => adjustOwnerCount sle (-1)) (tk_Owner t)
      (alter (add_balance price) (tk_Owner t) (alter (add_balance (- price)) acc (tw_accounts v)))) ->
  tokens_inv others v'.
Proof.
  intros Hi Hr Ht Hne Hacc Hw1 Hd1 Hw2 Hd2 HD HT HA. split.
  - rewrite HT, <- insert_delete_eq. apply (placed_ext (dir_set acc d1 (dir_set (tk_Owner t) d2 (ownerDir v)))).
    { intros b. rewrite HD. unfold dir_set. repeat case_decide; congruence. }
    apply (placed_insert _ _ acc page id); try done; [by apply placed_delete; [apply Hi|..]|apply lookup_delete_eq|by apply (pl_token _ _ (ti_placed _ _ Hi) id t)|].
    intros q x. rewrite Hd1. unfold dir_set. by rewrite decide_False.
  - rewrite HT, HA. intros id' t'. rewrite !lookup_alter_is_Some. intros [[<- <-]|[_ Ht']]%lookup_insert_Some; [done|]. by apply (ti_owner _ _ Hi id').
  - rewrite HA, HT. intros b x (y & (z & (w & (u & Hu & E1)%count_add & E2)%count_add & E3)%count_alter & ->)%count_alter.
    rewrite (owned_insert _ _ t) by done. cbn [sold set_owner tk_Owner]. pose proof (rm_count v Hr _ _ Hu) as Hrange.
    rewrite E3, E2, E1. rewrite (ti_count _ _ Hi b u Hu) in *. pose proof (owned_pos _ _ _ Ht). pose proof (ti_others _ _ Hi (tk_Owner t)).
    destruct (decide (acc = b)) as [<-|].
    + rewrite !decide_False by done. rewrite confineOwnerCount_inc by lia. lia.
    + destruct (decide (tk_Owner t = b)) as [<-|]; [|lia]. rewrite confineOwnerCount_dec by lia. lia.
  - apply Hi.
Qed.

Lemma apply_buy_fine others prior (v : view) tx x id t price asked :
  tokens_inv others v -> room v -> tw_tokens v !! id = Some t -> uo_Account tx <> tk_Owner t -> tw_accounts v !! uo_Account tx = Some x ->
  0 <= uo_Fee tx <= 2 ^ 60 -> 0 <= price <= 2 ^ 60 ->
  fine (fun v' => tokens_inv others v' /\ sale (uo_Account tx) id t price v v' /\ asked <= price) (apply_buy prior v tx x id t (Native price) (Native asked)).
Proof.
  intros Hi Hr Ht Hne Hx Hf Hp. unfold apply_buy. rewrite amount_lt_native. cbn [obind]. destruct (Z.ltb_spec price asked); [done|].
  set (acc := uo_Account tx) in *. destruct (ti_owner _ _ Hi id t Ht) as [y Hy].
  eapply fine_bind; [apply covers_fine; [done|by apply (rm_count v Hr acc)|done|done]|]. intros _ _.
  eapply fine_bind; [by apply (accountSend_native v acc (tk_Owner t) price x y)|]. intros [res v1] Hv1. cbn [fst snd] in Hv1.
  destruct (isTesSuccess res); [|done]. rewrite (Hv1 eq_refl). clear Hv1 v1. cbn [negb]. set (v1 := transferred acc (tk_Owner t) price v).
  assert (Hdir1 : forall b, ownerDir v1 b = ownerDir v b) by done.
  destruct (pl_token _ _ (ti_placed _ _ Hi) id t Ht) as [Hin Hok].
  eapply (fine_bind (fun r => exists d, r.2 = set_ownerDir acc d v1 /\ dir_wf d /\
    forall q x, in_page d q x <-> in_page (ownerDir v acc) q x \/ (q = r.1 /\ x = id))).
  { unfold insert_entry, dirInsert. rewrite Hdir1. change (tw_fixPageCap v1) with (tw_fixPageCap v).
    destruct (dirAdd_spec (E := ter) (tw_fixPageCap v) false (ownerDir v acc) id) as [(p & d & -> & Hd & Hi' & _)|(-> & _)]; cbn; [apply Hi| |apply (rm_pages v Hr)|by exists d|done].
    eapply placed_absent; [apply Hi|done|]. intros t' Ht'. rewrite Ht in Ht'. injection Ht' as <-. done. }
  intros [page v2] (d1 & Hv2 & Hw1 & Hd1). cbn [fst snd] in Hv2, Hd1. subst v2.
  assert (Hdir2 : ownerDir (set_ownerDir acc d1 v1) (tk_Owner t) = ownerDir v (tk_Owner t)).
  { rewrite ownerDir_set. unfold dir_set. by rewrite decide_False by done. }
  eapply fine_bind; [apply remove_entry_fine; rewrite Hdir2; [apply Hi|exact Hin]|]. intros r (d2 & -> & Hw2 & Hd2). rewrite Hdir2 in Hd2. cbn [negb].
  set (v3 := set_tw_tokens _ _). destruct (hasSufficientReserve v3 acc) eqn:Hb; [|done]. destruct (hasSufficientReserve v3 (tk_Owner t)) eqn:Hs; [|done].
  cbn [negb fine]. split; [|split; [|done]].
  - apply (inv_sale others v v3 acc id t price page d1 d2); try done.
    intros b. unfold v3. change (ownerDir (set_tw_tokens _ _) b) with (ownerDir (set_ownerDir (tk_Owner t) d2 (set_ownerDir acc d1 v1)) b).
    rewrite ownerDir_set. unfold dir_set. case_decide; [done|]. rewrite ownerDir_set. unfold dir_set. by rewrite Hdir1.
  - split; [by exists page|done|done].
Qed.

End Invariant.
