(* ===== verification/UriClaims.v ===== *)
(** * URI tokens: the transactions

    The invariant over whole transactions, who may change a token, what a sale pays,
    and what the versions before the amendment do. *)

From S2P Require Import Prelude HookEnum LedgerDir LedgerDirFacts HookState HookStateFacts Rewards MintFacts Utf8 StAmount UriToken UriFacts.

(** What happens to trust lines does not touch tokens. *)
Class IouLaws (Lines : Type) `{IouOps Lines} := {
  rippleSend_tokens v a b amt : tw_tokens (rippleSend v a b amt).2 = tw_tokens v;
  set_line_Balance_tokens v a i c amt : tw_tokens (set_line_Balance v a i c amt) = tw_tokens v;
  trustCreate_tokens v low i a noRipple amt : tw_tokens (trustCreate v low i a noRipple amt).2 = tw_tokens v
}.

Section Transactions.
Context {Lines : Type} `{HI : IouOps Lines} `{HL : !IouLaws Lines} `{HU : UriKeylets} `{HK : !UriKeyletsOk}.
Abbreviation view := (token_view Lines).

(** ** preflight and the fee *)

Lemma uri_ok_outcome (o : uri_op) uri : op_URI o = Some uri -> bytesOk uri -> utf8_outcome uri (@uri_ok ter o) \/ @uri_ok ter o = Ret false.
Proof. intros Hu Hb. unfold uri_ok. rewrite Hu. destruct (_ || _); [by right|left]. by apply (validate_decode (length uri)). Qed.

Lemma preflight_amount feat fixV1 p1 p2 tx : uri_preflight feat fixV1 p1 p2 tx = Ret tt ->
  isTesSuccess (amount_ok (uo_op tx)) = true /\ uri_ok (E := ter) (uo_op tx) = Ret true.
Proof.
  unfold uri_preflight. destruct (negb feat); [done|]. destruct (negb (isTesSuccess p1)); [done|].
  destruct (isTesSuccess (amount_ok _)) eqn:Ha; [|done]. cbn [negb]. destruct (_ && _); [done|]. intros (ok & Hok & H)%obind_ret.
  split; [done|]. by destruct ok.
Qed.

Lemma amount_legal o a : op_Amount o = Some a -> isTesSuccess (amount_ok o) = true -> negb (isLegalNet a) || (signum a <? 0) = false.
Proof. unfold amount_ok. intros ->. destruct (_ || _); [discriminate|done]. Qed.

Lemma legal_native price : negb (isLegalNet (Native price)) || (signum (Native price) <? 0) = false -> 0 <= price <= 10 ^ 17.
Proof.
  unfold isLegalNet, signum, cMaxNativeN. cbn [am_native am_mantissa am_negative negb orb]. intros [E1%negb_false_iff%Z.leb_le E2]%orb_false_iff.
  destruct (Z.eqb_spec (Z.abs price) 0) as [E0|E0]; [lia|]. destruct (Z.ltb_spec price 0) as [Hn|Hn]; [discriminate E2|lia].
Qed.

Lemma native_price o price : op_Amount o = Some (Native price) -> isTesSuccess (amount_ok o) = true -> 0 <= price <= 10 ^ 17.
Proof. intros Ha Ho. apply legal_native. by apply (amount_legal o). Qed.

Lemma payFee_inv others (v : view) tx : tokens_inv others v -> tokens_inv others (payFee v tx).
Proof. intros Hi. apply (inv_accounts others v); try done. intros a. by apply update_count. Qed.

(** The account can pay the fee. *)
Definition fee_ok (v : view) (tx : uri_tx) : Prop :=
  0 <= uo_Fee tx <= 2 ^ 60 /\ forall x, tw_accounts v !! uo_Account tx = Some x -> uo_Fee tx <= Balance x.

Lemma payFee_account (v : view) tx a x : tw_accounts (payFee v tx) !! a = Some x ->
  exists y, tw_accounts v !! a = Some y /\ x = if decide (a = uo_Account tx) then with_Balance (Balance y - uo_Fee tx) y else y.
Proof.
  cbn [payFee update_account set_tw_accounts tw_accounts]. case_decide as E; [subst a|rewrite lookup_alter_ne by done; by exists x].
  rewrite lookup_alter_eq. intros (y & Hy & ->)%fmap_Some. by exists y.
Qed.

Lemma payFee_room (v : view) tx : room v -> fee_ok v tx -> room (payFee v tx).
Proof.
  intros Hr [Hf Hb]. split; try apply Hr.
  - intros a x (y & Hy & ->)%payFee_account. pose proof (rm_balance v Hr _ _ Hy). case_decide; [|done]. subst a. specialize (Hb y Hy). cbn. lia.
  - intros a x (y & Hy & ->)%payFee_account. pose proof (rm_count v Hr _ _ Hy). by case_decide.
  - cbn [payFee update_account set_tw_accounts tw_accounts]. destruct (decide (uo_Account tx = 0)) as [->|]; [by rewrite lookup_alter_eq, (rm_zero v Hr)|].
    rewrite lookup_alter_ne by done. apply Hr.
Qed.

(** ** preclaim *)

(** The listed price is paid by an account that may buy. *)
Definition may_buy (acc : Z) (t : token_sle) (amt : st_amount) : Prop :=
  acc <> tk_Owner t /\ (tk_Destination t = None \/ tk_Destination t = Some acc) /\
  exists asked, tk_Amount t = Some asked /\ same_issue amt asked = true /\ amount_lt (E := ter) amt asked = Ret false.

Lemma preclaim_buy_inv (v : view) tx x y t amt : preclaim_buy v tx x y t amt = Ret tt -> may_buy (uo_Account tx) t amt.
Proof.
  unfold preclaim_buy, may_buy. destruct (Z.eqb_spec (uo_Account tx) (tk_Owner t)); [done|]. destruct (tk_Amount t) as [asked|]; [|done].
  destruct (match tk_Destination t with Some dest => _ | None => _ end) eqn:Ed; [done|]. destruct (same_issue amt asked) eqn:Es; [|done]. cbn [negb].
  intros (less & Hl & H)%obind_ret. destruct less; [done|]. split; [done|]. split; [|by exists asked].
  destruct (tk_Destination t) as [dest|]; [right|by left]. f_equal. lia.
Qed.

Definition permitted (v : view) (tx : uri_tx) : Prop :=
  let acc := uo_Account tx in
  match uo_op tx with
  | URITOKEN_MINT uri _ _ _ => tw_tokens v !! keylet_uritoken acc uri = None
  | URITOKEN_BURN id =>
    exists t, tw_tokens v !! id = Some t /\ (acc = tk_Owner t \/ acc = tk_Issuer t /\ tk_Flags t = lsfBurnable)
  | URITOKEN_BUY id amt => exists t, tw_tokens v !! id = Some t /\ may_buy acc t amt
  | URITOKEN_CREATE_SELL_OFFER id _ _ | URITOKEN_CANCEL_SELL_OFFER id => exists t, tw_tokens v !! id = Some t /\ acc = tk_Owner t
  end.

Lemma preclaim_permits (v : view) tx : uri_preclaim v tx = Ret tt -> permitted v tx /\ is_Some (tw_accounts v !! uo_Account tx).
Proof.
  unfold uri_preclaim, permitted. intros (token & Htok & Hrun)%obind_ret. destruct (tw_accounts v !! uo_Account tx) as [x|]; [|done].
  split; [|done]. destruct (uo_op tx) as [uri dg am de|id|id amt|id am de|id]; cbn [op_URITokenID] in Htok.
  { case_bool_decide as Hn; [done|]. by apply eq_None_not_Some. }
  all: destruct (tw_tokens v !! id) as [t|] eqn:Ht; [|done]; destruct (tw_accounts v !! tk_Owner t) as [y|]; [|done]; injection Htok as <-; exists t; split; [done|].
  - destruct ((tk_Flags t =? lsfBurnable) && (uo_Account tx =? tk_Issuer t)) eqn:E; [right; lia|]. left. destruct (Z.eqb_spec (uo_Account tx) (tk_Owner t)); [done|discriminate].
  - by eapply preclaim_buy_inv.
  - destruct (Z.eqb_spec (uo_Account tx) (tk_Owner t)); [done|discriminate].
  - destruct (Z.eqb_spec (uo_Account tx) (tk_Owner t)); [done|discriminate].
Qed.

(** ** What a transaction does to tokens *)

Lemma insert_entry_inv a id (v : view) p v' : insert_entry a id v = Ret (p, v') -> exists d, v' = set_ownerDir a d v.
Proof. unfold insert_entry. intros ([[q|] d] & _ & Hr)%obind_ret; [|done]. injection Hr as _ <-. by exists d. Qed.

Lemma remove_entry_inv a p id (v : view) ok v' : remove_entry a p id v = Ret (ok, v') -> exists d, v' = set_ownerDir a d v.
Proof. unfold remove_entry. intros ([b d] & _ & Hr)%obind_ret. injection Hr as _ <-. by exists d. Qed.

Lemma accountSend_tokens (v : view) a b amt r v' : accountSend v a b amt = Ret (r, v') -> tw_tokens v' = tw_tokens v.
Proof.
  unfold accountSend. destruct (_ || _); [by intros [= _ <-]|]. destruct amt as [d|]; [|intros Hr; injection Hr as E; rewrite <- (rippleSend_tokens v a b (Iou negative mantissa exponent currency issuer)); by rewrite E].
  intros ([r1 v1] & H1 & H2)%obind_ret. assert (tw_tokens v1 = tw_tokens v) as E.
  { destruct (if a =? 0 then None else _) as [x|]; [|by injection H1 as _ <-]. destruct (_ <? _); [by injection H1 as _ <-|].
    apply obind_ret in H1 as (z & _ & H1). by injection H1 as _ <-. }
  rewrite <- E. destruct (isTesSuccess r1); [|by injection H2 as _ <-]. destruct (if b =? 0 then None else _) as [y|]; [|by injection H2 as _ <-].
  apply obind_ret in H2 as (z & _ & H2). by injection H2 as _ <-.
Qed.

Definition effect (tx : uri_tx) (T T' : gmap Z token_sle) : Prop :=
  let acc := uo_Account tx in
  match uo_op tx with
  | URITOKEN_MINT uri digest amount dest =>
    exists page flags, T' = <[keylet_uritoken acc uri := mkToken acc acc uri digest flags amount dest page]> T
  | URITOKEN_BURN id => T' = delete id T
  | URITOKEN_BUY id _ => exists t page, T !! id = Some t /\ T' = <[id := sold acc page t]> T
  | URITOKEN_CREATE_SELL_OFFER id amount dest => exists t, T !! id = Some t /\ T' = <[id := set_offer (Some amount) dest t]> T
  | URITOKEN_CANCEL_SELL_OFFER id => exists t, T !! id = Some t /\ T' = <[id := set_offer None None t]> T
  end.

Lemma apply_buy_tokens prior (v : view) tx x id t amt asked v' :
  apply_buy prior v tx x id t amt asked = Ret v' -> exists page, tw_tokens v' = <[id := sold (uo_Account tx) page t]> (tw_tokens v).
Proof.
  unfold apply_buy. intros (less & _ & Hrun)%obind_ret. destruct less; [done|]. apply obind_ret in Hrun as (u & _ & Hrun).
  apply obind_ret in Hrun as ([res v1] & H1%accountSend_tokens & Hrun). destruct (negb _); [done|].
  apply obind_ret in Hrun as ([page v2] & (d1 & ->)%insert_entry_inv & Hrun). apply obind_ret in Hrun as ([ok v3] & (d2 & ->)%remove_entry_inv & Hrun).
  destruct ok; [|done]. cbn [negb] in Hrun. destruct (negb _) in Hrun; [done|]. destruct (negb _) in Hrun; [done|]. injection Hrun as <-. exists page. cbn. by rewrite H1.
Qed.

Lemma old_line_tokens (v : view) acc owner id page root amt b created v' :
  old_line v acc owner id page root amt b = Ret (created, v') -> tw_tokens v' = tw_tokens v.
Proof.
  unfold old_line. destruct (_ || _); [by intros [= _ <-]|]. match goal with |- context [trustCreate ?a ?b ?c ?d ?e ?f] => pose proof (trustCreate_tokens a b c d e f) as Ht; destruct (trustCreate a b c d e f) as [ter v1] end.
  destruct (isTesSuccess ter); [by intros [= _ <-]|by intros ([ok ?] & _ & [=])%obind_ret].
Qed.

Lemma old_settle_tokens a amt fin line without (v v' : view) : old_settle a amt fin line without v = Ret v' -> tw_tokens v' = tw_tokens v.
Proof.
  unfold old_settle. destruct fin; [by intros [= <-]|]. destruct line; [intros [= <-]; apply set_line_Balance_tokens|]. destruct without; [by intros [= <-]|done].
Qed.

Lemma old_sale_tokens (v : view) tx x y id t amt asked v' :
  old_sale v tx x y id t amt asked = Ret v' -> exists page, tw_tokens v' = <[id := sold (uo_Account tx) page t]> (tw_tokens v).
Proof.
  unfold old_sale. intros (b & _ & (u & _ & Hrun)%obind_ret)%obind_ret. apply obind_ret in Hrun as ([page v1] & (d1 & ->)%insert_entry_inv & Hrun).
  apply obind_ret in Hrun as ([created v2] & H2%old_line_tokens & Hrun). apply obind_ret in Hrun as ([ok v3] & (d2 & ->)%remove_entry_inv & Hrun).
  destruct ok; cbn [negb] in Hrun; [|by apply obind_ret in Hrun as (z & _ & Hrun)]. apply obind_ret in Hrun as (v4 & H4%old_settle_tokens & H5%old_settle_tokens).
  exists page. rewrite H5, H4. cbn [set_tw_tokens tw_tokens]. f_equal. destruct (_ && _); exact H2.
Qed.

Lemma doApply_effect prior (v : view) tx v' : uri_doApply prior v tx = Ret v' -> effect tx (tw_tokens v) (tw_tokens v').
Proof.
  unfold uri_doApply, effect. destruct (tw_accounts v !! uo_Account tx) as [x|]; [|done].
  intros (u & _ & (token & Htok & Hrun)%obind_ret)%obind_ret. destruct (uo_op tx) as [uri dg am de|id|id amt|id am de|id]; cbn [op_URITokenID] in Htok.
  { unfold apply_mint in Hrun. destruct (bool_decide _); [done|]. destruct (_ && _); [done|].
    apply obind_ret in Hrun as ([page v1] & (d & ->)%insert_entry_inv & Hrun). injection Hrun as <-. eexists page, _. reflexivity. }
  all: destruct (tw_tokens v !! id) as [t|] eqn:Ht; [|done]; destruct (tw_accounts v !! tk_Owner t) as [y|]; [|done]; injection Htok as <-.
  - unfold apply_burn in Hrun. destruct (_ && _); [done|]. apply obind_ret in Hrun as ([ok v1] & (d & ->)%remove_entry_inv & Hrun).
    destruct ok; [|done]. by injection Hrun as <-.
  - destruct (tk_Amount t) as [asked|]; [|done]. destruct (match tk_Destination t with Some dest => _ | None => _ end); [done|].
    destruct (negb _); [done|]. exists t. destruct (tw_fixXahauV1 v).
    + apply apply_buy_tokens in Hrun as [page E]. by exists page.
    + apply old_sale_tokens in Hrun as [page E]. by exists page.
  - destruct (negb _); [done|]. injection Hrun as <-. by exists t.
  - injection Hrun as <-. by exists t.
Qed.

(** ** No exception, and the invariant *)

Definition native_tx (tx : uri_tx) : Prop := match uo_op tx with URITOKEN_BUY _ amt => am_native amt = true | _ => True end.

Lemma preclaim_fine (v : view) tx :
  room v -> fee_ok v tx -> tw_fixXahauV1 v = true -> native_tx tx -> isTesSuccess (amount_ok (uo_op tx)) = true -> fine (fun _ => True) (uri_preclaim v tx).
Proof.
  intros Hr [Hf _] Hv1 Hn Ha. unfold uri_preclaim.
  apply (fine_bind (fun token => op_URITokenID (uo_op tx) <> None -> token <> None)).
  { destruct (op_URITokenID _); [|cbn; tauto]. destruct (_ !! _) as [t|]; [|done]. by destruct (_ !! _). }
  intros token Htok. destruct (tw_accounts v !! uo_Account tx) as [x|] eqn:Hx; [|done]. unfold native_tx in Hn.
  destruct (uo_op tx) as [uri dg am de|id|id amt|id am de|id] eqn:Ho; [by case_bool_decide|..]; (destruct token as [[t y]|]; [|by destruct Htok]).
  - by repeat case_match.
  - destruct amt as [price|]; [|done]. pose proof (native_price (URITOKEN_BUY id (Native price)) price eq_refl Ha). unfold preclaim_buy. rewrite Hv1. destruct (_ =? _); [done|].
    destruct (tk_Amount t) as [asked|]; [|done]. destruct (match tk_Destination t with Some dest => _ | None => _ end); [done|].
    destruct asked as [asked|]; [|done]. cbn [same_issue negb]. rewrite amount_lt_native. cbn [obind]. destruct (_ <? _); [done|].
    eapply fine_weaken; [apply covers_fine; [done|by apply (rm_count v Hr _ _ Hx)|done|lia]|done].
  - by repeat case_match.
  - by repeat case_match.
Qed.

(** A purchase is a sale of the token at the listed price or above. *)
Definition bought (tx : uri_tx) (v v' : view) : Prop :=
  match uo_op tx with
  | URITOKEN_BUY id (Native price) =>
    exists t asked, tw_tokens v !! id = Some t /\ tk_Amount t = Some (Native asked) /\ asked <= price /\ sale (uo_Account tx) id t price v v'
  | _ => True
  end.

Lemma doApply_fine others prior (v : view) tx :
  tokens_inv others v -> room v -> tw_fixXahauV1 v = true -> native_tx tx -> isTesSuccess (amount_ok (uo_op tx)) = true -> permitted v tx ->
  0 <= prior <= 2 ^ 61 -> 0 <= uo_Fee tx <= 2 ^ 60 ->
  fine (fun v' => tokens_inv others v' /\ bought tx v v') (uri_doApply prior v tx).
Proof.
  intros Hi Hr Hv1 Hn Ha Hp Hpr Hf. unfold uri_doApply. destruct (tw_accounts v !! uo_Account tx) as [x|] eqn:Hx; [|done].
  apply (fine_bind (fun _ => True)).
  { unfold reserve_ok. destruct (_ || _); [|done]. rewrite drops_add_ret by lia. cbn [obind]. by destruct (_ || _). }
  intros _ _. unfold permitted, native_tx, bought in *. destruct (uo_op tx) as [uri dg am de|id|id amt|id am de|id] eqn:Ho; cbn [op_URITokenID].
  { cbn [obind]. eapply fine_weaken; [apply (apply_mint_fine others); [done|done|by exists x]|done]. }
  all: destruct Hp as (t & Ht & Hp); rewrite Ht; destruct (ti_owner _ _ Hi id t Ht) as [y Hy]; rewrite Hy; cbn [obind].
  - eapply fine_weaken; [by apply (apply_burn_fine others)|done].
  - destruct Hp as (Hne & Hdest & asked & Hask & Hiss & Hlt). rewrite Hask. destruct amt as [price|]; [|done]. destruct asked as [asked|]; [|done].
    destruct (match tk_Destination t with Some dest => _ | None => _ end); [done|]. cbn [same_issue negb]. rewrite Hv1.
    pose proof (native_price (URITOKEN_BUY id (Native price)) price eq_refl Ha). eapply fine_weaken; [apply (apply_buy_fine others prior v tx x id t price asked); try done; lia|].
    intros v' (H1 & H2 & H3). split; [done|]. by exists t, asked.
  - destruct (negb _); [done|]. split; [by apply inv_offer|done].
  - split; [by apply inv_offer|done].
Qed.

(** The same with the fee. *)
Lemma uri_apply_fine others feat p1 p2 (v : view) tx :
  tokens_inv others v -> room v -> fee_ok v tx -> tw_fixXahauV1 v = true -> native_tx tx -> uri_preflight feat true p1 p2 tx = Ret tt ->
  fine (fun v' => tokens_inv others v' /\ bought tx (payFee v tx) v') (uri_apply feat p1 p2 v tx).
Proof.
  intros Hi Hr Hf Hv1 Hn Hpre. unfold uri_apply. rewrite Hv1, Hpre. cbn [obind]. destruct (preflight_amount _ _ _ _ _ Hpre) as [Ha _].
  pose proof (preclaim_fine v tx Hr Hf Hv1 Hn Ha) as Hfine. destruct (uri_preclaim v tx) as [[]| | | |] eqn:Hclaim; try done. cbn [obind].
  destruct (preclaim_permits v tx Hclaim) as [Hp [x Hx]]. rewrite Hx. pose proof (rm_balance v Hr _ _ Hx). destruct Hf as [Hf Hf'].
  apply doApply_fine; try done; [by apply payFee_inv|by apply payFee_room].
Qed.

Lemma preflight_outcome feat fixV1 p1 p2 tx : (forall uri, op_URI (uo_op tx) = Some uri -> bytesOk uri) ->
  match uri_preflight feat fixV1 p1 p2 tx with
  | Ret _ | Exit _ => True
  | Undef UB_oob => exists uri, op_URI (uo_op tx) = Some uri /\ ~ valid_utf8 uri
  | _ => False
  end.
Proof.
  intros Hb. unfold uri_preflight. destruct (negb feat); [done|]. destruct (negb (isTesSuccess p1)); [done|]. destruct (negb (isTesSuccess (amount_ok _))); [done|].
  destruct (_ && _); [done|]. destruct (op_URI (uo_op tx)) as [uri|] eqn:Hu.
  - specialize (Hb uri eq_refl). unfold uri_ok. rewrite Hu. destruct (_ || _); [done|]. pose proof (@validate_decode ter (length uri) uri (le_n _) Hb) as Ho.
    destruct (validateUTF8 uri) as [ok| | |[]|] eqn:Ev; try done.
    + cbn [obind]. by repeat case_match.
    + cbn [obind]. exists uri. split; [done|]. intros (cs & Hcs & ->). by rewrite (validate_utf8 cs Hcs) in Ev.
  - unfold uri_ok. rewrite Hu. cbn [obind]. by repeat case_match.
Qed.

(** ** The claims *)

(** C12: With fixXahauV1 every transaction on URI tokens keeps the ledger in order:
    each token is in the directory of its owner, at the page it remembers, and in no
    other; owners exist; the owner count of every account is the number of its tokens
    and other objects. Nothing throws, and nothing is undefined but the check of a
    URI that is not UTF-8. Purchases are for the native currency. *)
Theorem uri_tokens_invariant others feat p1 p2 (v : view) tx :
  tokens_inv others v -> room v -> fee_ok v tx -> tw_fixXahauV1 v = true -> native_tx tx ->
  (forall uri, op_URI (uo_op tx) = Some uri -> bytesOk uri) ->
  match uri_apply feat p1 p2 v tx with
  | Ret v' => tokens_inv others v'
  | Exit _ => True
  | Undef UB_oob => exists uri, op_URI (uo_op tx) = Some uri /\ ~ valid_utf8 uri
  | _ => False
  end.
Proof.
  intros Hi Hr Hf Hv1 Hn Hb. pose proof (preflight_outcome feat true p1 p2 tx Hb) as Hpre.
  destruct (uri_preflight feat true p1 p2 tx) as [[]| | |[]|] eqn:Ep; try done; [|unfold uri_apply; by rewrite Hv1, Ep..].
  pose proof (uri_apply_fine others feat p1 p2 v tx Hi Hr Hf Hv1 Hn Ep) as Hfine. destruct (uri_apply feat p1 p2 v tx); try done. apply Hfine.
Qed.

Lemma alter_balance (m : gmap Z account_root) f a b :
  (forall x, Balance (f x) = Balance x) -> Balance <$> alter f a m !! b = Balance <$> m !! b.
Proof.
  intros Hf. destruct (decide (a = b)) as [->|]; [|by rewrite lookup_alter_ne]. rewrite lookup_alter_eq. destruct (m !! b); cbn; [by rewrite Hf|done].
Qed.

Lemma alter_add (m : gmap Z account_root) d a b :
  Balance <$> alter (add_balance d) a m !! b = (fun z => z + if decide (a = b) then d else 0) <$> (Balance <$> m !! b).
Proof.
  destruct (decide (a = b)) as [->|]; [rewrite lookup_alter_eq|rewrite lookup_alter_ne by done]; destruct (m !! b); cbn; try done. by rewrite Z.add_0_r.
Qed.

(** C13: With fixXahauV1 a purchase for the native currency that succeeds was allowed:
    the token was for sale, to anybody or to the buyer, at this price or less. The
    buyer pays the price and the fee, the seller gets the price, no other balance
    changes; the buyer owns the token, the offer is gone, and both accounts keep
    their reserves. *)
Theorem uri_sale_paid others feat p1 p2 (v : view) tx id price v' :
  tokens_inv others v -> room v -> fee_ok v tx -> tw_fixXahauV1 v = true -> uo_op tx = URITOKEN_BUY id (Native price) ->
  uri_apply feat p1 p2 v tx = Ret v' ->
  exists t asked page, tw_tokens v !! id = Some t /\ uo_Account tx <> tk_Owner t /\
    tk_Amount t = Some (Native asked) /\ asked <= price /\ (tk_Destination t = None \/ tk_Destination t = Some (uo_Account tx)) /\
    tw_tokens v' = <[id := sold (uo_Account tx) page t]> (tw_tokens v) /\
    (forall a, Balance <$> tw_accounts v' !! a =
      (fun b => b - (if decide (a = uo_Account tx) then uo_Fee tx + price else 0) + (if decide (a = tk_Owner t) then price else 0)) <$> (Balance <$> tw_accounts v !! a)) /\
    hasSufficientReserve v' (uo_Account tx) = true /\ hasSufficientReserve v' (tk_Owner t) = true.
Proof.
  intros Hi Hr Hf Hv1 Ho Hrun. pose proof Hrun as Hrun'. unfold uri_apply in Hrun'. rewrite Hv1 in Hrun'.
  apply obind_ret in Hrun' as ([] & Hpre & ([] & Hclaim & _)%obind_ret).
  assert (native_tx tx) as Hn by (unfold native_tx; by rewrite Ho).
  pose proof (uri_apply_fine others feat p1 p2 v tx Hi Hr Hf Hv1 Hn Hpre) as Hfine. rewrite Hrun in Hfine. destruct Hfine as [_ Hb].
  unfold bought in Hb. rewrite Ho in Hb. destruct Hb as (t & asked & Ht & Hask & Hle & [[page HT] HA [Hs1 Hs2]]). cbn in Ht.
  destruct (preclaim_permits v tx Hclaim) as [Hp _]. unfold permitted in Hp. rewrite Ho in Hp. destruct Hp as (t' & Ht' & Hne & Hdest & _). rewrite Ht in Ht'. injection Ht' as <-.
  exists t, asked, page. do 6 (split; [done|]). split; [|done]. intros a. rewrite HA, !alter_balance, !alter_add by done.
  cbn [payFee update_account set_tw_accounts tw_accounts]. destruct (decide (a = uo_Account tx)) as [->|Ha].
  - rewrite lookup_alter_eq. destruct (tw_accounts v !! uo_Account tx); cbn; [|done]. f_equal. repeat case_decide; try lia; congruence.
  - rewrite lookup_alter_ne by done. destruct (tw_accounts v !! a); cbn; [|done]. f_equal. repeat case_decide; try lia; congruence.
Qed.

(** Another token stays as it is. *)
Ltac elsewhere v id := rewrite lookup_insert_ne by done; destruct (tw_tokens v !! id); [by left|done].

(** C11: Who may change a token, with and without fixXahauV1. A token appears by a mint
    of its issuer, with a UTF-8 URI. It disappears by a burn of its owner, or of its
    issuer if it was minted burnable. Its offer changes by its owner only. Its owner
    changes by a purchase only, at the listed price or above in the listed currency,
    by an account the offer was for. Issuer, URI, digest and flags never change. *)
Theorem uri_authority feat p1 p2 (v : view) tx v' id :
  (forall uri, op_URI (uo_op tx) = Some uri -> bytesOk uri) -> uri_apply feat p1 p2 v tx = Ret v' ->
  match tw_tokens v !! id, tw_tokens v' !! id with
  | None, None => True
  | None, Some t' =>
    exists uri, op_URI (uo_op tx) = Some uri /\ id = keylet_uritoken (uo_Account tx) uri /\ valid_utf8 uri /\
      tk_Owner t' = uo_Account tx /\ tk_Issuer t' = uo_Account tx /\ tk_URI t' = uri
  | Some t, None =>
    uo_op tx = URITOKEN_BURN id /\ (uo_Account tx = tk_Owner t \/ uo_Account tx = tk_Issuer t /\ tk_Flags t = lsfBurnable)
  | Some t, Some t' =>
    t' = t \/
    (uo_Account tx = tk_Owner t /\ exists amount dest, t' = set_offer amount dest t) \/
    (exists amt page, uo_op tx = URITOKEN_BUY id amt /\ may_buy (uo_Account tx) t amt /\ t' = sold (uo_Account tx) page t)
  end.
Proof.
  intros Hb Hrun. unfold uri_apply in Hrun. apply obind_ret in Hrun as ([] & Hpre & ([] & Hclaim & Hrun)%obind_ret).
  destruct (tw_accounts v !! uo_Account tx) as [x|]; [|done]. destruct (preclaim_permits v tx Hclaim) as [Hp _].
  apply doApply_effect in Hrun. change (tw_tokens (payFee v tx)) with (tw_tokens v) in Hrun.
  unfold effect in Hrun. unfold permitted in Hp. destruct (uo_op tx) as [uri dg am de|id'|id' amt|id' am de|id'] eqn:Ho.
  - destruct Hrun as (page & flags & ->). destruct (decide (id = keylet_uritoken (uo_Account tx) uri)) as [->|Hne].
    + rewrite Hp, lookup_insert_eq. exists uri. split_and!; try done. destruct (preflight_amount _ _ _ _ _ Hpre) as [_ Hu]. rewrite Ho in Hu.
      unfold uri_ok in Hu. cbn [op_URI] in Hu. destruct (_ || _); [done|]. pose proof (@validate_decode ter _ uri (le_n _) (Hb uri eq_refl)) as Hd. by rewrite Hu in Hd.
    + elsewhere v id.
  - destruct Hp as (t & Ht & Hp). rewrite Hrun. destruct (decide (id = id')) as [->|Hne]; [by rewrite Ht, lookup_delete_eq|].
    rewrite lookup_delete_ne by done. destruct (tw_tokens v !! id); [by left|done].
  - destruct Hp as (t & Ht & Hp), Hrun as (t' & page & Ht' & ->). rewrite Ht in Ht'. injection Ht' as <-. destruct (decide (id = id')) as [->|Hne].
    + rewrite Ht, lookup_insert_eq. right. right. by exists amt, page.
    + elsewhere v id.
  - destruct Hp as (t & Ht & Hp), Hrun as (t' & Ht' & ->). rewrite Ht in Ht'. injection Ht' as <-. destruct (decide (id = id')) as [->|Hne].
    + rewrite Ht, lookup_insert_eq. right. left. split; [done|]. by eexists _, _.
    + elsewhere v id.
  - destruct Hp as (t & Ht & Hp), Hrun as (t' & Ht' & ->). rewrite Ht in Ht'. injection Ht' as <-. destruct (decide (id = id')) as [->|Hne].
    + rewrite Ht, lookup_insert_eq. right. left. split; [done|]. by eexists _, _.
    + elsewhere v id.
Qed.

End Transactions.

(** ** Examples *)

(** Nobody has trust lines. *)
#[local] Instance demo_iou : IouOps unit := {
  accountFunds _ _ a := match a with Native d => Native d | Iou _ _ _ c i => Iou false 0 (-100) c i end;
  trustTransferAllowed _ _ _ _ := tesSUCCESS;
  rippleSend v _ _ _ := (tecFAILED_PROCESSING, v);
  line_Balance _ _ _ _ := None;
  set_line_Balance v _ _ _ _ := v;
  trustCreate v _ _ _ _ _ := (tecFAILED_PROCESSING, v);
  transferRate _ _ := QUALITY_ONE;
  getSTNumberSwitchover := true
}.
#[local] Instance demo_iou_laws : IouLaws unit.
Proof. by split. Qed.
#[local] Instance demo_keylets : UriKeylets := { keylet_uritoken a uri := 256 * Z.abs a + foldr (fun b s => Z.abs b + s) 0 uri }.
#[local] Instance demo_keylets_ok : UriKeyletsOk.
Proof.
  refine {| other_key k := k < 0 |}. intros a u. cbn. assert (0 <= foldr (fun b s => Z.abs b + s) 0 u) by (induction u; cbn; lia). lia.
Defined.

(** Two accounts with [b1] and [b2] coins. *)
Definition demo_tokens (fixV1 : bool) (b1 b2 : Z) : token_view unit :=
  mkTView fixV1 true false (mkFees 10000000 2000000)
    {[1 := mkAccount (b1 * 1000000) 0 0 None 0 None; 2 := mkAccount (b2 * 1000000) 0 0 None 0 None]} ∅ ∅ tt.

Definition demo_uri : list Z := [0x68; 0x74].
Definition demo_token : Z := keylet_uritoken 1 demo_uri.

(** Account 1 mints a burnable token and offers it for [price] coins. *)
Definition demo_mint_tx (price : Z) : uri_tx := mkUriTx 1 tfBurnable 10 (URITOKEN_MINT demo_uri None (Some (Native (price * 1000000))) None).
Definition demo_buy_tx (price : Z) : uri_tx := mkUriTx 2 0 10 (URITOKEN_BUY demo_token (Native (price * 1000000))).
Definition demo_burn_tx (acc : Z) : uri_tx := mkUriTx acc 0 10 (URITOKEN_BURN demo_token).

Definition uri_steps `{IouOps Lines} (v : token_view Lines) (txs : list uri_tx) : outcome ter (token_view Lines) :=
  foldl (fun o tx => let* v := o in uri_apply true tesSUCCESS tesSUCCESS v tx) (Ret v) txs.

(** The owner counts and coins of both accounts, and the owner of the token. *)
Definition uri_summary (o : outcome ter (token_view unit)) : outcome ter (list (option (Z * Z)) * option Z) :=
  let* v := o in
  Ret (map (fun a => (fun x => (OwnerCount x, Balance x)) <$> tw_accounts v !! a) [1; 2], tk_Owner <$> tw_tokens v !! demo_token).

(** Without fixXahauV1 the seller of a token for the native currency keeps it in
    the owner count; a burn by the issuer lowers the count of the issuer and not that
    of the owner; the price is compared with the balance of the seller, so that a
    seller with few coins cannot sell; and the buyer can be left below the reserve.
    With the amendment all of this is right. In both, a URI that ends in the first
    byte of a longer character is read beyond its end. *)
Theorem uri_gaps :
  uri_summary (uri_steps (demo_tokens false 1000 1000) [demo_mint_tx 100; demo_buy_tx 100]) = Ret ([Some (1, 1099999990); Some (1, 899999990)], Some 2) /\
  uri_summary (uri_steps (demo_tokens true 1000 1000) [demo_mint_tx 100; demo_buy_tx 100]) = Ret ([Some (0, 1099999990); Some (1, 899999990)], Some 2) /\
  uri_summary (uri_steps (demo_tokens false 1000 1000) [demo_mint_tx 100; demo_buy_tx 100; demo_burn_tx 1]) = Ret ([Some (0, 1099999980); Some (1, 899999990)], None) /\
  uri_summary (uri_steps (demo_tokens true 1000 1000) [demo_mint_tx 100; demo_buy_tx 100; demo_burn_tx 1]) = Ret ([Some (0, 1099999980); Some (0, 899999990)], None) /\
  uri_summary (uri_steps (demo_tokens false 50 1000) [demo_mint_tx 100; demo_buy_tx 100]) = Exit tecINSUFFICIENT_FUNDS /\
  uri_summary (uri_steps (demo_tokens true 50 1000) [demo_mint_tx 100; demo_buy_tx 100]) = Ret ([Some (0, 149999990); Some (1, 899999990)], Some 2) /\
  uri_summary (uri_steps (demo_tokens false 1000 101) [demo_mint_tx 100; demo_buy_tx 100]) = Ret ([Some (1, 1099999990); Some (1, 999990)], Some 2) /\
  uri_summary (uri_steps (demo_tokens true 1000 101) [demo_mint_tx 100; demo_buy_tx 100]) = Exit tecINSUFFICIENT_FUNDS /\
  uri_preflight true true tesSUCCESS tesSUCCESS (mkUriTx 1 0 10 (URITOKEN_MINT [0x68; 0xC3] None None None)) = Undef UB_oob.
Proof. split_and!; by vm_compute. Qed.

(** Lines with their balances, by account, issuer and currency; every issuer asks for a fifth. *)
#[local] Instance lined : IouOps (gmap (Z * Z * Z) st_amount) := {
  accountFunds v a amt := default (zeroed amt) (tw_lines v !! (a, am_issuer amt, am_currency amt));
  trustTransferAllowed _ _ _ _ := tesSUCCESS;
  rippleSend v _ _ _ := (tecFAILED_PROCESSING, v);
  line_Balance v a i c := tw_lines v !! (a, i, c);
  set_line_Balance v a i c amt :=
    mkTView (tw_fixXahauV1 v) (tw_fixPageCap v) (tw_open v) (tw_fees v) (tw_accounts v) (tw_tokens v) (tw_ownerDirs v) (<[(a, i, c) := amt]> (tw_lines v));
  trustCreate v _ _ _ _ _ := (tecFAILED_PROCESSING, v);
  transferRate _ _ := 1200000000;
  getSTNumberSwitchover := true
}.

(** [n] units of the currency 5 of account 3. *)
Definition demo_units (n : Z) : st_amount := Iou false (if n =? 0 then 0 else n * 10 ^ 14) (if n =? 0 then -100 else -14) 5 3.
Definition demo_lined (lines : gmap (Z * Z * Z) st_amount) : token_view (gmap (Z * Z * Z) st_amount) :=
  let v := demo_tokens false 1000 1000 in mkTView false true false (tw_fees v) (tw_accounts v) ∅ ∅ lines.
Definition demo_sale (n : Z) : list uri_tx :=
  [mkUriTx 1 0 10 (URITOKEN_MINT demo_uri None (Some (demo_units n)) (Some 2)); mkUriTx 2 0 10 (URITOKEN_BUY demo_token (demo_units n))].

(** Without fixXahauV1 a sale for an issued currency with a transfer fee pays the
    seller more than the buyer pays: 12 for 10. An account without a line that buys a
    token listed for nothing makes the server read through a null pointer. *)
Lemma old_issued_sale :
  (let* v := uri_steps (demo_lined {[(1, 3, 5) := demo_units 50; (2, 3, 5) := demo_units 90]}) (demo_sale 10) in
   Ret (tw_lines v !! (1, 3, 5), tw_lines v !! (2, 3, 5), tk_Owner <$> tw_tokens v !! demo_token))
    = Ret (Some (demo_units 62), Some (demo_units 80), Some 2) /\
  uri_steps (demo_lined ∅) (demo_sale 0) = Undef UB_null.
Proof. split; by vm_compute. Qed.

Lemma demo_holders fixV1 b1 b2 a x : tw_accounts (demo_tokens fixV1 b1 b2) !! a = Some x ->
  (a = 1 /\ x = mkAccount (b1 * 1000000) 0 0 None 0 None) \/ (a = 2 /\ x = mkAccount (b2 * 1000000) 0 0 None 0 None).
Proof. cbn [demo_tokens tw_accounts]. intros [[<- <-]|[_ [<- <-]%lookup_singleton_Some]]%lookup_insert_Some; [by left|by right]. Qed.

Lemma demo_tokens_inv : tokens_inv (fun _ => 0) (demo_tokens true 1000 1000).
Proof.
  split; [split| | |done].
  - intros a. by left.
  - intros id t. unfold demo_tokens. cbn [tw_tokens]. by rewrite lookup_empty.
  - intros a p k Hin. by apply empty_no_page in Hin.
  - intros id t. unfold demo_tokens. cbn [tw_tokens]. by rewrite lookup_empty.
  - by intros a x [[-> ->]|[-> ->]]%demo_holders.
Qed.

Lemma demo_tokens_room : room (demo_tokens true 1000 1000).
Proof.
  split.
  - intros a x [[-> ->]|[-> ->]]%demo_holders; cbn; lia.
  - intros a x [[-> ->]|[-> ->]]%demo_holders; cbn; lia.
  - intros a p [? Hp]. unfold ownerDir, demo_tokens in Hp. cbn [tw_ownerDirs] in Hp. by rewrite !lookup_empty in Hp.
  - cbn. lia.
  - done.
Qed.

(** The ledger after the mint. *)
Definition demo_minted : token_view unit :=
  match uri_steps (demo_tokens true 1000 1000) [demo_mint_tx 100] with Ret v => v | _ => demo_tokens true 1000 1000 end.

Lemma demo_minted_run : uri_apply true tesSUCCESS tesSUCCESS (demo_tokens true 1000 1000) (demo_mint_tx 100) = Ret demo_minted.
Proof. by vm_compute. Qed.

Lemma demo_fee : fee_ok (demo_tokens true 1000 1000) (demo_mint_tx 100).
Proof. split; [cbn; lia|]. intros x [[_ ->]|[_ ->]]%demo_holders; cbn; lia. Qed.

Lemma demo_uri_bytes uri : op_URI (uo_op (demo_mint_tx 100)) = Some uri -> bytesOk uri.
Proof. intros [= <-]. by repeat constructor. Qed.

Lemma demo_minted_inv : tokens_inv (fun _ => 0) demo_minted.
Proof.
  pose proof (uri_apply_fine (fun _ => 0) true tesSUCCESS tesSUCCESS _ (demo_mint_tx 100) demo_tokens_inv demo_tokens_room demo_fee eq_refl I) as Hf.
  rewrite demo_minted_run in Hf. apply Hf. by vm_compute.
Qed.

Lemma demo_minted_accounts a x : tw_accounts demo_minted !! a = Some x ->
  (a = 1 /\ Balance x = 999999990 /\ OwnerCount x = 1) \/ (a = 2 /\ Balance x = 1000000000 /\ OwnerCount x = 0).
Proof.
  assert (tw_accounts demo_minted = {[1 := mkAccount 999999990 1 0 None lsfURITokenIssuer None; 2 := mkAccount 1000000000 0 0 None 0 None]}) as -> by (by vm_compute).
  intros [[<- <-]|[_ [<- <-]%lookup_singleton_Some]]%lookup_insert_Some; [by left|by right].
Qed.

Lemma demo_minted_room : room demo_minted.
Proof.
  split.
  - intros a x [(-> & -> & _)|(-> & -> & _)]%demo_minted_accounts; lia.
  - intros a x [(-> & _ & ->)|(-> & _ & ->)]%demo_minted_accounts; lia.
  - assert (tw_ownerDirs demo_minted = {[1 := {[0 := mkPage [demo_token] None None]}]}) as E by (by vm_compute).
    intros a p. unfold ownerDir. rewrite E. destruct (decide (a = 1)) as [->|]; [rewrite lookup_singleton_eq|rewrite lookup_singleton_ne by done; by intros [? Hp]].
    cbn. rewrite lookup_singleton_is_Some. lia.
  - vm_compute. repeat split; discriminate.
  - by vm_compute.
Qed.

Lemma uri_tokens_invariant_witness : tokens_inv (fun _ => 0) demo_minted.
Proof.
  pose proof (uri_tokens_invariant (fun _ => 0) true tesSUCCESS tesSUCCESS (demo_tokens true 1000 1000) (demo_mint_tx 100)
    demo_tokens_inv demo_tokens_room demo_fee eq_refl I demo_uri_bytes) as Hi.
  rewrite demo_minted_run in Hi. exact Hi.
Defined.

Lemma demo_buy_fee : fee_ok demo_minted (demo_buy_tx 100).
Proof. split; [cbn; lia|]. intros x [(Ha & _)|(_ & -> & _)]%demo_minted_accounts; [discriminate Ha|cbn; lia]. Qed.

Lemma uri_sale_paid_witness :
  exists v', uri_apply true tesSUCCESS tesSUCCESS demo_minted (demo_buy_tx 100) = Ret v' /\
    Balance <$> tw_accounts v' !! 1 = Some 1099999990 /\ Balance <$> tw_accounts v' !! 2 = Some 899999990 /\ tk_Owner <$> tw_tokens v' !! demo_token = Some 2.
Proof.
  destruct (uri_apply true tesSUCCESS tesSUCCESS demo_minted (demo_buy_tx 100)) as [v'| | | |] eqn:Hrun; try (by vm_compute in Hrun).
  exists v'. split; [reflexivity|].
  destruct (uri_sale_paid (fun _ => 0) true tesSUCCESS tesSUCCESS demo_minted (demo_buy_tx 100) demo_token 100000000 v'
    demo_minted_inv demo_minted_room demo_buy_fee eq_refl eq_refl Hrun) as (t & asked & page & Ht & _ & _ & _ & _ & HT & HB & _).
  assert (tk_Owner t = 1) as Ho by (revert Ht; vm_compute; by intros [= <-]).
  split_and!; [rewrite HB, Ho; by vm_compute|rewrite HB, Ho; by vm_compute|]. rewrite HT, lookup_insert_eq. reflexivity.
Defined.

Lemma uri_authority_witness :
  exists t', tw_tokens demo_minted !! demo_token = Some t' /\ tk_Issuer t' = 1 /\ valid_utf8 demo_uri.
Proof.
  pose proof (uri_authority true tesSUCCESS tesSUCCESS (demo_tokens true 1000 1000) (demo_mint_tx 100) demo_minted demo_token demo_uri_bytes demo_minted_run) as Ha.
  destruct (tw_tokens demo_minted !! demo_token) as [t'|] eqn:Ht; [|by vm_compute in Ht]. change (tw_tokens (demo_tokens true 1000 1000) !! demo_token) with (@None token_sle) in Ha.
  destruct Ha as (uri & [= <-] & _ & Hu & _ & Hi & _). by exists t'.
Defined.
