(* ===== verification/Base58.v ===== *)
(** * Base58 (src/src/ripple/protocol/impl/tokens.cpp)

    The text form of account ids and keys: a type byte, the bytes of the token and a
    checksum of four bytes, written in base 58. A string is the list of its
    characters. SHA-256 is OpenSSL's, the argument [sha256]. *)

From Stdlib Require Import Ascii String.
From S2P Require Import Prelude.

Fixpoint chars (s : string) : list Z :=
  match s with
  | EmptyString => []
  | String c s => Z.of_N (N_of_ascii c) :: chars s
  end.

Definition alphabetForward : list Z := chars "rpshnaf39wBUDNEGHJKLM4PQRST7VWXYZ2bcdeCg65jkm8oFqi1tuvAxyz".

(** The loop of the initialiser: [map[alphabetForward[i]] = j++]. *)
Fixpoint fill_reverse (cs : list Z) (j : Z) (map : list Z) : list Z :=
  match cs with
  | [] => map
  | c :: cs => fill_reverse cs (j + 1) (<[Z.to_nat c := j]> map)
  end.

Definition alphabetReverse : list Z := fill_reverse alphabetForward 0 (replicate 256 (-1)).

(** The element of one of the two arrays; every index that occurs is within it. *)
Definition at_index (a : list Z) (i : Z) : Z := a !!! Z.to_nat i.

(** ** The routines of [detail] *)

(** [while (p != end && *p == 0)]: the number of zeroes and what follows them. *)
Fixpoint skip_zeroes (message : list Z) : nat * list Z :=
  match message with
  | b :: rest => if b =? 0 then let '(zeroes, rest) := skip_zeroes rest in (S zeroes, rest) else (O, message)
  | [] => (O, [])
  end.

(** The inner loop of both routines, from the last digit to the first: the digits
    in [base] are multiplied by [mul] and the carry is added. The digits are listed
    from the last one. *)
Fixpoint times_plus (mul base : Z) (digits : list Z) (carry : Z) : list Z * Z :=
  match digits with
  | [] => ([], carry)
  | d :: rest =>
    let carry := carry + mul * d in
    let '(rest, out) := times_plus mul base rest (carry / base) in (carry mod base :: rest, out)
  end.

(** "b58 = b58 * 256 + ch" for each byte; the assertion on the carry is not
    compiled into a release. *)
Fixpoint to_base58 (message : list Z) (b58 : list Z) : list Z :=
  match message with
  | [] => b58
  | ch :: rest => to_base58 rest (times_plus 256 58 b58 ch).1
  end.

Definition encodeBase58 (message : list Z) (temp_size : Z) : list Z :=
  let '(zeroes, rest) := skip_zeroes message in
  let b58 := reverse (to_base58 rest (replicate (Z.to_nat temp_size) 0)) in
  replicate zeroes (at_index alphabetForward 0) ++ map (at_index alphabetForward) (skip_zeroes b58).2.

Fixpoint skip_first (s : list Z) : nat * list Z :=
  match s with
  | c :: rest => if at_index alphabetReverse c =? 0 then let '(zeroes, rest) := skip_first rest in (S zeroes, rest) else (O, s)
  | [] => (O, [])
  end.

(** "b256 = b256 * 58 + carry" for each character; [None] for a character that is
    not in the alphabet. *)
Fixpoint to_base256 (s : list Z) (b256 : list Z) : option (list Z) :=
  match s with
  | [] => Some b256
  | c :: rest =>
    let carry := at_index alphabetReverse c in
    if carry =? -1 then None else to_base256 rest (times_plus 58 256 b256 carry).1
  end.

Definition decodeBase58 (s : list Z) : list Z :=
  let '(zeroes, rest) := skip_first s in
  let remain := lenZ rest in
  if 64 <? remain then []
  else
    match to_base256 rest (replicate (Z.to_nat (remain * 733 / 1000 + 1)) 0) with
    | None => []
    | Some b256 => replicate zeroes 0 ++ (skip_zeroes (reverse b256)).2
    end.

(** ** Tokens *)

Section Tokens.
  Context (sha256 : list Z -> list Z).

(** The first four bytes of the digest of the digest. *)
Definition checksum (message : list Z) : list Z := take 4 (sha256 (sha256 message)).

Definition encodeBase58Token (type : Z) (token : list Z) : list Z :=
  let expanded := 1 + lenZ token + 4 in
  let bufsize := expanded * 3 in
  encodeBase58 (type :: token ++ checksum (type :: token)) (bufsize - expanded).

Definition decodeBase58Token (s : list Z) (type : Z) : list Z :=
  let ret := decodeBase58 s in
  if lenZ ret <? 6 then []
  else if negb (bool_decide (head ret = Some type)) then []
  else
    let guard := checksum (take (length ret - 4) ret) in
    if negb (bool_decide (guard = drop (length ret - 4) ret)) then []
    else take (length ret - 5) (drop 1 ret).

End Tokens.

(** ** Numbers in a base *)

(** The value of digits, the first one the most significant, and of digits listed
    from the last one. *)
Definition digits_value (base : Z) (ds : list Z) : Z := foldl (fun acc d => acc * base + d) 0 ds.
Definition value_of (base : Z) (ds : list Z) : Z := foldr (fun d acc => d + base * acc) 0 ds.

Definition digits_ok (base : Z) (ds : list Z) : Prop := Forall (fun d => 0 <= d < base) ds.

(** Digits without leading zeroes. *)
Definition canonical (base : Z) (ds : list Z) : Prop := digits_ok base ds /\ head ds <> Some 0.

Lemma value_of_reverse base ds : digits_value base (reverse ds) = value_of base ds.
Proof.
  unfold digits_value, value_of. induction ds as [|d ds IH]; [done|].
  rewrite reverse_cons, foldl_app, IH. cbn. lia.
Qed.

Lemma digits_value_acc base ds acc :
  foldl (fun acc d => acc * base + d) acc ds = acc * base ^ lenZ ds + digits_value base ds.
Proof.
  unfold digits_value. revert acc. induction ds as [|d ds IH]; intros acc; cbn [foldl]; [rewrite lenZ_nil; lia|].
  rewrite IH, (IH (0 * base + d)). autorewrite with mach. rewrite Z.pow_add_r, Z.pow_1_r by (auto with mach; lia). lia.
Qed.

Lemma digits_value_cons base d ds : digits_value base (d :: ds) = d * base ^ lenZ ds + digits_value base ds.
Proof. unfold digits_value at 1. cbn [foldl]. rewrite digits_value_acc. lia. Qed.

Lemma digits_value_range base ds : 0 < base -> digits_ok base ds -> 0 <= digits_value base ds < base ^ lenZ ds.
Proof.
  intros Hb. induction 1 as [|d ds Hd Hds IH]; [by cbn|]. rewrite digits_value_cons. autorewrite with mach.
  rewrite Z.pow_add_r, Z.pow_1_r by (auto with mach; lia). nia.
Qed.

Lemma digits_value_inj base ds ds' :
  0 < base -> length ds = length ds' -> digits_ok base ds -> digits_ok base ds' ->
  digits_value base ds = digits_value base ds' -> ds = ds'.
Proof.
  intros Hb Hl Hd. revert ds' Hl. induction Hd as [|d ds Hd Hds IH]; intros [|d' ds'] Hl Hd'; try done.
  apply Forall_cons in Hd' as [Hd1 Hd2]. injection Hl as Hl. rewrite !digits_value_cons.
  replace (lenZ ds') with (lenZ ds) by (unfold lenZ; lia). intros E.
  pose proof (digits_value_range base ds Hb Hds). pose proof (digits_value_range base ds' Hb Hd2) as Hr.
  replace (lenZ ds') with (lenZ ds) in Hr by (unfold lenZ; lia).
  assert (d = d') as -> by nia. f_equal. apply IH; [done|done|lia].
Qed.

(** The number of digits without leading zeroes follows from the value. *)
Lemma canonical_low base ds : 1 < base -> canonical base ds -> ds <> [] -> base ^ (lenZ ds - 1) <= digits_value base ds.
Proof.
  intros Hb [Hd Hh] Hn. destruct ds as [|d ds]; [done|]. apply Forall_cons in Hd as [Hd Hds].
  rewrite digits_value_cons. autorewrite with mach. replace (1 + lenZ ds - 1) with (lenZ ds) by lia.
  pose proof (digits_value_range base ds ltac:(lia) Hds). assert (d <> 0) by (intros ->; by cbn in Hh). nia.
Qed.

Lemma canonical_length base ds ds' :
  1 < base -> canonical base ds -> digits_ok base ds' -> digits_value base ds = digits_value base ds' ->
  lenZ ds <= lenZ ds'.
Proof.
  intros Hb Hd Hd' E. destruct ds as [|d ds]; [by auto with mach|].
  pose proof (canonical_low base _ Hb Hd ltac:(done)) as Hl.
  pose proof (digits_value_range base ds' ltac:(lia) Hd') as [_ Hr].
  assert (lenZ (d :: ds) - 1 < lenZ ds'); [|lia]. apply (Z.pow_lt_mono_r_iff base); [lia|auto with mach|lia].
Qed.

Lemma canonical_unique base ds ds' :
  1 < base -> canonical base ds -> canonical base ds' -> digits_value base ds = digits_value base ds' -> ds = ds'.
Proof.
  intros Hb Hd Hd' E. pose proof (canonical_length base ds ds' Hb Hd (proj1 Hd') E).
  pose proof (canonical_length base ds' ds Hb Hd' (proj1 Hd) (eq_sym E)).
  apply (digits_value_inj base); [lia|unfold lenZ in *; lia|apply Hd|apply Hd'|done].
Qed.

(** Digits are zeroes and then digits without leading ones. *)
Lemma skip_zeroes_spec base ds :
  digits_ok base ds ->
  let '(zeroes, rest) := skip_zeroes ds in
  ds = replicate zeroes 0 ++ rest /\ canonical base rest /\ digits_value base rest = digits_value base ds.
Proof.
  induction 1 as [|d ds Hd Hds IH]; [cbn; split_and!; [done|split; [constructor|done]|done]|]. cbn [skip_zeroes]. destruct (d =? 0) eqn:E.
  - destruct (skip_zeroes ds) as [z rest]. destruct IH as (-> & Hc & Hv). apply Z.eqb_eq in E as ->.
    split_and!; [done|done|]. rewrite digits_value_cons, Hv. lia.
  - split_and!; [done| |done]. split; [by constructor|]. intros [= ->]. done.
Qed.

(** ** Conversion between bases *)

Lemma times_plus_spec mul base ds carry :
  0 < base -> 0 <= mul -> 0 <= carry -> digits_ok base ds ->
  let '(ds', out) := times_plus mul base ds carry in
  digits_ok base ds' /\ length ds' = length ds /\ 0 <= out /\
  value_of base ds' + base ^ lenZ ds * out = mul * value_of base ds + carry.
Proof.
  intros Hb Hm Hc Hd. revert carry Hc. induction Hd as [|d ds Hd Hds IH]; intros carry Hc.
  { cbn [times_plus]. split_and!; [constructor|done|done|]. change (lenZ []) with 0. cbn [value_of foldr]. lia. }
  cbn [times_plus]. specialize (IH ((carry + mul * d) / base) ltac:(apply Z.div_pos; nia)).
  destruct (times_plus mul base ds _) as [ds' out]. destruct IH as (Ho & Hl & Hout & Hv).
  pose proof (Z.div_mod (carry + mul * d) base ltac:(lia)) as Hdm.
  split_and!; [constructor; [apply Z.mod_pos_bound; lia|done]|cbn; lia|done|].
  autorewrite with mach. rewrite Z.pow_add_r, Z.pow_1_r by (auto with mach; lia). cbn [value_of foldr].
  fold (value_of base ds') (value_of base ds). nia.
Qed.

(** The outer loop: the digits [cs] in the base [mul] are appended to a number. *)
Definition convert (mul base : Z) (cs ds : list Z) : list Z := foldl (fun ds c => (times_plus mul base ds c).1) ds cs.

Lemma convert_spec mul base cs ds :
  0 < base -> 0 < mul -> digits_ok mul cs -> digits_ok base ds ->
  value_of base ds * mul ^ lenZ cs + digits_value mul cs < base ^ lenZ ds ->
  digits_ok base (convert mul base cs ds) /\ length (convert mul base cs ds) = length ds /\
  value_of base (convert mul base cs ds) = value_of base ds * mul ^ lenZ cs + digits_value mul cs.
Proof.
  intros Hb Hm Hc. revert ds. induction Hc as [|c cs Hc Hcs IH]; intros ds Hd Hlt.
  { unfold convert. cbn [foldl]. split_and!; [done|done|]. change (lenZ []) with 0. change (digits_value mul []) with 0. lia. }
  pose proof (times_plus_spec mul base ds c Hb ltac:(lia) ltac:(lia) Hd) as Ht.
  unfold convert. cbn [foldl]. destruct (times_plus mul base ds c) as [ds' out] eqn:E. cbn [fst].
  destruct Ht as (Ho & Hl & Hout & Hv). fold (convert mul base cs ds').
  rewrite digits_value_cons in Hlt |- *. autorewrite with mach in *. rewrite Z.pow_add_r, Z.pow_1_r in * by (auto with mach; lia).
  pose proof (digits_value_range mul cs Hm Hcs) as Hr.
  pose proof (digits_value_range base (reverse ds') Hb ltac:(by apply Forall_reverse)) as Hr'. rewrite value_of_reverse in Hr'.
  assert (out = 0) as ->.
  { assert (1 <= mul ^ lenZ cs) by (pose proof (Z.pow_pos_nonneg mul (lenZ cs)); auto with mach; lia).
    assert (mul * value_of base ds + c < base ^ lenZ ds) by nia. nia. }
  replace (lenZ ds) with (lenZ ds') in * by (unfold lenZ; lia).
  destruct (IH ds' Ho ltac:(nia)) as (H1 & H2 & H3). split_and!; [done|lia|]. rewrite H3. nia.
Qed.

(** From zeroes, in a buffer that is large enough: the digits of the same number. *)
Lemma convert_canonical mul base cs n :
  0 < base -> 0 < mul -> digits_ok mul cs -> digits_value mul cs < base ^ Z.of_nat n ->
  let ds := (skip_zeroes (reverse (convert mul base cs (replicate n 0)))).2 in
  canonical base ds /\ digits_value base ds = digits_value mul cs.
Proof.
  intros Hb Hm Hc Hlt.
  assert (Hz : forall n, value_of base (replicate n 0) = 0).
  { intros k. induction k as [|k IH]; [done|]. unfold value_of in *. cbn [replicate foldr]. rewrite IH. lia. }
  assert (Hd : digits_ok base (replicate n 0)) by (apply Forall_replicate; lia).
  pose proof (convert_spec mul base cs (replicate n 0) Hb Hm Hc Hd) as Hs.
  rewrite Hz in Hs. unfold lenZ in Hs at 2. rewrite length_replicate in Hs.
  destruct (Hs ltac:(lia)) as (Ho & _ & Hv). apply Forall_reverse in Ho.
  pose proof (skip_zeroes_spec base _ Ho) as Hsk. destruct (skip_zeroes _) as [z rest]. cbn [snd].
  destruct Hsk as (_ & Hcan & Hval). split; [done|]. rewrite Hval, value_of_reverse, Hv. lia.
Qed.

Lemma to_base58_convert message b58 : to_base58 message b58 = convert 256 58 message b58.
Proof. revert b58. induction message as [|c cs IH]; intros b58; [done|]. cbn [to_base58]. by rewrite IH. Qed.

(** ** The alphabet *)

Definition forward (d : Z) : Z := at_index alphabetForward d.
Definition backward (c : Z) : Z := at_index alphabetReverse c.

Lemma backward_forward d : 0 <= d < 58 -> backward (forward d) = d /\ is_u8 (forward d).
Proof.
  intros Hd.
  assert (Forall (fun d => backward (forward d) = d /\ is_u8 (forward d)) (seqZ 0 58)) as Hall.
  { apply (bool_decide_unpack _). by vm_compute. }
  rewrite Forall_forall in Hall. apply Hall, elem_of_seqZ. lia.
Qed.

Definition in_alphabet (c : Z) : bool :=
  (backward c =? -1) || (0 <=? backward c) && (backward c <? 58) && (forward (backward c) =? c).

Lemma forward_backward c : is_u8 c -> backward c = -1 \/ 0 <= backward c < 58 /\ forward (backward c) = c.
Proof.
  intros Hc.
  assert (Hall : forallb in_alphabet (seqZ 0 256) = true) by (by vm_compute).
  pose proof (forall_byte in_alphabet Hall c Hc) as H. unfold in_alphabet in H. lia.
Qed.

(** Strings over the alphabet and lists of digits are in bijection. *)
Lemma map_backward_forward ds : digits_ok 58 ds -> map backward (map forward ds) = ds.
Proof. induction 1 as [|d ds Hd Hds IH]; [done|]. cbn. by rewrite IH, (proj1 (backward_forward d Hd)). Qed.

Lemma map_forward_backward s :
  bytesOk s -> Forall (fun c => backward c <> -1) s -> digits_ok 58 (map backward s) /\ map forward (map backward s) = s.
Proof.
  induction 1 as [|c s Hc Hs IH]; intros Hn; [by split; [constructor|]|]. apply Forall_cons in Hn as [Hn1 Hn2].
  destruct (IH Hn2) as [H1 H2]. destruct (forward_backward c Hc) as [|[Hr Hf]]; [done|].
  split; [by constructor|]. cbn. by rewrite Hf, H2.
Qed.

Lemma to_base256_convert s b256 :
  bytesOk s ->
  (to_base256 s b256 = None /\ Exists (fun c => backward c = -1) s) \/
  (Forall (fun c => backward c <> -1) s /\ to_base256 s b256 = Some (convert 58 256 (map backward s) b256)).
Proof.
  intros Hs. revert b256. induction Hs as [|c s Hc Hs IH]; intros b256; [by right; split; [constructor|]|].
  cbn [to_base256]. fold (backward c). destruct (backward c =? -1) eqn:E.
  - left. split; [done|]. apply Exists_cons. left. lia.
  - destruct (IH (times_plus 58 256 b256 (backward c)).1) as [[-> He]|[Hf ->]]; [left|right].
    + split; [done|]. apply Exists_cons. by right.
    + split; [|done]. constructor; [lia|done].
Qed.

Lemma skip_first_spec s :
  bytesOk s ->
  let '(zeroes, rest) := skip_first s in
  s = replicate zeroes (forward 0) ++ rest /\ bytesOk rest /\ head (map backward rest) <> Some 0.
Proof.
  induction 1 as [|c s Hc Hs IH]; [by cbn; split_and!; [|constructor|]|]. cbn [skip_first]. fold (backward c). destruct (backward c =? 0) eqn:E.
  - destruct (skip_first s) as [z rest]. destruct IH as (-> & Hr & Hh). split_and!; [|done|done].
    destruct (forward_backward c Hc) as [|[_ <-]]; [lia|]. replace (backward c) with 0 by lia. done.
  - split_and!; [done|by constructor|]. cbn. intros [= E']. lia.
Qed.

Lemma skip_first_app n ds :
  canonical 58 ds -> skip_first (replicate n (forward 0) ++ map forward ds) = (n, map forward ds).
Proof.
  intros [Hd Hh]. induction n as [|n IH]; cbn [replicate app].
  - destruct Hd as [|d ds Hd Hds]; [done|]. cbn [map skip_first]. fold (backward (forward d)).
    rewrite (proj1 (backward_forward d Hd)). destruct (d =? 0) eqn:E; [|done]. apply Z.eqb_eq in E as ->. done.
  - cbn [skip_first]. fold (backward (forward 0)). rewrite (proj1 (backward_forward 0 ltac:(lia))). cbn [Z.eqb]. by rewrite IH.
Qed.

Lemma skip_zeroes_app n ds : head ds <> Some 0 -> skip_zeroes (replicate n 0 ++ ds) = (n, ds).
Proof.
  intros Hh. induction n as [|n IH]; cbn [replicate app].
  - destruct ds as [|d ds]; [done|]. cbn. destruct (d =? 0) eqn:E; [|done]. apply Z.eqb_eq in E as ->. done.
  - cbn [skip_zeroes Z.eqb]. by rewrite IH.
Qed.

(** ** The buffers are large enough *)

Lemma encode_room n : 0 <= n -> 256 ^ n <= 58 ^ (2 * n).
Proof. intros Hn. rewrite Z.pow_mul_r by lia. by apply Z.pow_le_mono_l. Qed.

Definition fits_base256 (n : Z) : bool := 58 ^ n <=? 256 ^ (n * 733 / 1000 + 1).

Lemma decode_room n : 0 <= n <= 64 -> 58 ^ n <= 256 ^ (n * 733 / 1000 + 1).
Proof.
  intros Hn. assert (Hall : forallb fits_base256 (seqZ 0 65) = true) by (by vm_compute).
  rewrite forallb_forall in Hall. apply Z.leb_le, (Hall n), list_elem_of_In, elem_of_seqZ. lia.
Qed.

(** Forty-six bytes have at most sixty-three digits. *)
Lemma digits_bound ds n : canonical 58 ds -> digits_value 58 ds < 256 ^ n -> n <= 46 -> lenZ ds <= 63.
Proof.
  intros Hc Hv Hn. destruct (decide (ds = [])) as [->|Hne]; [done|].
  pose proof (canonical_low 58 ds ltac:(lia) Hc Hne) as Hl.
  assert (lenZ ds - 1 < 63); [|lia]. apply (Z.pow_lt_mono_r_iff 58); [lia|lia|].
  assert (256 ^ n <= 256 ^ 46) by (apply Z.pow_le_mono_r; lia). assert (256 ^ 46 <= 58 ^ 63) by (by vm_compute). lia.
Qed.

(** ** Encoding and decoding *)

(** A message and its text: as many zeroes as first letters, and the same number. *)
Definition base58_of (m s : list Z) : Prop :=
  exists zeroes rest ds, m = replicate zeroes 0 ++ rest /\ s = replicate zeroes (forward 0) ++ map forward ds /\
    canonical 256 rest /\ canonical 58 ds /\ digits_value 58 ds = digits_value 256 rest.

Lemma base58_of_fun m s s' : base58_of m s -> base58_of m s' -> s = s'.
Proof.
  intros (z & rest & ds & -> & -> & Hr & Hd & Hv) (z' & rest' & ds' & E & -> & Hr' & Hd' & Hv').
  pose proof (skip_zeroes_app z rest (proj2 Hr)) as E1. rewrite E, (skip_zeroes_app z' rest' (proj2 Hr')) in E1.
  injection E1 as -> ->. rewrite (canonical_unique 58 ds ds'); [done|lia|done|done|lia].
Qed.

Lemma base58_of_inj m m' s : base58_of m s -> base58_of m' s -> m = m'.
Proof.
  intros (z & rest & ds & -> & -> & Hr & Hd & Hv) (z' & rest' & ds' & -> & E & Hr' & Hd' & Hv').
  pose proof (skip_first_app z ds Hd) as E1. rewrite E, (skip_first_app z' ds' Hd') in E1. injection E1 as -> E1.
  apply (f_equal (map backward)) in E1. rewrite !map_backward_forward in E1 by (apply Hd || apply Hd'). subst ds'.
  rewrite (canonical_unique 256 rest rest'); [done|lia|done|done|lia].
Qed.

Lemma encodeBase58_of m n : bytesOk m -> 2 * lenZ m <= n -> base58_of m (encodeBase58 m n).
Proof.
  intros Hm Hn. unfold encodeBase58. pose proof (skip_zeroes_spec 256 m Hm) as Hs.
  destruct (skip_zeroes m) as [z rest]. destruct Hs as (-> & Hc & _). rewrite to_base58_convert.
  rewrite lenZ_app in Hn. pose proof (lenZ_nonneg (replicate z 0)). pose proof (lenZ_nonneg rest).
  pose proof (digits_value_range 256 rest ltac:(lia) (proj1 Hc)) as Hr. pose proof (encode_room (lenZ rest) ltac:(lia)) as Hroom.
  destruct (convert_canonical 256 58 rest (Z.to_nat n)) as [Hd Hv]; [lia|lia|apply Hc| |].
  { rewrite Z2Nat.id by lia. assert (58 ^ (2 * lenZ rest) <= 58 ^ n) by (apply Z.pow_le_mono_r; lia). lia. }
  by exists z, rest, (skip_zeroes (reverse (convert 256 58 rest (replicate (Z.to_nat n) 0)))).2.
Qed.

Lemma decodeBase58_text z ds :
  canonical 58 ds -> lenZ ds <= 64 ->
  base58_of (decodeBase58 (replicate z (forward 0) ++ map forward ds)) (replicate z (forward 0) ++ map forward ds).
Proof.
  intros Hd Hl. unfold decodeBase58. rewrite skip_first_app by done.
  replace (lenZ (map forward ds)) with (lenZ ds) by (unfold lenZ; by rewrite length_map).
  replace (64 <? lenZ ds) with false by lia.
  assert (Hb : bytesOk (map forward ds)) by (apply Forall_map; eapply Forall_impl; [apply Hd|]; intros d Hx; by apply backward_forward).
  pose proof (lenZ_nonneg ds). set (n := Z.to_nat _).
  destruct (to_base256_convert (map forward ds) (replicate n 0) Hb) as [[_ He]|[_ ->]].
  { apply Exists_exists in He as (c & (d & <- & Hin%list_elem_of_In)%list_elem_of_In%in_map_iff & Hc).
    pose proof (proj1 (Forall_forall _ ds) (proj1 Hd) d Hin) as Hx. rewrite (proj1 (backward_forward d Hx)) in Hc. cbn in Hx. lia. }
  rewrite map_backward_forward by apply Hd.
  pose proof (digits_value_range 58 ds ltac:(lia) (proj1 Hd)) as Hr. pose proof (decode_room (lenZ ds) ltac:(lia)) as Hroom.
  destruct (convert_canonical 58 256 ds n) as [Hc Hv]; [lia|lia|apply Hd| |].
  { unfold n. rewrite Z2Nat.id; [lia|]. pose proof (Z.div_pos (lenZ ds * 733) 1000). lia. }
  by exists z, (skip_zeroes (reverse (convert 58 256 ds (replicate n 0)))).2, ds.
Qed.

Lemma decodeBase58_spec s : bytesOk s -> decodeBase58 s = [] \/ base58_of (decodeBase58 s) s.
Proof.
  intros Hs. pose proof (skip_first_spec s Hs) as Hf. destruct (skip_first s) as [z rest] eqn:E. destruct Hf as (Es & Hr & Hh).
  destruct (decide (64 < lenZ rest)) as [Hl|Hl].
  { left. unfold decodeBase58. rewrite E. by replace (64 <? lenZ rest) with true by lia. }
  destruct (to_base256_convert rest (replicate (Z.to_nat (lenZ rest * 733 / 1000 + 1)) 0) Hr) as [[Hn _]|[Hn _]].
  { left. unfold decodeBase58. rewrite E, Hn. by destruct (64 <? lenZ rest). }
  right. destruct (map_forward_backward rest Hr Hn) as [Hd Hmap]. rewrite Es, <- Hmap. apply decodeBase58_text.
  - by split.
  - unfold lenZ in *. rewrite length_map. lia.
Qed.

Lemma decode_encode m n : bytesOk m -> lenZ m <= 46 -> 2 * lenZ m <= n -> decodeBase58 (encodeBase58 m n) = m.
Proof.
  intros Hm Hl Hn. pose proof (encodeBase58_of m n Hm Hn) as Hof.
  pose proof Hof as (z & rest & ds & E & Es & Hr & Hd & Hv).
  apply (base58_of_inj _ _ (encodeBase58 m n)); [|done]. rewrite Es. apply decodeBase58_text; [done|].
  pose proof (digits_value_range 256 rest ltac:(lia) (proj1 Hr)) as Hrange.
  assert (lenZ rest <= 46) by (rewrite E, lenZ_app in Hl; pose proof (lenZ_nonneg (replicate z 0)); lia).
  pose proof (digits_bound ds (lenZ rest) Hd ltac:(lia) ltac:(lia)). lia.
Qed.

Lemma encode_decode s n :
  bytesOk s -> decodeBase58 s <> [] -> 2 * lenZ (decodeBase58 s) <= n -> bytesOk (decodeBase58 s) /\ encodeBase58 (decodeBase58 s) n = s.
Proof.
  intros Hs Hne Hn. destruct (decodeBase58_spec s Hs) as [|Hof]; [done|].
  assert (Hb : bytesOk (decodeBase58 s)).
  { destruct Hof as (z & rest & ds & -> & _ & [Hr _] & _). apply Forall_app. split; [by apply Forall_replicate|exact Hr]. }
  split; [done|]. apply (base58_of_fun (decodeBase58 s)); [by apply encodeBase58_of|done].
Qed.

(** ** Tokens and their texts *)

Section TokenFacts.
  Context (sha256 : list Z -> list Z) (sha256_bytes : forall m, lenZ (sha256 m) = 32 /\ bytesOk (sha256 m)).

(** The bytes of a token with its type and its checksum. *)
Definition token_bytes (type : Z) (token : list Z) : list Z := type :: token ++ checksum sha256 (type :: token).

Lemma checksum_bytes m : lenZ (checksum sha256 m) = 4 /\ bytesOk (checksum sha256 m).
Proof.
  destruct (sha256_bytes (sha256 m)) as [Hl Hb]. unfold checksum, lenZ in *. rewrite length_take. split; [lia|by apply Forall_take].
Qed.

Lemma token_bytes_length type token : lenZ (token_bytes type token) = 5 + lenZ token.
Proof. unfold token_bytes. autorewrite with mach. rewrite (proj1 (checksum_bytes _)). lia. Qed.

Lemma token_bytes_ok type token : is_u8 type -> bytesOk token -> bytesOk (token_bytes type token).
Proof. intros Ht Hb. constructor; [done|]. apply Forall_app. split; [done|apply checksum_bytes]. Qed.

Lemma encodeBase58Token_of type token :
  is_u8 type -> bytesOk token -> base58_of (token_bytes type token) (encodeBase58Token sha256 type token).
Proof.
  intros Ht Hb. apply encodeBase58_of; [by apply token_bytes_ok|]. fold (token_bytes type token). rewrite token_bytes_length. lia.
Qed.

(** The last test and the parts of the message, from its bytes. *)
Lemma decodeBase58Token_bytes s type token :
  decodeBase58 s = token_bytes type token -> token <> [] -> decodeBase58Token sha256 s type = token.
Proof.
  intros E Hn. unfold decodeBase58Token. rewrite E. pose proof (token_bytes_length type token) as Hl.
  pose proof (proj1 (checksum_bytes (type :: token))) as Hc.
  assert (0 < lenZ token) by (destruct token; [done|autorewrite with mach; pose proof (lenZ_nonneg token); lia]).
  replace (lenZ (token_bytes type token) <? 6) with false by lia. cbn [head token_bytes]. rewrite bool_decide_true by done. cbn [negb].
  assert (El : (length (type :: token ++ checksum sha256 (type :: token)) - 4 = length (type :: token))%nat)
    by (unfold lenZ in *; cbn; rewrite length_app; lia).
  unfold token_bytes. rewrite El. rewrite !app_comm_cons, take_app_length, drop_app_length.
  rewrite bool_decide_true by done. cbn [negb]. change (drop 1 ((type :: token) ++ checksum sha256 (type :: token))) with (token ++ checksum sha256 (type :: token)). rewrite take_app_le by (unfold lenZ in *; cbn; rewrite length_app; lia).
  rewrite take_ge; [done|]. unfold lenZ in *. cbn. rewrite length_app. lia.
Qed.

Lemma token_roundtrip type token :
  is_u8 type -> bytesOk token -> 1 <= lenZ token <= 41 ->
  decodeBase58Token sha256 (encodeBase58Token sha256 type token) type = token.
Proof.
  intros Ht Hb Hl. apply decodeBase58Token_bytes; [|intros ->; unfold lenZ in Hl; cbn in Hl; lia]. pose proof (token_bytes_length type token).
  apply decode_encode; [by apply token_bytes_ok|fold (token_bytes type token); lia|fold (token_bytes type token); lia].
Qed.

(** What is accepted is the text of the token that it gives. *)
Lemma token_text s type token :
  bytesOk s -> decodeBase58Token sha256 s type = token -> token <> [] ->
  bytesOk token /\ s = encodeBase58Token sha256 type token.
Proof.
  intros Hs E Hn. unfold decodeBase58Token in E. destruct (lenZ (decodeBase58 s) <? 6) eqn:Hl; [done|].
  case_bool_decide as Hh; [|done]. cbn [negb] in E. case_bool_decide as Hg; [|done]. cbn [negb] in E.
  destruct (encode_decode s (2 * lenZ (decodeBase58 s)) Hs) as [Hb He]; [by intros Hx; rewrite Hx in Hl|lia|].
  set (ret := decodeBase58 s) in *. destruct ret as [|t ret]; [done|]. injection Hh as ->.
  assert (Htok : type :: token = take (length (type :: ret) - 4) (type :: ret)).
  { subst token. assert (5 <= length ret)%nat by (rewrite lenZ_cons in Hl; unfold lenZ in Hl; lia).
    replace (length (type :: ret) - 4)%nat with (S (length ret - 4)) by (cbn; lia).
    replace (length (type :: ret) - 5)%nat with (length ret - 4)%nat by (cbn; lia). done. }
  rewrite <- Htok in Hg. assert (Hall : type :: ret = token_bytes type token).
  { unfold token_bytes. rewrite Hg, app_comm_cons, Htok. by rewrite take_drop. }
  split.
  - assert (bytesOk (type :: token)) as Hb2 by (rewrite Htok; by apply Forall_take). by apply Forall_cons in Hb2 as [_ ?].
  - unfold encodeBase58Token. fold (token_bytes type token). rewrite <- Hall, <- He. f_equal.
    rewrite Hall, token_bytes_length. lia.
Qed.

End TokenFacts.
