(* ===== verification/HookUtil.v ===== *)
(** * Addresses (src/src/ripple/app/hook/impl/applyHook.cpp)

    [util_raddr] and [util_accid] of the hook API, between account ids and their
    addresses. SHA-256 is OpenSSL's, an argument here. *)

From S2P Require Import Prelude HookEnum HookMemory Base58.

(** [TokenType::AccountID] *)
Definition TokenType_AccountID : Z := 0.

(** ** The functions *)

Section Functions.
  Context (sha256 : list Z -> list Z).

Definition util_raddr (mem : list Z) (write_ptr write_len read_ptr read_len : Z) : Z * list Z :=
  HOOK_SETUP (lenZ mem) mem
    (if NOT_IN_BOUNDS write_ptr write_len (lenZ mem) then (OUT_OF_BOUNDS, mem)
     else if NOT_IN_BOUNDS read_ptr read_len (lenZ mem) then (OUT_OF_BOUNDS, mem)
     else if negb (read_len =? 20) then (INVALID_ARGUMENT, mem)
     else
       let raddr := encodeBase58Token sha256 TokenType_AccountID (mem_slice mem read_ptr read_len) in
       if write_len <? lenZ raddr then (TOO_SMALL, mem)
       else WRITE_WASM_MEMORY_AND_RETURN mem write_ptr write_len raddr).

(** [std::string{buffer}]: the characters before the first NUL. *)
Fixpoint c_string (buffer : list Z) : list Z :=
  match buffer with
  | [] => []
  | c :: rest => if c =? 0 then [] else c :: c_string rest
  end.

(** [n] bytes from [s.data()]: the characters and the NUL behind them. *)
Definition string_data {E} (s : list Z) (n : Z) : outcome E (list Z) :=
  if n <=? lenZ s + 1 then Ret (take (Z.to_nat n) (s ++ [0])) else Undef UB_oob.

Definition util_accid {E} (mem : list Z) (write_ptr write_len read_ptr read_len : Z) : outcome E (Z * list Z) :=
  if lenZ mem =? 0 then Ret (INTERNAL_ERROR, mem)
  else if NOT_IN_BOUNDS write_ptr write_len (lenZ mem) then Ret (OUT_OF_BOUNDS, mem)
  else if NOT_IN_BOUNDS read_ptr read_len (lenZ mem) then Ret (OUT_OF_BOUNDS, mem)
  else if write_len <? 20 then Ret (TOO_SMALL, mem)
  else if 49 <? read_len then Ret (TOO_BIG, mem)
  else
    let raddr := c_string (mem_slice mem read_ptr read_len) in
    match decodeBase58Token sha256 raddr TokenType_AccountID with
    | [] => Ret (INVALID_ARGUMENT, mem)
    | result => let* bytes := string_data result 20 in Ret (WRITE_WASM_MEMORY_AND_RETURN mem write_ptr write_len bytes)
    end.

End Functions.

(** ** The length of an address *)

Definition fits_address (z : Z) : bool := 256 ^ (25 - z) <=? 58 ^ (35 - z).

Lemma address_room z : 0 <= z <= 25 -> 256 ^ (25 - z) <= 58 ^ (35 - z).
Proof.
  intros Hz. assert (Hall : forallb fits_address (seqZ 0 26) = true) by (by vm_compute).
  rewrite forallb_forall in Hall. apply Z.leb_le, (Hall z), list_elem_of_In, elem_of_seqZ. lia.
Qed.

Lemma forward_nonzero d : 0 <= d < 58 -> forward d <> 0.
Proof. intros Hd E. destruct (backward_forward d Hd) as [Hb _]. rewrite E in Hb. assert (backward 0 = -1) by (by vm_compute). lia. Qed.

Lemma map_forward_text ds : digits_ok 58 ds -> Forall (fun c => c <> 0) (map forward ds) /\ bytesOk (map forward ds).
Proof.
  induction 1 as [|d ds Hd Hds [IH1 IH2]]; [by split; constructor|]. split; constructor; [by apply forward_nonzero|done| |done].
  apply (backward_forward d Hd).
Qed.

(** The characters of a text are bytes other than NUL. *)
Lemma base58_of_text m s : base58_of m s -> Forall (fun c => c <> 0) s /\ bytesOk s.
Proof.
  intros (z & rest & ds & _ & -> & _ & [Hd _] & _). destruct (map_forward_text ds Hd) as [H1 H2].
  destruct (map_forward_text (replicate z 0)) as [H3 H4]; [apply Forall_replicate; lia|].
  replace (map forward (replicate z 0)) with (replicate z (forward 0)) in * by (symmetry; exact (fmap_replicate forward z 0)).
  split; by apply Forall_app.
Qed.

(** Twenty-five bytes take at most thirty-five characters. *)
Lemma base58_of_25 m s : base58_of m s -> lenZ m = 25 -> 0 < lenZ s <= 35.
Proof.
  intros (z & rest & ds & -> & -> & Hr & Hd & Hv) Hl. rewrite !lenZ_app in *.
  assert (lenZ (replicate z 0) = Z.of_nat z) as Ez by (unfold lenZ; by rewrite length_replicate).
  assert (lenZ (replicate z (forward 0)) = Z.of_nat z) as -> by (unfold lenZ; by rewrite length_replicate).
  assert (lenZ (map forward ds) = lenZ ds) as -> by (unfold lenZ; by rewrite length_map).
  pose proof (digits_value_range 256 rest ltac:(lia) (proj1 Hr)) as [_ Hrr]. pose proof (lenZ_nonneg ds). pose proof (lenZ_nonneg rest).
  pose proof (address_room (Z.of_nat z) ltac:(lia)) as Hroom. replace (lenZ rest) with (25 - Z.of_nat z) in Hrr by lia.
  destruct ds as [|d ds].
  - destruct rest as [|b rest]; [change (lenZ (@nil Z)) with 0 in *; lia|]. pose proof (canonical_low 256 (b :: rest) ltac:(lia) Hr ltac:(done)) as Hlow.
    rewrite <- Hv in Hlow. cbn in Hlow. pose proof (Z.pow_pos_nonneg 256 (lenZ (b :: rest) - 1)). rewrite lenZ_cons in *. pose proof (lenZ_nonneg rest). lia.
  - pose proof (canonical_low 58 (d :: ds) ltac:(lia) Hd ltac:(done)) as Hlow. rewrite lenZ_cons in *.
    assert (lenZ ds < 35 - Z.of_nat z); [|pose proof (lenZ_nonneg ds); lia].
    apply (Z.pow_lt_mono_r_iff 58); [lia|lia|]. replace (1 + lenZ ds - 1) with (lenZ ds) in Hlow by lia. lia.
Qed.

Lemma c_string_text s : Forall (fun c => c <> 0) s -> c_string s = s.
Proof. induction 1 as [|c s Hc Hs IH]; [done|]. cbn. rewrite (proj2 (Z.eqb_neq _ _)) by done. by rewrite IH. Qed.

Lemma c_string_bytes s : bytesOk s -> bytesOk (c_string s).
Proof. induction 1 as [|c s Hc Hs IH]; [constructor|]. cbn. destruct (c =? 0); by constructor. Qed.

(** ** The functions are inverse *)

Section Facts.
  Context (sha256 : list Z -> list Z) (sha256_bytes : forall m, lenZ (sha256 m) = 32 /\ bytesOk (sha256 m)).

Abbreviation address := (encodeBase58Token sha256 TokenType_AccountID).

Lemma address_text id : bytesOk id -> lenZ id = 20 -> 0 < lenZ (address id) <= 35 /\ Forall (fun c => c <> 0) (address id).
Proof.
  intros Hb Hl. pose proof (encodeBase58Token_of sha256 sha256_bytes TokenType_AccountID id ltac:(done) Hb) as Hof. split.
  - apply (base58_of_25 _ _ Hof). by rewrite token_bytes_length, Hl.
  - apply (base58_of_text _ _ Hof).
Qed.

(** C38: An account id survives the way through its address. [util_raddr] on twenty
    bytes of memory and a buffer of thirty-five writes an address of at most
    thirty-five characters and nothing else. [util_accid] on these characters writes
    the twenty bytes again, anywhere in the memory. *)
Theorem address_roundtrip mem wp wl rp :
  bytesOk mem -> 35 <= wl -> 0 <= wp -> wp + wl <= lenZ mem -> 0 <= rp -> rp + 20 <= lenZ mem ->
  let id := mem_slice mem rp 20 in
  let raddr := address id in
  let mem' := mem_set mem wp raddr in
  0 < lenZ raddr <= 35 /\ util_raddr sha256 mem wp wl rp 20 = (lenZ raddr, mem') /\
  forall E ip il, 0 <= ip -> 20 <= il -> ip + il <= lenZ mem -> @util_accid sha256 E mem' ip il wp (lenZ raddr) = Ret (20, mem_set mem' ip id).
Proof.
  intros Hm Hwl Hwp Hw Hrp Hr. cbv zeta. set (id := mem_slice mem rp 20).
  assert (lenZ id = 20) as Hid by (unfold id, mem_slice, lenZ in *; rewrite length_take, length_drop; lia).
  assert (bytesOk id) as Hb by (by apply Forall_take, Forall_drop). destruct (address_text id Hb Hid) as [Hlen Htext].
  assert (lenZ (mem_set mem wp (address id)) = lenZ mem) as Hml by (apply mem_set_length; lia). split; [done|]. split.
  - unfold util_raddr, HOOK_SETUP, NOT_IN_BOUNDS. fold id. replace (lenZ mem =? 0) with false by lia.
    replace ((lenZ mem <=? wp) || _) with false by lia. replace ((lenZ mem <=? rp) || _) with false by lia. cbn [negb Z.eqb Pos.eqb].
    replace (wl <? lenZ (address id)) with false by lia. apply write_and_return; lia.
  - intros E ip il Hip Hil Hi. unfold util_accid, NOT_IN_BOUNDS. rewrite Hml. replace (lenZ mem =? 0) with false by lia.
    replace ((lenZ mem <=? ip) || _) with false by lia. replace ((lenZ mem <=? wp) || _) with false by lia.
    replace (il <? 20) with false by lia. replace (49 <? lenZ (address id)) with false by lia.
    rewrite mem_slice_set, c_string_text by (done || lia). rewrite token_roundtrip by (done || lia).
    assert (string_data (E := E) id 20 = Ret id) as Hs.
    { unfold string_data. rewrite Hid. cbn [Z.leb Z.add Z.compare Pos.compare]. f_equal. unfold lenZ in Hid. rewrite take_app_length' by lia. done. }
    destruct id as [|b rest] eqn:Eid; [done|]. rewrite Hs. cbn [obind]. rewrite write_and_return by lia. by rewrite Hid.
Qed.

(** The first twenty bytes of a token with the NUL behind it. *)
Lemma accid_written {E} mem wp wl token :
  20 <= wl -> wp + wl <= lenZ mem ->
  (let* bytes := string_data token 20 in Ret (WRITE_WASM_MEMORY_AND_RETURN mem wp wl bytes)) =
  if 19 <=? lenZ token then @Ret E _ (20, mem_set mem wp (take 20 (token ++ [0]))) else Undef UB_oob.
Proof.
  intros Hwl Hw. unfold string_data. destruct (Z.leb_spec 19 (lenZ token)) as [Hl|Hl].
  - replace (20 <=? lenZ token + 1) with true by lia. cbn [obind]. change (Z.to_nat 20) with 20%nat.
    assert (lenZ (take 20 (token ++ [0])) = 20) as Hlen by (unfold lenZ in *; rewrite length_take, length_app; cbn [length]; lia).
    rewrite write_and_return by lia. by rewrite Hlen.
  - by replace (20 <=? lenZ token + 1) with false by lia.
Qed.

(** C39: What [util_accid] accepts, with arguments within the memory of the instance. On
    the address of a token of nineteen to forty-one bytes it writes the first twenty of
    them, with a NUL behind nineteen; behind the end of a shorter token it reads. In
    turn it writes only when the text up to its first NUL is the address of a token of
    at least nineteen bytes, reads out of bounds only on that of a shorter one, and
    refuses only texts that are not addresses, with the memory left as it is. *)
Theorem util_accid_accepts E mem wp wl rp rl :
  bytesOk mem -> 20 <= wl -> 0 <= wp -> wp + wl <= lenZ mem -> 0 <= rl <= 49 -> 0 <= rp < lenZ mem -> rp + rl <= lenZ mem ->
  let text := c_string (mem_slice mem rp rl) in
  let result := @util_accid sha256 E mem wp wl rp rl in
  (forall token, bytesOk token -> 1 <= lenZ token <= 41 -> text = address token ->
    result = if 19 <=? lenZ token then Ret (20, mem_set mem wp (take 20 (token ++ [0]))) else Undef UB_oob) /\
  match result with
  | Ret (code, mem') =>
    (code = 20 /\ exists token, bytesOk token /\ text = address token /\ 19 <= lenZ token /\ mem' = mem_set mem wp (take 20 (token ++ [0]))) \/
    (code = INVALID_ARGUMENT /\ mem' = mem /\ forall token, bytesOk token -> 1 <= lenZ token <= 41 -> text <> address token)
  | Undef u => u = UB_oob /\ exists token, bytesOk token /\ text = address token /\ 1 <= lenZ token <= 18
  | _ => False
  end.
Proof.
  intros Hm Hwl Hwp Hw Hrl Hrp Hr. cbv zeta. unfold util_accid, NOT_IN_BOUNDS. replace (lenZ mem =? 0) with false by lia.
  replace ((lenZ mem <=? wp) || _) with false by lia. replace ((lenZ mem <=? rp) || _) with false by lia.
  replace (wl <? 20) with false by lia. replace (49 <? rl) with false by lia. set (text := c_string _).
  assert (bytesOk text) as Ht by (by apply c_string_bytes, Forall_take, Forall_drop). split.
  - intros token Hb Hl ->. rewrite token_roundtrip by done. destruct token as [|b token]; [change (lenZ (@nil Z)) with 0 in Hl; lia|].
    apply accid_written; [lia|lia].
  - destruct (decodeBase58Token sha256 text TokenType_AccountID) as [|b token] eqn:Ed.
    + right. split_and!; [done|done|]. intros token Hb Hl E'. rewrite E' in Ed. rewrite token_roundtrip in Ed by done. subst token. change (lenZ (@nil Z)) with 0 in Hl. lia.
    + destruct (token_text sha256 sha256_bytes text TokenType_AccountID (b :: token) Ht Ed ltac:(done)) as [Hb ->].
      rewrite accid_written by lia. pose proof (lenZ_nonneg token). destruct (Z.leb_spec 19 (lenZ (b :: token))).
      * left. split; [done|]. by exists (b :: token).
      * split; [done|]. exists (b :: token). rewrite lenZ_cons in *. split_and!; [done|done|lia|lia].
Qed.

End Facts.

(** ** Examples *)

(** A digest for examples. *)
Definition demo_digest (m : list Z) : list Z := replicate 32 (foldr (fun b s => (b + 3 * s) mod 256) 7 m).

Lemma demo_digest_bytes m : lenZ (demo_digest m) = 32 /\ bytesOk (demo_digest m).
Proof.
  unfold demo_digest. split; [by unfold lenZ; rewrite length_replicate|]. apply Forall_replicate.
  destruct m as [|b m]; [done|]. cbn. apply Z.mod_pos_bound. lia.
Qed.

(** Twenty bytes at the start of a memory of a hundred. *)
Definition demo_id_memory : list Z := seqZ 200 20 ++ replicate 80 0.

Lemma demo_id_bytes : bytesOk demo_id_memory.
Proof. apply (bool_decide_unpack _). by vm_compute. Qed.

Lemma address_roundtrip_witness :
  exists n mem', util_raddr demo_digest demo_id_memory 20 40 0 20 = (n, mem') /\
    util_accid (E := Z) demo_digest mem' 60 20 20 n = Ret (20, mem_set mem' 60 (seqZ 200 20)).
Proof.
  destruct (address_roundtrip demo_digest demo_digest_bytes demo_id_memory 20 40 0 demo_id_bytes ltac:(lia) ltac:(lia) ltac:(by vm_compute) ltac:(lia) ltac:(by vm_compute))
    as (Hl & Hw & Hr).
  eexists _, _. split; [exact Hw|]. apply (Hr Z 60 20); [lia|lia|by vm_compute].
Defined.

(** Zeroes are not an address. *)
Lemma util_accid_accepts_witness :
  util_accid (E := Z) demo_digest demo_id_memory 60 20 20 35 = Ret (INVALID_ARGUMENT, demo_id_memory) /\
  [] <> encodeBase58Token demo_digest TokenType_AccountID (seqZ 200 20).
Proof.
  pose proof (util_accid_accepts demo_digest demo_digest_bytes Z demo_id_memory 60 20 20 35 demo_id_bytes ltac:(lia) ltac:(lia) ltac:(by vm_compute) ltac:(lia)
    ltac:(by vm_compute) ltac:(by vm_compute)) as Ha. cbv zeta in Ha.
  assert (util_accid (E := Z) demo_digest demo_id_memory 60 20 20 35 = Ret (INVALID_ARGUMENT, demo_id_memory)) as Er by (by vm_compute).
  rewrite Er in Ha. split; [done|]. destruct Ha as [_ [[Hc _]|(_ & _ & Hn)]]; [done|].
  apply (Hn (seqZ 200 20)); [apply (bool_decide_unpack _); by vm_compute|by vm_compute].
Defined.
