(* ===== verification/Keylet.v ===== *)
(** * Keys of ledger entries (src/src/ripple/protocol/impl/Indexes.cpp)

    The key of an entry of the ledger is a hash of a tag for its kind and of what
    identifies it. Accounts, hashes and currencies are their bytes in big-endian
    order, as [base_uint] stores them; [hash_append] passes these and the big-endian
    bytes of numbers to the hasher one after the other. SHA-512 is OpenSSL's, the
    argument [sha512Half]. Two entries whose keys are equal are the same entry, or
    their tags and arguments are a collision of the hash. *)

From S2P Require Import Prelude HookMemory Emission EmissionFacts EmissionClaims.

(** The prefix of each kind of entry. *)
Inductive LedgerNameSpace :=
| NS_ACCOUNT | NS_DIR_NODE | NS_TRUST_LINE | NS_OFFER | NS_OWNER_DIR | NS_BOOK_DIR | NS_SKIP_LIST | NS_ESCROW
| NS_AMENDMENTS | NS_FEE_SETTINGS | NS_TICKET | NS_SIGNER_LIST | NS_PAYMENT_CHANNEL | NS_CHECK | NS_DEPOSIT_PREAUTH
| NS_NEGATIVE_UNL | NS_HOOK | NS_HOOK_STATE_DIR | NS_HOOK_STATE | NS_HOOK_DEFINITION | NS_EMITTED_TXN | NS_EMITTED_DIR
| NS_NFTOKEN_OFFER | NS_NFTOKEN_BUY_OFFERS | NS_NFTOKEN_SELL_OFFERS | NS_URI_TOKEN | NS_IMPORT_VLSEQ | NS_UNL_REPORT.

Definition space_code (s : LedgerNameSpace) : Z :=
  match s with
  | NS_ACCOUNT => 0x61 | NS_DIR_NODE => 0x64 | NS_TRUST_LINE => 0x72 | NS_OFFER => 0x6F | NS_OWNER_DIR => 0x4F
  | NS_BOOK_DIR => 0x42 | NS_SKIP_LIST => 0x73 | NS_ESCROW => 0x75 | NS_AMENDMENTS => 0x66 | NS_FEE_SETTINGS => 0x65
  | NS_TICKET => 0x54 | NS_SIGNER_LIST => 0x53 | NS_PAYMENT_CHANNEL => 0x78 | NS_CHECK => 0x43 | NS_DEPOSIT_PREAUTH => 0x70
  | NS_NEGATIVE_UNL => 0x4E | NS_HOOK => 0x48 | NS_HOOK_STATE_DIR => 0x4A | NS_HOOK_STATE => 0x76
  | NS_HOOK_DEFINITION => 0x44 | NS_EMITTED_TXN => 0x45 | NS_EMITTED_DIR => 0x46 | NS_NFTOKEN_OFFER => 0x71
  | NS_NFTOKEN_BUY_OFFERS => 0x68 | NS_NFTOKEN_SELL_OFFERS => 0x69 | NS_URI_TOKEN => 0x55 | NS_IMPORT_VLSEQ => 0x49
  | NS_UNL_REPORT => 0x52
  end.

(** [LedgerEntryType] (LedgerFormats.h) *)
Definition ltACCOUNT_ROOT : Z := 0x61.
Definition ltDIR_NODE : Z := 0x64.
Definition ltRIPPLE_STATE : Z := 0x72.
Definition ltTICKET : Z := 0x54.
Definition ltSIGNER_LIST : Z := 0x53.
Definition ltOFFER : Z := 0x6F.
Definition ltLEDGER_HASHES : Z := 0x68.
Definition ltAMENDMENTS : Z := 0x66.
Definition ltFEE_SETTINGS : Z := 0x73.
Definition ltIMPORT_VLSEQ : Z := 0x49.
Definition ltESCROW : Z := 0x75.
Definition ltPAYCHAN : Z := 0x78.
Definition ltCHECK : Z := 0x43.
Definition ltDEPOSIT_PREAUTH : Z := 0x70.
Definition ltNEGATIVE_UNL : Z := 0x4E.
Definition ltNFTOKEN_OFFER : Z := 0x37.
Definition ltURI_TOKEN : Z := 0x55.
Definition ltNFTOKEN_PAGE : Z := 0x50.
Definition ltUNL_REPORT : Z := 0x52.
Definition ltANY : Z := 0.
Definition ltCHILD : Z := 0x1CD2.
Definition ltHOOK : Z := 0x48.
Definition ltHOOK_STATE : Z := 0x76.
Definition ltHOOK_DEFINITION : Z := 0x44.
Definition ltEMITTED_TXN : Z := 0x45.

Record Keylet := mkKeylet {
  kl_type : Z;
  kl_key : list Z
}.

(** [UInt32or256] *)
Inductive UInt32or256 :=
| Seq32 (seq : Z)
| Seq256 (hash : list Z).

(** The functions of namespace [keylet] with their arguments. *)
Inductive keylet_call :=
| k_emittedDir | k_skip | k_amendments | k_fees | k_negativeUNL | k_UNLReport
| k_hookStateDir (id ns : list Z)
| k_emittedTxn (id : list Z)
| k_hook (id : list Z)
| k_hookDefinition (hash : list Z)
| k_hookState (id key ns : list Z)
| k_account (id : list Z)
| k_child (key : list Z)
| k_skip_ledger (ledger : Z)
| k_import_vlseq (key : list Z)
| k_line (id0 id1 currency : list Z)
| k_offer (id : list Z) (seq : UInt32or256)
| k_ticket (id : list Z) (ticketSeq : Z)
| k_signers (id : list Z)
| k_check (id : list Z) (seq : UInt32or256)
| k_depositPreauth (owner preauthorized : list Z)
| k_unchecked (key : list Z)
| k_ownerDir (id : list Z)
| k_page (key : list Z) (page : Z)
| k_escrow (src : list Z) (seq : UInt32or256)
| k_payChan (src dst : list Z) (seq : UInt32or256)
| k_nftoffer (owner : list Z) (seq : UInt32or256)
| k_nft_buys (id : list Z)
| k_nft_sells (id : list Z)
| k_uritoken (issuer uri : list Z)
| k_quality (key : list Z) (q : Z)
| k_next (key : list Z)
| k_book (in_currency out_currency in_account out_account : list Z)
| k_nftpage_min (owner : list Z)
| k_nftpage_max (owner : list Z)
| k_nftpage (key token : list Z).

(** [hash_append] of a [UInt32or256]: its value. *)
Definition seq_bytes (s : UInt32or256) : list Z :=
  match s with Seq32 x => be_bytes 4 x | Seq256 h => h end.

(** [std::minmax] on account ids: the pair, exchanged when the second is less. *)
Definition minmax (a b : list Z) : list Z * list Z := if fromVoid b <? fromVoid a then (b, a) else (a, b).

(** [keylet::quality]: the last eight bytes of the key are the quality. *)
Definition with_quality (key : list Z) (q : Z) : list Z := take 24 key ++ be_bytes 8 q.

(** [uBase + nextq], without the carry out of the last word. *)
Definition getQualityNext (uBase : list Z) : list Z := be_bytes 32 (fromVoid uBase + 2 ^ 64).

(** What is hashed, the same with quality 0 ([getBookBase]), or the key itself. *)
Inductive key_source :=
| Hashed (space : LedgerNameSpace) (args : list (list Z))
| HashedBase (space : LedgerNameSpace) (args : list (list Z))
| Plain (key : list Z).

(** The type and the key of each function. *)
Definition keylet_source (k : keylet_call) : Z * key_source :=
  match k with
  | k_emittedDir => (ltDIR_NODE, Hashed NS_EMITTED_DIR [])
  | k_hookStateDir id ns => (ltDIR_NODE, Hashed NS_HOOK_STATE_DIR [id; ns])
  | k_emittedTxn id => (ltEMITTED_TXN, Hashed NS_EMITTED_TXN [id])
  | k_hook id => (ltHOOK, Hashed NS_HOOK [id])
  | k_hookDefinition hash => (ltHOOK_DEFINITION, Hashed NS_HOOK_DEFINITION [hash])
  | k_hookState id key ns => (ltHOOK_STATE, Hashed NS_HOOK_STATE [id; key; ns])
  | k_account id => (ltACCOUNT_ROOT, Hashed NS_ACCOUNT [id])
  | k_child key => (ltCHILD, Plain key)
  | k_skip => (ltLEDGER_HASHES, Hashed NS_SKIP_LIST [])
  | k_skip_ledger ledger => (ltLEDGER_HASHES, Hashed NS_SKIP_LIST [be_bytes 4 (Z.shiftr ledger 16)])
  | k_amendments => (ltAMENDMENTS, Hashed NS_AMENDMENTS [])
  | k_import_vlseq key => (ltIMPORT_VLSEQ, Hashed NS_IMPORT_VLSEQ [key])
  | k_fees => (ltFEE_SETTINGS, Hashed NS_FEE_SETTINGS [])
  | k_negativeUNL => (ltNEGATIVE_UNL, Hashed NS_NEGATIVE_UNL [])
  | k_UNLReport => (ltUNL_REPORT, Hashed NS_UNL_REPORT [])
  | k_line id0 id1 currency =>
    let '(first, second) := minmax id0 id1 in (ltRIPPLE_STATE, Hashed NS_TRUST_LINE [first; second; currency])
  | k_offer id seq => (ltOFFER, Hashed NS_OFFER [id; seq_bytes seq])
  | k_quality key q => (ltDIR_NODE, Plain (with_quality key q))
  | k_next key => (ltDIR_NODE, Plain (getQualityNext key))
  | k_book ic oc ia oa => (ltDIR_NODE, HashedBase NS_BOOK_DIR [ic; oc; ia; oa])
  | k_nftpage_min owner => (ltNFTOKEN_PAGE, Plain (owner ++ replicate 12 0))
  | k_nftpage_max owner => (ltNFTOKEN_PAGE, Plain (owner ++ replicate 12 0xFF))
  | k_nftpage key token => (ltNFTOKEN_PAGE, Plain (take 20 key ++ drop 20 token))
  | k_ticket id ticketSeq => (ltTICKET, Hashed NS_TICKET [id; be_bytes 4 ticketSeq])
  | k_signers id => (ltSIGNER_LIST, Hashed NS_SIGNER_LIST [id; be_bytes 4 0])
  | k_check id seq => (ltCHECK, Hashed NS_CHECK [id; seq_bytes seq])
  | k_depositPreauth owner preauthorized => (ltDEPOSIT_PREAUTH, Hashed NS_DEPOSIT_PREAUTH [owner; preauthorized])
  | k_unchecked key => (ltANY, Plain key)
  | k_ownerDir id => (ltDIR_NODE, Hashed NS_OWNER_DIR [id])
  | k_page key page => (ltDIR_NODE, if page =? 0 then Plain key else Hashed NS_DIR_NODE [key; be_bytes 8 page])
  | k_escrow src seq => (ltESCROW, Hashed NS_ESCROW [src; seq_bytes seq])
  | k_payChan src dst seq => (ltPAYCHAN, Hashed NS_PAYMENT_CHANNEL [src; dst; seq_bytes seq])
  | k_nftoffer owner seq => (ltNFTOKEN_OFFER, Hashed NS_NFTOKEN_OFFER [owner; seq_bytes seq])
  | k_nft_buys id => (ltDIR_NODE, Hashed NS_NFTOKEN_BUY_OFFERS [id])
  | k_nft_sells id => (ltDIR_NODE, Hashed NS_NFTOKEN_SELL_OFFERS [id])
  | k_uritoken issuer uri => (ltURI_TOKEN, Hashed NS_URI_TOKEN [issuer; uri])
  end.

(** The bytes that the hasher gets. *)
Definition hash_input (space : LedgerNameSpace) (args : list (list Z)) : list Z :=
  be_bytes 2 (space_code space) ++ concat args.

Section Keys.
  Context (sha512Half : list Z -> list Z).

Definition indexHash (space : LedgerNameSpace) (args : list (list Z)) : list Z := sha512Half (hash_input space args).

Definition keylet_of (k : keylet_call) : Keylet :=
  let '(type, source) := keylet_source k in
  mkKeylet type (match source with
     | Hashed space args => indexHash space args
     | HashedBase space args => with_quality (indexHash space args) 0
     | Plain key => key
     end).

End Keys.

(** ** Well-formed arguments *)

Definition bytes_n (n : Z) (bs : list Z) : Prop := lenZ bs = n /\ bytesOk bs.

Definition seq_ok (s : UInt32or256) : Prop :=
  match s with Seq32 x => is_u32 x | Seq256 h => bytes_n 32 h end.

(** The widths of the types of the arguments. *)
Definition call_ok (k : keylet_call) : Prop :=
  match k with
  | k_emittedDir | k_skip | k_amendments | k_fees | k_negativeUNL | k_UNLReport => True
  | k_hookStateDir id ns => bytes_n 20 id /\ bytes_n 32 ns
  | k_hookState id key ns => bytes_n 20 id /\ bytes_n 32 key /\ bytes_n 32 ns
  | k_hook id | k_account id | k_signers id | k_ownerDir id => bytes_n 20 id
  | k_emittedTxn h | k_hookDefinition h | k_child h | k_unchecked h | k_nft_buys h | k_nft_sells h => bytes_n 32 h
  | k_skip_ledger ledger => is_u32 ledger
  | k_import_vlseq key => bytes_n 33 key
  | k_line id0 id1 currency => bytes_n 20 id0 /\ bytes_n 20 id1 /\ bytes_n 20 currency
  | k_offer id seq | k_check id seq | k_escrow id seq | k_nftoffer id seq => bytes_n 20 id /\ seq_ok seq
  | k_ticket id s => bytes_n 20 id /\ is_u32 s
  | k_depositPreauth a b => bytes_n 20 a /\ bytes_n 20 b
  | k_page key page => bytes_n 32 key /\ is_u64 page
  | k_payChan a b seq => bytes_n 20 a /\ bytes_n 20 b /\ seq_ok seq
  | k_uritoken issuer uri => bytes_n 20 issuer /\ bytesOk uri
  | k_quality key q => bytes_n 32 key /\ is_u64 q
  | k_next key => bytes_n 32 key
  | k_book ic oc ia oa => bytes_n 20 ic /\ bytes_n 20 oc /\ bytes_n 20 ia /\ bytes_n 20 oa
  | k_nftpage_min owner | k_nftpage_max owner => bytes_n 20 owner
  | k_nftpage key token => bytes_n 32 key /\ bytes_n 32 token
  end.

(** The arguments up to what names the same entry: the sides of a trust line in
    order, and the ledgers that share a skip list. *)
Definition canonical_call (k : keylet_call) : keylet_call :=
  match k with
  | k_line id0 id1 currency => let '(first, second) := minmax id0 id1 in k_line first second currency
  | k_skip_ledger ledger => k_skip_ledger (Z.shiftr ledger 16)
  | k => k
  end.

(** ** The bytes determine the arguments *)

Lemma be_bytes_inj n x y :
  0 <= x < 2 ^ (8 * Z.of_nat n) -> 0 <= y < 2 ^ (8 * Z.of_nat n) -> be_bytes n x = be_bytes n y -> x = y.
Proof.
  intros Hx Hy E. apply (f_equal fromVoid) in E. rewrite !be_bytes_value in E. by rewrite !Z.mod_small in E by done.
Qed.

Lemma space_code_inj s s' : space_code s = space_code s' -> s = s'.
Proof. by destruct s, s'. Qed.

Lemma space_code_range s : 0 <= space_code s < 2 ^ 16.
Proof. by destruct s. Qed.

Lemma hash_input_inj s a s' a' : hash_input s a = hash_input s' a' -> s = s' /\ concat a = concat a'.
Proof.
  unfold hash_input. intros E. apply app_inj_1 in E as [E ?]; [|done]. split; [|done].
  apply space_code_inj, (be_bytes_inj 2); [apply space_code_range|apply space_code_range|done].
Qed.

Lemma seq_bytes_inj s s' : seq_ok s -> seq_ok s' -> seq_bytes s = seq_bytes s' -> s = s'.
Proof.
  destruct s as [x|h], s' as [x'|h']; cbn [seq_ok seq_bytes]; intros Hs Hs' E.
  - f_equal. by apply (be_bytes_inj 4).
  - pose proof (lenZ_be_bytes 4 x) as Hl. rewrite E, (proj1 Hs') in Hl. done.
  - pose proof (lenZ_be_bytes 4 x') as Hl. rewrite <- E, (proj1 Hs) in Hl. done.
  - by rewrite E.
Qed.

Lemma minmax_bytes a b x y : minmax a b = (x, y) -> bytes_n 20 a -> bytes_n 20 b -> bytes_n 20 x /\ bytes_n 20 y.
Proof. unfold minmax. by destruct (_ <? _); intros [= <- <-]. Qed.

Lemma length_be_bytes n x : length (be_bytes n x) = n.
Proof. pose proof (lenZ_be_bytes n x). unfold lenZ in *. lia. Qed.

(** Equal concatenations whose parts have the same lengths. *)
Ltac split_args :=
  repeat match goal with
  | H : _ /\ _ |- _ => destruct H
  | H : ?a ++ ?b = ?c ++ ?d |- _ =>
    apply app_inj_1 in H as [? H]; [|unfold bytes_n, lenZ in *; rewrite ?length_be_bytes; lia]
  | H : ?a ++ [] = ?c |- _ => rewrite app_nil_r in H
  | H : ?a = ?c ++ [] |- _ => rewrite app_nil_r in H
  end.

Lemma shiftr_u32 x n : is_u32 x -> is_u32 (Z.shiftr x (Z.of_nat n)).
Proof.
  unfold is_u32. intros Hx. rewrite Z.shiftr_div_pow2 by lia. pose proof (Z.pow_pos_nonneg 2 (Z.of_nat n)).
  split; [apply Z.div_pos; lia|]. apply Z.div_lt_upper_bound; nia.
Qed.

(** The entry that a hashed key names. *)
Lemma hashed_call k k' t t' s a a' :
  call_ok k -> call_ok k' -> keylet_source k = (t, Hashed s a) -> keylet_source k' = (t', Hashed s a') ->
  concat a = concat a' -> canonical_call k = canonical_call k'.
Proof.
  intros Hk Hk' E E'.
  destruct k; cbn [keylet_source] in E; repeat case_match; simplify_eq;
  destruct k'; cbn [keylet_source] in E'; repeat case_match; simplify_eq; intros Hc; cbn [concat] in Hc; cbn [call_ok] in Hk, Hk'; try done; split_args.
  all: try (cbn; congruence).
  all: try (cbn; f_equal; [congruence|by apply seq_bytes_inj]).
  - cbn. f_equal. apply (be_bytes_inj 4); [exact (shiftr_u32 ledger 16 Hk)|exact (shiftr_u32 ledger0 16 Hk')|exact Hc].
  - cbn [canonical_call].
    repeat match goal with H : minmax _ _ = _ |- _ => rewrite H; apply minmax_bytes in H; [destruct H|done|done] end.
    split_args. congruence.
  - cbn. f_equal; [done|]. by apply (be_bytes_inj 4).
  - cbn. f_equal; [done|]. by apply (be_bytes_inj 8).
  - cbn. f_equal; [done|done|]. by apply seq_bytes_inj.
Qed.

(** C30: Keys of ledger entries do not clash. Two functions of [keylet] with arguments of
    their types whose keys are hashes and are equal name the same entry: the same
    function and arguments, up to the order of the accounts of a trust line and the
    ledgers that share a skip list. Otherwise what they hash is a collision of
    SHA-512Half. *)
Theorem keylets_collision_free (sha512Half : list Z -> list Z) k k' t t' s s' a a' :
  call_ok k -> call_ok k' -> keylet_source k = (t, Hashed s a) -> keylet_source k' = (t', Hashed s' a') ->
  kl_key (keylet_of sha512Half k) = kl_key (keylet_of sha512Half k') ->
  canonical_call k = canonical_call k' \/
  (hash_input s a <> hash_input s' a' /\ sha512Half (hash_input s a) = sha512Half (hash_input s' a')).
Proof.
  intros Hk Hk' E E' Hkey. unfold keylet_of in Hkey. rewrite E, E' in Hkey. cbn [kl_key] in Hkey.
  destruct (decide (hash_input s a = hash_input s' a')) as [Hin|Hin]; [left|by right].
  apply hash_input_inj in Hin as [-> Hc]. by apply (hashed_call k k' t t' s' a a').
Qed.

(** Both sides of a trust line have its key. *)
Lemma keylets_collision_free_witness :
  let a := replicate 20 1 in let b := replicate 20 2 in let cur := replicate 20 5 in
  canonical_call (k_line a b cur) = canonical_call (k_line b a cur) \/
  (hash_input NS_TRUST_LINE [a; b; cur] <> hash_input NS_TRUST_LINE [a; b; cur] /\
   replicate 32 (lenZ (hash_input NS_TRUST_LINE [a; b; cur])) = replicate 32 (lenZ (hash_input NS_TRUST_LINE [a; b; cur]))).
Proof.
  cbv zeta. apply (keylets_collision_free (fun m => replicate 32 (lenZ m)) (k_line (replicate 20 1) (replicate 20 2) (replicate 20 5))
    (k_line (replicate 20 2) (replicate 20 1) (replicate 20 5)) ltRIPPLE_STATE ltRIPPLE_STATE); [| |by vm_compute..].
  all: repeat split; apply (bool_decide_unpack _); by vm_compute.
Defined.
