(* ===== verification/HookKeylet.v ===== *)
(** * Keylets for hooks (src/src/ripple/app/hook/impl/applyHook.cpp)

    [util_keylet] computes the keylet of an entry from a code and up to six numbers,
    which are pointers with lengths or values. A read of the linear memory is
    unchecked; [Exit] is a return of an error code before the keylet is written. *)

From S2P Require Import Prelude HookEnum HookMemory Emission XflApi Keylet.

(** [keylet_code] (Enum.h) *)
Inductive keylet_code :=
| KC_HOOK | KC_HOOK_STATE | KC_ACCOUNT | KC_AMENDMENTS | KC_CHILD | KC_SKIP | KC_FEES | KC_NEGATIVE_UNL | KC_LINE | KC_OFFER
| KC_QUALITY | KC_EMITTED_DIR | KC_TICKET | KC_SIGNERS | KC_CHECK | KC_DEPOSIT_PREAUTH | KC_UNCHECKED | KC_OWNER_DIR | KC_PAGE
| KC_ESCROW | KC_PAYCHAN | KC_EMITTED_TXN | KC_NFT_OFFER | KC_HOOK_DEFINITION | KC_HOOK_STATE_DIR.

(** The codes from 1. *)
Definition keylet_codes : list keylet_code :=
  [KC_HOOK; KC_HOOK_STATE; KC_ACCOUNT; KC_AMENDMENTS; KC_CHILD; KC_SKIP; KC_FEES; KC_NEGATIVE_UNL; KC_LINE; KC_OFFER;
   KC_QUALITY; KC_EMITTED_DIR; KC_TICKET; KC_SIGNERS; KC_CHECK; KC_DEPOSIT_PREAUTH; KC_UNCHECKED; KC_OWNER_DIR; KC_PAGE;
   KC_ESCROW; KC_PAYCHAN; KC_EMITTED_TXN; KC_NFT_OFFER; KC_HOOK_DEFINITION; KC_HOOK_STATE_DIR].

Definition LAST_KLTYPE_V0 : Z := 24.
Definition LAST_KLTYPE_V1 : Z := 25.

(** ** Keylets in memory *)

(** The two bytes of the type and the key. *)
Definition keylet_bytes (kl : Keylet) : list Z :=
  [Z.land (Z.shiftr (kl_type kl) 8) 0xFF; Z.land (kl_type kl) 0xFF] ++ kl_key kl.

Definition serialize_keylet (kl : Keylet) (mem : list Z) (write_ptr write_len : Z) : Z * list Z :=
  if write_len <? 34 then (TOO_SMALL, mem) else (34, mem_set mem write_ptr (keylet_bytes kl)).

Definition unserialize_keylet (bs : list Z) : option Keylet :=
  if negb (lenZ bs =? 34) then None
  else Some (mkKeylet (u16 (Z.shiftl (bs !!! 0%nat) 8 + bs !!! 1%nat)) (drop 2 bs)).

(** A read of [n] bytes at [memory + ptr]. *)
Definition read_bytes {E} (mem : list Z) (ptr n : Z) : outcome E (list Z) :=
  if ptr + n <=? lenZ mem then Ret (mem_slice mem ptr n) else Undef UB_oob.

(** [if (cond) return code;] *)
Definition return_if (cond : bool) (code : Z) : outcome Z () := if cond then Exit code else Ret ().

(** ** The cases of [util_keylet] *)

Section Cases.
  Context (mem : list Z).

Let bad (ptr len : Z) : bool := NOT_IN_BOUNDS ptr len (lenZ mem).
Let zero (x : Z) : bool := x =? 0.
Let nonzero (x : Z) : bool := negb (x =? 0).

Definition keylet_quality (a b c d e f : Z) : outcome Z keylet_call :=
  let* _ := return_if (zero a || zero b) INVALID_ARGUMENT in
  let* _ := return_if (nonzero e || nonzero f) INVALID_ARGUMENT in
  let* _ := return_if (bad a b) OUT_OF_BOUNDS in
  let* _ := return_if (negb (b =? 34)) INVALID_ARGUMENT in
  let* type := read_bytes mem a 2 in
  let* _ := return_if (negb (bool_decide (type = [0; 0x64]))) INVALID_ARGUMENT in
  let* bytes := read_bytes mem a b in
  match unserialize_keylet bytes with
  | None => Exit NO_SUCH_KEYLET
  | Some kl => Ret (k_quality (kl_key kl) (u64 (Z.shiftl c 32 + d)))
  end.

(** Codes that take a 32 byte uint. *)
Definition keylet_hash (code : keylet_code) (a b c d e f : Z) : outcome Z keylet_call :=
  let* _ := return_if (zero a || zero b) INVALID_ARGUMENT in
  let* _ := return_if (nonzero c || nonzero d || nonzero e || nonzero f) INVALID_ARGUMENT in
  let* _ := return_if (bad a b) OUT_OF_BOUNDS in
  let* _ := return_if (negb (b =? 32)) INVALID_ARGUMENT in
  let* id := read_bytes mem a 32 in
  Ret (match code with
       | KC_CHILD => k_child id
       | KC_EMITTED_TXN => k_emittedTxn id
       | KC_HOOK_DEFINITION => k_hookDefinition id
       | _ => k_unchecked id
       end).

(** Codes that take an account. *)
Definition keylet_account (code : keylet_code) (a b c d e f : Z) : outcome Z keylet_call :=
  let* _ := return_if (zero a || zero b) INVALID_ARGUMENT in
  let* _ := return_if (nonzero c || nonzero d || nonzero e || nonzero f) INVALID_ARGUMENT in
  let* _ := return_if (bad a b) OUT_OF_BOUNDS in
  let* _ := return_if (negb (b =? 20)) INVALID_ARGUMENT in
  let* id := read_bytes mem a 20 in
  Ret (match code with
       | KC_HOOK => k_hook id
       | KC_SIGNERS => k_signers id
       | KC_OWNER_DIR => k_ownerDir id
       | _ => k_account id
       end).

(** A sequence number, or a pointer to a hash when the length is 32. *)
Definition read_seq (x len : Z) : outcome Z UInt32or256 :=
  if len =? 0 then Ret (Seq32 x)
  else if negb (len =? 32) then Exit INVALID_ARGUMENT
  else
    let* _ := return_if (bad x 32) OUT_OF_BOUNDS in
    let* hash := read_bytes mem x 32 in Ret (Seq256 hash).

(** Codes that take an account and a sequence number. *)
Definition keylet_sequence (code : keylet_code) (a b c d e f : Z) : outcome Z keylet_call :=
  let* _ := return_if (zero a || zero b) INVALID_ARGUMENT in
  let* _ := return_if (nonzero e || nonzero f) INVALID_ARGUMENT in
  let* _ := return_if (bad a b) OUT_OF_BOUNDS in
  let* _ := return_if (negb (b =? 20)) INVALID_ARGUMENT in
  let* id := read_bytes mem a 20 in
  let* seq := read_seq c d in
  Ret (match code with
       | KC_CHECK => k_check id seq
       | KC_ESCROW => k_escrow id seq
       | KC_NFT_OFFER => k_nftoffer id seq
       | _ => k_offer id seq
       end).

Definition keylet_page (a b c d e f : Z) : outcome Z keylet_call :=
  let* _ := return_if (zero a || zero b) INVALID_ARGUMENT in
  let* _ := return_if (nonzero e || nonzero f) INVALID_ARGUMENT in
  let* _ := return_if (bad a b) OUT_OF_BOUNDS in
  let* _ := return_if (negb (b =? 32)) INVALID_ARGUMENT in
  let* key := read_bytes mem a 32 in
  Ret (k_page key (u64 (Z.shiftl c 32 + d))).

Definition keylet_state (a b c d e f : Z) : outcome Z keylet_call :=
  let* _ := return_if (zero a || zero b || zero c || zero d || zero e || zero f) INVALID_ARGUMENT in
  let* _ := return_if (bad a b || bad c d || bad e f) OUT_OF_BOUNDS in
  let* _ := return_if (negb (b =? 20) || negb (d =? 32) || negb (f =? 32)) INVALID_ARGUMENT in
  let* id := read_bytes mem a 20 in
  let* key := read_bytes mem c 32 in
  let* ns := read_bytes mem e 32 in
  Ret (k_hookState id key ns).

Definition keylet_state_dir (a b c d e f : Z) : outcome Z keylet_call :=
  let* _ := return_if (zero a || zero b || zero c || zero d) INVALID_ARGUMENT in
  let* _ := return_if (nonzero e || nonzero f) INVALID_ARGUMENT in
  let* _ := return_if (bad a b || bad c d) OUT_OF_BOUNDS in
  let* _ := return_if (negb (b =? 20) || negb (d =? 32)) INVALID_ARGUMENT in
  let* id := read_bytes mem a 20 in
  let* ns := read_bytes mem c 32 in
  Ret (k_hookStateDir id ns).

Definition keylet_skip (a b c d e f : Z) : outcome Z keylet_call :=
  let* _ := return_if (nonzero c || nonzero d || nonzero e || nonzero f || (1 <? b)) INVALID_ARGUMENT in
  Ret (if b =? 0 then k_skip else k_skip_ledger a).

(** Codes without arguments. *)
Definition keylet_constant (code : keylet_code) (a b c d e f : Z) : outcome Z keylet_call :=
  let* _ := return_if (nonzero a || nonzero b || nonzero c || nonzero d || nonzero e || nonzero f) INVALID_ARGUMENT in
  Ret (match code with
       | KC_AMENDMENTS => k_amendments
       | KC_FEES => k_fees
       | KC_NEGATIVE_UNL => k_negativeUNL
       | _ => k_emittedDir
       end).

Definition keylet_line (a b c d e f : Z) : outcome Z keylet_call :=
  let* _ := return_if (zero a || zero b || zero c || zero d || zero e || zero f) INVALID_ARGUMENT in
  let* _ := return_if (bad a b || bad c d || bad e f) OUT_OF_BOUNDS in
  let* _ := return_if (negb (b =? 20) || negb (d =? 20)) INVALID_ARGUMENT in
  let* cu := read_bytes mem e f in
  match parseCurrency cu with
  | None => Exit INVALID_ARGUMENT
  | Some cur =>
    let* hi := read_bytes mem a 20 in
    let* lo := read_bytes mem c 20 in
    Ret (k_line hi lo cur)
  end.

Definition keylet_preauth (a b c d e f : Z) : outcome Z keylet_call :=
  let* _ := return_if (zero a || zero b || zero c || zero d) INVALID_ARGUMENT in
  let* _ := return_if (nonzero e || nonzero f) INVALID_ARGUMENT in
  let* _ := return_if (bad a b || bad c d) OUT_OF_BOUNDS in
  let* _ := return_if (negb (b =? 20) || negb (d =? 20)) INVALID_ARGUMENT in
  let* aid := read_bytes mem a 20 in
  let* bid := read_bytes mem c 20 in
  Ret (k_depositPreauth aid bid).

Definition keylet_paychan (a b c d e f : Z) : outcome Z keylet_call :=
  let* _ := return_if (zero a || zero b || zero c || zero d || zero e) INVALID_ARGUMENT in
  let* _ := return_if (bad a b || bad c d) OUT_OF_BOUNDS in
  let* _ := return_if (negb (b =? 20) || negb (d =? 20)) INVALID_ARGUMENT in
  let* aid := read_bytes mem a 20 in
  let* bid := read_bytes mem c 20 in
  let* seq := read_seq e f in
  Ret (k_payChan aid bid seq).

(** The [switch]; a code without a case falls out of it. *)
Definition keylet_case (code : keylet_code) (a b c d e f : Z) : outcome Z keylet_call :=
  match code with
  | KC_QUALITY => keylet_quality a b c d e f
  | KC_HOOK_DEFINITION | KC_CHILD | KC_EMITTED_TXN | KC_UNCHECKED => keylet_hash code a b c d e f
  | KC_OWNER_DIR | KC_SIGNERS | KC_ACCOUNT | KC_HOOK => keylet_account code a b c d e f
  | KC_OFFER | KC_CHECK | KC_ESCROW | KC_NFT_OFFER => keylet_sequence code a b c d e f
  | KC_PAGE => keylet_page a b c d e f
  | KC_HOOK_STATE => keylet_state a b c d e f
  | KC_HOOK_STATE_DIR => keylet_state_dir a b c d e f
  | KC_SKIP => keylet_skip a b c d e f
  | KC_AMENDMENTS | KC_FEES | KC_NEGATIVE_UNL | KC_EMITTED_DIR => keylet_constant code a b c d e f
  | KC_LINE => keylet_line a b c d e f
  | KC_DEPOSIT_PREAUTH => keylet_preauth a b c d e f
  | KC_PAYCHAN => keylet_paychan a b c d e f
  | KC_TICKET => Exit NO_SUCH_KEYLET
  end.

End Cases.

Section Api.
  Context (sha512Half : list Z -> list Z).

(** The keylets without arguments are cached as the same bytes and written with the
    macro, which writes no more than the 34 bytes. An exception gives
    [INTERNAL_ERROR]. [v1] is featureHooksUpdate1. *)
Definition util_keylet {E} (v1 : bool) (mem : list Z) (write_ptr write_len keylet_type a b c d e f : Z) : outcome E (Z * list Z) :=
  if lenZ mem =? 0 then Ret (INTERNAL_ERROR, mem)
  else if NOT_IN_BOUNDS write_ptr write_len (lenZ mem) then Ret (OUT_OF_BOUNDS, mem)
  else if write_len <? 34 then Ret (TOO_SMALL, mem)
  else if keylet_type =? 0 then Ret (INVALID_ARGUMENT, mem)
  else
    let last := if v1 then LAST_KLTYPE_V1 else LAST_KLTYPE_V0 in
    if last <? keylet_type then Ret (INVALID_ARGUMENT, mem)
    else
      match keylet_codes !! Z.to_nat (keylet_type - 1) with
      | None => Ret (NO_SUCH_KEYLET, mem)
      | Some code =>
        match keylet_case mem code a b c d e f with
        | Ret k =>
          let kl := keylet_of sha512Half k in
          Ret (match code with
               | KC_AMENDMENTS | KC_FEES | KC_NEGATIVE_UNL | KC_EMITTED_DIR =>
                 WRITE_WASM_MEMORY_AND_RETURN mem write_ptr write_len (keylet_bytes kl)
               | _ => serialize_keylet kl mem write_ptr write_len
               end)
        | Exit code => Ret (code, mem)
        | Throw _ => Ret (INTERNAL_ERROR, mem)
        | Undef u => Undef u
        | Timeout => Timeout
        end
      end.

End Api.
