(* ===== verification/HookKeyletFacts.v ===== *)
(** * Keylets for hooks: the arguments of [util_keylet]

    A table says which arguments each code takes: three pairs of numbers, of which
    each is a pointer with a length, a number of 64 bits or a sequence number.
    [util_keylet] is equivalent to reading the arguments by this table. *)

From S2P Require Import Prelude HookEnum HookMemory Emission EmissionFacts EmissionClaims XflApi Sto StoApiFacts Keylet HookKeylet.

(** ** The table *)

Inductive arg_kind :=
| Pointer (n : Z)      (** a pointer to [n] bytes *)
| Directory            (** a pointer to the keylet of a directory *)
| Number64             (** the high and the low word *)
| Sequence             (** a number with the length zero, or a pointer to a hash *)
| NonzeroSequence      (** a sequence other than zero or at zero *)
| CurrencyCode         (** a pointer to three or twenty bytes *)
| OptionalNumber.      (** a number if the second one is one *)

Inductive arg_value :=
| Bytes (bs : list Z)
| Number (x : Z)
| SequenceOf (s : UInt32or256)
| Nothing.

Definition pointed (mem : list Z) (ptr n : Z) : option (list Z) :=
  if negb (ptr =? 0) && (ptr + n <=? lenZ mem) then Some (mem_slice mem ptr n) else None.

Definition sequence_of (mem : list Z) (x y : Z) : option UInt32or256 :=
  if y =? 0 then Some (Seq32 x)
  else if (y =? 32) && (x + 32 <=? lenZ mem) then Some (Seq256 (mem_slice mem x 32)) else None.

Definition read_arg (mem : list Z) (kind : arg_kind) (x y : Z) : option arg_value :=
  match kind with
  | Pointer n => if y =? n then Bytes <$> pointed mem x n else None
  | Directory =>
    if (y =? 34) && bool_decide (mem_slice mem x 2 = [0; 0x64]) then Bytes ∘ drop 2 <$> pointed mem x 34 else None
  | Number64 => Some (Number (x * 2 ^ 32 + y))
  | Sequence => SequenceOf <$> sequence_of mem x y
  | NonzeroSequence => if x =? 0 then None else SequenceOf <$> sequence_of mem x y
  | CurrencyCode => if y =? 0 then None else bs ← pointed mem x y; Bytes <$> parseCurrency bs
  | OptionalNumber => if y =? 0 then Some Nothing else if y =? 1 then Some (Number x) else None
  end.

(** Pairs after the arguments are zero. *)
Fixpoint read_args (mem : list Z) (kinds : list arg_kind) (pairs : list (Z * Z)) : option (list arg_value) :=
  match kinds, pairs with
  | [], pairs => if forallb (fun p => (p.1 =? 0) && (p.2 =? 0)) pairs then Some [] else None
  | kind :: kinds, (x, y) :: pairs =>
    v ← read_arg mem kind x y; vs ← read_args mem kinds pairs; Some (v :: vs)
  | _ :: _, [] => None
  end.

Definition signature (code : keylet_code) : option (list arg_kind) :=
  match code with
  | KC_HOOK | KC_ACCOUNT | KC_SIGNERS | KC_OWNER_DIR => Some [Pointer 20]
  | KC_HOOK_DEFINITION | KC_CHILD | KC_EMITTED_TXN | KC_UNCHECKED => Some [Pointer 32]
  | KC_OFFER | KC_CHECK | KC_ESCROW | KC_NFT_OFFER => Some [Pointer 20; Sequence]
  | KC_PAGE => Some [Pointer 32; Number64]
  | KC_QUALITY => Some [Directory; Number64]
  | KC_HOOK_STATE => Some [Pointer 20; Pointer 32; Pointer 32]
  | KC_HOOK_STATE_DIR => Some [Pointer 20; Pointer 32]
  | KC_DEPOSIT_PREAUTH => Some [Pointer 20; Pointer 20]
  | KC_LINE => Some [Pointer 20; Pointer 20; CurrencyCode]
  | KC_PAYCHAN => Some [Pointer 20; Pointer 20; NonzeroSequence]
  | KC_SKIP => Some [OptionalNumber]
  | KC_AMENDMENTS | KC_FEES | KC_NEGATIVE_UNL | KC_EMITTED_DIR => Some []
  | KC_TICKET => None
  end.

Definition build (code : keylet_code) (args : list arg_value) : option keylet_call :=
  match code, args with
  | KC_HOOK, [Bytes id] => Some (k_hook id)
  | KC_ACCOUNT, [Bytes id] => Some (k_account id)
  | KC_SIGNERS, [Bytes id] => Some (k_signers id)
  | KC_OWNER_DIR, [Bytes id] => Some (k_ownerDir id)
  | KC_HOOK_DEFINITION, [Bytes h] => Some (k_hookDefinition h)
  | KC_CHILD, [Bytes h] => Some (k_child h)
  | KC_EMITTED_TXN, [Bytes h] => Some (k_emittedTxn h)
  | KC_UNCHECKED, [Bytes h] => Some (k_unchecked h)
  | KC_OFFER, [Bytes id; SequenceOf s] => Some (k_offer id s)
  | KC_CHECK, [Bytes id; SequenceOf s] => Some (k_check id s)
  | KC_ESCROW, [Bytes id; SequenceOf s] => Some (k_escrow id s)
  | KC_NFT_OFFER, [Bytes id; SequenceOf s] => Some (k_nftoffer id s)
  | KC_PAGE, [Bytes key; Number i] => Some (k_page key i)
  | KC_QUALITY, [Bytes key; Number q] => Some (k_quality key q)
  | KC_HOOK_STATE, [Bytes id; Bytes key; Bytes ns] => Some (k_hookState id key ns)
  | KC_HOOK_STATE_DIR, [Bytes id; Bytes ns] => Some (k_hookStateDir id ns)
  | KC_DEPOSIT_PREAUTH, [Bytes a; Bytes b] => Some (k_depositPreauth a b)
  | KC_LINE, [Bytes hi; Bytes lo; Bytes cur] => Some (k_line hi lo cur)
  | KC_PAYCHAN, [Bytes a; Bytes b; SequenceOf s] => Some (k_payChan a b s)
  | KC_SKIP, [Nothing] => Some k_skip
  | KC_SKIP, [Number ledger] => Some (k_skip_ledger ledger)
  | KC_AMENDMENTS, [] => Some k_amendments
  | KC_FEES, [] => Some k_fees
  | KC_NEGATIVE_UNL, [] => Some k_negativeUNL
  | KC_EMITTED_DIR, [] => Some k_emittedDir
  | _, _ => None
  end.

(** The keylet that a code and six numbers ask for. *)
Definition requested (mem : list Z) (code : keylet_code) (a b c d e f : Z) : option keylet_call :=
  kinds ← signature code; args ← read_args mem kinds [(a, b); (c, d); (e, f)]; build code args.

(** ** The cases by the table *)

(** The keylet, or one of the error codes. *)
Definition answers (o : outcome Z keylet_call) (r : option keylet_call) : Prop :=
  match r with
  | Some k => o = Ret k
  | None => exists code, o = Exit code /\ In code [OUT_OF_BOUNDS; INVALID_ARGUMENT; NO_SUCH_KEYLET]
  end.

Section Cases.
  Context (mem : list Z) (a b c d e f : Z).
  Context (Ha : is_u32 a) (Hb : is_u32 b) (Hc : is_u32 c) (Hd : is_u32 d) (He : is_u32 e) (Hf : is_u32 f).

Lemma read_bytes_ret {E} ptr n : ptr + n <= lenZ mem -> @read_bytes E mem ptr n = Ret (mem_slice mem ptr n).
Proof. intros Hl. unfold read_bytes. by replace (ptr + n <=? lenZ mem) with true by lia. Qed.

(** Each test of a case, and each of the table. *)
Ltac test :=
  match goal with
  | |- context [return_if ?cond _] => let H := fresh "Htest" in destruct cond eqn:H; cbn [return_if obind]
  end.
Ltac table :=
  match goal with
  | |- context [if ?cond then _ else _] => let H := fresh "Htable" in destruct cond eqn:H; try (unfold NOT_IN_BOUNDS, is_u32 in *; lia)
  end; cbn [option_bind fmap option_fmap option_map mbind].
Ltac answer :=
  repeat test; cbn [mbind option_bind read_args read_arg forallb fst snd]; unfold pointed, sequence_of;
  repeat (rewrite read_bytes_ret by (unfold NOT_IN_BOUNDS, is_u32 in *; lia); cbn [obind]).

Ltac refuse := eexists; split; [reflexivity|cbn; tauto].

(** A sequence number is read as the table says. *)
Lemma read_seq_answers x len :
  is_u32 x -> is_u32 len ->
  match sequence_of mem x len with
  | Some s => read_seq mem x len = Ret s
  | None => exists code, read_seq mem x len = Exit code /\ In code [OUT_OF_BOUNDS; INVALID_ARGUMENT]
  end.
Proof.
  intros Hx Hl. unfold read_seq, sequence_of. destruct (len =? 0) eqn:E0; [done|]. destruct (len =? 32) eqn:E32; cbn [negb andb].
  - answer; table; first [done|refuse].
  - refuse.
Qed.

Lemma keylet_account_answers code :
  match code with KC_HOOK | KC_ACCOUNT | KC_SIGNERS | KC_OWNER_DIR => True | _ => False end ->
  answers (keylet_account mem code a b c d e f) (requested mem code a b c d e f).
Proof. destruct code; try done; intros _; unfold keylet_account, requested; cbn [signature]; answer; repeat table; first [done|refuse]. Qed.

Lemma keylet_hash_answers code :
  match code with KC_HOOK_DEFINITION | KC_CHILD | KC_EMITTED_TXN | KC_UNCHECKED => True | _ => False end ->
  answers (keylet_hash mem code a b c d e f) (requested mem code a b c d e f).
Proof. destruct code; try done; intros _; unfold keylet_hash, requested; cbn [signature]; answer; repeat table; first [done|refuse]. Qed.

Lemma keylet_page_answers : answers (keylet_page mem a b c d e f) (requested mem KC_PAGE a b c d e f).
Proof.
  unfold keylet_page, requested. cbn [signature]. replace (u64 (Z.shiftl c 32 + d)) with (c * 2 ^ 32 + d).
  - answer; repeat table; first [done|refuse].
  - unfold is_u32 in *. rewrite Z.shiftl_mul_pow2, u64_small by lia. done.
Qed.

Lemma keylet_state_answers : answers (keylet_state mem a b c d e f) (requested mem KC_HOOK_STATE a b c d e f).
Proof. unfold keylet_state, requested. cbn [signature]. answer; repeat table; first [done|refuse]. Qed.

Lemma keylet_state_dir_answers : answers (keylet_state_dir mem a b c d e f) (requested mem KC_HOOK_STATE_DIR a b c d e f).
Proof. unfold keylet_state_dir, requested. cbn [signature]. answer; repeat table; first [done|refuse]. Qed.

Lemma keylet_skip_answers : answers (keylet_skip a b c d e f) (requested mem KC_SKIP a b c d e f).
Proof. unfold keylet_skip, requested. cbn [signature]. answer; repeat table; first [done|refuse]. Qed.

Lemma keylet_constant_answers code :
  match code with KC_AMENDMENTS | KC_FEES | KC_NEGATIVE_UNL | KC_EMITTED_DIR => True | _ => False end ->
  answers (keylet_constant code a b c d e f) (requested mem code a b c d e f).
Proof. destruct code; try done; intros _; unfold keylet_constant, requested; cbn [signature]; answer; repeat table; first [done|refuse]. Qed.

Lemma keylet_preauth_answers : answers (keylet_preauth mem a b c d e f) (requested mem KC_DEPOSIT_PREAUTH a b c d e f).
Proof. unfold keylet_preauth, requested. cbn [signature]. answer; repeat table; first [done|refuse]. Qed.

Ltac refused H := destruct H as (code & E & Hin); rewrite E; exists code; split; [done|cbn in *; tauto].

Lemma keylet_sequence_answers code :
  match code with KC_OFFER | KC_CHECK | KC_ESCROW | KC_NFT_OFFER => True | _ => False end ->
  answers (keylet_sequence mem code a b c d e f) (requested mem code a b c d e f).
Proof.
  pose proof (read_seq_answers c d Hc Hd) as Hs.
  destruct code; try done; intros _; unfold keylet_sequence, requested; cbn [signature];
    repeat test; cbn [mbind option_bind read_args read_arg forallb fst snd]; unfold pointed;
    repeat (rewrite read_bytes_ret by (unfold NOT_IN_BOUNDS, is_u32 in *; lia); cbn [obind]);
    destruct (sequence_of mem c d) as [s|]; cbn [fmap option_fmap option_map mbind option_bind];
    repeat table; try refuse; try (rewrite Hs; done); refused Hs.
Qed.

Lemma keylet_paychan_answers : answers (keylet_paychan mem a b c d e f) (requested mem KC_PAYCHAN a b c d e f).
Proof.
  pose proof (read_seq_answers e f He Hf) as Hs. unfold keylet_paychan, requested. cbn [signature].
  repeat test; cbn [mbind option_bind read_args read_arg forallb fst snd]; unfold pointed;
    repeat (rewrite read_bytes_ret by (unfold NOT_IN_BOUNDS, is_u32 in *; lia); cbn [obind]);
    destruct (sequence_of mem e f) as [s|]; cbn [fmap option_fmap option_map mbind option_bind];
    repeat table; try refuse; try (rewrite Hs; done); refused Hs.
Qed.

Lemma keylet_line_answers : answers (keylet_line mem a b c d e f) (requested mem KC_LINE a b c d e f).
Proof.
  unfold keylet_line, requested. cbn [signature].
  repeat test; cbn [mbind option_bind read_args read_arg forallb fst snd]; unfold pointed;
    repeat (rewrite read_bytes_ret by (unfold NOT_IN_BOUNDS, is_u32 in *; lia); cbn [obind]);
    destruct (parseCurrency (mem_slice mem e f)) as [cur|] eqn:Hcur;
    repeat (rewrite read_bytes_ret by (unfold NOT_IN_BOUNDS, is_u32 in *; lia); cbn [obind]);
    repeat (table; cbn [option_bind mbind]; rewrite ?Hcur); first [done|refuse].
Qed.

Lemma unserialize_34 ptr :
  0 <= ptr -> ptr + 34 <= lenZ mem ->
  exists type, unserialize_keylet (mem_slice mem ptr 34) = Some (mkKeylet type (drop 2 (mem_slice mem ptr 34))).
Proof.
  intros Hp Hl. unfold unserialize_keylet. rewrite mem_slice_length by lia. by eexists.
Qed.

Lemma keylet_quality_answers : answers (keylet_quality mem a b c d e f) (requested mem KC_QUALITY a b c d e f).
Proof.
  unfold keylet_quality, requested. cbn [signature]. replace (u64 (Z.shiftl c 32 + d)) with (c * 2 ^ 32 + d)
    by (unfold is_u32 in *; rewrite Z.shiftl_mul_pow2, u64_small by lia; done).
  do 4 (test; [cbn [mbind option_bind read_args read_arg forallb fst snd]; unfold pointed; repeat table; refuse|]).
  rewrite read_bytes_ret by (unfold NOT_IN_BOUNDS, is_u32 in *; lia). cbn [obind].
  assert (b = 34) as -> by lia. destruct (unserialize_34 a) as [type Ht]; [unfold is_u32 in *; lia|unfold NOT_IN_BOUNDS in *; lia|].
  cbn [mbind option_bind read_args read_arg forallb fst snd]. unfold pointed.
  case_bool_decide as Hty; cbn [negb return_if obind andb Z.eqb Pos.eqb].
  - rewrite read_bytes_ret by (unfold NOT_IN_BOUNDS, is_u32 in *; lia). cbn [obind]. rewrite Ht. repeat table. done.
  - refuse.
Qed.

Lemma keylet_case_answers code : answers (keylet_case mem code a b c d e f) (requested mem code a b c d e f).
Proof.
  destruct code; cbn [keylet_case];
    first [by apply keylet_account_answers|by apply keylet_hash_answers|by apply keylet_sequence_answers
          |by apply keylet_constant_answers|apply keylet_quality_answers|apply keylet_page_answers|apply keylet_state_answers
          |apply keylet_state_dir_answers|apply keylet_skip_answers|apply keylet_line_answers|apply keylet_preauth_answers
          |apply keylet_paychan_answers|refuse].
Qed.

End Cases.

(** ** The function *)

(** The keylet that a call asks for, if its arguments are right. *)
Definition request (v1 : bool) (mem : list Z) (write_ptr write_len keylet_type a b c d e f : Z) : option keylet_call :=
  if (write_ptr + write_len <=? lenZ mem) && (34 <=? write_len) && (1 <=? keylet_type) && (keylet_type <=? (if v1 then 25 else 24))
  then code ← keylet_codes !! Z.to_nat (keylet_type - 1); requested mem code a b c d e f
  else None.

Lemma pointed_length mem ptr n bs : 0 <= ptr -> 0 <= n -> pointed mem ptr n = Some bs -> lenZ bs = n.
Proof. intros Hp Hn. unfold pointed. destruct (_ && _) eqn:E; [|done]. intros [= <-]. rewrite mem_slice_length; lia. Qed.

Lemma pointer_length mem n x y bs : 0 <= x -> 0 <= n -> read_arg mem (Pointer n) x y = Some (Bytes bs) -> lenZ bs = n.
Proof.
  intros Hx Hn. cbn [read_arg]. destruct (y =? n); [|done]. destruct (pointed mem x n) eqn:E; [|done]. cbn. intros [= <-]. by apply (pointed_length mem x).
Qed.

Lemma directory_length mem x y bs : 0 <= x -> read_arg mem Directory x y = Some (Bytes bs) -> lenZ bs = 32.
Proof.
  intros Hx. cbn [read_arg]. destruct (_ && _); [|done]. destruct (pointed mem x 34) eqn:E; [|done]. cbn [fmap option_fmap option_map compose]. intros [= <-].
  apply pointed_length in E; [|done|done]. unfold lenZ in *. rewrite length_drop. lia.
Qed.

(** Keys have thirty-two bytes, and types fit in two. *)
Lemma requested_key sha512Half mem code a b c d e f k :
  (forall m, lenZ (sha512Half m) = 32) -> 0 <= a -> requested mem code a b c d e f = Some k ->
  lenZ (kl_key (keylet_of sha512Half k)) = 32 /\ 0 <= kl_type (keylet_of sha512Half k) < 2 ^ 16.
Proof.
  intros Hsha Ha. unfold requested. destruct code; cbn [signature mbind option_bind read_args]; try done; intros Hr.
  all: repeat match type of Hr with context [read_arg ?m ?kind ?x ?y] => destruct (read_arg m kind x y) as [[]|] eqn:?; cbn [mbind option_bind build] in Hr; try done end.
  all: repeat match type of Hr with context [if ?x then _ else _] => destruct x; cbn [mbind option_bind build] in Hr; try done end.
  all: injection Hr as <-; try (by (split; [apply Hsha|])).
  - split; [|done]. by apply (pointer_length mem 32 a b).
  - unfold keylet_of. cbn [keylet_source]. destruct (minmax _ _). by split; [apply Hsha|].
  - split; [|done]. assert (lenZ bs = 32) as Hl by (by apply (directory_length mem a b)). unfold keylet_of. cbn [keylet_source kl_key]. unfold with_quality. rewrite lenZ_app. unfold lenZ in *. rewrite length_take, length_be_bytes. lia.
  - split; [|done]. by apply (pointer_length mem 32 a b).
  - unfold keylet_of. cbn [keylet_source]. split; [|by destruct (x =? 0)]. destruct (x =? 0); [|apply Hsha]. by apply (pointer_length mem 32 a b).
Qed.

Lemma keylet_bytes_read kl : lenZ (kl_key kl) = 32 -> 0 <= kl_type kl < 2 ^ 16 -> lenZ (keylet_bytes kl) = 34 /\ unserialize_keylet (keylet_bytes kl) = Some kl.
Proof.
  intros Hk Ht. assert (lenZ (keylet_bytes kl) = 34) as Hl by (unfold keylet_bytes; rewrite lenZ_app, Hk; done). split; [done|].
  unfold unserialize_keylet. rewrite Hl. destruct kl as [t key]. cbn [kl_type kl_key keylet_bytes app] in *. cbn [negb Z.eqb Pos.eqb drop]. do 2 f_equal.
  change 0xFF with (Z.ones 8). rewrite !Z.land_ones, Z.shiftr_div_pow2, Z.shiftl_mul_pow2 by lia. cbn [lookup_total list_lookup_total].
  pose proof (Z.div_mod t (2 ^ 8) ltac:(lia)). rewrite (Z.mod_small (t / 2 ^ 8)) by (split; [apply Z.div_pos|apply Z.div_lt_upper_bound]; lia).
  unfold u16. rewrite Z.mod_small by (change (2 ^ 16) with 65536 in *; change (2 ^ 8) with 256 in *; lia). lia.
Qed.

(** C31: [util_keylet] computes the keylet that the table says. A call with a buffer of
    at least 34 bytes, a known code and arguments as the table has them for the code
    (every pointer within the memory and with its length, every number after them
    zero) writes the type and the key and returns 34; what is written reads back as
    the keylet. Every other call gets an error code and leaves the memory as it is.
    No call reads beyond the memory. *)
Theorem util_keylet_correct E sha512Half v1 mem wp wl type a b c d e f :
  (forall m, lenZ (sha512Half m) = 32) -> 0 <= wp -> 0 <= type ->
  is_u32 a -> is_u32 b -> is_u32 c -> is_u32 d -> is_u32 e -> is_u32 f ->
  match request v1 mem wp wl type a b c d e f with
  | Some k =>
    let kl := keylet_of sha512Half k in
    let mem' := mem_set mem wp (keylet_bytes kl) in
    @util_keylet sha512Half E v1 mem wp wl type a b c d e f = Ret (34, mem') /\ unserialize_keylet (mem_slice mem' wp 34) = Some kl
  | None =>
    exists code, In code [INTERNAL_ERROR; OUT_OF_BOUNDS; TOO_SMALL; INVALID_ARGUMENT; NO_SUCH_KEYLET] /\
      @util_keylet sha512Half E v1 mem wp wl type a b c d e f = Ret (code, mem)
  end.
Proof.
  intros Hsha Hwp Hty Ha Hb Hc Hd He Hf. unfold request, util_keylet, NOT_IN_BOUNDS, LAST_KLTYPE_V1, LAST_KLTYPE_V0.
  set (last := if v1 then 25 else 24). destruct (_ && _) eqn:Eok.
  - replace (lenZ mem =? 0) with false by lia. replace ((lenZ mem <=? wp) || _) with false by lia. replace (wl <? 34) with false by lia.
    replace (type =? 0) with false by lia. replace (last <? type) with false by lia.
    destruct (keylet_codes !! Z.to_nat (type - 1)) as [code|] eqn:Ecode; cbn [mbind option_bind]; [|eexists; split; [|done]; cbn; tauto].
    pose proof (keylet_case_answers mem a b c d e f Ha Hb Hc Hd He Hf code) as Hans. destruct (requested mem code a b c d e f) as [k|] eqn:Er.
    + destruct (requested_key sha512Half mem code a b c d e f k Hsha (proj1 Ha) Er) as [Hlen Ht]. destruct (keylet_bytes_read _ Hlen Ht) as [Hbl Hread].
      cbn [answers] in Hans. rewrite Hans. cbv zeta. split.
      * f_equal. assert (34 <= wl) by lia. destruct code; unfold serialize_keylet; rewrite ?write_and_return, ?Hbl by lia; replace (wl <? 34) with false by lia; done.
      * rewrite <- Hbl at 1. by rewrite mem_slice_set by lia.
    + destruct Hans as (err & -> & Hin). exists err. split; [cbn in *; tauto|done].
  - destruct (lenZ mem =? 0) eqn:E0; [eexists; split; [|done]; cbn; tauto|]. destruct ((lenZ mem <=? wp) || _) eqn:E1; [eexists; split; [|done]; cbn; tauto|].
    destruct (wl <? 34) eqn:E2; [eexists; split; [|done]; cbn; tauto|]. destruct (type =? 0) eqn:E3; [eexists; split; [|done]; cbn; tauto|].
    destruct (last <? type) eqn:E4; [eexists; split; [|done]; cbn; tauto|]. lia.
Qed.

(** A digest of thirty-two bytes, and the keylet of the account at offset 1. *)
Lemma util_keylet_correct_witness :
  exists mem', util_keylet (E := Z) (fun m => replicate 32 (lenZ m mod 256)) true (replicate 100 7) 30 40 3 1 20 0 0 0 0 = Ret (34, mem') /\
    unserialize_keylet (mem_slice mem' 30 34) = Some (mkKeylet ltACCOUNT_ROOT (replicate 32 22)).
Proof.
  pose proof (util_keylet_correct Z (fun m => replicate 32 (lenZ m mod 256)) true (replicate 100 7) 30 40 3 1 20 0 0 0 0
    ltac:(intros m; unfold lenZ; by rewrite length_replicate) ltac:(lia) ltac:(lia) ltac:(unfold is_u32; lia) ltac:(unfold is_u32; lia)
    ltac:(unfold is_u32; lia) ltac:(unfold is_u32; lia) ltac:(unfold is_u32; lia) ltac:(unfold is_u32; lia)) as Hk.
  change (request _ _ _ _ _ _ _ _ _ _ _) with (Some (k_account (replicate 20 7))) in Hk. eexists. exact Hk.
Defined.
